(* ===== verification/_CoqProject ===== *)
-Q . S2P
Prelude.v
Error.v
Externals.v
ConstantsMapping.v
CircuitFormatPolicy.v
World.v
BackendWrapper.v
BackendRegistry.v
PublicationThrottle.v
RunnersSelection.v
RunnersCompilation.v
RunnersExecution.v
ExecutionProperties.v
Config.v
ConfigProperties.v
Logger.v
CommunicationHandler.v
DaemonMessaging.v
Daemon.v
Traces.v
Selector.v
SelectorSpec.v
Freshness.v
Standalone.v
Worker.v
WorkLoop.v
WireTypes.v
Responsiveness.v
Shutdown.v
Broker.v
Deployment.v
Ordering.v
Halting.v
Serving.v
Progress.v
CatchUp.v
Interleaving.v
Warrants.v
Provenance.v
Conformance.v
