(* ===== verification/Prelude.v ===== *)
(** * Verification library of QRM&CI

    QRM&CI takes quantum tasks from a message queue, chooses a backend for each,
    compiles it, schedules it, runs it on a QDMI device and sends the result (or
    a cancellation) back to the task's own destination. It ships as one library
    (src/src, src/include/qrmci) and three processes (src/apps): the standalone
    daemon does everything in one work loop; in the distributed deployment the
    selector chooses backends and workers compile and execute.

    ** Parts, and the files that model them

    - Prelude.v: [std::expected], machine integers with their wrap-around,
      [std::chrono] conversions, ordered maps keyed by strings; tactics and hint
      databases.
    - Error.v: Error.h, Error.cpp. The error kinds and [fails_only_with].
    - Externals.v: the vocabulary of the libraries fetched at build time. The
      protobuf messages are records of the fields the sources use, the
      enumerations are the class [ProtocolEnums] with [ProtocolLaws].
    - ConstantsMapping.v: ConstantsMapping.cpp.
    - CircuitFormatPolicy.v: CircuitFormatPolicy.cpp. Compiler targets, input
      formats, admission by format; [same_formats] is a setoid the policy is
      [Proper] for.
    - World.v: the environment of a process. The class [Platform] has every
      external operation (clock, termination flag, device, jobs, compiler,
      scheduler, broker) as a function that may answer anything; [M] is a
      state monad that records every call with its answer as an [Event]; [wp]
      specifies the events and the outcome of a computation for all
      environments; [SteadyClock] is the only law on time, used for termination.
      [sim_platform] is a concrete environment for closed examples.
    - BackendWrapper.v: BackendWrapper.cpp. The snapshot of a backend.
    - BackendRegistry.v: BackendRegistry.cpp. The registry, as a state machine
      with its abstract specification ([Spec]).
    - PublicationThrottle.v: PublicationThrottle.h.
    - RunnersSelection.v, RunnersCompilation.v, RunnersExecution.v,
      ExecutionProperties.v: Runners.cpp and TaskSubmission.cpp. Choosing,
      compiling, submitting, collecting, executing, and the result messages.
    - Config.v, ConfigProperties.v: Config.cpp, Config.h, ConfigDefaults.h. The
      configuration; toml++ is the class [TomlNodes], the file system and the
      environment block are [ConfigSources].
    - Logger.v: Logger.h. The logger a daemon installs; opening its file is the
      class [LogFiles].
    - CommunicationHandler.v: CommunicationHandler.h and .cpp. Module
      [CommunicationHandler] has the class's operations.
    - DaemonMessaging.v: DaemonMessaging.h. Handlers thread the state that the
      callbacks capture by reference.
    - Daemon.v: Daemon.h, Daemon.cpp. Bring-up, the process's own device, and
      the compile-and-schedule stage.
    - Traces.v: projections of a trace to the messages and tasks that cross the
      process boundary, and the silence of the stages in between.
    - Selector.v, Standalone.v, Worker.v: the three main functions, each with
      its handlers, the body of its work loop ([turn]), the loop and [main].
    - SelectorSpec.v: the selector's contract, an abstract machine that only
      knows the finite map of the statuses heard ([View], [permits]).
    - Freshness.v: that map read off a trace, as the latest status of each
      backend that is not older than the time-to-live ([fresh_status]).
    - WorkLoop.v: the shape the three share, so that a property of whole
      processes follows from the property of a turn.
    - WireTypes.v, Responsiveness.v, Shutdown.v: properties of whole processes:
      what they send, when they poll the flag and how they exit, and that they
      stop. Shutdown.v has total-correctness rules ([returns], [calm]) beside
      the trace rules of World.v, and the class [ShutdownComes].
    - Broker.v, Deployment.v: apps/distributed as a system: any number of daemons
      around one broker, any interleaving of what clients, daemons and broker
      do. A task is followed by its ticket, the id and the destination that
      every stage keeps.
    - Ordering.v: the queues of a deployment as sequences of tickets.
    - Halting.v, Serving.v, Progress.v, CatchUp.v, Interleaving.v: daemons that
      are left to work.
      Halting.v has the computations that return whatever happens. Serving.v has
      the class [Serving] of environments in which no shutdown comes, the broker
      delivers what it holds and the scheduler hands out what it was handed, and
      the books ([booked]) every computation keeps there: what was on a queue or
      put on it was taken off or is still on it. Progress.v has the turns of the
      three daemons, CatchUp.v whole stretches of a run, and Interleaving.v a
      selector, any number of workers and their clients, moving in any order
      ([Site], [move], [plays]).
    - Warrants.v, Provenance.v: a trace read as an account. Warrants.v has the
      rules ([warrants]) that show every call of a computation justified by the
      calls before it; Provenance.v says what justifies the calls of the worker
      and of the standalone daemon ([warranted], [genuine]).
    - Conformance.v: src/tests/unit, replayed: the expected values of the
      repository's own unit tests, computed by the model.

    Mutation is explicit: an operation that changes an object in place returns
    the object as it leaves it (the task in compilation, the registry and the
    throttle in a daemon). A defaulted [now] argument is a reading of the clock
    at the call.

    ** What the theorems show

    - Selection: a chosen backend is registered, online and able to run the
      task; the choice is optimal for the policy, independent of the visiting
      order, and honours a usable preferred QPU; failure means that no backend
      was eligible.
    - Registry and throttle: the registry refines its specification in every
      reachable state; a live entry never changes its dispatch queue, unless a
      status without a queue clears it; entries
      live exactly as long as their time-to-live; publication slots are paced.
    - Compilation: all or nothing, one compiler call per circuit in order, only
      circuits and type change; admission by a backend, compilation for it and
      validation at submission agree on the format.
    - Submission and collection: one job per circuit in order on one target; on
      shutdown every submitted job is cancelled and no more are submitted; every
      wait is one slice after a reading of the flag; a collection with a
      timeout that nanoseconds can hold returns, under a steady clock; results are exact and aligned with the circuits.
    - Messaging: at most one attempt per bounded receive, one acknowledgement
      per message, every drained message handled once and in order.
    - Selector: in every run it refines its abstract machine, and so answers
      each task it takes, once, in order, before it takes another message, from
      what the statuses heard ask for; under a clock that does not run backwards
      and with one dispatch queue per backend these are the fresh statuses: a
      backend that publishes in time is always considered, one that fell silent is never sent a task.
    - Daemons: over a whole run the worker and the standalone daemon
      schedule or answer every task they take and answer every ready task once,
      but for those after which, before they next tried to receive and while at
      work, they read the flag as set ([stopped_working]), or, in a run that has
      not returned, since which they have not tried to receive ([in_hand]); the
      worker submits before it collects; a process keeps its own registry entry; a worker's status
      registers with a selector that knows its name under no other queue, and
      routes the tasks assigned to it back to the worker's own queue.
    - Processes: the flag is read as clear right before every call that blocks
      or submits; the exit codes tell a shutdown from a failed start; every run
      ends once the flag is read as clear only finitely often; messages have the
      widths of the wire's fields; bring-up survives an unwritable log file.
    - Deployment: over every schedule, and with schedulers that hand out only
      what they were handed, each task submitted is answered, queued, lost by
      the broker or held by one daemon, exactly one of these, and a daemon holds
      only what waits in its scheduler or what it left as above; no ticket
      is answered twice unless the broker repeats it; and when nothing is left
      to do, every ticket has been answered exactly once. A ticket is answered
      when a reply has been sent, whether or not the broker accepts it. Tasks are
      scheduled in the order in which they were put on the intake.
    - Progress: where the environment serves and jobs end (by themselves, or
      because the wait is bounded), a worker takes one task per turn, the
      standalone daemon and the selector everything that waits; a selector and
      its workers, however their turns and the clients' submissions interleave,
      have answered all that was submitted, each task exactly once, once the
      clients pause and each has had turns enough.
    - Provenance: whatever its environment answers, a process with a device
      compiles, schedules, submits, publishes and sends only what it was given or
      read; with a scheduler that hands out only what was scheduled, a completed
      result is traced back, circuit by circuit, to a task received.
    - Configuration: exactly which files are accepted, and that the result is
      the layering of environment, file and defaults; the conversions of
      durations are exact up to 9223372036 seconds and overflow above, which the
      configuration does not refuse.

    ** Bounds and fuel

    Loops that the environment can prolong take fuel, and a computation out of
    fuel yields [None] with its trace, so trace properties cover unfinished runs.
    - [waitForJob]: one unit per wait slice. With a timeout of [t] seconds, [t]
      units are enough (bounded_collection_returns); with timeout 0 the code
      waits until the flag is set, and so does the model.
    - [receiveLoop]: one unit per attempt; one is enough for a bounded receive
      (receive_spec). [drainLoop]: one unit per message, as many as the broker
      delivers. [executeReady], [submitReady]: one per ready task. The work
      loops: one per turn. Once the flag is read as clear at most [n] more times
      and [k] tasks are ready, [n + 1] turns and slices and [n + k + 1] messages
      and ready tasks are enough (selector_shuts_down, device_daemons_shut_down).
      In a serving environment a drain needs one unit more than the queue holds
      messages, a worker's turn two, and a worker as many turns as its queue holds
      tasks (worker_catches_up, standalone_catches_up, deployment_catches_up).
    Counts and lengths are unbounded; 32- and 64-bit conversions are written out
    where the code narrows or multiplies ([uwrap], [swrap], [seconds_to_ns]).

    ** Not modelled

    The text of the log lines in between (only the logger, the warning about
    its file and the listing of the backends are), and what spdlog does with
    them; tests, build and container files; the inside of the libraries that are
    fetched at build time; JSON encoding on the wire, which belongs to the
    messenger; exceptions the sources do not catch, such as one from a messenger
    that cannot connect; memory allocation and moved-from objects. A signal may set the
    termination flag between any two calls, which is what a flag that may answer
    anything at each reading covers. In Deployment.v a client is only what it
    submits and collects.

    Of the program itself nothing else is left out. What is not shown: progress
    at the grain of single calls (in Interleaving.v turns are atomic; in
    Deployment.v single calls interleave, but nothing is said there about
    progress), and progress with several selectors on one intake. *)

From Stdlib Require Export ZArith Lia.
From stdpp Require Export sorting pretty base gmap strings numbers fin_maps list.

#[export] Set Default Goal Selector "!".
#[export] Set Warnings "-clear-no-such-hyp".

(** ** Scopes, hint databases and tactics *)

Declare Scope qrmci_scope.
Delimit Scope qrmci_scope with qrmci.
Open Scope qrmci_scope.

Create HintDb qrmci discriminated.
Create Rewrite HintDb qrmci_rw.

(** Split the first undecided [match] or [if] met in the goal or in a
    hypothesis, remembering the equation of the scrutinee. *)
Ltac split_match :=
  match goal with
  | |- context [match ?x with _ => _ end] =>
      lazymatch x with
      | context [match _ with _ => _ end] => fail
      | _ => let E := fresh "E" in destruct x eqn:E
      end
  | H : context [match ?x with _ => _ end] |- _ =>
      lazymatch x with
      | context [match _ with _ => _ end] => fail
      | _ => let E := fresh "E" in destruct x eqn:E
      end
  end.

(** Case analysis on every branch of a definition, closing the branches that
    contradict the hypotheses. *)
Ltac branches := repeat (split_match; simplify_eq/=).

(** Turn the boolean tests of the code into the propositions they decide. *)
Ltac bool_to_prop :=
  repeat match goal with
  | H : andb _ _ = true |- _ => apply andb_true_iff in H as [? ?]
  | H : orb _ _ = false |- _ => apply orb_false_iff in H as [? ?]
  | H : negb _ = true |- _ => apply negb_true_iff in H
  | H : negb _ = false |- _ => apply negb_false_iff in H
  | H : bool_decide _ = true |- _ => apply bool_decide_eq_true in H
  | H : bool_decide _ = false |- _ => apply bool_decide_eq_false in H
  | H : (_ <? _)%Z = true |- _ => apply Z.ltb_lt in H
  | H : (_ <? _)%Z = false |- _ => apply Z.ltb_ge in H
  | H : (_ <=? _)%Z = true |- _ => apply Z.leb_le in H
  | H : (_ <=? _)%Z = false |- _ => apply Z.leb_gt in H
  | H : (_ =? _)%Z = true |- _ => apply Z.eqb_eq in H
  | H : (_ =? _)%Z = false |- _ => apply Z.eqb_neq in H
  end.

(** ** [std::expected]

    The error channel of every fallible operation: a value or an error. The
    stdpp monad instances give the [x ← m; k] notation its early-return
    reading, [transform] is [fmap] and [and_then] is [mbind]. *)

Inductive expected (E A : Type) : Type :=
| Value (a : A)
| Unexpected (e : E).
Arguments Value {E A} a.
Arguments Unexpected {E A} e.

#[export] Instance expected_ret E : MRet (expected E) := fun _ a => Value a.
#[export] Instance expected_bind E : MBind (expected E) :=
  fun _ _ f m => match m with Value a => f a | Unexpected e => Unexpected e end.
#[export] Instance expected_fmap E : FMap (expected E) :=
  fun _ _ f m => match m with Value a => Value (f a) | Unexpected e => Unexpected e end.

Definition transform_error {E E' A} (f : E -> E') (m : expected E A) : expected E' A :=
  match m with Value a => Value a | Unexpected e => Unexpected (f e) end.

Definition has_value {E A} (m : expected E A) : bool :=
  match m with Value _ => true | Unexpected _ => false end.

(** ** Machine integers

    A [w]-bit integer is a [Z]; a conversion that narrows is written out. *)

Definition uwrap (w z : Z) : Z := z mod 2 ^ w.
Definition swrap (w z : Z) : Z := (z + 2 ^ (w - 1)) mod 2 ^ w - 2 ^ (w - 1).

Definition in_unsigned (w z : Z) : bool := (0 <=? z)%Z && (z <? 2 ^ w)%Z.
Definition in_signed (w z : Z) : bool := (- 2 ^ (w - 1) <=? z)%Z && (z <? 2 ^ (w - 1))%Z.

Definition INT32_MAX : Z := 2147483647.

(** ** [std::chrono] durations

    A duration is the 64-bit signed count of its unit. Converting to a finer
    unit multiplies the count; the product is reduced to 64 bits (signed
    overflow is undefined behaviour, and wraps on the supported targets). The
    steady clock counts nanoseconds. *)

Definition seconds_to_ns (s : Z) : Z := swrap 64 (s * 1000000000).
Definition milliseconds_to_ns (ms : Z) : Z := swrap 64 (ms * 1000000).
Definition seconds_to_ms (s : Z) : Z := swrap 64 (s * 1000).

(** ** [std::map] keyed by strings

    An ordered association list: the keys are strictly ascending in the
    byte-wise order of [std::less<std::string>], which is the order a range
    loop over the map visits them in. *)

Definition key_lt {V} (a b : string * V) : Prop := String.ltb a.1 b.1 = true.

Definition smap_wf {V} (m : list (string * V)) : Prop := StronglySorted key_lt m.

Fixpoint smap_find {V} (k : string) (m : list (string * V)) : option V :=
  match m with
  | [] => None
  | (k', v) :: m' => if decide (k = k') then Some v else smap_find k m'
  end.

Fixpoint smap_insert_or_assign {V} (k : string) (v : V) (m : list (string * V))
    : list (string * V) :=
  match m with
  | [] => [(k, v)]
  | (k', v') :: m' =>
      match String.compare k k' with
      | Lt => (k, v) :: (k', v') :: m'
      | Eq => (k, v) :: m'
      | Gt => (k', v') :: smap_insert_or_assign k v m'
      end
  end.

Definition smap_erase_if {V} (p : string * V -> bool) (m : list (string * V))
    : list (string * V) :=
  List.filter (fun kv => negb (p kv)) m.

(** The finite map an ordered association list stands for. *)
Definition smap_to_gmap {V} (m : list (string * V)) : gmap string V := list_to_map m.
#[global] Arguments smap_to_gmap : simpl never.

(** ** Lemmas on [expected] *)

Lemma expected_bind_value {E A B} (f : A -> expected E B) (m : expected E A) (b : B) :
  (m ≫= f) = Value b <-> exists a, m = Value a /\ f a = Value b.
Proof. destruct m; cbn; split; naive_solver. Qed.

Lemma expected_bind_unexpected {E A B} (f : A -> expected E B) (m : expected E A) (e : E) :
  (m ≫= f) = Unexpected e <->
  m = Unexpected e \/ exists a, m = Value a /\ f a = Unexpected e.
Proof. destruct m; cbn; split; naive_solver. Qed.

Lemma expected_fmap_value {E A B} (f : A -> B) (m : expected E A) (b : B) :
  (f <$> m) = Value b <-> exists a, m = Value a /\ b = f a.
Proof. destruct m; cbn; split; naive_solver. Qed.

Lemma expected_fmap_unexpected {E A B} (f : A -> B) (m : expected E A) (e : E) :
  (f <$> m) = Unexpected e <-> m = Unexpected e.
Proof. destruct m; cbn; split; naive_solver. Qed.

(** Invert one step of a chain of [expected] computations. *)
Ltac expected_inv :=
  repeat match goal with
  | H : (_ ≫= _) = Value _ |- _ =>
      apply expected_bind_value in H as (? & ? & H); cbv beta in H
  | H : (_ <$> _) = Value _ |- _ => apply expected_fmap_value in H as (? & ? & ?)
  | H : (_ <$> _) = Unexpected _ |- _ => apply expected_fmap_unexpected in H
  | H : Value _ = Value _ |- _ => injection H as H
  | H : Unexpected _ = Unexpected _ |- _ => injection H as H
  | H : Value _ = Unexpected _ |- _ => discriminate H
  | H : Unexpected _ = Value _ |- _ => discriminate H
  end.

(** ** Lemmas on machine integers *)

Lemma uwrap_id w z : (0 <= w)%Z -> in_unsigned w z = true -> uwrap w z = z.
Proof. unfold uwrap, in_unsigned. intros; bool_to_prop. apply Z.mod_small. lia. Qed.

Lemma swrap_id w z : (0 < w)%Z -> in_signed w z = true -> swrap w z = z.
Proof.
  unfold swrap, in_signed. intros ??; bool_to_prop.
  assert (2 ^ w = 2 * 2 ^ (w - 1))%Z as ->.
  { rewrite <- Z.pow_succ_r by lia. f_equal. lia. }
  rewrite Z.mod_small; lia.
Qed.

Lemma seconds_to_ns_exact s :
  (- 9223372036 <= s <= 9223372036)%Z -> seconds_to_ns s = (s * 1000000000)%Z.
Proof. intros Hs. apply swrap_id; [lia|]. unfold in_signed. cbn. lia. Qed.

Lemma milliseconds_to_ns_exact ms :
  (- 9223372036854 <= ms <= 9223372036854)%Z -> milliseconds_to_ns ms = (ms * 1000000)%Z.
Proof. intros Hs. apply swrap_id; [lia|]. unfold in_signed. cbn. lia. Qed.

Lemma seconds_to_ms_exact s :
  (- 9223372036854775 <= s <= 9223372036854775)%Z -> seconds_to_ms s = (s * 1000)%Z.
Proof. intros Hs. apply swrap_id; [lia|]. unfold in_signed. cbn. lia. Qed.

(** ** The byte-wise order on strings *)

Lemma string_compare_refl s : String.compare s s = Eq.
Proof.
  induction s as [|c s IH]; cbn; [done|].
  unfold Ascii.compare. by rewrite N.compare_refl.
Qed.

Lemma string_ltb_le a b : String.ltb a b = true <-> String.le a b /\ a ≠ b.
Proof.
  unfold String.ltb, String.le, String.leb.
  destruct (String.compare a b) eqn:E.
  - apply String.compare_eq_iff in E as ->. naive_solver.
  - split; [|done]. intros _; split; [done|]. intros ->.
    by rewrite string_compare_refl in E.
  - naive_solver.
Qed.

Lemma string_ltb_irrefl s : String.ltb s s = false.
Proof. unfold String.ltb. by rewrite string_compare_refl. Qed.

Lemma string_ltb_trans a b c :
  String.ltb a b = true -> String.ltb b c = true -> String.ltb a c = true.
Proof.
  rewrite !string_ltb_le. intros [Hab Nab] [Hbc Nbc]. split.
  - by transitivity b.
  - intros ->. apply Nab. by apply (anti_symm String.le).
Qed.

Lemma string_ltb_trichotomy a b :
  String.ltb a b = true \/ a = b \/ String.ltb b a = true.
Proof.
  destruct (decide (a = b)) as [->|N]; [by right; left|].
  rewrite !string_ltb_le. destruct (total String.le a b); [left | right; right]; auto.
Qed.

#[export] Hint Rewrite string_ltb_irrefl string_compare_refl : qrmci_rw.

(** ** Lemmas on ordered maps *)

Section OrderedMap.
Context {V : Type}.
Implicit Types (m : list (string * V)) (k : string) (v : V).

#[export] Instance key_lt_trans : Transitive (@key_lt V).
Proof. intros a b c. unfold key_lt. apply string_ltb_trans. Qed.

Lemma smap_find_elem k v m : smap_wf m -> smap_find k m = Some v <-> (k, v) ∈ m.
Proof.
  unfold smap_wf. induction m as [|[k' v'] m IH]; cbn.
  - set_solver.
  - intros [Hall Hwf]%StronglySorted_cons. rewrite elem_of_cons.
    case_decide as D; subst.
    + split; [by intros [= ->]; left|]. intros [[= ->]|Hin]; [done|].
      rewrite Forall_forall in Hall. specialize (Hall _ Hin).
      unfold key_lt in Hall; cbn in Hall. by rewrite string_ltb_irrefl in Hall.
    + rewrite IH by done. naive_solver.
Qed.

Lemma smap_find_to_gmap k m : smap_find k m = smap_to_gmap m !! k.
Proof.
  unfold smap_to_gmap. induction m as [|[k' v'] m IH]; cbn; [by rewrite lookup_empty|].
  rewrite lookup_insert, IH. repeat case_decide; congruence.
Qed.

Lemma smap_insert_or_assign_elem k v m x :
  x ∈ smap_insert_or_assign k v m -> x = (k, v) \/ x ∈ m.
Proof.
  induction m as [|[k' v'] m IH]; cbn; [set_solver|].
  destruct (String.compare k k'); set_solver.
Qed.

Lemma smap_insert_or_assign_wf k v m :
  smap_wf m -> smap_wf (smap_insert_or_assign k v m).
Proof.
  unfold smap_wf. induction m as [|[k' v'] m IH]; cbn; intros Hwf.
  { repeat constructor. }
  apply StronglySorted_cons in Hwf as [Hall Hwf].
  destruct (String.compare k k') eqn:E.
  - apply String.compare_eq_iff in E as ->. by apply StronglySorted_cons.
  - assert (@key_lt V (k, v) (k', v')) as Hlt by (unfold key_lt, String.ltb; cbn; by rewrite E).
    apply StronglySorted_cons; split; [|by apply StronglySorted_cons].
    constructor; [done|]. eapply Forall_impl; [exact Hall|].
    intros y Hy. by transitivity (k', v').
  - apply StronglySorted_cons; split; [|by apply IH].
    apply Forall_forall. intros x [->|Hx]%smap_insert_or_assign_elem.
    + unfold key_lt, String.ltb; cbn. rewrite String.compare_antisym, E. done.
    + rewrite Forall_forall in Hall. by apply Hall.
Qed.

Lemma smap_insert_or_assign_to_gmap k v m :
  smap_to_gmap (smap_insert_or_assign k v m) = <[k := v]> (smap_to_gmap m).
Proof.
  unfold smap_to_gmap. induction m as [|[k' v'] m IH]; cbn; [done|].
  destruct (String.compare k k') eqn:E; cbn.
  - apply String.compare_eq_iff in E as ->. by rewrite insert_insert_eq.
  - done.
  - rewrite IH. apply insert_insert_ne. intros ->.
    by rewrite string_compare_refl in E.
Qed.

Lemma smap_find_insert_eq k v m : smap_find k (smap_insert_or_assign k v m) = Some v.
Proof.
  rewrite smap_find_to_gmap, smap_insert_or_assign_to_gmap. apply lookup_insert_eq.
Qed.

Lemma smap_find_insert_ne k k' v m :
  k ≠ k' -> smap_find k' (smap_insert_or_assign k v m) = smap_find k' m.
Proof.
  intros. rewrite !smap_find_to_gmap, smap_insert_or_assign_to_gmap.
  by apply lookup_insert_ne.
Qed.

Lemma smap_erase_if_elem p m x : x ∈ smap_erase_if p m <-> x ∈ m /\ p x = false.
Proof.
  unfold smap_erase_if. rewrite !list_elem_of_In, filter_In, negb_true_iff. done.
Qed.

Lemma smap_erase_if_wf p m : smap_wf m -> smap_wf (smap_erase_if p m).
Proof.
  unfold smap_wf. induction m as [|x m IH]; cbn; [done|].
  intros [Hall Hwf]%StronglySorted_cons.
  destruct (p x); cbn; [by apply IH|]. apply StronglySorted_cons; split; [|by apply IH].
  apply Forall_forall. intros y [Hy _]%smap_erase_if_elem.
  rewrite Forall_forall in Hall. auto.
Qed.

Lemma smap_find_erase_if p k m :
  smap_wf m ->
  smap_find k (smap_erase_if p m) =
    match smap_find k m with
    | Some v => if p (k, v) then None else Some v
    | None => None
    end.
Proof.
  intros Hwf. apply option_eq. intros v.
  rewrite smap_find_elem by (by apply smap_erase_if_wf).
  rewrite smap_erase_if_elem, <- smap_find_elem by done.
  destruct (smap_find k m) as [v'|]; [|naive_solver].
  destruct (p (k, v')) eqn:E; (split; [intros [[= ->] ?] | intros [= ->]]); congruence || auto.
Qed.

Lemma smap_length_size m : smap_wf m -> size (smap_to_gmap m) = length m.
Proof.
  unfold smap_to_gmap. induction m as [|[k v] m IH]; cbn; [by rewrite map_size_empty|].
  intros Hwf. pose proof Hwf as [Hall Hwf']%StronglySorted_cons.
  rewrite map_size_insert_None; [by rewrite IH|].
  change (smap_to_gmap m !! k = None). rewrite <- smap_find_to_gmap.
  destruct (smap_find k m) as [v'|] eqn:E; [|done].
  apply smap_find_elem in E; [|done]. rewrite Forall_forall in Hall.
  specialize (Hall _ E). unfold key_lt in Hall; cbn in Hall.
  by rewrite string_ltb_irrefl in Hall.
Qed.
End OrderedMap.

#[export] Hint Resolve smap_insert_or_assign_wf smap_erase_if_wf : qrmci.
