(* ===== verification/Error.v ===== *)
(** * Error.h, Error.cpp: the error type of every [std::expected]

    [Kind] is the enumeration a caller dispatches on, [Error] pairs it with the
    prose that goes into logs and cancellation messages. *)

From S2P Require Import Prelude.

Inductive Kind : Type :=
| NoBackendAvailable
| UnsupportedFormat
| CompilationFailed
| SubmissionFailed
| DeviceError
| MessagingFailed
| Internal
| ConfigError
| DriverUnavailable
| ShutdownRequested.

Record Error : Type := MkError { kind : Kind; detail : string }.

#[export] Instance Kind_eq_dec : EqDecision Kind.
Proof. solve_decision. Defined.

#[export] Instance Error_eq_dec : EqDecision Error.
Proof. solve_decision. Defined.

(** The return type of the fallible operations of the library. *)
Abbreviation result := (expected Error).

Definition toString (k : Kind) : string :=
  match k with
  | NoBackendAvailable => "NoBackendAvailable"
  | UnsupportedFormat => "UnsupportedFormat"
  | CompilationFailed => "CompilationFailed"
  | SubmissionFailed => "SubmissionFailed"
  | DeviceError => "DeviceError"
  | MessagingFailed => "MessagingFailed"
  | Internal => "Internal"
  | ConfigError => "ConfigError"
  | DriverUnavailable => "DriverUnavailable"
  | ShutdownRequested => "ShutdownRequested"
  end.

(** Every failure of [m] is of kind [k]. *)
Definition fails_only_with {A} (k : Kind) (m : result A) : Prop :=
  forall e, m = Unexpected e -> kind e = k.

Lemma fails_only_with_value {A} k (a : A) : fails_only_with k (Value a).
Proof. by intros e. Qed.

Lemma fails_only_with_error {A} k d : fails_only_with k (@Unexpected Error A (MkError k d)).
Proof. by intros e [= <-]. Qed.

Lemma fails_only_with_bind {A B} k (m : result A) (f : A -> result B) :
  fails_only_with k m -> (forall a, fails_only_with k (f a)) -> fails_only_with k (m ≫= f).
Proof. intros Hm Hf e [He|(a & _ & He)]%expected_bind_unexpected; [by apply Hm | by eapply Hf]. Qed.

Lemma fails_only_with_fmap {A B} k (m : result A) (f : A -> B) :
  fails_only_with k m -> fails_only_with k (f <$> m).
Proof. intros Hm e He%expected_fmap_unexpected. by apply Hm. Qed.

#[export] Hint Resolve fails_only_with_value fails_only_with_error
  fails_only_with_bind fails_only_with_fmap : qrmci.
