(* ===== verification/Externals.v ===== *)
(** * The vocabulary of the libraries QRM&CI links against

    The protocol messages, the submitter's error codes and job states and the
    compiler's options come from repositories that are fetched at build time.
    The messages are records of exactly the fields the sources read or write;
    the enumerators whose numbers the sources never mention, and the validity
    tests generated with them, are operations of the class [ProtocolEnums]. *)

From S2P Require Import Prelude.

(** ** mqss protocol: open enumerations

    A protobuf enumeration is an [int]: a value the build does not know is kept
    as its raw integer. *)

Class ProtocolEnums : Type := {
  CIRCUIT_FORMAT_UNSPECIFIED : Z;
  CIRCUIT_FORMAT_IQMJSON : Z;
  CIRCUIT_FORMAT_QASM2 : Z;
  CIRCUIT_FORMAT_QASM3 : Z;
  CIRCUIT_FORMAT_QIRBASESTRING : Z;
  CIRCUIT_FORMAT_QIRADAPTIVESTRING : Z;
  CircuitFormat_IsValid : Z -> bool;
  CircuitFormat_Name : Z -> string;
  BACKEND_TYPE_UNSPECIFIED : Z;
  BackendType_IsValid : Z -> bool;
  BACKEND_STATUS_UNSPECIFIED : Z;
  BACKEND_STATUS_IDLE : Z;
  BACKEND_STATUS_BUSY : Z;
  BackendStatus_IsValid : Z -> bool;
  BackendStatus_Name : Z -> string;
}.

Definition known_circuit_formats `{ProtocolEnums} : list Z :=
  [CIRCUIT_FORMAT_UNSPECIFIED; CIRCUIT_FORMAT_IQMJSON; CIRCUIT_FORMAT_QASM2;
   CIRCUIT_FORMAT_QASM3; CIRCUIT_FORMAT_QIRBASESTRING; CIRCUIT_FORMAT_QIRADAPTIVESTRING].

Definition known_backend_statuses `{ProtocolEnums} : list Z :=
  [BACKEND_STATUS_UNSPECIFIED; BACKEND_STATUS_IDLE; BACKEND_STATUS_BUSY].

(** What protobuf guarantees of an enumeration declared without
    [allow_alias]: the enumerators have distinct numbers and [IsValid] accepts
    each of them. *)
Class ProtocolLaws `{ProtocolEnums} : Prop := {
  circuit_formats_distinct : NoDup known_circuit_formats;
  circuit_formats_valid : forall f, f ∈ known_circuit_formats -> CircuitFormat_IsValid f = true;
  backend_types_valid : BackendType_IsValid BACKEND_TYPE_UNSPECIFIED = true;
  backend_statuses_distinct : NoDup known_backend_statuses;
  backend_statuses_valid :
    forall s, s ∈ known_backend_statuses -> BackendStatus_IsValid s = true;
}.

(** ** mqss protocol: messages *)

Record QuantumTask : Type := MkQuantumTask {
  task_id : Z;
  n_qbits : Z;                             (* int32 *)
  n_shots : Z;                             (* int32 *)
  circuit_files : list string;
  circuit_file_type : string;
  result_destination : string;
  preferred_qpu : string;
  scheduled_qpu : string;
  restricted_resource_names : list string;
  no_modify : bool;
  optimisation_level : Z;                  (* int32 *)
  priority : Z;
}.

Definition set_scheduled_qpu (q : string) (t : QuantumTask) : QuantumTask :=
  MkQuantumTask t.(task_id) t.(n_qbits) t.(n_shots) t.(circuit_files) t.(circuit_file_type)
    t.(result_destination) t.(preferred_qpu) q t.(restricted_resource_names)
    t.(no_modify) t.(optimisation_level) t.(priority).

Definition set_circuit_file_type (ty : string) (t : QuantumTask) : QuantumTask :=
  MkQuantumTask t.(task_id) t.(n_qbits) t.(n_shots) t.(circuit_files) ty
    t.(result_destination) t.(preferred_qpu) t.(scheduled_qpu) t.(restricted_resource_names)
    t.(no_modify) t.(optimisation_level) t.(priority).

(** [set_circuit_files(index, value)]: the index is always in range in the
    sources; the list update is the identity outside it. *)
Definition set_circuit_files (i : nat) (s : string) (t : QuantumTask) : QuantumTask :=
  MkQuantumTask t.(task_id) t.(n_qbits) t.(n_shots) (<[i := s]> t.(circuit_files))
    t.(circuit_file_type) t.(result_destination) t.(preferred_qpu) t.(scheduled_qpu)
    t.(restricted_resource_names) t.(no_modify) t.(optimisation_level) t.(priority).

(** [mqss::Backend], the published status of a backend. [current_load] is a
    float that is only copied: it is kept as its 32-bit pattern. *)
Record Backend : Type := MkBackend {
  be_name : string;
  be_num_qubits : Z;                       (* uint32 *)
  be_type : Z;                             (* raw enum *)
  be_status : Z;                           (* raw enum *)
  be_queue_length : Z;                     (* uint32 *)
  be_current_load : Z;                     (* float bits *)
  be_queue_name : string;
  be_instructions : list string;
  be_connectivity : list (Z * Z);          (* QubitPair: uint32, uint32 *)
  be_supported_circuit_formats : list Z;   (* raw enums *)
}.

(** [mqss::QuantumResult]; each entry of [results] is its [counts] map, a
    protobuf [map<string, int32>]. *)
Record QuantumResult : Type := MkQuantumResult {
  qr_task_id : Z;
  qr_destination : string;
  qr_executed_qpu : string;
  qr_execution_status : bool;
  qr_additional_information : string;
  qr_results : list (gmap string Z);
}.

(** ** mqss-submitter *)

(** The last constructor stands for a value outside the enumeration, which a
    C++ enum object can hold. *)
Inductive ErrorCode : Type :=
| Fatal | OutOfMem | NotImplemented | LibNotFound | NotFound | OutOfRange
| InvalidArgument | PermissionDenied | NotSupported | BadState | Timeout | WarnGeneral
| OtherErrorCode (raw : Z).

#[export] Instance ErrorCode_eq_dec : EqDecision ErrorCode.
Proof. solve_decision. Defined.

Record SubmitterError : Type := MkSubmitterError { code : ErrorCode; message : string }.

Inductive JobStatus : Type := Done | Canceled | OtherJobStatus (raw : Z).

#[export] Instance JobStatus_eq_dec : EqDecision JobStatus.
Proof. solve_decision. Defined.

(** Bitstring counts in the order a range loop visits them; the values are
    64-bit unsigned. *)
Abbreviation Counts := (list (string * Z)).

Record JobRequest : Type := MkJobRequest {
  jr_format : Z;
  jr_payload : list Byte.byte;
  jr_numShots : Z;                         (* uint64 *)
}.

(** Where a job runs: on the device itself or on one of its children. *)
Inductive Placement (D : Type) : Type := Self | On (child : D).
Arguments Self {D}.
Arguments On {D} child.

(** The two option structs of [Client::openDevice], with the members the
    sources assign. *)
Record SessionConfig : Type := MkSessionConfig { token : option string }.
Record DeviceConfig : Type := MkDeviceConfig { deviceOptionsId : option string }.

(** ** mqss-ci *)

Inductive ResultFormat : Type := IQMJSON | OPENQASM2 | QIRBASE | QIRADAPTIVE.
Inductive OptLevel : Type := O1 | O2 | O3.

#[export] Instance ResultFormat_eq_dec : EqDecision ResultFormat.
Proof. solve_decision. Defined.
#[export] Instance OptLevel_eq_dec : EqDecision OptLevel.
Proof. solve_decision. Defined.

Record CompilerOptions : Type := MkCompilerOptions {
  optimization_level : OptLevel;
  result_format : ResultFormat;
}.

(** What a call of [MQSSCompiler::compileSource] does: it returns the compiled
    text, returns nothing, or throws a [std::exception]. *)
Inductive CompileOutcome : Type :=
| Compiled (text : string)
| CompileRejected
| CompileThrew (what : string).

(** [MQSSCompiler::getSupportedInputFormats], a static query. *)
Class CompilerFormats : Type := { getSupportedInputFormats : list string }.

(** ** mqss messenger *)

Inductive StatusCode : Type := StatusTimeout | StatusOther (raw : Z).

#[export] Instance StatusCode_eq_dec : EqDecision StatusCode.
Proof. solve_decision. Defined.

(** The status object of a send or an acknowledgement. *)
Inductive MessengerStatus : Type := StatusOk | StatusFailed (reason : string).

(** The result of [receiveExtended]: a decoded message with the delivery to
    acknowledge, or a status. *)
Inductive ReceiveOutcome (D A : Type) : Type :=
| Received (a : A) (d : D)
| ReceiveFailed (status : StatusCode) (reason : string).
Arguments Received {D A} a d.
Arguments ReceiveFailed {D A} status reason.

(** The messages that travel between the processes. *)
Inductive Message : Type :=
| MsgTask (t : QuantumTask)
| MsgResult (r : QuantumResult)
| MsgBackend (b : Backend).

(** ** A concrete numbering, for closed examples *)

Definition example_enums : ProtocolEnums := {|
  CIRCUIT_FORMAT_UNSPECIFIED := 0; CIRCUIT_FORMAT_IQMJSON := 1; CIRCUIT_FORMAT_QASM2 := 2;
  CIRCUIT_FORMAT_QASM3 := 3; CIRCUIT_FORMAT_QIRBASESTRING := 4;
  CIRCUIT_FORMAT_QIRADAPTIVESTRING := 5;
  CircuitFormat_IsValid f := (0 <=? f)%Z && (f <=? 5)%Z;
  CircuitFormat_Name f := "CIRCUIT_FORMAT_" +:+ pretty f;
  BACKEND_TYPE_UNSPECIFIED := 0;
  BackendType_IsValid t := (0 <=? t)%Z && (t <=? 2)%Z;
  BACKEND_STATUS_UNSPECIFIED := 0; BACKEND_STATUS_IDLE := 1; BACKEND_STATUS_BUSY := 2;
  BackendStatus_IsValid s := (0 <=? s)%Z && (s <=? 3)%Z;
  BackendStatus_Name s := "BACKEND_STATUS_" +:+ pretty s;
|}%Z.

Lemma example_laws : @ProtocolLaws example_enums.
Proof.
  split.
  - vm_compute. repeat (constructor; [set_solver|]). constructor.
  - intros f Hf. repeat (apply elem_of_cons in Hf as [->|Hf]; [reflexivity|]). by apply not_elem_of_nil in Hf.
  - reflexivity.
  - vm_compute. repeat (constructor; [set_solver|]). constructor.
  - intros f Hf. repeat (apply elem_of_cons in Hf as [->|Hf]; [reflexivity|]). by apply not_elem_of_nil in Hf.
Qed.

Definition example_formats : CompilerFormats :=
  {| getSupportedInputFormats := ["cudaq-quake"; "catalyst-quantum"] |}.
