(* ===== verification/ConstantsMapping.v ===== *)
(** * ConstantsMapping.h, ConstantsMapping.cpp

    Translations between the submitter, protocol and compiler enumerations. *)

From S2P Require Import Prelude Error Externals.

Definition submitterErrorCodeName (c : ErrorCode) : string :=
  match c with
  | Fatal => "Fatal"
  | OutOfMem => "OutOfMem"
  | NotImplemented => "NotImplemented"
  | LibNotFound => "LibNotFound"
  | NotFound => "NotFound"
  | OutOfRange => "OutOfRange"
  | InvalidArgument => "InvalidArgument"
  | PermissionDenied => "PermissionDenied"
  | NotSupported => "NotSupported"
  | BadState => "BadState"
  | Timeout => "Timeout"
  | WarnGeneral => "WarnGeneral"
  | OtherErrorCode _ => "Unknown"
  end.

Definition toQrmciError (k : Kind) (e : SubmitterError) : Error :=
  MkError k (submitterErrorCodeName (code e) +:+ ": " +:+ message e).

Section Enums.
Context `{ProtocolEnums}.

Definition mapProtoCircuitFormat (format : Z) : Z :=
  if negb (CircuitFormat_IsValid format) then CIRCUIT_FORMAT_UNSPECIFIED else format.

Definition mapProtoBackendType (type : Z) : Z :=
  if negb (BackendType_IsValid type) then BACKEND_TYPE_UNSPECIFIED else type.

Definition mapProtoBackendStatus (status : Z) : Z :=
  if negb (BackendStatus_IsValid status) then BACKEND_STATUS_UNSPECIFIED else status.

Definition isOnlineBackendStatus (status : Z) : bool :=
  (status =? BACKEND_STATUS_IDLE)%Z || (status =? BACKEND_STATUS_BUSY)%Z.

Definition circuitFormatLabel (format : Z) : string :=
  if CircuitFormat_IsValid format then CircuitFormat_Name format
  else "UNKNOWN(" +:+ pretty format +:+ ")".

Definition backendStatusLabel (status : Z) : string :=
  if BackendStatus_IsValid status then BackendStatus_Name status
  else "UNKNOWN(" +:+ pretty status +:+ ")".
End Enums.

Definition getCompilerOptimizationLevel (level : Z) : result OptLevel :=
  if (level =? 0)%Z then Value O1
  else if (level =? 1)%Z then Value O1
  else if (level =? 2)%Z then Value O2
  else if (level =? 3)%Z then Value O3
  else Unexpected (MkError CompilationFailed
         ("Invalid optimisation level " +:+ pretty level +:+ "; expected 0-3.")).

(** ** Lemmas *)

Section EnumLemmas.
Context `{ProtocolLaws}.

Lemma mapProtoCircuitFormat_valid f : CircuitFormat_IsValid (mapProtoCircuitFormat f) = true.
Proof.
  unfold mapProtoCircuitFormat. destruct (CircuitFormat_IsValid f) eqn:E; cbn; [done|].
  apply circuit_formats_valid. unfold known_circuit_formats. set_solver.
Qed.

Lemma mapProtoBackendType_valid t : BackendType_IsValid (mapProtoBackendType t) = true.
Proof.
  unfold mapProtoBackendType. destruct (BackendType_IsValid t) eqn:E; cbn; [done|].
  apply backend_types_valid.
Qed.

Lemma mapProtoBackendStatus_valid s : BackendStatus_IsValid (mapProtoBackendStatus s) = true.
Proof.
  unfold mapProtoBackendStatus. destruct (BackendStatus_IsValid s) eqn:E; cbn; [done|].
  apply backend_statuses_valid. unfold known_backend_statuses. set_solver.
Qed.

End EnumLemmas.

Lemma mapProtoCircuitFormat_id `{ProtocolEnums} f :
  CircuitFormat_IsValid f = true -> mapProtoCircuitFormat f = f.
Proof. unfold mapProtoCircuitFormat. by intros ->. Qed.

Lemma mapProtoBackendType_id `{ProtocolEnums} t :
  BackendType_IsValid t = true -> mapProtoBackendType t = t.
Proof. unfold mapProtoBackendType. by intros ->. Qed.

Lemma mapProtoBackendStatus_id `{ProtocolEnums} s :
  BackendStatus_IsValid s = true -> mapProtoBackendStatus s = s.
Proof. unfold mapProtoBackendStatus. by intros ->. Qed.

#[export] Hint Resolve mapProtoCircuitFormat_valid mapProtoBackendType_valid
  mapProtoBackendStatus_valid mapProtoCircuitFormat_id mapProtoBackendType_id
  mapProtoBackendStatus_id : qrmci.

Lemma getCompilerOptimizationLevel_kind level :
  fails_only_with CompilationFailed (getCompilerOptimizationLevel level).
Proof. unfold getCompilerOptimizationLevel. repeat case_match; auto with qrmci. Qed.

