(* ===== verification/CircuitFormatPolicy.v ===== *)
(** * CircuitFormatPolicy.h, CircuitFormatPolicy.cpp

    Whether a task can be submitted directly to, or compiled for, a backend,
    and which formats that choice means. *)

From S2P Require Import Prelude Error Externals ConstantsMapping.

Record CompilerTarget : Type := MkCompilerTarget {
  compilerFormat : ResultFormat;
  circuitFormat : Z;
  taskCircuitType : string;
}.

#[export] Instance CompilerTarget_eq_dec : EqDecision CompilerTarget.
Proof. solve_decision. Defined.

Section Policy.
Context `{ProtocolEnums}.

Definition CompilerTargetPriority : list CompilerTarget :=
  [ MkCompilerTarget IQMJSON CIRCUIT_FORMAT_IQMJSON "iqmjson";
    MkCompilerTarget OPENQASM2 CIRCUIT_FORMAT_QASM2 "qasm2";
    MkCompilerTarget QIRBASE CIRCUIT_FORMAT_QIRBASESTRING "qirbase";
    MkCompilerTarget QIRADAPTIVE CIRCUIT_FORMAT_QIRADAPTIVESTRING "qiradaptive" ].

Definition TaskCircuitTypeToCompilerInputFormatMapping : list (string * string) :=
  [ ("quake", "cudaq-quake"); ("catalyst", "catalyst-quantum") ].

Definition mapTaskCircuitTypeToCircuitFormat (format : string) : Z :=
  if String.eqb format "iqmjson" then CIRCUIT_FORMAT_IQMJSON
  else if String.eqb format "qasm" || String.eqb format "qasm2" then CIRCUIT_FORMAT_QASM2
  else if String.eqb format "qasm3" then CIRCUIT_FORMAT_QASM3
  else if String.eqb format "qir" || String.eqb format "qirbase"
          || String.eqb format "quake" || String.eqb format "catalyst"
  then CIRCUIT_FORMAT_QIRBASESTRING
  else if String.eqb format "qiradaptive" then CIRCUIT_FORMAT_QIRADAPTIVESTRING
  else CIRCUIT_FORMAT_UNSPECIFIED.

(** The range loop over the priority table, returning at the first match. *)
Fixpoint first_target (backendFormats : list Z) (targets : list CompilerTarget)
    : result CompilerTarget :=
  match targets with
  | [] => Unexpected (MkError UnsupportedFormat "No compatible result format found")
  | target :: rest =>
      if bool_decide (circuitFormat target ∈ backendFormats) then Value target
      else first_target backendFormats rest
  end.

Definition chooseCompilerTarget (backendFormats : list Z) : result CompilerTarget :=
  first_target backendFormats CompilerTargetPriority.

Definition validateInputFormatIsSupportedCircuitFormat
    (circuitFileFormat : string) (supportedInputFormats : list string) : result unit :=
  match List.find (fun mapping => String.eqb mapping.1 circuitFileFormat)
          TaskCircuitTypeToCompilerInputFormatMapping with
  | Some inputFormat =>
      if bool_decide (inputFormat.2 ∈ supportedInputFormats) then Value tt
      else Unexpected (MkError UnsupportedFormat
             ("Unsupported circuit file format: " +:+ circuitFileFormat))
  | None =>
      Unexpected (MkError UnsupportedFormat
        ("Unsupported circuit file format: " +:+ circuitFileFormat))
  end.

Definition canPrepareTaskForBackend `{CompilerFormats}
    (task : QuantumTask) (backendFormats : list Z) : bool :=
  if no_modify task then
    let directFormat := mapTaskCircuitTypeToCircuitFormat (circuit_file_type task) in
    negb (directFormat =? CIRCUIT_FORMAT_UNSPECIFIED)%Z
    && bool_decide (directFormat ∈ backendFormats)
  else
    has_value (validateInputFormatIsSupportedCircuitFormat
                 (circuit_file_type task) getSupportedInputFormats)
    && has_value (chooseCompilerTarget backendFormats).
End Policy.

(** ** Lemmas *)

(** Two format lists that advertise the same formats, in whatever order and
    however often. *)
Definition same_formats (fs gs : list Z) : Prop := forall f, f ∈ fs <-> f ∈ gs.

#[export] Instance same_formats_equiv : Equivalence same_formats.
Proof. unfold same_formats. split; repeat intro; naive_solver. Qed.

#[export] Instance elem_of_same_formats f :
  Proper (same_formats ==> iff) (fun fs : list Z => f ∈ fs).
Proof. intros fs gs Hfg. apply Hfg. Qed.

#[export] Instance first_target_proper :
  Proper (same_formats ==> eq ==> eq) first_target.
Proof.
  intros fs gs Hfg ts ? <-. induction ts as [|t ts IH]; cbn; [done|].
  rewrite IH. by rewrite (bool_decide_ext _ _ (Hfg _)).
Qed.

#[export] Instance chooseCompilerTarget_proper `{ProtocolEnums} :
  Proper (same_formats ==> eq) chooseCompilerTarget.
Proof. intros fs gs Hfg. unfold chooseCompilerTarget. by rewrite Hfg. Qed.

Lemma first_target_value fs ts t :
  first_target fs ts = Value t <->
  exists i, ts !! i = Some t /\ circuitFormat t ∈ fs /\
    forall j t', j < i -> ts !! j = Some t' -> circuitFormat t' ∉ fs.
Proof.
  induction ts as [|t0 ts IH]; cbn; [naive_solver|].
  case_bool_decide as D.
  - split.
    + intros [= <-]. exists 0. split; [done|]. split; [done|]. lia.
    + intros ([|i] & Hi & _ & Hfirst); cbn in Hi; [congruence|].
      exfalso. by apply (Hfirst 0 t0); [lia|..].
  - rewrite IH. split.
    + intros (i & Hi & Hin & Hfirst). exists (S i). split_and!; [done..|].
      intros [|j] t' Hj Ht'; cbn in Ht'; [congruence|]. apply (Hfirst j); [lia|done].
    + intros ([|i] & Hi & Hin & Hfirst); cbn in Hi; [congruence|].
      exists i. split_and!; [done..|]. intros j t' Hj Ht'. by apply (Hfirst (S j)); [lia|].
Qed.

Lemma first_target_unexpected fs ts e :
  first_target fs ts = Unexpected e <->
  e = MkError UnsupportedFormat "No compatible result format found" /\
  forall t, t ∈ ts -> circuitFormat t ∉ fs.
Proof.
  induction ts as [|t0 ts IH]; cbn; [set_solver|].
  case_bool_decide; [set_solver|]. rewrite IH. set_solver.
Qed.

Lemma chooseCompilerTarget_in_table `{ProtocolEnums} fs t :
  chooseCompilerTarget fs = Value t ->
  t ∈ CompilerTargetPriority /\ circuitFormat t ∈ fs.
Proof.
  intros (i & Hi & Hin & _)%first_target_value. split; [|done].
  by apply list_elem_of_lookup_2 in Hi.
Qed.

Lemma chooseCompilerTarget_has_value `{ProtocolEnums} fs :
  has_value (chooseCompilerTarget fs) = true <->
  exists t, t ∈ CompilerTargetPriority /\ circuitFormat t ∈ fs.
Proof.
  destruct (chooseCompilerTarget fs) as [t|e] eqn:E; cbn.
  - apply chooseCompilerTarget_in_table in E. naive_solver.
  - apply first_target_unexpected in E as [_ E]. naive_solver.
Qed.

Lemma validateInputFormat_kind ty fs :
  fails_only_with UnsupportedFormat (validateInputFormatIsSupportedCircuitFormat ty fs).
Proof. unfold validateInputFormatIsSupportedCircuitFormat. repeat case_match; auto with qrmci. Qed.

Lemma chooseCompilerTarget_kind `{ProtocolEnums} fs :
  fails_only_with UnsupportedFormat (chooseCompilerTarget fs).
Proof. by intros e [-> _]%first_target_unexpected. Qed.

Lemma validateInputFormat_value ty fs :
  has_value (validateInputFormatIsSupportedCircuitFormat ty fs) = true <->
  (ty = "quake" /\ "cudaq-quake" ∈ fs) \/ (ty = "catalyst" /\ "catalyst-quantum" ∈ fs).
Proof.
  unfold validateInputFormatIsSupportedCircuitFormat, TaskCircuitTypeToCompilerInputFormatMapping.
  cbn [List.find fst snd].
  destruct (String.eqb_spec "quake" ty) as [<-|N1]; cbn [fst snd].
  { case_bool_decide; cbn; naive_solver. }
  destruct (String.eqb_spec "catalyst" ty) as [<-|N2]; cbn [fst snd].
  { case_bool_decide; cbn; naive_solver. }
  cbn. naive_solver.
Qed.

Lemma target_label `{ProtocolEnums} t :
  t ∈ CompilerTargetPriority ->
  mapTaskCircuitTypeToCircuitFormat (taskCircuitType t) = circuitFormat t.
Proof.
  unfold CompilerTargetPriority. intros Ht.
  repeat (apply elem_of_cons in Ht as [->|Ht]; [reflexivity|]). by apply not_elem_of_nil in Ht.
Qed.

Lemma target_specified `{ProtocolLaws} t :
  t ∈ CompilerTargetPriority -> circuitFormat t <> CIRCUIT_FORMAT_UNSPECIFIED.
Proof.
  pose proof circuit_formats_distinct as D. unfold known_circuit_formats in D.
  rewrite !NoDup_cons in D. unfold CompilerTargetPriority. intros Ht.
  repeat (apply elem_of_cons in Ht as [->|Ht]; [cbn; set_solver|]). by apply not_elem_of_nil in Ht.
Qed.

(** ** Properties *)

(** The compiler target chosen for a backend is the entry of the fixed
    priority table with the smallest index whose circuit format the backend
    advertises, and the only failure is [UnsupportedFormat], exactly when the
    backend advertises no compiler output at all. *)
Theorem chooseCompilerTarget_first `{ProtocolEnums} fs :
  (forall t, chooseCompilerTarget fs = Value t <->
     exists i, CompilerTargetPriority !! i = Some t /\ circuitFormat t ∈ fs /\
       forall j t', j < i -> CompilerTargetPriority !! j = Some t' -> circuitFormat t' ∉ fs) /\
  (forall e, chooseCompilerTarget fs = Unexpected e <->
     e = MkError UnsupportedFormat "No compatible result format found" /\
     forall t, t ∈ CompilerTargetPriority -> circuitFormat t ∉ fs).
Proof. split; intros; [apply first_target_value | apply first_target_unexpected]. Qed.

(** Neither the order nor the multiplicity of a backend's format list has
    an effect on the target, on admission, or on the error reported. *)
Theorem format_policy_order_independent `{ProtocolEnums} `{CompilerFormats} fs gs task :
  same_formats fs gs ->
  chooseCompilerTarget fs = chooseCompilerTarget gs /\
  canPrepareTaskForBackend task fs = canPrepareTaskForBackend task gs.
Proof.
  intros Hfg. split; [by rewrite Hfg|]. unfold canPrepareTaskForBackend.
  destruct (no_modify task); [|by rewrite Hfg].
  by rewrite (bool_decide_ext _ _ (Hfg _)).
Qed.

(** A task relabelled with the target's canonical circuit type maps back,
    at submission, to exactly the circuit format the target was chosen for,
    which the backend advertises and which is never the unspecified format. *)
Theorem compilerTarget_label_roundtrip `{ProtocolLaws} fs t :
  chooseCompilerTarget fs = Value t ->
  mapTaskCircuitTypeToCircuitFormat (taskCircuitType t) = circuitFormat t /\
  circuitFormat t ∈ fs /\ circuitFormat t <> CIRCUIT_FORMAT_UNSPECIFIED.
Proof.
  intros [Ht Hin]%chooseCompilerTarget_in_table.
  auto using target_label, target_specified.
Qed.

