(* ===== verification/World.v ===== *)
(** * The environment of a daemon process

    Everything the daemons call that is not in the repository, and everything
    that changes under them, is an operation of the class [Platform] on an
    opaque environment state: the steady clock, the termination flag a signal
    handler sets, the device and its jobs, the compiler, the scheduler and the
    broker. No operation is assumed to behave: an operation may answer anything
    each time it is called.

    A computation of type [M A] runs in a [World], the environment together
    with the trace of the external calls made so far and their answers. It
    yields [None] when a loop has used up the number of iterations it was given
    ([out_of_fuel]); the world, and so the trace, is there in either case, so a
    property of the traces of a computation also covers the runs that never
    return. *)

From S2P Require Import Prelude Error Externals.

Class Platform : Type := {
  Env : Type;
  Device : Type;
  Job : Type;
  Delivery : Type;
  platform_now : Env -> Env * Z;
  platform_load_flag : Env -> Env * bool;
  platform_sleep : Z -> Env -> Env;
  (* mqss::submitter *)
  platform_openDevice : string -> string -> SessionConfig -> DeviceConfig ->
    Env -> Env * expected SubmitterError Device;
  deviceId : Device -> string;
  platform_qubitsNum : Device -> Env -> Env * expected SubmitterError Z;
  platform_status : Device -> Env -> Env * expected SubmitterError Z;
  platform_operationNames : Device -> Env -> Env * expected SubmitterError (list string);
  platform_couplingMap : Device -> Env -> Env * expected SubmitterError (list (Z * Z));
  platform_supportedPayloadFormats : Device -> Env -> Env * expected SubmitterError (list Z);
  platform_children : Device -> Env -> Env * expected SubmitterError (list Device);
  platform_submitJob : Device -> JobRequest -> Placement Device ->
    Env -> Env * expected SubmitterError Job;
  platform_wait : Job -> Z -> Env -> Env * expected SubmitterError JobStatus;
  platform_counts : Job -> Env -> Env * expected SubmitterError Counts;
  platform_cancel : Job -> Env -> Env * expected SubmitterError unit;
  (* mqss-ci *)
  platform_compileSource : string -> string -> list string -> list (Z * Z) ->
    CompilerOptions -> Env -> Env * CompileOutcome;
  (* the scheduler *)
  platform_scheduleTask : QuantumTask -> Env -> Env;
  platform_getNextReadyTask : Env -> Env * option QuantumTask;
  (* the messenger *)
  platform_send : string -> Message -> Env -> Env * MessengerStatus;
  platform_receive_task : string -> Z -> Env -> Env * ReceiveOutcome Delivery QuantumTask;
  platform_receive_backend : string -> Z -> Env -> Env * ReceiveOutcome Delivery Backend;
  platform_ack : Delivery -> Env -> Env * MessengerStatus;
}.

(** One external call with its answer. *)
Inductive Event `{Platform} : Type :=
| EvNow (t : Z)
| EvLoadFlag (set : bool)
| EvSleep (ms : Z)
| EvOpenDevice (driver name : string) (s : SessionConfig) (o : DeviceConfig)
    (r : expected SubmitterError Device)
| EvQubitsNum (d : Device) (r : expected SubmitterError Z)
| EvStatus (d : Device) (r : expected SubmitterError Z)
| EvOperationNames (d : Device) (r : expected SubmitterError (list string))
| EvCouplingMap (d : Device) (r : expected SubmitterError (list (Z * Z)))
| EvSupportedPayloadFormats (d : Device) (r : expected SubmitterError (list Z))
| EvChildren (d : Device) (r : expected SubmitterError (list Device))
| EvSubmit (d : Device) (req : JobRequest) (pl : Placement Device)
    (r : expected SubmitterError Job)
| EvWait (j : Job) (secs : Z) (r : expected SubmitterError JobStatus)
| EvCounts (j : Job) (r : expected SubmitterError Counts)
| EvCancel (j : Job) (r : expected SubmitterError unit)
| EvCompile (source target : string) (instructions : list string)
    (connectivity : list (Z * Z)) (o : CompilerOptions) (r : CompileOutcome)
| EvSchedule (t : QuantumTask)
| EvNextReady (t : option QuantumTask)
| EvSend (queue : string) (m : Message) (st : MessengerStatus)
| EvReceive (queue : string) (timeout : Z) (r : ReceiveOutcome Delivery Message)
| EvAck (d : Delivery) (st : MessengerStatus).

Section Monad.
Context `{Platform}.

Record World : Type := MkWorld { env : Env; trace : list Event }.

Definition M (A : Type) : Type := World -> World * option A.

#[export] Instance M_ret : MRet M := fun _ a w => (w, Some a).

#[export] Instance M_bind : MBind M := fun _ _ k m w =>
  match m w with
  | (w', Some a) => k a w'
  | (w', None) => (w', None)
  end.

Definition out_of_fuel {A} : M A := fun w => (w, None).

(** Make an external call and record it. *)
Definition call {A} (f : Env -> Env * A) (ev : A -> Event) : M A := fun w =>
  let '(e, a) := f (env w) in (MkWorld e (trace w ++ [ev a]), Some a).

(** Continue with the value of a fallible step, or return its error early. *)
Definition or_return {A B} (m : result A) (k : A -> M (result B)) : M (result B) :=
  match m with
  | Value a => k a
  | Unexpected e => mret (Unexpected e)
  end.

(** ** The external calls *)

Definition now : M Z := call platform_now EvNow.
Definition sleep_for (ms : Z) : M unit :=
  call (fun e => (platform_sleep ms e, tt)) (fun _ => EvSleep ms).

(** The flags a caller may pass: [NeverTerminates] of Runners.cpp, which
    nothing ever sets, and the process-wide [terminationRequested]. *)
Inductive Flag : Type := NeverTerminates | terminationRequested.

Definition load (f : Flag) : M bool :=
  match f with
  | NeverTerminates => mret false
  | terminationRequested => call platform_load_flag EvLoadFlag
  end.

Definition openDevice (driver name : string) (s : SessionConfig) (o : DeviceConfig)
    : M (expected SubmitterError Device) :=
  call (platform_openDevice driver name s o) (EvOpenDevice driver name s o).

Definition qubitsNum (d : Device) : M (expected SubmitterError Z) :=
  call (platform_qubitsNum d) (EvQubitsNum d).
Definition status (d : Device) : M (expected SubmitterError Z) :=
  call (platform_status d) (EvStatus d).
Definition operationNames (d : Device) : M (expected SubmitterError (list string)) :=
  call (platform_operationNames d) (EvOperationNames d).
Definition couplingMap (d : Device) : M (expected SubmitterError (list (Z * Z))) :=
  call (platform_couplingMap d) (EvCouplingMap d).
Definition supportedPayloadFormats (d : Device) : M (expected SubmitterError (list Z)) :=
  call (platform_supportedPayloadFormats d) (EvSupportedPayloadFormats d).
Definition children (d : Device) : M (expected SubmitterError (list Device)) :=
  call (platform_children d) (EvChildren d).
Definition submitJob (d : Device) (req : JobRequest) (pl : Placement Device)
    : M (expected SubmitterError Job) :=
  call (platform_submitJob d req pl) (EvSubmit d req pl).
Definition wait (j : Job) (secs : Z) : M (expected SubmitterError JobStatus) :=
  call (platform_wait j secs) (EvWait j secs).
Definition counts (j : Job) : M (expected SubmitterError Counts) :=
  call (platform_counts j) (EvCounts j).
Definition cancel (j : Job) : M (expected SubmitterError unit) :=
  call (platform_cancel j) (EvCancel j).

Definition compileSource (source target : string) (instructions : list string)
    (connectivity : list (Z * Z)) (o : CompilerOptions) : M CompileOutcome :=
  call (platform_compileSource source target instructions connectivity o)
    (EvCompile source target instructions connectivity o).

Definition scheduleTask (t : QuantumTask) : M unit :=
  call (fun e => (platform_scheduleTask t e, tt)) (fun _ => EvSchedule t).
Definition getNextReadyTask : M (option QuantumTask) :=
  call platform_getNextReadyTask EvNextReady.

Definition messenger_send (queue : string) (m : Message) : M MessengerStatus :=
  call (platform_send queue m) (EvSend queue m).
(** [receiveExtended] under manual acknowledgement, at the message type the
    caller decodes with [platform_receive] and injects with [wire]. *)
Definition receiveExtended {A} (platform_receive : string -> Z -> Env -> Env * ReceiveOutcome Delivery A)
    (wire : A -> Message) (queue : string) (timeout : Z) : M (ReceiveOutcome Delivery A) :=
  call (platform_receive queue timeout) (fun r => EvReceive queue timeout
    match r with
    | Received a d => Received (wire a) d
    | ReceiveFailed status reason => ReceiveFailed status reason
    end).
Definition delivery_ack (d : Delivery) : M MessengerStatus :=
  call (platform_ack d) (EvAck d).

(** ** Trace specifications

    [wp m Q]: whatever the environment answers, the events [m] itself emits and
    the outcome it returns satisfy [Q]. *)

Definition wp {A} (m : M A) (Q : list Event -> option A -> Prop) : Prop :=
  forall w, exists evs, trace (m w).1 = trace w ++ evs /\ Q evs (m w).2.
End Monad.

Arguments World {_}.
Arguments M {_} A.

(** ** Rules for trace specifications *)

Section Rules.
Context `{Platform}.

Lemma wp_ret {A} (a : A) Q : Q [] (Some a) -> wp (mret a) Q.
Proof. intros HQ w. exists []. by rewrite app_nil_r. Qed.

Lemma wp_out_of_fuel {A} (Q : list Event -> option A -> Prop) : Q [] None -> wp out_of_fuel Q.
Proof. intros HQ w. exists []. by rewrite app_nil_r. Qed.

Lemma wp_call {A} (f : Env -> Env * A) ev Q :
  (forall a, Q [ev a] (Some a)) -> wp (call f ev) Q.
Proof. intros HQ w. unfold call. destruct (f (env w)) as [e a]. exists [ev a]. auto. Qed.

Lemma wp_mono {A} (m : M A) (Q Q' : list Event -> option A -> Prop) :
  wp m Q -> (forall evs r, Q evs r -> Q' evs r) -> wp m Q'.
Proof. intros Hm HQ w. destruct (Hm w) as (evs & ? & ?). eauto. Qed.

Lemma wp_bind {A B} (m : M A) (k : A -> M B) (Q : list Event -> option B -> Prop) :
  wp m (fun evs r =>
    match r with
    | Some a => wp (k a) (fun evs' r' => Q (evs ++ evs') r')
    | None => Q evs None
    end) ->
  wp (m ≫= k) Q.
Proof.
  intros Hm w. destruct (Hm w) as (evs & Ht & HQ).
  unfold mbind, M_bind. destruct (m w) as [w1 [a|]]; cbn in *; [|by exists evs].
  destruct (HQ w1) as (evs' & Ht' & HQ'). exists (evs ++ evs').
  by rewrite Ht', Ht, app_assoc.
Qed.

Lemma wp_and {A} (m : M A) (Q1 Q2 : list Event -> option A -> Prop) :
  wp m Q1 -> wp m Q2 -> wp m (fun evs r => Q1 evs r /\ Q2 evs r).
Proof.
  intros H1 H2 w. destruct (H1 w) as (e1 & T1 & ?), (H2 w) as (e2 & T2 & ?).
  assert (e1 = e2) as -> by (by apply (app_inv_head (trace w)); congruence). eauto.
Qed.

(** What a specification says of one run. *)
Lemma wp_run {A} (m : M A) Q w w' o evs :
  wp m Q -> m w = (w', o) -> trace w' = trace w ++ evs -> Q evs o.
Proof.
  intros Hm E Ht. destruct (Hm w) as (evs' & Ht' & HQ). rewrite E in Ht', HQ. cbn in *.
  rewrite Ht in Ht'. by apply app_inv_head in Ht' as ->.
Qed.

Lemma wp_or_return {A B} (m : result A) (k : A -> M (result B)) Q :
  (forall a, m = Value a -> wp (k a) Q) ->
  (forall e, m = Unexpected e -> Q [] (Some (Unexpected e))) ->
  wp (or_return m k) Q.
Proof. intros Hv He. destruct m as [a|e]; cbn; [by apply Hv|]. apply wp_ret. by apply He. Qed.

Lemma wp_load f Q :
  (f = NeverTerminates -> Q [] (Some false)) ->
  (forall b, f = terminationRequested -> Q [EvLoadFlag b] (Some b)) ->
  wp (load f) Q.
Proof. intros Hn Ht. destruct f; cbn; [apply wp_ret | apply wp_call]; auto. Qed.

End Rules.

(** The steady clock, seen from the environment: [clock e] is the time at
    which the environment is in state [e]. A reading lies between the times
    before and after the call, the calls of the waiting loop do not turn the
    clock back, and a job wait only answers [Timeout] once the time it was given
    has passed. *)
Class SteadyClock `{Platform} (clock : Env -> Z) : Prop := {
  now_between e : (clock e <= (platform_now e).2 <= clock (platform_now e).1)%Z;
  load_flag_clock e : (clock e <= clock (platform_load_flag e).1)%Z;
  wait_clock j s e : (clock e <= clock (platform_wait j s e).1)%Z;
  wait_timeout_elapses j s e err :
    (platform_wait j s e).2 = Unexpected err -> code err = Timeout ->
    (clock e + seconds_to_ns s <= clock (platform_wait j s e).1)%Z;
}.

(** One step of symbolic execution of a trace specification. *)
Ltac wp_step :=
  lazymatch goal with
  | |- wp (_ ≫= _) _ => apply wp_bind
  | |- wp (mret _) _ => apply wp_ret
  | |- wp out_of_fuel _ => apply wp_out_of_fuel
  | |- wp (call _ _) _ => apply wp_call; intros ?
  | |- wp (load _) _ => apply wp_load; intros
  | |- wp (if ?b then _ else _) _ => let E := fresh "E" in destruct b eqn:E
  | |- wp (match ?x with _ => _ end) _ => let E := fresh "E" in destruct x eqn:E
  | |- wp (or_return _ _) _ => apply wp_or_return; intros
  end.

(** ** A simulated platform, for closed examples

    A deterministic environment: a broker that keeps its queues in memory, a
    first-in first-out scheduler, a device whose jobs finish at once (those
    numbered 100 and up never do), and a termination flag that is set after
    [sim_stop] loads. *)

Record SimEnv : Type := MkSimEnv {
  sim_clock : Z;
  sim_stop : nat;
  sim_broker : list (string * Message);
  sim_ready : list QuantumTask;
  sim_jobs : nat;
}.

(** Take the first message of a queue that decodes as asked. *)
Fixpoint sim_take {A} (decode : Message -> option A) (queue : string)
    (broker : list (string * Message)) : option (A * list (string * Message)) :=
  match broker with
  | [] => None
  | (q, m) :: rest =>
      match (if String.eqb q queue then decode m else None) with
      | Some a => Some (a, rest)
      | None => '(a, rest') ← sim_take decode queue rest; Some (a, (q, m) :: rest')
      end
  end.

Definition sim_receive {A} (decode : Message -> option A) (queue : string) (e : SimEnv)
    : SimEnv * ReceiveOutcome unit A :=
  match sim_take decode queue (sim_broker e) with
  | Some (a, rest) =>
      (MkSimEnv (sim_clock e) (sim_stop e) rest (sim_ready e) (sim_jobs e), Received a tt)
  | None => (e, ReceiveFailed StatusTimeout "timeout")
  end.

(** A task on the wire has 32-bit fields. *)
Definition sim_decode_task (m : Message) : option QuantumTask :=
  match m with
  | MsgTask t =>
      if in_signed 32 (n_qbits t) && in_signed 32 (n_shots t) && in_signed 32 (optimisation_level t)
      then Some t else None
  | _ => None
  end.

Lemma sim_take_decoded {A} (decode : Message -> option A) queue broker a rest :
  sim_take decode queue broker = Some (a, rest) -> exists m, decode m = Some a.
Proof.
  revert rest. induction broker as [|[q m] broker IH]; intros rest; cbn; [done|].
  destruct (String.eqb q queue); [destruct (decode m) as [a'|] eqn:E; [intros [= <- <-]; eauto|]|].
  all: intros ([a' rest'] & Ht & [= <- <-])%bind_Some; eauto.
Qed.

Definition sim_platform : Platform := {|
  Env := SimEnv;
  Device := string;
  Job := nat;
  Delivery := unit;
  platform_now e :=
    (MkSimEnv (sim_clock e + 1) (sim_stop e) (sim_broker e) (sim_ready e) (sim_jobs e),
     sim_clock e);
  platform_load_flag e :=
    (MkSimEnv (sim_clock e) (pred (sim_stop e)) (sim_broker e) (sim_ready e) (sim_jobs e),
     bool_decide (sim_stop e = 0%nat));
  platform_sleep ms e :=
    MkSimEnv (sim_clock e + milliseconds_to_ns ms) (sim_stop e) (sim_broker e) (sim_ready e)
      (sim_jobs e);
  platform_openDevice driver name _ o e :=
    (e, Value (default name (deviceOptionsId o)));
  deviceId d := d;
  platform_qubitsNum _ e := (e, Value 5);
  platform_status _ e := (e, Value 1);
  platform_operationNames _ e := (e, Value ["h"; "cx"]);
  platform_couplingMap _ e := (e, Unexpected (MkSubmitterError NotSupported "no coupling map"));
  platform_supportedPayloadFormats _ e := (e, Value [2; 4]);
  platform_children d e :=
    (e, if String.eqb d "parent" then Value ["child0"; "child1"]
        else Unexpected (MkSubmitterError NotSupported "no children"));
  platform_submitJob _ _ _ e :=
    (MkSimEnv (sim_clock e) (sim_stop e) (sim_broker e) (sim_ready e) (S (sim_jobs e)),
     Value (sim_jobs e));
  platform_wait j secs e :=
    if (100 <=? j)%nat then
      (MkSimEnv (sim_clock e + Z.max 0 (seconds_to_ns secs)) (sim_stop e) (sim_broker e) (sim_ready e)
         (sim_jobs e), Unexpected (MkSubmitterError Timeout "still running"))
    else (e, Value Done);
  platform_counts _ e := (e, Value [("00", 40); ("11", 60)]);
  platform_cancel _ e := (e, Value tt);
  platform_compileSource src _ _ _ _ e :=
    (e, if String.eqb src "bad" then CompileRejected else Compiled ("compiled " +:+ src));
  platform_scheduleTask t e :=
    MkSimEnv (sim_clock e) (sim_stop e) (sim_broker e) (sim_ready e ++ [t]) (sim_jobs e);
  platform_getNextReadyTask e :=
    match sim_ready e with
    | [] => (e, None)
    | t :: rest =>
        (MkSimEnv (sim_clock e) (sim_stop e) (sim_broker e) rest (sim_jobs e), Some t)
    end;
  platform_send q m e :=
    (MkSimEnv (sim_clock e) (sim_stop e) (sim_broker e ++ [(q, m)]) (sim_ready e) (sim_jobs e),
     StatusOk);
  platform_receive_task q _ :=
    sim_receive sim_decode_task q;
  platform_receive_backend q _ :=
    sim_receive (fun m => match m with MsgBackend b => Some b | _ => None end) q;
  platform_ack _ e := (e, StatusOk);
|}%Z.

Definition sim_world (stop : nat) (broker : list (string * Message)) : @World sim_platform :=
  @MkWorld sim_platform (MkSimEnv 0 stop broker [] 0) [].

Lemma sim_steady : @SteadyClock sim_platform sim_clock.
Proof.
  split; cbn -[Nat.leb seconds_to_ns]; [lia..| |]; intros j s e; destruct (100 <=? j)%nat;
    cbn -[seconds_to_ns]; [lia..| |done]. intros. lia.
Qed.
