(* ===== verification/BackendWrapper.v ===== *)
(** * BackendWrapper.h, BackendWrapper.cpp

    A snapshot of one backend's capabilities, read from a live device
    ([fromSubmitter]) or from a published status ([fromPublishedStatus]), and
    the questions the pipeline asks of it. *)

From S2P Require Import Prelude Error Externals ConstantsMapping CircuitFormatPolicy.
From S2P Require Import World.

Record BackendWrapper : Type := MkBackendWrapper {
  bw_name : string;
  bw_realdevicename : string;
  bw_numQubits : Z;                        (* uint32 *)
  bw_type : Z;                             (* BackendType *)
  bw_status : Z;                           (* BackendStatus *)
  bw_queueLength : Z;                      (* uint32 *)
  bw_currentLoad : Z;                      (* float bits *)
  bw_queueName : string;
  bw_instructions : list string;
  bw_qubitConnectivity : list (Z * Z);     (* uint32, uint32 *)
  bw_supportedCircuitFormats : list Z;     (* CircuitFormat *)
}.

#[export] Instance BackendWrapper_eq_dec : EqDecision BackendWrapper.
Proof. solve_decision. Defined.

Definition getName (b : BackendWrapper) : string := bw_name b.
Definition getNumQubits (b : BackendWrapper) : Z := bw_numQubits b.
Definition getStatus (b : BackendWrapper) : Z := bw_status b.
Definition getInstructions (b : BackendWrapper) : list string := bw_instructions b.
Definition getQubitConnectivity (b : BackendWrapper) : list (Z * Z) := bw_qubitConnectivity b.
Definition getSupportedCircuitFormats (b : BackendWrapper) : list Z :=
  bw_supportedCircuitFormats b.
Definition getQueueName (b : BackendWrapper) : string := bw_queueName b.

Section Wrapper.
Context `{ProtocolEnums}.

(** The private constructor from a status message: the three wire enumeration
    families are normalised, the rest is copied. *)
Definition BackendWrapper_of_Backend (b : Backend) : BackendWrapper := {|
  bw_name := be_name b;
  bw_realdevicename := "";
  bw_numQubits := be_num_qubits b;
  bw_type := mapProtoBackendType (be_type b);
  bw_status := mapProtoBackendStatus (be_status b);
  bw_queueLength := be_queue_length b;
  bw_currentLoad := be_current_load b;
  bw_queueName := be_queue_name b;
  bw_instructions := be_instructions b;
  bw_qubitConnectivity := be_connectivity b;
  bw_supportedCircuitFormats := mapProtoCircuitFormat <$> be_supported_circuit_formats b;
|}.

Definition fromPublishedStatus (b : Backend) : result BackendWrapper :=
  if String.eqb (be_name b) "" then
    Unexpected (MkError MessagingFailed "Published backend status has an empty name.")
  else if String.eqb (be_queue_name b) "" then
    Unexpected (MkError MessagingFailed
      ("Published backend status for '" +:+ be_name b +:+ "' has an empty queue_name."))
  else Value (BackendWrapper_of_Backend b).

Definition toBackend (w : BackendWrapper) : Backend := {|
  be_name := bw_name w;
  be_num_qubits := bw_numQubits w;
  be_type := bw_type w;
  be_status := bw_status w;
  be_queue_length := bw_queueLength w;
  be_current_load := bw_currentLoad w;
  be_queue_name := bw_queueName w;
  be_instructions := bw_instructions w;
  be_connectivity := bw_qubitConnectivity w;
  be_supported_circuit_formats := bw_supportedCircuitFormats w;
|}.

Definition isOnline (w : BackendWrapper) : bool := isOnlineBackendStatus (bw_status w).

Definition canRun `{CompilerFormats} (w : BackendWrapper) (task : QuantumTask) : bool :=
  if (n_qbits task <? 0)%Z || (bw_numQubits w <? uwrap 32 (n_qbits task))%Z then false
  else if negb (bool_decide (restricted_resource_names task = []))
          && negb (bool_decide (bw_name w ∈ restricted_resource_names task)) then false
  else canPrepareTaskForBackend task (bw_supportedCircuitFormats w).

Definition compilerTarget (w : BackendWrapper) : result CompilerTarget :=
  chooseCompilerTarget (bw_supportedCircuitFormats w).

(** The wrapper [fromSubmitter] builds once the five queries have answered. *)
Definition BackendWrapper_of_device (id dispatchQueue : string) (numQubits status : Z)
    (instructions : list string) (coupling : list (Z * Z)) (formats : list Z)
    : BackendWrapper := {|
  bw_name := id;
  bw_realdevicename := "";
  bw_numQubits := uwrap 32 numQubits;
  bw_type := BACKEND_TYPE_UNSPECIFIED;
  bw_status := status;
  bw_queueLength := 0;
  bw_currentLoad := 0;
  bw_queueName := dispatchQueue;
  bw_instructions := instructions;
  bw_qubitConnectivity := (fun q => (uwrap 32 q.1, uwrap 32 q.2)) <$> coupling;
  bw_supportedCircuitFormats := formats;
|}.

Definition fromSubmitter `{Platform} (device : Device) (dispatchQueue : string)
    : M (result BackendWrapper) :=
  let asDeviceError := toQrmciError DeviceError in
  numQubits ← qubitsNum device;
  or_return (transform_error asDeviceError numQubits) (fun numQubits =>
  st ← status device;
  or_return (transform_error asDeviceError st) (fun st =>
  instructions ← operationNames device;
  or_return (transform_error asDeviceError instructions) (fun instructions =>
  connectivity ← couplingMap device;
  or_return
    (match connectivity with
     | Value m => Value m
     | Unexpected e =>
         if bool_decide (code e = NotSupported) then Value [] else Unexpected (asDeviceError e)
     end) (fun coupling =>
  formats ← supportedPayloadFormats device;
  or_return (transform_error asDeviceError formats) (fun formats =>
  mret (Value (BackendWrapper_of_device (deviceId device) dispatchQueue
                 numQubits st instructions coupling formats))))))).
End Wrapper.

(** ** Lemmas *)

(** The three enumeration families of a snapshot hold known enumerators. *)
Definition enums_known `{ProtocolEnums} (w : BackendWrapper) : Prop :=
  BackendType_IsValid (bw_type w) = true /\
  BackendStatus_IsValid (bw_status w) = true /\
  Forall (fun f => CircuitFormat_IsValid f = true) (bw_supportedCircuitFormats w).

Lemma fromPublishedStatus_value `{ProtocolEnums} b w :
  fromPublishedStatus b = Value w <->
  be_name b <> "" /\ be_queue_name b <> "" /\ w = BackendWrapper_of_Backend b.
Proof.
  unfold fromPublishedStatus.
  destruct (String.eqb_spec (be_name b) ""), (String.eqb_spec (be_queue_name b) ""); naive_solver.
Qed.

Lemma BackendWrapper_of_Backend_known `{ProtocolLaws} b :
  enums_known (BackendWrapper_of_Backend b).
Proof.
  split_and!; cbn; auto with qrmci.
  apply Forall_fmap, Forall_forall. intros f _. cbn. auto with qrmci.
Qed.

Lemma BackendWrapper_roundtrip `{ProtocolEnums} w :
  enums_known w -> bw_realdevicename w = "" ->
  BackendWrapper_of_Backend (toBackend w) = w.
Proof.
  destruct w; cbn. intros (Ht & Hs & Hf) ->; cbn in *.
  unfold BackendWrapper_of_Backend; cbn. f_equal; auto with qrmci.
  induction Hf; cbn; f_equal; auto with qrmci.
Qed.

(** The answer of a query that makes [fromSubmitter] give up. A coupling map
    the device does not support is not a failure. *)
Definition query_failed `{Platform} (ev : Event) : bool :=
  match ev with
  | EvQubitsNum _ r => negb (has_value r)
  | EvStatus _ r => negb (has_value r)
  | EvOperationNames _ r => negb (has_value r)
  | EvCouplingMap _ (Unexpected e) => negb (bool_decide (code e = NotSupported))
  | EvSupportedPayloadFormats _ r => negb (has_value r)
  | _ => false
  end.

(** ** Properties *)

(** C39: publishing is lossless. A snapshot that was accepted from a published
    status is accepted again, unchanged, when it is published and received once
    more, and it never holds an enumerator this build does not know. *)
Theorem published_status_roundtrip `{ProtocolLaws} b w :
  fromPublishedStatus b = Value w ->
  fromPublishedStatus (toBackend w) = Value w /\ enums_known w.
Proof.
  intros (Hn & Hq & ->)%fromPublishedStatus_value.
  pose proof (BackendWrapper_of_Backend_known b) as Hk. split; [|done].
  apply fromPublishedStatus_value. split_and!; [done..|].
  symmetry. by apply BackendWrapper_roundtrip.
Qed.

Definition example_backend : Backend :=
  MkBackend "alpha" 5 9 1 0 0 "alpha.queue" ["h"; "cx"] [(0, 1)%Z] [2; 77; 4]%Z.

Lemma published_status_roundtrip_witness :
  @fromPublishedStatus example_enums
    (toBackend (@BackendWrapper_of_Backend example_enums example_backend)) =
    Value (@BackendWrapper_of_Backend example_enums example_backend) /\
  @enums_known example_enums (@BackendWrapper_of_Backend example_enums example_backend).
Proof.
  exact (@published_status_roundtrip example_enums example_laws example_backend _
    ltac:(vm_compute; reflexivity)).
Defined.

(** Reading a device. On success the five properties were queried once, in
    the fixed order, none of them failed, and the snapshot carries the answers
    narrowed to 32 bits, the device's own id and the given dispatch queue. On
    failure the error is a [DeviceError], it is the last query made that failed,
    every query before it succeeded, and none was made after it. *)
Lemma fromSubmitter_wp `{ProtocolEnums} `{Platform} d q :
  wp (fromSubmitter d q) (fun evs r =>
    match r with
    | Some (Value w) =>
        exists n s i c f coupling,
          evs = [EvQubitsNum d (Value n); EvStatus d (Value s); EvOperationNames d (Value i);
                 EvCouplingMap d c; EvSupportedPayloadFormats d (Value f)] /\
          (c = Value coupling \/
           exists e, c = Unexpected e /\ code e = NotSupported /\ coupling = []) /\
          w = BackendWrapper_of_device (deviceId d) q n s i coupling f
    | Some (Unexpected e) =>
        kind e = DeviceError /\
        exists before last, evs = before ++ [last] /\ query_failed last = true /\
          Forall (fun ev => query_failed ev = false) before
    | None => False
    end).
Proof.
  unfold fromSubmitter.
  repeat (unfold qubitsNum, status, operationNames, couplingMap, supportedPayloadFormats; wp_step).
  all: repeat match goal with
    | H : transform_error _ ?m = Value _ |- _ => destruct m; simplify_eq/=
    | H : transform_error _ ?m = Unexpected _ |- _ => destruct m; simplify_eq/=
    | H : match ?m with _ => _ end = _ |- _ => destruct m eqn:?; simplify_eq/=
    end.
  all: bool_to_prop.
  1,2: by do 6 eexists; split; [reflexivity|]; split; [|reflexivity]; eauto.
  all: split; [done|].
  1,2: eexists [_; _; _; _], _; split; [reflexivity|].
  3: eexists [_; _; _], _; split; [reflexivity|].
  4: eexists [_; _], _; split; [reflexivity|].
  5: eexists [_], _; split; [reflexivity|].
  6: eexists [], _; split; [reflexivity|].
  all: split; [|repeat constructor]; cbn; try done.
  all: by case_bool_decide.
Qed.
