(* ===== verification/BackendRegistry.v ===== *)
(** * BackendRegistry.h, BackendRegistry.cpp

    The backends a process may schedule onto, keyed by name and stamped with
    the time each was last heard from. *)

From S2P Require Import Prelude Error Externals ConstantsMapping CircuitFormatPolicy.
From S2P Require Import World BackendWrapper.

Inductive BackendSelectionPolicy : Type := LowestName | SmallestSufficient.

#[export] Instance BackendSelectionPolicy_eq_dec : EqDecision BackendSelectionPolicy.
Proof. solve_decision. Defined.

Record Entry : Type := MkEntry { backend : BackendWrapper; lastRefreshed : Z }.

Record BackendRegistry : Type := MkBackendRegistry {
  entries : list (string * Entry);
  entryTimeToLive : Z;                     (* nanoseconds *)
}.

Definition DefaultTimeToLive : Z := seconds_to_ns 30.

Definition new_BackendRegistry (timeToLive : Z) : BackendRegistry :=
  MkBackendRegistry [] timeToLive.

(** Whether a status conflicts with the dispatch queue its name is already
    registered under. *)
Definition queue_conflict (r : BackendRegistry) (b : BackendWrapper) : bool :=
  match smap_find (getName b) (entries r) with
  | Some it =>
      negb (String.eqb (getQueueName (backend it)) "") &&
      negb (String.eqb (getQueueName b) "") &&
      negb (String.eqb (getQueueName (backend it)) (getQueueName b))
  | None => false
  end.

Definition insertOrRefresh (b : BackendWrapper) (now : Z) (r : BackendRegistry)
    : bool * BackendRegistry :=
  let name := getName b in
  if queue_conflict r b then (false, r)
  else (true, MkBackendRegistry (smap_insert_or_assign name (MkEntry b now) (entries r))
                (entryTimeToLive r)).

Definition stale (r : BackendRegistry) (now : Z) (entry : string * Entry) : bool :=
  (entryTimeToLive r <? now - lastRefreshed entry.2)%Z.

Definition expire (now : Z) (r : BackendRegistry) : nat * BackendRegistry :=
  let kept := smap_erase_if (stale r now) (entries r) in
  (length (entries r) - length kept, MkBackendRegistry kept (entryTimeToLive r)).

Definition find (r : BackendRegistry) (backendName : string) : option BackendWrapper :=
  backend <$> smap_find backendName (entries r).

Definition contains (r : BackendRegistry) (backendName : string) : bool :=
  match smap_find backendName (entries r) with Some _ => true | None => false end.

Definition registry_size (r : BackendRegistry) : nat := length (entries r).

Definition registry_empty (r : BackendRegistry) : bool := bool_decide (entries r = []).

Definition getTimeToLive (r : BackendRegistry) : Z := entryTimeToLive r.

(** Apply [fn] to every registered backend in the order of the map, threading
    the state the callback updates. *)
Definition forEachBackend {S : Type} (fn : S -> string -> BackendWrapper -> S)
    (r : BackendRegistry) (s : S) : S :=
  fold_left (fun s entry => fn s entry.1 (backend entry.2)) (entries r) s.

(** The backends in the order [forEachBackend] visits them. *)
Definition visited (r : BackendRegistry) : list (string * BackendWrapper) :=
  (fun entry => (entry.1, backend entry.2)) <$> entries r.

(** ** The registry as a state machine *)

Inductive RegistryOp : Type :=
| OpInsertOrRefresh (b : BackendWrapper) (now : Z)
| OpExpire (now : Z).

Definition apply_op (op : RegistryOp) (r : BackendRegistry) : BackendRegistry :=
  match op with
  | OpInsertOrRefresh b now => (insertOrRefresh b now r).2
  | OpExpire now => (expire now r).2
  end.

Inductive registry_step : BackendRegistry -> BackendRegistry -> Prop :=
| registry_step_op op r : registry_step r (apply_op op r).

(** The registries a process can hold: any sequence of operations on a freshly
    constructed one. *)
Definition registry_reachable (r : BackendRegistry) : Prop :=
  exists ttl, rtc registry_step (new_BackendRegistry ttl) r.

(** ** Abstract specification

    What the registry promises, over a finite map: a status is accepted unless
    it conflicts, an accepted status replaces the entry of its name, expiry
    keeps exactly the entries that are not stale. *)
Module Spec.

Definition publish (b : BackendWrapper) (now : Z) (m : gmap string Entry)
    : bool * gmap string Entry :=
  match m !! getName b with
  | Some e =>
      if bool_decide (getQueueName (backend e) <> "" /\ getQueueName b <> "" /\
                      getQueueName (backend e) <> getQueueName b)
      then (false, m) else (true, <[getName b := MkEntry b now]> m)
  | None => (true, <[getName b := MkEntry b now]> m)
  end.

Definition prune (ttl now : Z) (m : gmap string Entry) : gmap string Entry :=
  filter (fun kv => (now - lastRefreshed kv.2 <= ttl)%Z) m.
End Spec.

Definition registry_abs (r : BackendRegistry) : gmap string Entry := smap_to_gmap (entries r).

(** ** Invariant *)

(** The keys ascend strictly and every entry is registered under the name its
    backend carries. *)
Record registry_wf (r : BackendRegistry) : Prop := MkRegistryWf {
  wf_sorted : smap_wf (entries r);
  wf_named : forall k e, (k, e) ∈ entries r -> getName (backend e) = k;
}.

Lemma new_registry_wf ttl : registry_wf (new_BackendRegistry ttl).
Proof. split; [constructor|]. cbn. set_solver. Qed.

Lemma insertOrRefresh_wf b now r : registry_wf r -> registry_wf (insertOrRefresh b now r).2.
Proof.
  intros [Hs Hn]. unfold insertOrRefresh. destruct (queue_conflict r b); cbn; [done|].
  split; cbn; [auto with qrmci|].
  intros k e [[= -> ->]|Hin]%smap_insert_or_assign_elem; [done | by apply Hn].
Qed.

Lemma expire_wf now r : registry_wf r -> registry_wf (expire now r).2.
Proof.
  intros [Hs Hn]. split; cbn; [auto with qrmci|].
  intros k e [Hin _]%smap_erase_if_elem. by apply Hn.
Qed.

#[export] Hint Resolve new_registry_wf insertOrRefresh_wf expire_wf : qrmci.

Lemma apply_op_wf op r : registry_wf r -> registry_wf (apply_op op r).
Proof. destruct op; [apply insertOrRefresh_wf | apply expire_wf]. Qed.

(** ** Lemmas the clients of the registry use *)

Section Views.
Context (r : BackendRegistry) (Hwf : registry_wf r).

Lemma find_visited n b : find r n = Some b <-> (n, b) ∈ visited r.
Proof.
  unfold find, visited. rewrite fmap_Some, list_elem_of_fmap. destruct Hwf as [Hs _].
  split.
  - intros (e & He & ->). exists (n, e). split; [done|]. by apply smap_find_elem in He.
  - intros ([k e] & [= -> ->] & Hin). exists e. split; [by apply smap_find_elem|done].
Qed.

Lemma visited_named n b : (n, b) ∈ visited r -> getName b = n.
Proof.
  unfold visited. rewrite list_elem_of_fmap. intros ([k e] & [= -> ->] & Hin).
  by apply (wf_named r Hwf).
Qed.

Lemma find_named n b : find r n = Some b -> getName b = n.
Proof. rewrite find_visited. apply visited_named. Qed.

Lemma contains_find n : contains r n = true <-> is_Some (find r n).
Proof. unfold contains, find. rewrite fmap_is_Some. by destruct (smap_find n (entries r)); split; eauto. Qed.
End Views.

Lemma forEachBackend_visited {S} (fn : S -> string -> BackendWrapper -> S) r s :
  forEachBackend fn r s = fold_left (fun s nb => fn s nb.1 nb.2) (visited r) s.
Proof.
  unfold forEachBackend, visited. revert s.
  induction (entries r) as [|[k e] es IH]; intros s; cbn; [done|]. apply IH.
Qed.

Lemma find_insertOrRefresh_accepted b now r :
  queue_conflict r b = false ->
  find (insertOrRefresh b now r).2 (getName b) = Some b.
Proof. unfold find, insertOrRefresh. intros ->. cbn. by rewrite smap_find_insert_eq. Qed.

Lemma find_insertOrRefresh_other b now r n :
  n <> getName b -> find (insertOrRefresh b now r).2 n = find r n.
Proof.
  unfold find, insertOrRefresh. intros Hn. destruct (queue_conflict r b); cbn; [done|].
  by rewrite smap_find_insert_ne.
Qed.

Lemma find_expire now r n :
  registry_wf r ->
  find (expire now r).2 n =
    match smap_find n (entries r) with
    | Some e => if stale r now (n, e) then None else Some (backend e)
    | None => None
    end.
Proof.
  intros [Hs _]. unfold find, expire. cbn. rewrite smap_find_erase_if by done.
  destruct (smap_find n (entries r)) as [e|]; [|done]. by destruct (stale r now (n, e)).
Qed.

(** Every backend in the registry has [P], under its name. *)
Definition registry_all (P : string -> BackendWrapper -> Prop) (r : BackendRegistry) : Prop :=
  registry_wf r /\ forall n b, find r n = Some b -> P n b.

Lemma registry_all_new P ttl : registry_all P (new_BackendRegistry ttl).
Proof. split; [apply new_registry_wf|done]. Qed.

Lemma registry_all_insert P w t r :
  registry_all P r -> P (getName w) w -> registry_all P (insertOrRefresh w t r).2.
Proof.
  intros [Hwf Hq] Hw. split; [by apply insertOrRefresh_wf|]. intros n b Hb.
  destruct (decide (n = getName w)) as [->|Hne].
  - destruct (queue_conflict r w) eqn:Hc.
    + unfold insertOrRefresh in Hb. rewrite Hc in Hb. by apply Hq in Hb.
    + rewrite find_insertOrRefresh_accepted in Hb by done. by simplify_eq.
  - rewrite find_insertOrRefresh_other in Hb by done. by apply Hq in Hb.
Qed.

Lemma registry_all_expire P t r : registry_all P r -> registry_all P (expire t r).2.
Proof.
  intros [Hwf Hq]. split; [by apply expire_wf|]. intros n b. rewrite find_expire by done.
  destruct (smap_find n (entries r)) as [e|] eqn:E; [|done]. case_match; [done|].
  intros [= <-]. apply (Hq n). unfold find. by rewrite E.
Qed.

Lemma registry_all_mono (P Q : string -> BackendWrapper -> Prop) r :
  (forall n b, P n b -> Q n b) -> registry_all P r -> registry_all Q r.
Proof. intros HPQ [Hwf Hq]. split; [done|]. intros n b Hb. by apply HPQ, (Hq n). Qed.

Lemma queue_conflict_true r b :
  queue_conflict r b = true <->
  exists e, smap_find (getName b) (entries r) = Some e /\
    getQueueName (backend e) <> "" /\ getQueueName b <> "" /\
    getQueueName (backend e) <> getQueueName b.
Proof.
  unfold queue_conflict. destruct (smap_find (getName b) (entries r)) as [e|]; [|naive_solver].
  rewrite !andb_true_iff, !negb_true_iff, !String.eqb_neq. naive_solver.
Qed.

Lemma registry_reachable_wf_aux r r' : rtc registry_step r r' -> registry_wf r -> registry_wf r'.
Proof.
  induction 1 as [|r1 r2 r3 Hstep _ IH]; [done|].
  intros Hwf. apply IH. destruct Hstep. by apply apply_op_wf.
Qed.

Lemma registry_abs_insertOrRefresh b now r :
  (insertOrRefresh b now r).1 = (Spec.publish b now (registry_abs r)).1 /\
  registry_abs (insertOrRefresh b now r).2 = (Spec.publish b now (registry_abs r)).2.
Proof.
  unfold insertOrRefresh, Spec.publish, registry_abs.
  rewrite <- smap_find_to_gmap. pose proof (queue_conflict_true r b) as Hc.
  destruct (queue_conflict r b) eqn:E.
  - destruct (proj1 Hc eq_refl) as (e & -> & ?). by rewrite bool_decide_eq_true_2.
  - destruct (smap_find (getName b) (entries r)) as [e|] eqn:F.
    + rewrite bool_decide_eq_false_2; [cbn [fst snd entries]; by rewrite smap_insert_or_assign_to_gmap|].
      intros ?. assert (false = true) by (apply Hc; eauto). done.
    + cbn [fst snd entries]. by rewrite smap_insert_or_assign_to_gmap.
Qed.

Lemma registry_abs_expire now r :
  registry_wf r ->
  registry_abs (expire now r).2 = Spec.prune (entryTimeToLive r) now (registry_abs r) /\
  (expire now r).1 = size (registry_abs r) - size (registry_abs (expire now r).2).
Proof.
  intros [Hs _]. split.
  - apply map_eq. intros k. unfold registry_abs, Spec.prune, expire. cbn [fst snd entries].
    rewrite <- smap_find_to_gmap, smap_find_erase_if by done.
    rewrite map_lookup_filter, <- smap_find_to_gmap.
    destruct (smap_find k (entries r)) as [e|]; cbn; [|done].
    unfold stale; cbn. destruct (Z.ltb_spec (entryTimeToLive r) (now - lastRefreshed e));
      case_guard; (done || lia).
  - unfold registry_abs, expire; cbn [fst snd entries]. rewrite !smap_length_size; auto with qrmci.
Qed.

(** ** Properties *)

(** C12: the registry refines its specification. In every reachable registry the
    keys ascend strictly and name their backends, and insertion and expiry act
    on the finite map of entries as specified, answers included. *)
Theorem registry_refines_spec r :
  registry_reachable r ->
  registry_wf r /\
  (forall b now,
     (insertOrRefresh b now r).1 = (Spec.publish b now (registry_abs r)).1 /\
     registry_abs (insertOrRefresh b now r).2 = (Spec.publish b now (registry_abs r)).2) /\
  (forall now,
     registry_abs (expire now r).2 = Spec.prune (entryTimeToLive r) now (registry_abs r) /\
     (expire now r).1 = size (registry_abs r) - size (registry_abs (expire now r).2)) /\
  (forall n, find r n = backend <$> registry_abs r !! n).
Proof.
  intros [ttl Hr]. assert (registry_wf r) as Hwf
    by (eapply registry_reachable_wf_aux; [exact Hr | auto with qrmci]).
  split_and!; [done|..].
  - intros. apply registry_abs_insertOrRefresh.
  - intros. by apply registry_abs_expire.
  - intros n. unfold find, registry_abs. by rewrite smap_find_to_gmap.
Qed.

Definition example_wrapper (name queue : string) (qubits : Z) : BackendWrapper :=
  MkBackendWrapper name "" qubits 0 1 0 0 queue ["h"] [] [2; 4]%Z.

Lemma registry_refines_spec_witness :
  registry_wf (insertOrRefresh (example_wrapper "alpha" "qa" 5) 10 (new_BackendRegistry 30)).2.
Proof.
  refine (proj1 (registry_refines_spec _ _)). exists 30%Z.
  eapply rtc_l; [|apply rtc_refl].
  exact (registry_step_op (OpInsertOrRefresh (example_wrapper "alpha" "qa" 5) 10) _).
Defined.

(** One step of a registry's history in which [n] stays registered, under a
    non-empty dispatch queue. *)
Definition keeps (n : string) (r r' : BackendRegistry) : Prop :=
  registry_step r r' /\ exists b, find r' n = Some b /\ getQueueName b <> "".

Lemma queue_step_stable op r n b b' :
  registry_wf r -> find r n = Some b -> find (apply_op op r) n = Some b' ->
  getQueueName b <> "" -> getQueueName b' <> "" -> getQueueName b' = getQueueName b.
Proof.
  intros Hwf Hb Hb' Hq Hq'. destruct op as [c now|now]; cbn [apply_op] in Hb'.
  - destruct (decide (n = getName c)) as [->|Hn];
      [|rewrite find_insertOrRefresh_other in Hb' by done; congruence].
    destruct (queue_conflict r c) eqn:E.
    + unfold insertOrRefresh in Hb'. rewrite E in Hb'. cbn in Hb'. congruence.
    + rewrite find_insertOrRefresh_accepted in Hb' by done. simplify_eq.
      unfold find in Hb. apply fmap_Some in Hb as (e & He & ->).
      destruct (decide (getQueueName (backend e) = getQueueName b')) as [|Hne]; [done|].
      assert (queue_conflict r b' = true) by (apply queue_conflict_true; eauto). congruence.
  - rewrite find_expire in Hb' by done. unfold find in Hb.
    apply fmap_Some in Hb as (e & He & ->). rewrite He in Hb'. branches. done.
Qed.

(** C13: routing is stable. Over any sequence of statuses and expiries through
    which a backend stays registered under a non-empty dispatch queue, that queue
    never changes: a status that names another queue is refused. (A status
    without a queue is not checked for a conflict and clears the queue; histories
    that contain one for this backend are excluded. The selector accepts no such
    status.) *)
Theorem dispatch_queue_stable n r r' b :
  registry_wf r -> find r n = Some b -> getQueueName b <> "" -> rtc (keeps n) r r' ->
  exists b', find r' n = Some b' /\ getQueueName b' = getQueueName b.
Proof.
  intros Hwf Hb Hq Hr. revert b Hb Hq.
  induction Hr as [|r1 r2 r3 [Hstep (b2 & Hb2 & Hq2)] _ IH]; intros b Hb Hq; [by exists b|].
  destruct Hstep as [op r1].
  assert (getQueueName b2 = getQueueName b) as Heq by (by eapply queue_step_stable).
  destruct (IH (apply_op_wf op r1 Hwf) b2 Hb2 Hq2) as (b' & ? & ?). exists b'. by rewrite <- Heq.
Qed.

Lemma dispatch_queue_stable_witness :
  let r := (insertOrRefresh (example_wrapper "alpha" "qa" 5) 10 (new_BackendRegistry 30)).2 in
  exists b', find (insertOrRefresh (example_wrapper "alpha" "qb" 7) 12 r).2 "alpha" = Some b' /\
    getQueueName b' = "qa".
Proof.
  intros r.
  apply (dispatch_queue_stable "alpha" r _ (example_wrapper "alpha" "qa" 5)).
  - apply insertOrRefresh_wf, new_registry_wf.
  - reflexivity.
  - discriminate.
  - eapply rtc_l; [|apply rtc_refl]. split.
    + exact (registry_step_op (OpInsertOrRefresh (example_wrapper "alpha" "qb" 7) 12) r).
    + eexists. split; [reflexivity|discriminate].
Defined.

(** Insertion, lookup and expiry. A status that does not conflict is found
    under its name, until the first expiry later than its time-to-live; one
    that conflicts leaves the registry as it was. Other names are unaffected by
    the insertion either way. *)
Theorem refresh_lookup_expire b t0 t r :
  registry_wf r ->
  let '(accepted, r') := insertOrRefresh b t0 r in
  accepted = negb (queue_conflict r b) /\
  (accepted = true ->
     find (expire t r').2 (getName b) =
       if (t - t0 <=? entryTimeToLive r)%Z then Some b else None) /\
  (accepted = false -> r' = r) /\
  (forall n, n <> getName b -> find r' n = find r n).
Proof.
  intros Hwf. pose proof (find_insertOrRefresh_other b t0 r) as Hother.
  pose proof (insertOrRefresh_wf b t0 r Hwf) as Hwf'.
  unfold insertOrRefresh in *. destruct (queue_conflict r b) eqn:E; cbn [fst snd negb] in *.
  { split_and!; auto. done. }
  split_and!; [done| |done|auto].
  intros _. rewrite find_expire by done. cbn [entries]. rewrite smap_find_insert_eq.
  unfold stale; cbn. destruct (Z.ltb_spec (entryTimeToLive r) (t - t0)),
    (Z.leb_spec (t - t0) (entryTimeToLive r)); (done || lia).
Qed.

Lemma refresh_lookup_expire_witness :
  find (expire 45 (insertOrRefresh (example_wrapper "alpha" "qa" 5) 10
                     (new_BackendRegistry 30)).2).2 "alpha" = None.
Proof.
  exact (proj1 (proj2 (refresh_lookup_expire (example_wrapper "alpha" "qa" 5) 10 45
    (new_BackendRegistry 30) (new_registry_wf 30))) eq_refl).
Defined.

