(* ===== verification/PublicationThrottle.v ===== *)
(** * PublicationThrottle.h

    Paces how often a device-owning process re-reads and publishes its status:
    at most one slot per interval. *)

From S2P Require Import Prelude.

Record PublicationThrottle : Type := MkPublicationThrottle {
  publishInterval : Z;                     (* nanoseconds *)
  lastClaimed : option Z;
}.

Definition DefaultInterval : Z := seconds_to_ns 5.

Definition new_PublicationThrottle (interval : Z) : PublicationThrottle :=
  MkPublicationThrottle interval None.

Definition claim (now : Z) (t : PublicationThrottle) : bool * PublicationThrottle :=
  match lastClaimed t with
  | Some last =>
      if (now - last <? publishInterval t)%Z then (false, t)
      else (true, MkPublicationThrottle (publishInterval t) (Some now))
  | None => (true, MkPublicationThrottle (publishInterval t) (Some now))
  end.

Definition getInterval (t : PublicationThrottle) : Z := publishInterval t.

(** The times, among the times of a sequence of calls, at which a slot was
    granted. *)
Fixpoint granted (times : list Z) (t : PublicationThrottle) : list Z :=
  match times with
  | [] => []
  | now :: rest =>
      let '(ok, t') := claim now t in
      if ok then now :: granted rest t' else granted rest t'
  end.

(** ** Lemmas *)

Lemma claim_interval now t : publishInterval (claim now t).2 = publishInterval t.
Proof. unfold claim. by repeat case_match. Qed.

Lemma granted_after times t last :
  lastClaimed t = Some last ->
  StronglySorted Z.le (last :: times) ->
  Forall (fun g => last + publishInterval t <= g)%Z (granted times t).
Proof.
  revert t last. induction times as [|now times IH]; intros t last Hl Hs; cbn; [constructor|].
  apply StronglySorted_cons in Hs as [Hle Hs]. pose proof Hs as [Hnow Hs']%StronglySorted_cons.
  inversion Hle as [|? ? Hln Hle']; subst. unfold claim. rewrite Hl.
  destruct (Z.ltb_spec (now - last) (publishInterval t)).
  - apply IH; [done|]. by apply StronglySorted_cons.
  - constructor; [lia|].
    eapply Forall_impl; [apply (IH (MkPublicationThrottle (publishInterval t) (Some now)) now)|];
      [done|done|]. cbn. intros; lia.
Qed.

Lemma granted_spaced times t :
  StronglySorted Z.le times ->
  StronglySorted (fun a b => a + publishInterval t <= b)%Z (granted times t).
Proof.
  revert t. induction times as [|now times IH]; intros t Hs; cbn; [constructor|].
  pose proof Hs as [Hnow Hs']%StronglySorted_cons.
  pose proof (claim_interval now t) as Hi. destruct (claim now t) as [[] t'] eqn:E; cbn in Hi.
  - apply StronglySorted_cons. rewrite <- Hi. split; [|by apply IH].
    apply granted_after; [|done]. unfold claim in E. by repeat case_match; simplify_eq/=.
  - rewrite <- Hi. by apply IH.
Qed.

(** ** Properties *)

(** C38: pacing. On a clock that never goes back, any two slots a throttle
    grants are at least one interval apart, the first call is always granted,
    and a call is refused only while less than one interval has passed since
    the last granted one. *)
Theorem throttle_paces interval times :
  StronglySorted Z.le times ->
  StronglySorted (fun a b => a + interval <= b)%Z
    (granted times (new_PublicationThrottle interval)) /\
  head (granted times (new_PublicationThrottle interval)) = head times /\
  (forall now t, (claim now t).1 = false <->
     exists last, lastClaimed t = Some last /\ (now - last < publishInterval t)%Z).
Proof.
  intros Hs. split_and!.
  - exact (granted_spaced times (new_PublicationThrottle interval) Hs).
  - by destruct times.
  - intros now t. unfold claim. destruct (lastClaimed t) as [last|]; cbn; [|naive_solver].
    destruct (Z.ltb_spec (now - last) (publishInterval t)); cbn; split; intros; 
      naive_solver lia.
Qed.

Lemma throttle_paces_witness :
  granted [0; 3; 6; 7; 12]%Z (new_PublicationThrottle 5) = [0; 6; 12]%Z /\
  StronglySorted (fun a b => a + 5 <= b)%Z
    (granted [0; 3; 6; 7; 12]%Z (new_PublicationThrottle 5)).
Proof.
  split; [reflexivity|].
  refine (proj1 (throttle_paces 5 [0; 3; 6; 7; 12]%Z _)).
  repeat (constructor; [|repeat (constructor; [lia|]); constructor]). constructor.
Defined.
