(* ===== verification/RunnersSelection.v ===== *)
(** * Runners.cpp: choosing the backend of a task

    [chooseBackend] and the policy comparison it uses. *)

From S2P Require Import Prelude Error Externals ConstantsMapping CircuitFormatPolicy.
From S2P Require Import World BackendWrapper BackendRegistry.

Definition beatsIncumbent (candidate incumbent : BackendWrapper)
    (policy : BackendSelectionPolicy) : bool :=
  match policy with
  | SmallestSufficient =>
      if negb (getNumQubits candidate =? getNumQubits incumbent)%Z
      then (getNumQubits candidate <? getNumQubits incumbent)%Z
      else String.ltb (getName candidate) (getName incumbent)
  | LowestName => String.ltb (getName candidate) (getName incumbent)
  end.

Section Selection.
Context `{ProtocolEnums} `{CompilerFormats}.

(** The callback of the selection loop: [chosen] is the captured pointer. *)
Definition consider (task : QuantumTask) (policy : BackendSelectionPolicy)
    (chosen : option BackendWrapper) (backendInfo : BackendWrapper) : option BackendWrapper :=
  if negb (isOnline backendInfo) || negb (canRun backendInfo task) then chosen
  else match chosen with
       | None => Some backendInfo
       | Some incumbent =>
           if beatsIncumbent backendInfo incumbent policy then Some backendInfo else chosen
       end.

(** The preferred QPU of the task, when it is named, registered, online and
    able to run the task. *)
Definition usable_preferred (task : QuantumTask) (availableBackends : BackendRegistry)
    : option BackendWrapper :=
  if String.eqb (preferred_qpu task) "" then None
  else match find availableBackends (preferred_qpu task) with
       | Some preferred =>
           if isOnline preferred && canRun preferred task then Some preferred else None
       | None => None
       end.

Definition chooseBackend (task : QuantumTask) (availableBackends : BackendRegistry)
    (policy : BackendSelectionPolicy) : result string :=
  match usable_preferred task availableBackends with
  | Some preferred => Value (getName preferred)
  | None =>
      let chosen := forEachBackend (fun chosen _ backendInfo =>
                      consider task policy chosen backendInfo) availableBackends None in
      match chosen with
      | None => Unexpected (MkError NoBackendAvailable "No suitable backend found")
      | Some c => Value (getName c)
      end
  end.

(** A backend the task may be sent to. *)
Definition eligible (task : QuantumTask) (b : BackendWrapper) : bool :=
  isOnline b && canRun b task.
End Selection.

(** ** Every policy is a strict total order on differently named backends *)

Lemma beatsIncumbent_irrefl policy b : beatsIncumbent b b policy = false.
Proof. destruct policy; cbn; rewrite ?Z.eqb_refl; cbn; apply string_ltb_irrefl. Qed.

Lemma beatsIncumbent_trans policy a b c :
  beatsIncumbent a b policy = true -> beatsIncumbent b c policy = true ->
  beatsIncumbent a c policy = true.
Proof.
  destruct policy; cbn; [apply string_ltb_trans|].
  destruct (Z.eqb_spec (getNumQubits a) (getNumQubits b)),
    (Z.eqb_spec (getNumQubits b) (getNumQubits c)),
    (Z.eqb_spec (getNumQubits a) (getNumQubits c)); cbn; rewrite ?Z.ltb_lt; intros;
    try lia. by eapply string_ltb_trans.
Qed.

Lemma beatsIncumbent_total policy a b :
  getName a <> getName b ->
  beatsIncumbent a b policy = false -> beatsIncumbent b a policy = true.
Proof.
  intros Hn. assert (String.ltb (getName a) (getName b) = false ->
    String.ltb (getName b) (getName a) = true) as Hs.
  { destruct (string_ltb_trichotomy (getName a) (getName b)) as [->|[?| ->]]; done. }
  destruct policy; cbn; [done|].
  destruct (Z.eqb_spec (getNumQubits a) (getNumQubits b)),
    (Z.eqb_spec (getNumQubits b) (getNumQubits a)); cbn; rewrite ?Z.ltb_lt, ?Z.ltb_ge;
    (done || lia).
Qed.

Lemma beatsIncumbent_asym policy a b :
  beatsIncumbent a b policy = true -> beatsIncumbent b a policy = false.
Proof.
  intros Hab. destruct (beatsIncumbent b a policy) eqn:Hba; [|done].
  by rewrite <- (beatsIncumbent_irrefl policy a), (beatsIncumbent_trans _ _ _ _ Hab Hba).
Qed.

Section SelectionLemmas.
Context `{ProtocolEnums} `{CompilerFormats}.

(** [c] is the best eligible backend among [bs]. *)
Definition best_of (task : QuantumTask) (policy : BackendSelectionPolicy)
    (bs : list BackendWrapper) (c : BackendWrapper) : Prop :=
  c ∈ bs /\ eligible task c = true /\
  forall b, b ∈ bs -> eligible task b = true -> b = c \/ beatsIncumbent c b policy = true.

Lemma best_of_unique task policy bs c c' :
  best_of task policy bs c -> best_of task policy bs c' -> c = c'.
Proof.
  intros (Hin & He & Hc) (Hin' & He' & Hc').
  destruct (Hc c' Hin' He') as [|B]; [done|].
  destruct (Hc' c Hin He) as [|B']; [done|].
  apply beatsIncumbent_asym in B. congruence.
Qed.

Lemma best_of_permutation task policy bs bs' c :
  bs ≡ₚ bs' -> best_of task policy bs c -> best_of task policy bs' c.
Proof. intros Hp. unfold best_of. by setoid_rewrite Hp. Qed.

Lemma consider_skip task policy chosen b :
  eligible task b = false -> consider task policy chosen b = chosen.
Proof. unfold eligible, consider. intros E. by rewrite <- negb_andb, E. Qed.

Lemma consider_eligible task policy chosen b :
  eligible task b = true ->
  consider task policy chosen b =
    match chosen with
    | Some c => if beatsIncumbent b c policy then Some b else Some c
    | None => Some b
    end.
Proof.
  unfold eligible, consider. intros E. rewrite <- negb_andb, E. cbn. by destruct chosen.
Qed.

(** The state of the selection loop after the backends [seen]. *)
Definition scan_inv task policy (seen : list BackendWrapper) (chosen : option BackendWrapper)
    : Prop :=
  match chosen with
  | None => forall b, b ∈ seen -> eligible task b = false
  | Some c => best_of task policy seen c
  end.

Lemma scan_inv_step task policy seen chosen b :
  (forall c, c ∈ seen -> getName c <> getName b) ->
  scan_inv task policy seen chosen ->
  scan_inv task policy (seen ++ [b]) (consider task policy chosen b).
Proof.
  intros Hnew Hinv. destruct (eligible task b) eqn:E.
  - rewrite consider_eligible by done. destruct chosen as [c|]; cbn in *.
    + destruct Hinv as (Hin & He & Hbest). destruct (beatsIncumbent b c policy) eqn:B.
      * split_and!; [set_solver|done|]. intros b' [Hb'| ->%list_elem_of_singleton]%elem_of_app Eb';
          [|by left].
        right. destruct (Hbest b' Hb' Eb') as [->|]; [done|]. by eapply beatsIncumbent_trans.
      * split_and!; [set_solver|done|]. intros b' [Hb'| ->%list_elem_of_singleton]%elem_of_app Eb';
          [by apply Hbest|].
        right. apply beatsIncumbent_total; [|done]. apply not_eq_sym. by apply Hnew.
    + split_and!; [set_solver|done|]. intros b' [Hb'| ->%list_elem_of_singleton]%elem_of_app Eb';
        [|by left]. rewrite Hinv in Eb' by done. done.
  - rewrite consider_skip by done. destruct chosen as [c|]; cbn in *.
    + destruct Hinv as (Hin & He & Hbest). split_and!; [set_solver|done|].
      intros b' [Hb'| ->%list_elem_of_singleton]%elem_of_app Eb'; [by apply Hbest|congruence].
    + intros b' [Hb'| ->%list_elem_of_singleton]%elem_of_app; [by apply Hinv|done].
Qed.

Lemma scan_correct task policy bs :
  NoDup (getName <$> bs) ->
  scan_inv task policy bs (fold_left (consider task policy) bs None).
Proof.
  enough (forall seen chosen, NoDup (getName <$> (seen ++ bs)) -> scan_inv task policy seen chosen ->
    scan_inv task policy (seen ++ bs) (fold_left (consider task policy) bs chosen)) as Hgen.
  { intros Hnd. apply (Hgen [] None); [done|]. cbn. set_solver. }
  induction bs as [|b bs IH]; intros seen chosen Hnd Hinv; cbn; [by rewrite app_nil_r|].
  rewrite (assoc_L _ seen [b] bs : seen ++ b :: bs = (seen ++ [b]) ++ bs) in *.
  apply IH; [done|]. apply scan_inv_step; [|done].
  intros c Hc Heq. rewrite fmap_app, NoDup_app in Hnd. destruct Hnd as (Hnd & _ & _).
  rewrite fmap_app, NoDup_app in Hnd. destruct Hnd as (_ & Hdis & _).
  apply (Hdis (getName c)); [by apply list_elem_of_fmap_2|]. rewrite Heq. cbn. set_solver.
Qed.
End SelectionLemmas.

Section ChooseLemmas.
Context `{ProtocolEnums} `{CompilerFormats}.

Lemma visited_names_nodup r : registry_wf r -> NoDup (getName <$> (visited r).*2).
Proof.
  intros Hwf. assert (getName <$> (visited r).*2 = (visited r).*1) as ->.
  { rewrite <- list_fmap_compose. apply list_fmap_ext. intros i [n b] Hi. cbn.
    apply (visited_named r Hwf). by apply list_elem_of_lookup_2 in Hi. }
  unfold visited. rewrite <- list_fmap_compose. destruct Hwf as [Hs _].
  unfold smap_wf in Hs. induction Hs as [|[k e] es _ IH Hall]; cbn; [constructor|].
  constructor; [|done]. intros ([k' e'] & Heq & Hin)%list_elem_of_fmap. cbn in Heq. subst k'.
  rewrite Forall_forall in Hall. specialize (Hall _ Hin). unfold key_lt in Hall. cbn in Hall.
  by rewrite string_ltb_irrefl in Hall.
Qed.

Lemma visited_backend r b :
  registry_wf r -> b ∈ (visited r).*2 <-> find r (getName b) = Some b.
Proof.
  intros Hwf. rewrite find_visited, list_elem_of_fmap by done. split.
  - intros ([n b'] & -> & Hin). cbn. by rewrite (visited_named r Hwf n b' Hin).
  - intros Hin. by exists (getName b, b).
Qed.

Lemma choose_scan_correct task policy r :
  registry_wf r ->
  scan_inv task policy (visited r).*2
    (forEachBackend (fun chosen _ b => consider task policy chosen b) r None).
Proof.
  intros Hwf. rewrite forEachBackend_visited.
  assert (forall c, fold_left (fun s nb => consider task policy s nb.2) (visited r) c =
    fold_left (consider task policy) (visited r).*2 c) as ->.
  { induction (visited r) as [|nb l IH]; intros c; cbn; [done|apply IH]. }
  apply scan_correct. by apply visited_names_nodup.
Qed.

Lemma usable_preferred_some task r b :
  registry_wf r ->
  usable_preferred task r = Some b <->
  preferred_qpu task <> "" /\ find r (preferred_qpu task) = Some b /\
  getName b = preferred_qpu task /\ eligible task b = true.
Proof.
  intros Hwf. unfold usable_preferred, eligible.
  destruct (String.eqb_spec (preferred_qpu task) ""); [naive_solver|].
  destruct (find r (preferred_qpu task)) as [p|] eqn:F; [|naive_solver].
  apply find_named in F as ?; [|done].
  destruct (isOnline p && canRun p task) eqn:E; split.
  - by intros [= ->].
  - by intros (_ & [= ->] & _).
  - done.
  - intros (_ & [= ->] & _ & E'). congruence.
Qed.

(** What [chooseBackend] answers, on every branch. *)
Lemma chooseBackend_cases task r policy :
  registry_wf r ->
  match usable_preferred task r with
  | Some p => chooseBackend task r policy = Value (preferred_qpu task)
  | None =>
      (exists c, best_of task policy (visited r).*2 c /\
         chooseBackend task r policy = Value (getName c)) \/
      (chooseBackend task r policy =
         Unexpected (MkError NoBackendAvailable "No suitable backend found") /\
       forall b, b ∈ (visited r).*2 -> eligible task b = false)
  end.
Proof.
  intros Hwf. unfold chooseBackend.
  destruct (usable_preferred task r) as [p|] eqn:Hp.
  - apply usable_preferred_some in Hp as (_ & _ & -> & _); done.
  - pose proof (choose_scan_correct task policy r Hwf) as Hs. cbv zeta.
    destruct (forEachBackend _ r None) as [c|]; cbn in Hs; [left; by exists c | right; done].
Qed.

(** A chosen name resolves, in the registry it was chosen from, to an eligible
    backend of that name. *)
Lemma chooseBackend_found task r policy n :
  registry_wf r -> chooseBackend task r policy = Value n ->
  exists b, find r n = Some b /\ getName b = n /\ eligible task b = true.
Proof.
  intros Hwf Hn. pose proof (chooseBackend_cases task r policy Hwf) as Hc. rewrite Hn in Hc.
  destruct (usable_preferred task r) as [p|] eqn:Hp.
  - simplify_eq. apply usable_preferred_some in Hp as (_ & ? & ? & ?); eauto.
  - destruct Hc as [(c & (Hin & He & _) & [= ->])|[? _]]; [|done].
    exists c. split_and!; [by apply visited_backend|done..].
Qed.

Lemma chooseBackend_none task r policy e :
  registry_wf r -> chooseBackend task r policy = Unexpected e ->
  e = MkError NoBackendAvailable "No suitable backend found" /\
  forall n b, find r n = Some b -> eligible task b = false.
Proof.
  intros Hwf He. pose proof (chooseBackend_cases task r policy Hwf) as Hc. rewrite He in Hc.
  destruct (usable_preferred task r) as [p|] eqn:Hp; [done|].
  destruct Hc as [(c & _ & ?)|[[= ->] Hnone]]; [done|]. split; [done|].
  intros n b Hb. apply Hnone. apply visited_backend; [done|].
  by rewrite (find_named r Hwf n b Hb).
Qed.
End ChooseLemmas.

(** ** Properties *)

(** C10: backend selection is sound and complete. A chosen name is registered,
    and its backend is online and can run the task; the only failure is
    [NoBackendAvailable], reported exactly when no registered backend is online
    and able to run the task. *)
Theorem chooseBackend_sound_complete `{ProtocolEnums} `{CompilerFormats} task r policy :
  registry_wf r ->
  match chooseBackend task r policy with
  | Value n => exists b, find r n = Some b /\ isOnline b = true /\ canRun b task = true
  | Unexpected e =>
      e = MkError NoBackendAvailable "No suitable backend found" /\
      forall n b, find r n = Some b -> isOnline b && canRun b task = false
  end.
Proof.
  intros Hwf. destruct (chooseBackend task r policy) as [n|e] eqn:E.
  - apply chooseBackend_found in E as (b & ? & _ & [? ?]%andb_true_iff); eauto.
  - by apply chooseBackend_none in E.
Qed.

Definition example_registry : BackendRegistry :=
  (insertOrRefresh (example_wrapper "beta" "qb" 5) 20
     (insertOrRefresh (example_wrapper "alpha" "qa" 9) 10 (new_BackendRegistry 30)).2).2.

Lemma example_registry_wf : registry_wf example_registry.
Proof. apply insertOrRefresh_wf, insertOrRefresh_wf, new_registry_wf. Qed.

Definition example_task (preferred : string) (restricted : list string) : QuantumTask :=
  MkQuantumTask 7 3 100 ["circuit"] "quake" "results" preferred "" restricted false 0 0.

Lemma chooseBackend_sound_complete_witness :
  exists b, find example_registry "beta" = Some b /\
    @isOnline example_enums b = true /\
    @canRun example_enums example_formats b (example_task "" []) = true.
Proof.
  exact (@chooseBackend_sound_complete example_enums example_formats
    (example_task "" []) example_registry SmallestSufficient example_registry_wf).
Defined.

(** C11: which backend is chosen. The chosen backend is registered, online and
    able to run the task. A preferred QPU that is all three wins whatever the
    policy. Only if the task prefers none that is, the policy decides: the chosen
    backend is then strictly better, in the order the policy names, than every
    other eligible one: its name sorts first, or it has fewer qubits with ties
    broken by name. *)
Theorem policy_choice_is_optimal `{ProtocolEnums} `{CompilerFormats} task r policy n :
  registry_wf r -> chooseBackend task r policy = Value n ->
  let usable q b := q <> "" /\ find r q = Some b /\ isOnline b = true /\ canRun b task = true in
  (forall b, usable (preferred_qpu task) b -> n = preferred_qpu task) /\
  exists b, find r n = Some b /\ isOnline b = true /\ canRun b task = true /\
    (usable (preferred_qpu task) b /\ n = preferred_qpu task \/
     (forall p, ~ usable (preferred_qpu task) p) /\
     forall n' b', n' <> n -> find r n' = Some b' -> isOnline b' = true -> canRun b' task = true ->
       match policy with
       | LowestName => String.ltb n n' = true
       | SmallestSufficient =>
           (getNumQubits b < getNumQubits b')%Z \/
           (getNumQubits b = getNumQubits b' /\ String.ltb n n' = true)
       end).
Proof.
  intros Hwf Hv usable. pose proof (chooseBackend_cases task r policy Hwf) as Hc.
  assert (forall b, usable (preferred_qpu task) b -> usable_preferred task r = Some b) as Hu.
  { intros b (Hne & Hf & Ho & Hr). apply usable_preferred_some; [done|]. unfold eligible.
    rewrite Ho, Hr. split_and!; [done..| |done]. by apply (find_named r Hwf). }
  split.
  - intros b E%Hu. rewrite E in Hc. congruence.
  - destruct (usable_preferred task r) as [p|] eqn:E.
    { apply usable_preferred_some in E as (Hne & Hf & _ & [Ho Hr]%andb_true_iff); [|done]. exists p.
      rewrite Hc in Hv. simplify_eq/=. split_and!; [done..|by left]. }
    destruct Hc as [(c & (Hin & [Ho Hr]%andb_true_iff & Hbest) & Hc)|[Hc _]]; rewrite Hc in Hv; simplify_eq/=.
    apply visited_backend in Hin; [|done]. exists c. split_and!; [done..|]. right.
    split; [by intros p ?%Hu|]. intros n' b' Hne Hf Ho' Hr'. pose proof (find_named r Hwf _ _ Hf) as <-.
    destruct (Hbest b') as [->|B]; [by apply visited_backend|by unfold eligible; rewrite Ho', Hr'|done|].
    destruct policy; cbn in B; [done|].
    destruct (Z.eqb_spec (getNumQubits c) (getNumQubits b')); cbn in B; [by right|].
    left. by apply Z.ltb_lt.
Qed.

Lemma policy_choice_is_optimal_witness :
  "alpha" = preferred_qpu (example_task "alpha" []) /\
  exists b, find example_registry "beta" = Some b /\ @isOnline example_enums b = true.
Proof.
  split.
  - refine (proj1 (@policy_choice_is_optimal example_enums example_formats (example_task "alpha" [])
      example_registry SmallestSufficient "alpha" example_registry_wf _)
      (example_wrapper "alpha" "qa" 9) _); [vm_compute; reflexivity|]. by split_and!; vm_compute.
  - destruct (@policy_choice_is_optimal example_enums example_formats (example_task "" [])
      example_registry SmallestSufficient "beta" example_registry_wf) as [_ (b & Hb & Ho & _)];
      [vm_compute; reflexivity|]. by exists b.
Defined.

(** C37: the winner never depends on the order in which the backends are
    visited: running the selection loop over any permutation of the registered
    backends ends with the same backend. *)
Theorem selection_order_independent `{ProtocolEnums} `{CompilerFormats} task r policy bs :
  registry_wf r -> bs ≡ₚ (visited r).*2 ->
  fold_left (consider task policy) bs None =
  forEachBackend (fun chosen _ b => consider task policy chosen b) r None.
Proof.
  intros Hwf Hp. pose proof (choose_scan_correct task policy r Hwf) as Hr.
  assert (NoDup (getName <$> bs)) as Hnd by (rewrite Hp; by apply visited_names_nodup).
  pose proof (scan_correct task policy bs Hnd) as Hb.
  destruct (fold_left _ bs None) as [c|], (forEachBackend _ r None) as [c'|]; cbn in Hb, Hr.
  - f_equal. eapply best_of_unique; [|done]. by eapply best_of_permutation.
  - destruct Hb as (Hin & He & _). rewrite Hr in He; [done|]. by rewrite <- Hp.
  - destruct Hr as (Hin & He & _). rewrite Hb in He; [done|]. by rewrite Hp.
  - done.
Qed.

Lemma selection_order_independent_witness :
  fold_left (@consider example_enums example_formats (example_task "" []) LowestName)
    (rev (visited example_registry).*2) None = Some (example_wrapper "alpha" "qa" 9).
Proof.
  rewrite (@selection_order_independent example_enums example_formats (example_task "" [])
    example_registry LowestName (rev (visited example_registry).*2) example_registry_wf).
  - vm_compute. reflexivity.
  - symmetry. apply Permutation_rev.
Defined.
