(* ===== verification/RunnersCompilation.v ===== *)
(** * Runners.cpp: compiling a task

    [compileQuantumTask] mutates the task in place: the model returns the task
    as the call leaves it, next to the result. *)

From S2P Require Import Prelude Error Externals ConstantsMapping CircuitFormatPolicy.
From S2P Require Import World BackendWrapper.

Section Compilation.
Context `{ProtocolEnums} `{CompilerFormats} `{Platform}.

(** The staging loop over the circuit files; [compiledCircuits] holds the texts
    compiled so far, so its size is the index of the current file. A
    [std::exception] out of the compiler leaves the loop through the handler. *)
Fixpoint compileCircuitFiles (backendInfo : BackendWrapper) (opts : CompilerOptions)
    (files : list string) (compiledCircuits : list string) : M (result (list string)) :=
  match files with
  | [] => mret (Value compiledCircuits)
  | circuitFile :: rest =>
      let index := length compiledCircuits in
      if String.eqb circuitFile "" then
        mret (Unexpected (MkError CompilationFailed
          ("Compilation failed for circuit file " +:+ pretty index +:+ ": circuit is empty.")))
      else
        compiled ← compileSource circuitFile (getName backendInfo) (getInstructions backendInfo)
                     (getQubitConnectivity backendInfo) opts;
        match compiled with
        | CompileRejected =>
            mret (Unexpected (MkError CompilationFailed
              ("Compilation failed for circuit file " +:+ pretty index +:+ ".")))
        | CompileThrew what =>
            mret (Unexpected (MkError CompilationFailed ("Compilation failed: " +:+ what)))
        | Compiled text => compileCircuitFiles backendInfo opts rest (compiledCircuits ++ [text])
        end
  end.

(** The loop that writes the staged circuits back, from index [i] on. *)
Fixpoint storeCompiled (compiledCircuits : list string) (i : nat) (task : QuantumTask)
    : QuantumTask :=
  match compiledCircuits with
  | [] => task
  | text :: rest => storeCompiled rest (S i) (set_circuit_files i text task)
  end.

Definition compileQuantumTask (task : QuantumTask) (backendInfo : BackendWrapper)
    : M (result unit * QuantumTask) :=
  if no_modify task then mret (Value tt, task)
  else
    match validateInputFormatIsSupportedCircuitFormat
            (circuit_file_type task) getSupportedInputFormats with
    | Unexpected e => mret (Unexpected e, task)
    | Value _ =>
    match compilerTarget backendInfo with
    | Unexpected e => mret (Unexpected e, task)
    | Value target =>
    match getCompilerOptimizationLevel (optimisation_level task) with
    | Unexpected e => mret (Unexpected e, task)
    | Value optimizationLevel =>
        let opts := MkCompilerOptions optimizationLevel (compilerFormat target) in
        staged ← compileCircuitFiles backendInfo opts (circuit_files task) [];
        match staged with
        | Unexpected e => mret (Unexpected e, task)
        | Value compiledCircuits =>
            mret (Value tt,
              set_circuit_file_type (taskCircuitType target)
                (storeCompiled compiledCircuits 0 task))
        end
    end end end.
End Compilation.

(** ** Lemmas *)

(** The task a successful compilation leaves behind: the circuits and their
    type are replaced, every other field is the one received. *)
Definition compiled_task (texts : list string) (ty : string) (t : QuantumTask) : QuantumTask :=
  MkQuantumTask t.(task_id) t.(n_qbits) t.(n_shots) texts ty
    t.(result_destination) t.(preferred_qpu) t.(scheduled_qpu) t.(restricted_resource_names)
    t.(no_modify) t.(optimisation_level) t.(priority).

Lemma storeCompiled_fields texts i t :
  storeCompiled texts i t =
  compiled_task (circuit_files (storeCompiled texts i t)) (circuit_file_type t) t.
Proof.
  revert i t. induction texts as [|s texts IH]; intros i t; cbn; [by destruct t|].
  rewrite IH at 1. done.
Qed.

Lemma storeCompiled_files texts i t :
  i + length texts <= length (circuit_files t) ->
  circuit_files (storeCompiled texts i t) =
    take i (circuit_files t) ++ texts ++ drop (i + length texts) (circuit_files t).
Proof.
  revert i t. induction texts as [|s texts IH]; intros i t Hlen; cbn.
  - rewrite Nat.add_0_r. by rewrite take_drop.
  - cbn in Hlen. rewrite IH by (cbn; rewrite length_insert; lia). cbn.
    rewrite drop_insert_lt by lia. rewrite <- Nat.add_succ_comm.
    rewrite (take_S_r _ i s) by (apply list_lookup_insert_eq; lia).
    rewrite take_insert_ge by lia. by rewrite <- app_assoc.
Qed.

Lemma storeCompiled_all texts ty t :
  length texts = length (circuit_files t) ->
  set_circuit_file_type ty (storeCompiled texts 0 t) = compiled_task texts ty t.
Proof.
  intros Hlen. rewrite storeCompiled_fields.
  rewrite storeCompiled_files by lia. cbn. rewrite drop_ge by lia. by rewrite app_nil_r.
Qed.

Section CompilationLemmas.
Context `{ProtocolEnums} `{CompilerFormats} `{Platform}.

(** The compiler calls of a successful run, one per circuit file, in order. *)
Definition compile_events (b : BackendWrapper) (opts : CompilerOptions)
    (files texts : list string) : list Event :=
  zip_with (fun src text => EvCompile src (getName b) (getInstructions b)
    (getQubitConnectivity b) opts (Compiled text)) files texts.

(** Every event is a compiler call on a non-empty source. *)
Definition nonempty_compile (ev : Event) : Prop :=
  match ev with
  | EvCompile src _ _ _ _ _ => src <> ""
  | _ => False
  end.

Lemma compileCircuitFiles_wp b opts files staged :
  wp (compileCircuitFiles b opts files staged) (fun evs r =>
    Forall nonempty_compile evs /\
    match r with
    | Some (Value texts) =>
        exists new, texts = staged ++ new /\ length new = length files /\
          evs = compile_events b opts files new
    | Some (Unexpected e) => kind e = CompilationFailed
    | None => False
    end).
Proof.
  revert staged. induction files as [|f files IH]; intros staged; cbn.
  { wp_step. split; [done|]. exists []. by rewrite app_nil_r. }
  destruct (String.eqb_spec f "") as [|Hf]; [wp_step; done|].
  wp_step. unfold compileSource. wp_step. wp_step; [|wp_step; repeat constructor; done..].
  eapply wp_mono; [apply IH|]. intros evs r [Hne Hr]. split; [by constructor|].
  destruct r as [[texts|e]|]; [|done..]. destruct Hr as (new & -> & Hlen & ->).
  exists (text :: new). rewrite <- app_assoc. split_and!; [done|cbn; lia|done].
Qed.

(** What [compileQuantumTask] does, on every branch. *)
Lemma compileQuantumTask_wp task b :
  wp (compileQuantumTask task b) (fun evs r =>
    Forall nonempty_compile evs /\
    match r with
    | Some (Unexpected e, task') =>
        task' = task /\ no_modify task = false /\
        (kind e = CompilationFailed \/
         (kind e = UnsupportedFormat /\
          canPrepareTaskForBackend task (bw_supportedCircuitFormats b) = false))
    | Some (Value _, task') =>
        if no_modify task then task' = task /\ evs = []
        else exists target level texts,
          compilerTarget b = Value target /\
          getCompilerOptimizationLevel (optimisation_level task) = Value level /\
          length texts = length (circuit_files task) /\
          evs = compile_events b (MkCompilerOptions level (compilerFormat target))
                  (circuit_files task) texts /\
          task' = compiled_task texts (taskCircuitType target) task
    | None => False
    end).
Proof.
  unfold compileQuantumTask, canPrepareTaskForBackend. destruct (no_modify task); [by wp_step|].
  destruct (validateInputFormatIsSupportedCircuitFormat _ _) as [[]|e] eqn:Ev.
  2:{ wp_step. split_and!; [done..|]. right. split; [by eapply validateInputFormat_kind|done]. }
  unfold compilerTarget. destruct (chooseCompilerTarget _) as [target|e] eqn:Et.
  2:{ wp_step. split_and!; [done..|]. right. split; [by eapply chooseCompilerTarget_kind|done]. }
  destruct (getCompilerOptimizationLevel _) as [level|e] eqn:El.
  2:{ wp_step. split_and!; [done..|]. left. by eapply getCompilerOptimizationLevel_kind. }
  wp_step. eapply wp_mono; [apply compileCircuitFiles_wp|].
  intros evs [[texts|e]|] [Hne Hr]; [..|done].
  - destruct Hr as (new & -> & Hlen & ->). wp_step. rewrite app_nil_r. split; [done|].
    exists target, level, new. split_and!; [done..|]. by apply storeCompiled_all.
  - wp_step. rewrite app_nil_r. by split_and!; [..|left].
Qed.
End CompilationLemmas.

(** ** Properties *)

(** C14: compilation is all or nothing. Whatever the compiler answers, a failed
    call leaves the task exactly as it was received, part-way failures and
    exceptions included, and reports [UnsupportedFormat] or
    [CompilationFailed]; the call always returns. *)
Theorem compile_failure_is_atomic `{ProtocolEnums} `{CompilerFormats} `{Platform} task b :
  wp (compileQuantumTask task b) (fun evs r =>
    exists res task', r = Some (res, task') /\
    forall e, res = Unexpected e ->
      task' = task /\ (kind e = UnsupportedFormat \/ kind e = CompilationFailed)).
Proof.
  eapply wp_mono; [apply compileQuantumTask_wp|].
  intros evs [[[u|e] task']|] [_ Hr]; [..|done]; do 2 eexists; (split; [done|]); [done|].
  intros ? [= <-]. destruct Hr as (-> & _ & [?|[? _]]); auto.
Qed.

(** C15: a successful compilation. A [no_modify] task is untouched and never
    reaches the compiler. Any other task went through the compiler once per
    circuit file, in order, with the chosen result format and optimisation
    level; its circuits are the compiled texts in the same order, its type is
    the target's label, and every other field is unchanged. *)
Theorem compile_success_spec `{ProtocolEnums} `{CompilerFormats} `{Platform} task b :
  wp (compileQuantumTask task b) (fun evs r =>
    forall task', r = Some (Value tt, task') ->
    if no_modify task then task' = task /\ evs = []
    else exists target level texts,
      compilerTarget b = Value target /\
      getCompilerOptimizationLevel (optimisation_level task) = Value level /\
      length texts = length (circuit_files task) /\
      evs = compile_events b (MkCompilerOptions level (compilerFormat target))
              (circuit_files task) texts /\
      task' = compiled_task texts (taskCircuitType target) task).
Proof.
  eapply wp_mono; [apply compileQuantumTask_wp|]. by intros evs r [_ Hr] task' ->.
Qed.

(** The compiler, which crashes on one, is never handed an empty source. *)
Theorem compiler_never_sees_empty_source `{ProtocolEnums} `{CompilerFormats} `{Platform} task b :
  wp (compileQuantumTask task b) (fun evs _ =>
    forall src target ops coupling opts r,
      EvCompile src target ops coupling opts r ∈ evs -> src <> "").
Proof.
  eapply wp_mono; [apply compileQuantumTask_wp|]. intros evs r [Hne _] src target ops coupling opts o Hin.
  rewrite Forall_forall in Hne. exact (Hne _ Hin).
Qed.

