(* ===== verification/RunnersExecution.v ===== *)
(** * TaskSubmission.cpp and Runners.cpp: submitting a task and collecting it

    Validation and request construction, the interruptible submission loop with
    its cancellation on shutdown, the sliced waiting loop, the assembly of the
    result and the cancellation result. *)

From S2P Require Import Prelude Error Externals ConstantsMapping CircuitFormatPolicy.
From S2P Require Import World.

(** ** TaskSubmission.cpp *)

Definition validateSubmission `{ProtocolEnums} (task : QuantumTask) : result Z :=
  if bool_decide (circuit_files task = []) then
    Unexpected (MkError SubmissionFailed "Task carries no circuit files to submit.")
  else if (n_shots task <=? 0)%Z then
    Unexpected (MkError SubmissionFailed "Task requests a non-positive number of shots.")
  else
    let format := mapTaskCircuitTypeToCircuitFormat (circuit_file_type task) in
    if (format =? CIRCUIT_FORMAT_UNSPECIFIED)%Z then
      Unexpected (MkError SubmissionFailed
        ("Task's circuit file type has no known submission format: " +:+ circuit_file_type task))
    else Value format.

(** The index is a valid index into the task's circuit files; the default of
    [nth] stands for no circuit and is never used. *)
Definition makeJobRequest (task : QuantumTask) (circuitIndex : nat) (format : Z) : JobRequest :=
  let circuit := nth circuitIndex (circuit_files task) "" in
  MkJobRequest format (String.list_byte_of_string circuit) (uwrap 64 (n_shots task)).

(** ** buildQuantumResult *)

Fixpoint checkCounts (index : nat) (c : Counts) : result unit :=
  match c with
  | [] => Value tt
  | (key, value) :: rest =>
      if (INT32_MAX <? value)%Z then
        Unexpected (MkError DeviceError
          ("Execution failed: count for '" +:+ key +:+ "' in circuit " +:+ pretty index +:+
           " is " +:+ pretty value +:+ ", which exceeds the wire format's INT32_MAX limit."))
      else checkCounts index rest
  end.

Fixpoint checkHistogram (index : nat) (histogram : list (option Counts)) : result unit :=
  match histogram with
  | [] => Value tt
  | None :: _ =>
      Unexpected (MkError DeviceError
        ("Execution failed: circuit " +:+ pretty index +:+ " produced no result."))
  | Some c :: rest => checkCounts index c ≫= fun _ => checkHistogram (S index) rest
  end.

(** The protobuf map filled from one circuit's counts, narrowing each to int32. *)
Definition protoCounts (c : Counts) : gmap string Z :=
  fold_left (fun m kv => <[kv.1 := swrap 32 kv.2]> m) c ∅.

Definition buildQuantumResult (task : QuantumTask) (histogram : list (option Counts))
    : result QuantumResult :=
  let expectedCircuits := length (circuit_files task) in
  if negb (length histogram =? expectedCircuits) then
    Unexpected (MkError DeviceError
      ("Execution failed: expected " +:+ pretty expectedCircuits +:+
       " circuit result(s), got " +:+ pretty (length histogram) +:+ "."))
  else
    checkHistogram 0 histogram ≫= fun _ =>
    Value {|
      qr_task_id := task_id task;
      qr_destination := result_destination task;
      qr_executed_qpu := scheduled_qpu task;
      qr_execution_status := true;
      qr_additional_information := "COMPLETED";
      qr_results := (fun c => protoCounts (default [] c)) <$> histogram;
    |}.

Definition cancelQuantumTask (task : QuantumTask) (cancelReason : string) : QuantumResult := {|
  qr_task_id := task_id task;
  qr_destination := result_destination task;
  qr_executed_qpu := scheduled_qpu task;
  qr_execution_status := false;
  qr_additional_information := "CANCELLED: " +:+ cancelReason;
  qr_results := [];
|}.

(** How long one wait slice of [collectQuantumResult] lasts, in seconds. *)
Definition CollectionSlice : Z := 1.

Section Execution.
Context `{ProtocolEnums} `{Platform}.

(** ** submitQuantumTask *)

(** Best effort: the answer of each cancellation is only logged. *)
Fixpoint cancelAll (jobs : list Job) : M unit :=
  match jobs with
  | [] => mret tt
  | submitted :: rest => _ ← cancel submitted; cancelAll rest
  end.

Fixpoint submitCircuits (task : QuantumTask) (device : Device) (terminationFlag : Flag)
    (format : Z) (placement : Placement Device) (indices : list nat) (jobs : list Job)
    : M (result (list Job)) :=
  match indices with
  | [] => mret (Value jobs)
  | circuitIndex :: rest =>
      stop ← load terminationFlag;
      if (stop : bool) then
        _ ← cancelAll jobs;
        mret (Unexpected (MkError ShutdownRequested "Shutdown requested during task submission."))
      else
        job ← submitJob device (makeJobRequest task circuitIndex format) placement;
        match job with
        | Unexpected e => mret (Unexpected (toQrmciError SubmissionFailed e))
        | Value j =>
            submitCircuits task device terminationFlag format placement rest (jobs ++ [j])
        end
  end.

Definition submitQuantumTask (task : QuantumTask) (device : Device) (terminationFlag : Flag)
    : M (result (list Job)) :=
  or_return (validateSubmission task) (fun format =>
  answer ← children device;
  or_return
    (match answer with
     | Value cs => Value (match cs with child :: _ => On child | [] => Self end)
     | Unexpected e =>
         if bool_decide (code e = NotSupported) then Value Self
         else Unexpected (toQrmciError SubmissionFailed e)
     end) (fun placement =>
  submitCircuits task device terminationFlag format placement
    (seq 0 (length (circuit_files task))) [])).

(** ** collectQuantumResult *)

(** The inner loop: one wait slice per iteration. *)
Fixpoint waitForJob (fuel : nat) (job : Job) (bounded : bool) (waitTimeout waitStarted : Z)
    (terminationFlag : Flag) : M (result unit) :=
  match fuel with
  | 0 => out_of_fuel
  | S fuel' =>
      stop ← load terminationFlag;
      if (stop : bool) then
        mret (Unexpected (MkError ShutdownRequested
          "Shutdown requested while collecting a result."))
      else
        st ← wait job CollectionSlice;
        match st with
        | Value s =>
            if bool_decide (s = Done) then mret (Value tt)
            else mret (Unexpected (MkError DeviceError
                   "Job finished without producing a result (canceled)."))
        | Unexpected e =>
            if negb (bool_decide (code e = Timeout)) then
              mret (Unexpected (toQrmciError DeviceError e))
            else if bounded then
              t ← now;
              if (seconds_to_ns waitTimeout <=? t - waitStarted)%Z then
                mret (Unexpected (MkError DeviceError
                  "Job did not finish within the configured wait timeout."))
              else waitForJob fuel' job bounded waitTimeout waitStarted terminationFlag
            else waitForJob fuel' job bounded waitTimeout waitStarted terminationFlag
        end
  end.

(** The outer loop; [fuel] bounds the slices waited for each job. *)
Fixpoint collectJobs (fuel : nat) (jobs : list Job) (bounded : bool) (waitTimeout : Z)
    (terminationFlag : Flag) (histogram : list (option Counts))
    : M (result (list (option Counts))) :=
  match jobs with
  | [] => mret (Value histogram)
  | job :: rest =>
      waitStarted ← now;
      waited ← waitForJob fuel job bounded waitTimeout waitStarted terminationFlag;
      or_return waited (fun _ =>
      answer ← counts job;
      or_return (transform_error (toQrmciError DeviceError) answer) (fun c =>
      collectJobs fuel rest bounded waitTimeout terminationFlag (histogram ++ [Some c])))
  end.

Definition collectQuantumResult (fuel : nat) (task : QuantumTask) (jobs : list Job)
    (waitTimeout : Z) (terminationFlag : Flag) : M (result QuantumResult) :=
  let bounded := (0 <? waitTimeout)%Z in
  collected ← collectJobs fuel jobs bounded waitTimeout terminationFlag [];
  or_return collected (fun histogram => mret (buildQuantumResult task histogram)).

Definition executeQuantumTask (fuel : nat) (task : QuantumTask) (device : Device)
    (waitTimeout : Z) (terminationFlag : Flag) : M (result QuantumResult) :=
  submitted ← submitQuantumTask task device terminationFlag;
  or_return submitted (fun jobs =>
  collectQuantumResult fuel task jobs waitTimeout terminationFlag).

(** The uninterruptible overloads. *)
Definition submitQuantumTask_uninterruptible (task : QuantumTask) (device : Device) :=
  submitQuantumTask task device NeverTerminates.
Definition collectQuantumResult_uninterruptible (fuel : nat) (task : QuantumTask)
    (jobs : list Job) (waitTimeout : Z) :=
  collectQuantumResult fuel task jobs waitTimeout NeverTerminates.
Definition executeQuantumTask_uninterruptible (fuel : nat) (task : QuantumTask)
    (device : Device) (waitTimeout : Z) :=
  executeQuantumTask fuel task device waitTimeout NeverTerminates.
End Execution.

(** ** Lemmas: the result *)

(** What a C++ map of bitstring counts guarantees: distinct keys, and 64-bit
    unsigned values. *)
Definition counts_wf (c : Counts) : Prop :=
  NoDup c.*1 /\ Forall (fun kv => in_unsigned 64 kv.2 = true) c.

(** The counts fit the wire format. *)
Definition counts_fit (c : Counts) : Prop := Forall (fun kv => (kv.2 <= INT32_MAX)%Z) c.

Lemma checkCounts_value index c : checkCounts index c = Value tt <-> counts_fit c.
Proof.
  unfold counts_fit. induction c as [|[k v] c IH]; cbn; [done|].
  rewrite Forall_cons, <- IH. destruct (Z.ltb_spec INT32_MAX v); cbn; split; naive_solver lia.
Qed.

Lemma checkHistogram_value index h :
  checkHistogram index h = Value tt <-> exists cs, h = Some <$> cs /\ Forall counts_fit cs.
Proof.
  revert index. induction h as [|[c|] h IH]; intros index; cbn [checkHistogram].
  - split; [exists []; done|done].
  - rewrite expected_bind_value. split.
    + intros ([] & Hc%checkCounts_value & (cs & -> & Hcs)%IH). exists (c :: cs). by repeat constructor.
    + intros ([|c' cs] & [= -> ->] & [Hc Hcs]%Forall_cons). exists tt.
      rewrite checkCounts_value, IH. eauto.
  - split; [done|]. by intros ([|] & ? & _).
Qed.

Lemma checkCounts_kind index c : fails_only_with DeviceError (checkCounts index c).
Proof. induction c as [|[k v] c IH]; cbn; [|destruct (_ <? _)%Z]; eauto with qrmci. Qed.

Lemma checkHistogram_kind index h : fails_only_with DeviceError (checkHistogram index h).
Proof.
  revert index. induction h as [|[c|] h IH]; intros index; cbn [checkHistogram]; auto with qrmci.
  apply fails_only_with_bind; [apply checkCounts_kind|auto].
Qed.

Lemma buildQuantumResult_kind task h : fails_only_with DeviceError (buildQuantumResult task h).
Proof.
  unfold buildQuantumResult. destruct (negb _); [auto with qrmci|].
  apply fails_only_with_bind; [apply checkHistogram_kind|auto with qrmci].
Qed.

Lemma protoCounts_exact c :
  counts_wf c -> counts_fit c -> protoCounts c = list_to_map c.
Proof.
  intros [Hnd Hu] Hfit. unfold protoCounts.
  assert (forall m, fold_left (fun m kv => <[kv.1 := swrap 32 kv.2]> m) c m
                    = list_to_map c ∪ m) as ->; [|by rewrite right_id_L by apply _].
  revert Hnd Hu Hfit. induction c as [|[k v] c IH]; intros Hnd Hu Hfit m; cbn.
  { by rewrite left_id_L by apply _. }
  apply NoDup_cons in Hnd as [Hk Hnd]. apply Forall_cons in Hu as [Hv Hu], Hfit as [Hf Hfit].
  rewrite IH by done. cbn in *. rewrite swrap_id.
  - rewrite <- insert_union_r by (by apply not_elem_of_list_to_map_1).
    by rewrite insert_union_l.
  - lia.
  - unfold in_unsigned, in_signed, INT32_MAX in *. lia.
Qed.

Lemma buildQuantumResult_value task h r :
  buildQuantumResult task h = Value r <->
  exists cs, h = Some <$> cs /\ length cs = length (circuit_files task) /\
    Forall counts_fit cs /\
    r = MkQuantumResult (task_id task) (result_destination task) (scheduled_qpu task) true
          "COMPLETED" (protoCounts <$> cs).
Proof.
  unfold buildQuantumResult.
  destruct (Nat.eqb_spec (length h) (length (circuit_files task))) as [Hlen|Hlen]; cbn [negb].
  - rewrite expected_bind_value. split.
    + intros ([] & (cs & -> & Hcs)%checkHistogram_value & [= <-]). exists cs.
      rewrite length_fmap in Hlen. by rewrite <- list_fmap_compose.
    + intros (cs & -> & _ & Hcs & ->). exists tt. rewrite checkHistogram_value.
      split; [eauto|]. by rewrite <- list_fmap_compose.
  - split; [done|]. intros (cs & -> & Hl & _). by rewrite length_fmap in Hlen.
Qed.

(** ** Lemmas: submission traces *)

Section SubmissionLemmas.
Context `{ProtocolEnums} `{Platform}.

(** What polling the flag leaves in the trace. *)
Definition polls (f : Flag) (answer : bool) : list Event :=
  match f with
  | NeverTerminates => []
  | terminationRequested => [EvLoadFlag answer]
  end.

(** The submission of the circuits from index [i] on: before each, the flag is
    read as clear. *)
Fixpoint submit_events (task : QuantumTask) (d : Device) (f : Flag) (format : Z)
    (pl : Placement Device) (i : nat) (jobs : list Job) : list Event :=
  match jobs with
  | [] => []
  | j :: rest =>
      polls f false ++ EvSubmit d (makeJobRequest task i format) pl (Value j) ::
      submit_events task d f format pl (S i) rest
  end.

(** The target every circuit of a task goes to, given the answer of
    [children]. *)
Definition placement_of (answer : expected SubmitterError (list Device))
    (pl : Placement Device) : Prop :=
  match answer with
  | Value (child :: _) => pl = On child
  | Value [] => pl = Self
  | Unexpected e => code e = NotSupported /\ pl = Self
  end.

(** The shutdown tail: the flag is read as set, then each job is cancelled,
    whatever the device answers. *)
Definition cancelled_in_order (jobs : list Job) (evs : list Event) : Prop :=
  exists answers, length answers = length jobs /\
    evs = EvLoadFlag true :: zip_with EvCancel jobs answers.

Lemma wp_poll f Q :
  (forall b, (f = NeverTerminates -> b = false) -> Q (polls f b) (Some b)) -> wp (load f) Q.
Proof.
  intros HQ. wp_step.
  - subst. apply (HQ false). done.
  - subst. apply (HQ b). done.
Qed.

Lemma cancelAll_wp jobs :
  wp (cancelAll jobs) (fun evs r =>
    r = Some tt /\ exists answers, length answers = length jobs /\
      evs = zip_with EvCancel jobs answers).
Proof.
  induction jobs as [|j jobs IH]; cbn; [wp_step; split; [done|]; by exists []|].
  wp_step. unfold cancel. wp_step. eapply wp_mono; [apply IH|].
  intros evs r (-> & answers & Hlen & ->). split; [done|].
  exists (a :: answers). cbn. auto.
Qed.

(** The loop, from the state in which [jobs] have been submitted. *)
Lemma submitCircuits_wp task d f format pl i n jobs :
  wp (submitCircuits task d f format pl (seq i n) jobs) (fun evs r =>
    exists new tail,
      evs = submit_events task d f format pl i new ++ tail /\
      match r with
      | Some (Value all) => all = jobs ++ new /\ length new = n /\ tail = []
      | Some (Unexpected e) =>
          length new < n /\
          ((kind e = ShutdownRequested /\ f = terminationRequested /\
            cancelled_in_order (jobs ++ new) tail) \/
           (exists se, e = toQrmciError SubmissionFailed se /\
              tail = polls f false ++
                [EvSubmit d (makeJobRequest task (i + length new) format) pl (Unexpected se)]))
      | None => False
      end).
Proof.
  revert i jobs. induction n as [|n IH]; intros i jobs; cbn.
  { wp_step. exists [], []. by rewrite !app_nil_r. }
  wp_step. apply wp_poll. intros stop Hstop. wp_step.
  - wp_step. eapply wp_mono; [apply cancelAll_wp|].
    intros evs r (-> & answers & Hlen & ->). wp_step.
    destruct f; [by specialize (Hstop eq_refl)|]. subst.
    exists [], (EvLoadFlag true :: zip_with EvCancel jobs answers). cbn.
    rewrite app_nil_r. split; [done|]. split; [lia|]. left. split; [done|]. split; [done|].
    exists answers. by rewrite app_nil_r.
  - wp_step. unfold submitJob. wp_step. destruct a as [j|se].
    + eapply wp_mono; [apply IH|]. intros evs r (new & tail & -> & Hr).
      exists (j :: new), tail. cbn. rewrite <- !app_assoc. subst. split; [done|].
      destruct r as [[all|e]|]; [..|done].
      * destruct Hr as (-> & <- & ->). rewrite <- app_assoc. auto.
      * destruct Hr as [Hl Hr]. split; [lia|]. rewrite <- app_assoc in Hr.
        by rewrite <- Nat.add_succ_comm.
    + wp_step. exists [], (polls f false ++ [EvSubmit d (makeJobRequest task i format) pl
        (Unexpected se)]). subst. cbn. split; [done|]. split; [lia|]. right. exists se.
      by rewrite Nat.add_0_r.
Qed.

Lemma submit_events_lookup task d f format pl s jobs i j :
  jobs !! i = Some j ->
  EvSubmit d (makeJobRequest task (s + i) format) pl (Value j)
    ∈ submit_events task d f format pl s jobs.
Proof.
  revert s i. induction jobs as [|j' jobs IH]; intros s [|i] Hj; [done..| |]; cbn in *.
  - simplify_eq. rewrite Nat.add_0_r. set_solver.
  - specialize (IH (S s) i Hj). rewrite <- Nat.add_succ_comm. set_solver.
Qed.

(** What [submitQuantumTask] does, on every branch. *)
Lemma submitQuantumTask_wp task d f :
  wp (submitQuantumTask task d f) (fun evs r =>
    match r with
    | None => False
    | Some res =>
        (exists e, validateSubmission task = Unexpected e /\ res = Unexpected e /\ evs = []) \/
        (exists format, validateSubmission task = Value format /\
          ((exists se, code se <> NotSupported /\ evs = [EvChildren d (Unexpected se)] /\
              res = Unexpected (toQrmciError SubmissionFailed se)) \/
           (exists answer pl jobs tail, placement_of answer pl /\
              evs = EvChildren d answer :: submit_events task d f format pl 0 jobs ++ tail /\
              match res with
              | Value all => all = jobs /\ length jobs = length (circuit_files task) /\ tail = []
              | Unexpected e =>
                  length jobs < length (circuit_files task) /\
                  ((kind e = ShutdownRequested /\ f = terminationRequested /\
                    cancelled_in_order jobs tail) \/
                   (exists se, e = toQrmciError SubmissionFailed se /\
                      tail = polls f false ++
                        [EvSubmit d (makeJobRequest task (length jobs) format) pl
                           (Unexpected se)]))
              end)))
    end).
Proof.
  unfold submitQuantumTask. wp_step.
  2:{ left. eauto. }
  wp_step. unfold children. wp_step.
  wp_step.
  - eapply wp_mono; [apply submitCircuits_wp|]. intros evs r (new & tail & -> & Hr).
    destruct r as [res|]; [|done]. right. exists a. split; [done|]. right.
    exists a0, a1, new, tail. split; [|split; [done|]].
    + destruct a0 as [[|]|]; cbn in *; simplify_eq; [done..|].
      by case_bool_decide; simplify_eq.
    + destruct res; [|done]. by destruct Hr as (-> & ? & ?).
  - right. exists a. split; [done|]. left. destruct a0 as [|se]; [done|].
    exists se. case_bool_decide; by simplify_eq/=.
Qed.
End SubmissionLemmas.

(** ** Lemmas: collection traces *)

Section CollectionLemmas.
Context `{ProtocolEnums} `{Platform}.

(** A wait slice that timed out: the flag is read as clear, the job is waited
    for one slice and, when the wait is bounded, the clock is read. *)
Definition timed_out (f : Flag) (job : Job) (bounded : bool) (slice : string * Z)
    : list Event :=
  polls f false ++
  EvWait job CollectionSlice (Unexpected (MkSubmitterError Timeout slice.1)) ::
  (if bounded then [EvNow slice.2] else []).

(** The last slice of a job that is done. *)
Definition finished (f : Flag) (job : Job) : list Event :=
  polls f false ++ [EvWait job CollectionSlice (Value Done)].

(** The deadline had not passed when the clock was read. *)
Definition within_deadline (bounded : bool) (waitTimeout started : Z) (slice : string * Z)
    : Prop :=
  bounded = true -> (slice.2 - started < seconds_to_ns waitTimeout)%Z.

(** Why waiting for a job gave up, and the events of the last round. *)
Inductive gave_up (f : Flag) (job : Job) (bounded : bool) (waitTimeout started : Z)
    : Error -> list Event -> Prop :=
| gave_up_shutdown e :
    kind e = ShutdownRequested -> f = terminationRequested ->
    gave_up f job bounded waitTimeout started e [EvLoadFlag true]
| gave_up_canceled e s :
    kind e = DeviceError -> s <> Done ->
    gave_up f job bounded waitTimeout started e
      (polls f false ++ [EvWait job CollectionSlice (Value s)])
| gave_up_device se :
    code se <> Timeout ->
    gave_up f job bounded waitTimeout started (toQrmciError DeviceError se)
      (polls f false ++ [EvWait job CollectionSlice (Unexpected se)])
| gave_up_deadline e slice :
    kind e = DeviceError -> bounded = true ->
    (seconds_to_ns waitTimeout <= slice.2 - started)%Z ->
    gave_up f job bounded waitTimeout started e (timed_out f job bounded slice).

Lemma waitForJob_wp fuel job bounded waitTimeout started f :
  wp (waitForJob fuel job bounded waitTimeout started f) (fun evs r =>
    exists slices tail,
      evs = (slices ≫= timed_out f job bounded) ++ tail /\
      Forall (within_deadline bounded waitTimeout started) slices /\
      match r with
      | None => length slices = fuel /\ tail = []
      | Some (Value _) => tail = finished f job
      | Some (Unexpected e) => gave_up f job bounded waitTimeout started e tail
      end).
Proof.
  induction fuel as [|fuel IH]; cbn [waitForJob]; [wp_step; by exists [], []|].
  wp_step. apply wp_poll. intros stop Hstop. wp_step.
  { wp_step. destruct f; [by specialize (Hstop eq_refl)|]. subst.
    exists [], [EvLoadFlag true]. split_and!; [done..|]. by constructor. }
  subst stop. wp_step. unfold wait. wp_step. destruct a as [s|se].
  { case_bool_decide as Hs; wp_step; eexists [], _; (split; [reflexivity|]); (split; [done|]).
    - by subst.
    - rewrite app_nil_r. by constructor. }
  case_bool_decide as Hc; cbn [negb].
  2:{ wp_step. eexists [], _. rewrite app_nil_r. split_and!; [done..|]. by constructor. }
  destruct se as [c msg]; cbn in Hc; subst c. destruct bounded.
  - wp_step. unfold now. wp_step. wp_step.
    + bool_to_prop. wp_step. exists [], (timed_out f job true (msg, a)).
      rewrite app_nil_r. split_and!; [done..|]. by constructor.
    + bool_to_prop. eapply wp_mono; [apply IH|]. intros evs r (slices & tail & -> & Hd & Hr).
      exists ((msg, a) :: slices), tail. cbn. unfold timed_out at 2. cbn.
      rewrite <- !app_assoc. cbn. split_and!; [done| |].
      * by constructor; [intros _|].
      * destruct r as [[|]|]; naive_solver.
  - eapply wp_mono; [apply IH|]. intros evs r (slices & tail & -> & Hd & Hr).
    exists ((msg, 0%Z) :: slices), tail. cbn. unfold timed_out at 2. cbn.
      rewrite <- !app_assoc. cbn. split_and!; [done| |].
    + by constructor.
    + destruct r as [[|]|]; naive_solver.
Qed.

(** A job collected: its wait started, some slices timed out within the
    deadline, the last one found it done, and its counts were read. *)
Definition job_collected (f : Flag) (bounded : bool) (waitTimeout : Z) (job : Job) (c : Counts)
    (evs : list Event) : Prop :=
  exists started slices,
    Forall (within_deadline bounded waitTimeout started) slices /\
    evs = EvNow started :: (slices ≫= timed_out f job bounded) ++ finished f job ++
          [EvCounts job (Value c)].

(** The collection stopped at [job] with the error [e]. *)
Definition job_failed (f : Flag) (bounded : bool) (waitTimeout : Z) (job : Job) (e : Error)
    (evs : list Event) : Prop :=
  exists started slices tail,
    Forall (within_deadline bounded waitTimeout started) slices /\
    evs = EvNow started :: (slices ≫= timed_out f job bounded) ++ tail /\
    (gave_up f job bounded waitTimeout started e tail \/
     exists se, e = toQrmciError DeviceError se /\
       tail = finished f job ++ [EvCounts job (Unexpected se)]).

(** One block of events per job. *)
Definition jobs_collected (f : Flag) (bounded : bool) (waitTimeout : Z) (jobs : list Job)
    (cs : list Counts) (blocks : list (list Event)) : Prop :=
  length cs = length jobs /\ length blocks = length jobs /\
  forall i j c evs, jobs !! i = Some j -> cs !! i = Some c -> blocks !! i = Some evs ->
    job_collected f bounded waitTimeout j c evs.

Lemma jobs_collected_nil f bounded waitTimeout : jobs_collected f bounded waitTimeout [] [] [].
Proof. split_and!; [done..|]. by intros []. Qed.

Lemma jobs_collected_cons f bounded waitTimeout j c evs jobs cs blocks :
  job_collected f bounded waitTimeout j c evs ->
  jobs_collected f bounded waitTimeout jobs cs blocks ->
  jobs_collected f bounded waitTimeout (j :: jobs) (c :: cs) (evs :: blocks).
Proof.
  intros Hj (Hl & Hb & Hall). split_and!; [cbn; lia..|]. intros [|i]; cbn.
  - by intros ??? [= <-] [= <-] [= <-].
  - apply Hall.
Qed.

Lemma jobs_collected_lookup f bounded waitTimeout jobs cs blocks i j c :
  jobs_collected f bounded waitTimeout jobs cs blocks -> jobs !! i = Some j -> cs !! i = Some c ->
  EvWait j CollectionSlice (Value Done) ∈ concat blocks /\ EvCounts j (Value c) ∈ concat blocks.
Proof.
  intros (_ & Hlb & Hjs) Hj Hc.
  destruct (lookup_lt_is_Some_2 blocks i) as [b Hb]; [apply lookup_lt_Some in Hj; lia|].
  destruct (Hjs i j c b Hj Hc Hb) as (started & slices & _ & Eb).
  assert (forall ev, ev ∈ b -> ev ∈ concat blocks) as Hin.
  { intros ev Hev. apply list_elem_of_In, in_concat. exists b.
    split; apply list_elem_of_In; [by eapply list_elem_of_lookup_2|done]. }
  subst b. unfold finished in Hin. split; apply Hin; set_solver.
Qed.

Lemma collectJobs_wp fuel jobs bounded waitTimeout f h :
  wp (collectJobs fuel jobs bounded waitTimeout f h) (fun evs r =>
    exists done rest cs blocks tail,
      jobs = done ++ rest /\ jobs_collected f bounded waitTimeout done cs blocks /\
      evs = concat blocks ++ tail /\
      match r with
      | Some (Value h') => rest = [] /\ tail = [] /\ h' = h ++ (Some <$> cs)
      | Some (Unexpected e) =>
          exists j rest', rest = j :: rest' /\ job_failed f bounded waitTimeout j e tail
      | None =>
          exists j rest' started slices, rest = j :: rest' /\ length slices = fuel /\
            Forall (within_deadline bounded waitTimeout started) slices /\
            tail = EvNow started :: (slices ≫= timed_out f j bounded)
      end).
Proof.
  revert h. induction jobs as [|j jobs IH]; intros h; cbn [collectJobs].
  { wp_step. exists [], [], [], [], []. split_and!; [done|apply jobs_collected_nil|done..|].
    by rewrite app_nil_r. }
  wp_step. unfold now. wp_step. wp_step. eapply wp_mono; [apply waitForJob_wp|].
  intros evs r (slices & tail & -> & Hd & Hr). destruct r as [[u|e]|].
  - subst tail. cbn [or_return]. wp_step. unfold counts. wp_step. wp_step.
    + destruct a0 as [c|]; simplify_eq/=. eapply wp_mono; [apply IH|].
      intros evs r (dn & rest & cs & blocks & tail & -> & Hjs & -> & Hr).
      exists (j :: dn), rest, (a1 :: cs).
      eexists (_ :: blocks), tail. split; [done|]. split.
      { apply jobs_collected_cons; [|done]. exists a, slices. split; [done|]. reflexivity. }
      split; [cbn; by rewrite <- !app_assoc|]. destruct r as [[h'|]|]; [|done..].
      destruct Hr as (? & ? & ->). by rewrite <- app_assoc.
    + destruct a0 as [|se]; simplify_eq/=.
      eexists [], (j :: jobs), [], [], _. split_and!; [done|apply jobs_collected_nil|done|].
      exists j, jobs. split; [done|]. exists a. eexists slices, _. split; [done|].
      split; [by rewrite <- app_assoc|]. right. by exists se.
  - cbn [or_return]. wp_step. eexists [], (j :: jobs), [], [], _.
    split_and!; [done|apply jobs_collected_nil|done|].
    exists j, jobs. split; [done|]. exists a, slices, tail. rewrite app_nil_r. eauto.
  - destruct Hr as [Hl ->]. eexists [], (j :: jobs), [], [], _.
    split_and!; [done|apply jobs_collected_nil|done|].
    exists j, jobs, a, slices. by rewrite app_nil_r.
Qed.

Lemma collectQuantumResult_wp fuel task jobs waitTimeout f :
  wp (collectQuantumResult fuel task jobs waitTimeout f) (fun evs r =>
    let bounded := (0 <? waitTimeout)%Z in
    exists done rest cs blocks tail,
      jobs = done ++ rest /\ jobs_collected f bounded waitTimeout done cs blocks /\
      evs = concat blocks ++ tail /\
      match r with
      | Some res =>
          (rest = [] /\ tail = [] /\ res = buildQuantumResult task (Some <$> cs)) \/
          (exists e j rest', res = Unexpected e /\ rest = j :: rest' /\
             job_failed f bounded waitTimeout j e tail)
      | None =>
          exists j rest' started slices, rest = j :: rest' /\ length slices = fuel /\
            Forall (within_deadline bounded waitTimeout started) slices /\
            tail = EvNow started :: (slices ≫= timed_out f j bounded)
      end).
Proof.
  unfold collectQuantumResult. wp_step. eapply wp_mono; [apply collectJobs_wp|].
  intros evs r (dn & rest & cs & blocks & tail & -> & Hjs & -> & Hr).
  destruct r as [[h|e]|]; cbn [or_return].
  - destruct Hr as (-> & -> & ->). wp_step. exists dn, [], cs, blocks, []. rewrite !app_nil_r. split_and!; [done..|]. by left.
  - destruct Hr as (j & rest' & -> & Hf). wp_step. exists dn, (j :: rest'), cs, blocks, tail.
    rewrite app_nil_r. split_and!; [done..|]. right. eauto 6.
  - exists dn, rest, cs, blocks, tail. auto.
Qed.
End CollectionLemmas.

(** ** Lemmas: polling and termination *)

Section PollingLemmas.
Context `{ProtocolEnums} `{Platform}.

(** The polling discipline of the waiting loop: every wait is one slice long
    and is the very next call after the flag was read as clear; nothing but
    clock readings and counts comes between the rounds. [armed] says that the
    flag has just been read as clear. *)
Fixpoint polled (armed : bool) (evs : list Event) : Prop :=
  match evs with
  | [] => True
  | EvLoadFlag set :: rest => set = false /\ polled true rest
  | EvWait _ secs _ :: rest => armed = true /\ secs = CollectionSlice /\ polled false rest
  | EvNow _ :: rest | EvCounts _ _ :: rest => polled false rest
  | _ => False
  end.

Lemma polled_arm evs armed : polled false evs -> polled armed evs.
Proof. by destruct evs as [|[] ?]; cbn; naive_solver. Qed.

Lemma polled_app armed evs evs' :
  polled armed evs -> polled false evs' -> polled armed (evs ++ evs').
Proof.
  revert armed. induction evs as [|ev evs IH]; intros armed; cbn; [intros _; apply polled_arm|].
  destruct ev; naive_solver.
Qed.

Lemma polled_slices job bounded slices :
  polled false (slices ≫= timed_out terminationRequested job bounded).
Proof.
  induction slices as [|s slices IH]; cbn; [done|].
  by destruct bounded.
Qed.

Lemma polled_concat blocks : Forall (polled false) blocks -> polled false (concat blocks).
Proof. induction 1; cbn; [done|]. by apply polled_app. Qed.

Lemma polled_jobs bounded waitTimeout jobs cs blocks :
  jobs_collected terminationRequested bounded waitTimeout jobs cs blocks ->
  polled false (concat blocks).
Proof.
  intros (Hc & Hb & Hall). apply polled_concat, Forall_lookup_2. intros i evs Hi.
  pose proof (lookup_lt_Some _ _ _ Hi) as Hlt.
  destruct (lookup_lt_is_Some_2 jobs i) as [j Hj]; [lia|].
  destruct (lookup_lt_is_Some_2 cs i) as [c Hc']; [lia|].
  destruct (Hall i j c evs Hj Hc' Hi) as (started & slices & _ & ->). cbn.
  apply polled_app; [apply polled_slices|]. cbn. auto.
Qed.

Lemma polled_gave_up job bounded waitTimeout started e tail :
  gave_up terminationRequested job bounded waitTimeout started e tail ->
  if bool_decide (kind e = ShutdownRequested) then tail = [EvLoadFlag true]
  else polled false tail.
Proof.
  inversion 1; case_bool_decide as Hk; cbn; try done; try congruence.
  by destruct bounded.
Qed.

(** Under a steady clock, one slice per second of the deadline is enough. *)
Lemma waitForJob_returns clock `{!SteadyClock clock} fuel (k : nat) job waitTimeout started f w :
  (0 < waitTimeout <= 9223372036)%Z ->
  (started + Z.of_nat k * 1000000000 <= clock (env w))%Z ->
  (Z.of_nat k < waitTimeout <= Z.of_nat k + Z.of_nat fuel)%Z ->
  (waitForJob fuel job true waitTimeout started f w).2 <> None.
Proof.
  intros HT. revert k w. induction fuel as [|fuel IH]; intros k w Hclock Hk; [lia|].
  cbn [waitForJob]. unfold mbind, M_bind.
  assert (exists b w1, load f w = (w1, Some b) /\ (clock (env w) <= clock (env w1))%Z)
    as (b & w1 & -> & Hc1).
  { destruct f; cbn; unfold mret, M_ret; [exists false, w; split; [done|lia]|].
    unfold call. pose proof (load_flag_clock (clock := clock) (env w)) as Hl.
    destruct (platform_load_flag (env w)) as [e b]. exists b. eexists. split; [done|]. exact Hl. }
  destruct b; [done|]. unfold wait, call.
  pose proof (wait_clock (clock := clock) job CollectionSlice (env w1)) as Hw.
  pose proof (wait_timeout_elapses (clock := clock) job CollectionSlice (env w1)) as Ht.
  destruct (platform_wait job CollectionSlice (env w1)) as [e2 [s|se]]; cbn in Hw, Ht |- *.
  { by case_bool_decide. }
  case_bool_decide as Hcode; cbn [negb]; [|done]. specialize (Ht _ eq_refl Hcode).
  unfold now, call. cbn. pose proof (now_between (clock := clock) e2) as Hn.
  destruct (platform_now e2) as [e3 t]; cbn in *.
  change (seconds_to_ns CollectionSlice) with 1000000000%Z in Ht.
  rewrite (seconds_to_ns_exact waitTimeout) by lia.
  destruct (Z.leb_spec (waitTimeout * 1000000000) (t - started)); [done|].
  apply (IH (S k)); cbn; lia.
Qed.

Lemma collectJobs_returns clock `{!SteadyClock clock} fuel jobs waitTimeout f h w :
  (0 < waitTimeout <= 9223372036)%Z -> (waitTimeout <= Z.of_nat fuel)%Z ->
  (collectJobs fuel jobs true waitTimeout f h w).2 <> None.
Proof.
  intros HT Hfuel. revert h w. induction jobs as [|j jobs IH]; intros h w; [done|].
  cbn [collectJobs]. unfold mbind, M_bind, now at 1, call at 1.
  pose proof (now_between (clock := clock) (env w)) as Hn.
  destruct (platform_now (env w)) as [e t]; cbn in Hn |- *.
  pose proof (waitForJob_returns clock fuel 0 j waitTimeout t f
    (MkWorld e (trace w ++ [EvNow t])) HT) as Hr.
  destruct (waitForJob _ _ _ _ _ _ _) as [w2 [[u|err]|]]; cbn in Hr |- *.
  - unfold mbind, M_bind, counts, call. destruct (platform_counts j (env w2)) as [e3 [c|se]]; cbn; [|done].
    apply IH.
  - done.
  - exfalso. apply Hr; [lia|lia|done].
Qed.
End PollingLemmas.
