(* ===== verification/ExecutionProperties.v ===== *)
(** * Properties of task execution

    The theorems on submission, collection and execution (Runners.cpp,
    TaskSubmission.cpp), and the one that ties compilation to submission. *)

From S2P Require Import Prelude Error Externals ConstantsMapping CircuitFormatPolicy.
From S2P Require Import World BackendWrapper RunnersCompilation RunnersExecution.

(** ** The result *)

(** C20: the result of a task is exact. A histogram is turned into a result if
    and only if it has one entry per circuit file, every entry is present and
    every count fits a signed 32-bit integer; the result then holds, for each
    circuit in order, exactly the counts reported (none lost to the narrowing),
    and the identity and the destination of the task. *)
Theorem result_is_exact task h r :
  Forall counts_wf (omap id h) ->
  buildQuantumResult task h = Value r <->
  exists cs, h = Some <$> cs /\ length cs = length (circuit_files task) /\
    Forall counts_fit cs /\
    r = MkQuantumResult (task_id task) (result_destination task) (scheduled_qpu task) true
          "COMPLETED" (list_to_map <$> cs).
Proof.
  intros Hwf. rewrite buildQuantumResult_value.
  assert (forall cs, h = Some <$> cs -> Forall counts_fit cs ->
    protoCounts <$> cs = (list_to_map <$> cs : list (gmap string Z))) as Hex.
  { intros cs -> Hfit. apply list_fmap_ext. intros i c Hc.
    rewrite Forall_lookup in Hfit. apply protoCounts_exact; [|by eapply Hfit].
    rewrite Forall_forall in Hwf. apply Hwf. apply list_elem_of_omap.
    exists (Some c). split; [|done]. apply list_elem_of_fmap_2. by eapply list_elem_of_lookup_2. }
  split; intros (cs & Hh & Hl & Hfit & ->); exists cs; by rewrite (Hex cs Hh Hfit).
Qed.

Lemma result_is_exact_witness :
  exists r, buildQuantumResult (MkQuantumTask 7 2 100 ["a"; "b"] "qasm2" "out" "" "alpha" [] true 0 0)
    [Some [("0", 40); ("1", 60)]; Some []]%Z = Value r /\
  qr_results r = [{["0" := 40; "1" := 60]}; ∅]%Z.
Proof.
  exists (MkQuantumResult 7 "out" "alpha" true "COMPLETED"
    (list_to_map <$> [[("0", 40); ("1", 60)]; []])%Z). split; [|reflexivity].
  apply result_is_exact.
  - repeat constructor; vm_compute; set_solver.
  - exists [[("0", 40); ("1", 60)]; []]%Z. split_and!; [done..| |].
    + by repeat constructor.
    + reflexivity.
Defined.

Section Properties.
Context `{ProtocolEnums} `{Platform}.
Implicit Types (task : QuantumTask) (d : Device).

(** ** Submission *)

(** C17: a successful submission. The task passed validation, the device was
    asked for its children once, and then each circuit file was submitted once,
    in order, with the task's format and shot count, all on one and the same
    target: the first child if there is one, else the device itself. The jobs
    are returned in circuit order and nothing else was asked of the device. *)
Theorem submit_success_spec task d f :
  wp (submitQuantumTask task d f) (fun evs r =>
    forall jobs, r = Some (Value jobs) ->
    exists format answer pl,
      validateSubmission task = Value format /\ placement_of answer pl /\
      length jobs = length (circuit_files task) /\
      evs = EvChildren d answer :: submit_events task d f format pl 0 jobs).
Proof.
  eapply wp_mono; [apply submitQuantumTask_wp|].
  intros evs r Hr jobs ->.
  destruct Hr as [(? & _ & ? & _)|(format & Hv & [(? & _ & _ & ?)|(ans & pl & js & tail & Hp & -> & Hr)])];
    [done..|].
  destruct Hr as (-> & Hl & ->). exists format, ans, pl. by rewrite app_nil_r.
Qed.

(** C16: shutdown during submission leaks no job. Submission answers
    [ShutdownRequested] exactly when it has read the termination flag as set,
    and then every job already submitted has been cancelled, once, in order,
    whatever the device answered to the cancellations; no circuit was submitted
    after the flag was read. *)
Theorem submit_shutdown_cancels task d f :
  wp (submitQuantumTask task d f) (fun evs r =>
    (EvLoadFlag true ∈ evs <->
     exists e, r = Some (Unexpected e) /\ kind e = ShutdownRequested) /\
    forall e, r = Some (Unexpected e) -> kind e = ShutdownRequested ->
    exists format answer pl jobs answers,
      placement_of answer pl /\ length answers = length jobs /\
      length jobs < length (circuit_files task) /\
      evs = EvChildren d answer :: submit_events task d f format pl 0 jobs ++
            EvLoadFlag true :: zip_with EvCancel jobs answers).
Proof.
  assert (forall format pl i jobs, EvLoadFlag true ∉ submit_events task d f format pl i jobs) as Hns.
  { intros format pl i jobs. revert i. induction jobs as [|j jobs IH]; intros i; cbn; [set_solver|].
    specialize (IH (S i)). destruct f; set_solver. }
  eapply wp_mono; [apply submitQuantumTask_wp|]. intros evs r Hr. destruct r as [res|]; [|done].
  destruct Hr as [(e & Hv & -> & ->)|(format & Hv & [(se & Hc & -> & ->)|
    (ans & pl & js & tail & Hp & -> & Hr)])].
  - unfold validateSubmission in Hv.
    assert (kind e = SubmissionFailed) as Hk by (branches; done).
    split; [split; [set_solver|]|]; naive_solver congruence.
  - split; [split; [set_solver|]|]; naive_solver congruence.
  - destruct res as [all|e].
    { destruct Hr as (-> & _ & ->). rewrite app_nil_r. split; [|done].
      split; [|naive_solver]. set_solver. }
    destruct Hr as [Hlt [(Hk & -> & answers & Hl & ->)|(se & -> & ->)]].
    + split; [split; [eauto|set_solver]|]. intros ? [= <-] _. exists format, ans, pl, js, answers. auto.
    + split; [split|]; [|naive_solver congruence..].
      destruct f; set_solver.
Qed.

(** An invalid task never reaches the device. Without circuits, with a
    non-positive shot count or with a circuit type that has no known format,
    submission fails with [SubmissionFailed] before any call; otherwise the
    device is asked for its children first. *)
Theorem submit_validates_first task d f :
  wp (submitQuantumTask task d f) (fun evs r =>
    if bool_decide (circuit_files task = []) || (n_shots task <=? 0)%Z ||
       (mapTaskCircuitTypeToCircuitFormat (circuit_file_type task)
          =? CIRCUIT_FORMAT_UNSPECIFIED)%Z
    then evs = [] /\ exists e, r = Some (Unexpected e) /\ kind e = SubmissionFailed
    else exists answer rest, evs = EvChildren d answer :: rest).
Proof.
  eapply wp_mono; [apply submitQuantumTask_wp|]. intros evs [res|]; [|done].
  unfold validateSubmission. case_bool_decide; cbn [orb].
  { intros [(e & [= <-] & -> & ->)|(? & [=] & _)]. eauto. }
  destruct (n_shots task <=? 0)%Z; cbn [orb].
  { intros [(e & [= <-] & -> & ->)|(? & [=] & _)]. eauto. }
  destruct (_ =? _)%Z.
  { intros [(e & [= <-] & -> & ->)|(? & [=] & _)]. eauto. }
  intros [(? & [=] & _)|(format & _ & [(se & _ & -> & _)|(ans & pl & js & tail & _ & -> & _)])]; eauto.
Qed.

(** ** Collection *)

(** A successful collection waited for every job until it was done, in
    submission order, read the counts of each exactly once, and the result is
    the one assembled from these counts. *)
Theorem collect_success_spec fuel task jobs waitTimeout f :
  wp (collectQuantumResult fuel task jobs waitTimeout f) (fun evs r =>
    forall qr, r = Some (Value qr) ->
    exists cs blocks,
      jobs_collected f (0 <? waitTimeout)%Z waitTimeout jobs cs blocks /\
      evs = concat blocks /\ buildQuantumResult task (Some <$> cs) = Value qr).
Proof.
  eapply wp_mono; [apply collectQuantumResult_wp|].
  intros evs r (dn & rest & cs & blocks & tail & -> & Hjs & -> & Hr) qr ->.
  destruct Hr as [(-> & -> & Hb)|(? & ? & ? & ? & _)]; [|done].
  exists cs, blocks. by rewrite !app_nil_r.
Qed.

(** C18: collection can be interrupted at every slice. Each wait is one second
    long and is made right after the termination flag was read as clear, and a
    read of the flag as set ends the collection on the spot with
    [ShutdownRequested], which is reported for no other reason. Runs that do
    not return are covered too. *)
Theorem collect_obeys_shutdown fuel task jobs waitTimeout :
  wp (collectQuantumResult fuel task jobs waitTimeout terminationRequested) (fun evs r =>
    exists before last, evs = before ++ last /\ polled false before /\
    match r with
    | Some (Unexpected e) =>
        if bool_decide (kind e = ShutdownRequested) then last = [EvLoadFlag true]
        else last = []
    | _ => last = []
    end).
Proof.
  eapply wp_mono; [apply collectQuantumResult_wp|].
  intros evs r (dn & rest & cs & blocks & tail & -> & Hjs%polled_jobs & -> & Hr).
  destruct r as [res|].
  2:{ destruct Hr as (j & rest' & started & slices & _ & _ & _ & ->).
      eexists _, []. rewrite app_nil_r. split_and!; [done| |done].
      apply polled_app; [done|]. apply polled_slices. }
  destruct Hr as [(-> & -> & ->)|(e & j & rest' & -> & -> & started & slices & tl & _ & -> & Hf)].
  - exists (concat blocks), []. split_and!; [done..|].
    destruct (buildQuantumResult _ _) as [|e] eqn:Eb; [done|].
    apply buildQuantumResult_kind in Eb. case_bool_decide; [congruence|done].
  - destruct Hf as [Hg|(se & -> & ->)].
    + apply polled_gave_up in Hg. case_bool_decide.
      * subst. exists (concat blocks ++ EvNow started ::
          (slices ≫= timed_out terminationRequested j (0 <? waitTimeout)%Z)), [EvLoadFlag true].
        rewrite <- app_assoc. split_and!; [done| |done].
        apply polled_app; [done|]. apply polled_slices.
      * eexists _, []. rewrite app_nil_r. split_and!; [done| |done].
        apply polled_app; [done|]. cbn. by apply polled_app; [apply polled_slices|].
    + cbn. eexists _, []. rewrite app_nil_r. split_and!; [done| |done].
      apply polled_app; [done|]. cbn. by apply polled_app; [apply polled_slices|].
Qed.

(** C19: a bounded collection terminates. The timeout is 1 to 9223372036 seconds,
    which a 64-bit count of nanoseconds can hold; the clock is steady; and the
    device answers a wait with [Timeout] only once the slice has passed. Then no
    job is waited for more than [waitTimeout] slices and the collection returns,
    whether the jobs finish, fail or stay unfinished. *)
Theorem bounded_collection_returns clock `{!SteadyClock clock} fuel task jobs waitTimeout f w :
  (0 < waitTimeout <= 9223372036)%Z -> (waitTimeout <= Z.of_nat fuel)%Z ->
  exists res, (collectQuantumResult fuel task jobs waitTimeout f w).2 = Some res.
Proof.
  intros HT Hfuel. unfold collectQuantumResult.
  rewrite (proj2 (Z.ltb_lt 0 waitTimeout)) by lia. unfold mbind, M_bind.
  pose proof (collectJobs_returns clock fuel jobs waitTimeout f [] w HT Hfuel) as Hr.
  destruct (collectJobs _ _ _ _ _ _ _) as [w' [[h|e]|]]; cbn in *; [eauto..|done].
Qed.

(** ** Execution *)

(** A task that is executed has one result per circuit, aligned with it:
    the [i]-th entry of the result is made of the counts read from the job that
    was submitted for the [i]-th circuit file. *)
Theorem executed_results_aligned fuel task d waitTimeout f :
  wp (executeQuantumTask fuel task d waitTimeout f) (fun evs r =>
    forall qr, r = Some (Value qr) ->
    exists format pl (jobs : list Job) (cs : list Counts),
      length jobs = length (circuit_files task) /\ length cs = length jobs /\
      qr_results qr = protoCounts <$> cs /\
      forall i j c, jobs !! i = Some j -> cs !! i = Some c ->
        EvSubmit d (makeJobRequest task i format) pl (Value j) ∈ evs /\
        EvCounts j (Value c) ∈ evs).
Proof.
  unfold executeQuantumTask. wp_step. eapply wp_mono; [apply submitQuantumTask_wp|].
  intros evs [res|] Hsub; [|done]. destruct res as [jobs|e]; cbn [or_return]; [|by wp_step].
  destruct Hsub as [(? & _ & ? & _)|(format & _ & [(? & _ & _ & ?)|
    (ans & pl & js & tail & _ & -> & <- & Hl & _)])]; [done..|].
  eapply wp_mono; [apply collectQuantumResult_wp|].
  intros evs r (dn & rest & cs & blocks & tl & -> & Hjs & -> & Hr) qr ->.
  destruct Hr as [(-> & -> & Hb)|(? & ? & ? & ? & _)]; [|done].
  rewrite app_nil_r in *. symmetry in Hb. apply buildQuantumResult_value in Hb as (cs' & Heq & _ & _ & ->).
  apply (inj (fmap Some)) in Heq as <-.
  exists format, pl, dn, cs. split_and!; [done|by destruct Hjs|done|]. intros i j c Hj Hc.
  pose proof (submit_events_lookup task d f format pl 0 dn i j Hj).
  pose proof (jobs_collected_lookup _ _ _ _ _ _ i j c Hjs Hj Hc). set_solver.
Qed.
End Properties.

Lemma bounded_collection_returns_witness :
  exists res, (@collectQuantumResult sim_platform 3
    (MkQuantumTask 7 2 100 ["a"] "qasm2" "out" "" "alpha" [] true 0 0) [100%nat] 3
    terminationRequested (sim_world 10 [])).2 = Some res.
Proof.
  apply (@bounded_collection_returns sim_platform sim_clock sim_steady); lia.
Defined.

(** ** From admission to submission *)

(** C21: an admitted and compiled task is submittable. If a backend said it can
    run the task, the task has circuits and a positive shot count, and
    compilation for that backend succeeded, then validation at submission
    accepts the compiled task, with a circuit format the backend advertises. *)
Theorem compiled_task_is_submittable `{ProtocolLaws} `{CompilerFormats} `{Platform} task b :
  canRun b task = true -> circuit_files task <> [] -> (0 < n_shots task)%Z ->
  wp (compileQuantumTask task b) (fun _ r =>
    forall task', r = Some (Value tt, task') ->
    exists format, validateSubmission task' = Value format /\
      format ∈ bw_supportedCircuitFormats b).
Proof.
  intros Hrun Hfiles Hshots. eapply wp_mono; [apply compileQuantumTask_wp|].
  intros evs r [_ Hr] task' ->.
  assert (forall t ty, circuit_files t <> [] -> n_shots t = n_shots task ->
    circuit_file_type t = ty ->
    mapTaskCircuitTypeToCircuitFormat ty <> CIRCUIT_FORMAT_UNSPECIFIED ->
    validateSubmission t = Value (mapTaskCircuitTypeToCircuitFormat ty)) as Hval.
  { intros t ty ? Hs <- ?. unfold validateSubmission. rewrite bool_decide_eq_false_2 by done.
    rewrite Hs, (proj2 (Z.leb_gt _ _)) by done. by rewrite (proj2 (Z.eqb_neq _ _)). }
  destruct (no_modify task) eqn:Hm.
  - destruct Hr as [-> _]. unfold canRun, canPrepareTaskForBackend in Hrun.
    rewrite Hm in Hrun. branches. bool_to_prop. eauto.
  - destruct Hr as (target & level & texts & Ht & _ & Hlen & _ & ->).
    destruct (chooseCompilerTarget_in_table _ _ Ht) as [Htab Hin].
    exists (circuitFormat target). split; [|done]. rewrite <- (target_label target) by done.
    apply Hval; [|done..|]; cbn.
    + intros ->. by destruct (circuit_files task).
    + rewrite target_label by done. by apply target_specified.
Qed.

Lemma compiled_task_is_submittable_witness :
  let task := MkQuantumTask 7 2 100 ["circuit"] "quake" "out" "" "" [] false 0 0 in
  let b := @BackendWrapper_of_Backend example_enums example_backend in
  @canRun example_enums example_formats b task = true /\
  @wp sim_platform _ (@compileQuantumTask example_enums example_formats sim_platform task b)
    (fun _ r => forall task', r = Some (Value tt, task') ->
     exists format, @validateSubmission example_enums task' = Value format /\
       format ∈ bw_supportedCircuitFormats b).
Proof.
  split; [vm_compute; reflexivity|].
  apply (@compiled_task_is_submittable example_enums example_laws example_formats sim_platform);
    [vm_compute; reflexivity | done | reflexivity].
Defined.
