(* ===== verification/Config.v ===== *)
(** * Config.h, Config.cpp, ConfigDefaults.h: the configuration of a daemon

    Defaults, an optional TOML file and environment overrides, validated field
    by field. The TOML library, the file system and the environment block are
    operations of the classes [TomlNodes] and [ConfigSources]. *)

From Stdlib Require Import Ascii.
From S2P Require Import Prelude Error BackendRegistry.

(** ** toml++ *)

(** A table is its key-value pairs in iteration order. [toml_value_string],
    [toml_value_int] and [toml_value_int64] are [node.value<T>()]. *)
Class TomlNodes : Type := {
  TomlNode : Type;
  toml_as_table : TomlNode -> option (list (string * TomlNode));
  toml_of_table : list (string * TomlNode) -> TomlNode;
  toml_value_string : TomlNode -> option string;
  toml_value_int : TomlNode -> option Z;
  toml_value_int64 : TomlNode -> option Z;
}.

(** A table viewed as a node is that table. *)
Class TomlLaws `{TomlNodes} : Prop :=
  toml_table_view t : toml_as_table (toml_of_table t) = Some t.

Abbreviation toml_table := (list (string * TomlNode)).

(** [toml::node_view]: a node or nothing. Subscripting a view that is not a
    table, or a key the table does not have, gives an empty view. *)
Definition toml_at `{TomlNodes} (view : option TomlNode) (key : string) : option TomlNode :=
  node ← view; table ← toml_as_table node; smap_find key table.

(** ** The file system and the environment block *)

Class ConfigSources `{TomlNodes} : Type := {
  getenv : string -> option string;
  file_exists : string -> bool;
  parse_file : string -> expected string toml_table;
}.

(** ** Standard library *)

(** [std::filesystem::path::operator/] on POSIX. *)
Definition ends_with_slash (p : string) : bool :=
  match String.get (String.length p - 1) p with
  | Some c => Ascii.eqb c "/"%char
  | None => false
  end.

Definition path_append (p q : string) : string :=
  if String.prefix "/" q then q
  else if String.eqb p "" || ends_with_slash p then p +:+ q
  else p +:+ "/" +:+ q.

(** [std::from_chars] for a 32-bit integer in base ten: an optional minus sign
    and the longest run of digits; the answer is the value, or the error code,
    with what is left of the input. *)
Inductive errc : Type := invalid_argument | result_out_of_range.

Definition digit_value (c : Ascii.ascii) : option Z :=
  let n := Z.of_N (Ascii.N_of_ascii c) in
  if (48 <=? n)%Z && (n <=? 57)%Z then Some (n - 48)%Z else None.

Fixpoint scan_digits (s : string) (acc : Z) : Z * string :=
  match s with
  | String c rest =>
      match digit_value c with
      | Some d => scan_digits rest (acc * 10 + d)
      | None => (acc, s)
      end
  | EmptyString => (acc, s)
  end.

Definition from_chars (s : string) : expected errc Z * string :=
  let '(negative, body) :=
    match s with String "-"%char rest => (true, rest) | _ => (false, s) end in
  let '(magnitude, rest) := scan_digits body 0 in
  if String.eqb rest body then (Unexpected invalid_argument, s)
  else
    let value := (if negative then - magnitude else magnitude)%Z in
    if in_signed 32 value then (Value value, rest)
    else (Unexpected result_out_of_range, rest).

(** ** The configuration records *)

Record RabbitMqConnectionConfig : Type := MkRabbitMqConnectionConfig {
  host : string;
  port : Z;                                (* int *)
  user : string;
  password : string;
  vhost : string;
}.

Record CommonConfig : Type := MkCommonConfig {
  connection : RabbitMqConnectionConfig;
  logDir : string;
  daemonLogger : string;
  daemonLog : string;
  qrmciQueue : string;
  resultsQueue : string;
  schedulerQueue : string;
  schedulerLogger : string;
  schedulerLog : string;
  stagePollInterval : Z;                   (* milliseconds *)
}.

Record SelectorConfig : Type := MkSelectorConfig {
  backendStatusQueue : string;
  selector_logger : string;
  selector_logFile : string;
  selector_entryTimeToLive : Z;            (* backendRegistry, seconds *)
  selectionPolicy : BackendSelectionPolicy;
}.

Record CompilerConfig : Type := MkCompilerConfig {
  compiler_queue : string;
  compiler_logger : string;
  compiler_logFile : string;
  taskReceiveTimeout : Z;                  (* milliseconds *)
}.

Record SubmitterConfig : Type := MkSubmitterConfig {
  submitter_queue : string;
  submitter_logger : string;
  submitter_logFile : string;
  qdmiDriver : string;
  qdmiDeviceName : string;
  qdmiDeviceId : string;
  qdmiClientToken : string;
  jobWaitTimeout : Z;                      (* seconds *)
  submitter_entryTimeToLive : Z;           (* backendRegistry, seconds *)
  backendStatusPublishInterval : Z;        (* milliseconds *)
}.

Record Config : Type := MkConfig {
  common : CommonConfig;
  selector : SelectorConfig;
  compiler : CompilerConfig;
  submitter : SubmitterConfig;
}.

(** The member initialisers of the records. *)
Definition default_entryTimeToLive : Z := 30.
Definition default_stagePollInterval : Z := 100.
Definition default_taskReceiveTimeout : Z := 500.
Definition default_jobWaitTimeout : Z := 0.
Definition default_backendStatusPublishInterval : Z := 5000.

(** ** ConfigDefaults.h *)
Module defaults.
Definition AMQPHost := "127.0.0.1".
Definition AMQPPort : Z := 5672.
Definition AMQPUser := "guest".
Definition AMQPPassword := "guest".
Definition AMQPVHost := "/".
Definition QRMCIQueue := "qrmci.tasks.queue".
Definition SchedulerQueue := "scheduler.tasks.queue".
Definition CompilerQueue := "compiler.tasks.queue".
Definition ResultsQueue := "test.results.queue".
Definition SubmitterQueue := "submitter.tasks.queue".
Definition BackendStatusQueue := "backend.status.queue".
Definition LogDir := "/var/log/qrmci".
Definition CompilerLog := "compiler.log".
Definition SchedulerLog := "scheduler.log".
Definition DaemonLog := "daemon.log".
Definition SubmitterLog := "submitter.log".
Definition SelectorLog := "selector.log".
Definition SubmitterqdmiDriver := "/usr/local/lib/qrmci/libqdmi_example_driver.so".
Definition SubmitterQdmiDeviceName := "C++ Device with 5 qubits".
Definition SubmitterQdmiDeviceId := "cxxdevice5q".
Definition SubmitterQdmiClientToken := "token".
End defaults.

Section Config.
Context `{ConfigSources}.

Definition config_error {A} (detail : string) : result A :=
  Unexpected (MkError ConfigError detail).

(** ** Reading one field *)

Definition getEnvOr (name fallback : string) : string :=
  match getenv name with
  | Some value => value
  | None => fallback
  end.

Definition getEnvIntOrExpected (name : string) (fallback : Z) : result Z :=
  match getenv name with
  | None => Value fallback
  | Some value =>
      match from_chars value with
      | (Value n, EmptyString) => Value n
      | _ => config_error ("Environment variable '" +:+ name +:+ "' is not a valid integer")
      end
  end.

Definition logPath (logDir fileName : string) : string := path_append logDir fileName.

(** [value] is [node.value<T>()] at the type the caller asks for. *)
Definition tomlValueOrExpected {T} (value : TomlNode -> option T) (node : option TomlNode)
    (dottedKey : string) (fallback : T) : result T :=
  match node with
  | None => Value fallback
  | Some n =>
      match value n with
      | Some v => Value v
      | None => config_error ("Configuration key '" +:+ dottedKey +:+ "' has the wrong type")
      end
  end.

Inductive DurationRange : Type := Positive | NonNegative.

Definition tomlDurationOrExpected (node : option TomlNode) (dottedKey : string) (fallback : Z)
    (range : DurationRange) : result Z :=
  duration ←
    match node with
    | None => Value fallback
    | Some n =>
        match toml_value_int64 n with
        | Some v => Value v
        | None => config_error ("Configuration key '" +:+ dottedKey +:+
                                "' has the wrong type: expected an integer")
        end
    end;
  if (duration <? 0)%Z ||
     (match range with Positive => true | NonNegative => false end && (duration =? 0)%Z) then
    config_error ("Configuration key '" +:+ dottedKey +:+
      match range with
      | Positive => "' must be greater than zero"
      | NonNegative => "' must not be negative"
      end)
  else Value duration.

Definition stringField (node : option TomlNode) (dottedKey envName fallback : string)
    : result string :=
  (fun fileValue => getEnvOr envName fileValue) <$>
    tomlValueOrExpected toml_value_string node dottedKey fallback.

Definition requiredStringField (node : option TomlNode) (dottedKey envName fallback : string)
    : result string :=
  value ← stringField node dottedKey envName fallback;
  if String.eqb value "" then
    config_error ("Configuration key '" +:+ dottedKey +:+ "' must not be empty")
  else Value value.

Definition parseSelectionPolicy (value dottedKey : string) : result BackendSelectionPolicy :=
  if String.eqb value "lowest-name" then Value LowestName
  else if String.eqb value "smallest-sufficient" then Value SmallestSufficient
  else config_error ("Configuration key '" +:+ dottedKey +:+
                     "' must be 'lowest-name' or 'smallest-sufficient'").

(** ** The schema *)

Fixpoint checkKeys (table : toml_table) (tablePrefix : string) (allowedKeys : list string)
    : result unit :=
  match table with
  | [] => Value tt
  | (key, _) :: rest =>
      if negb (bool_decide (key ∈ allowedKeys)) then
        config_error ("Unknown configuration key '" +:+ tablePrefix +:+ key +:+ "'")
      else checkKeys rest tablePrefix allowedKeys
  end.

Definition checkTableKeys (tableNode : option TomlNode) (tablePrefix : string)
    (allowedKeys : list string) : result unit :=
  match tableNode with
  | None => Value tt
  | Some n =>
      match toml_as_table n with
      | None =>
          config_error ("Configuration key '" +:+
            String.substring 0 (String.length tablePrefix - 1) tablePrefix +:+
            "' must be a table")
      | Some table => checkKeys table tablePrefix allowedKeys
      end
  end.

Definition checkSchema (root : toml_table) : result unit :=
  let view := Some (toml_of_table root) in
  _ ← checkTableKeys view "" ["common"; "selector"; "compiler"; "submitter"];
  _ ← checkTableKeys (toml_at view "common") "common."
        ["connection"; "logDir"; "daemonLogger"; "qrmciQueue"; "resultsQueue";
         "schedulerQueue"; "schedulerLogger"; "stagePollInterval"];
  _ ← checkTableKeys (toml_at (toml_at view "common") "connection") "common.connection."
        ["host"; "port"; "user"; "password"; "vhost"];
  _ ← checkTableKeys (toml_at view "selector") "selector."
        ["backendStatusQueue"; "logger"; "backendRegistry"; "selectionPolicy"];
  _ ← checkTableKeys (toml_at (toml_at view "selector") "backendRegistry")
        "selector.backendRegistry." ["entryTimeToLive"];
  _ ← checkTableKeys (toml_at view "compiler") "compiler."
        ["queue"; "logger"; "taskReceiveTimeout"];
  _ ← checkTableKeys (toml_at view "submitter") "submitter."
        ["queue"; "logger"; "qdmiDriver"; "qdmiDeviceName"; "qdmiDeviceId";
         "qdmiClientToken"; "jobWaitTimeout"; "backendRegistry";
         "backendStatusPublishInterval"];
  checkTableKeys (toml_at (toml_at view "submitter") "backendRegistry")
    "submitter.backendRegistry." ["entryTimeToLive"].

Definition parseConfigFile (configFile : string) : result toml_table :=
  if negb (file_exists configFile) then Value []
  else
    match parse_file configFile with
    | Unexpected description =>
        config_error ("Failed to parse config file '" +:+ configFile +:+ "': " +:+ description)
    | Value table => Value table
    end.

(** ** Assembly

    [assembleConfig] of the source is one function; it is read here one table
    at a time, in the source's order, and each reader fills in the part of the
    final [Config] its table feeds. *)

(** The parts of the final [Config], with the paths of their log files. *)
Definition makeCommonConfig (logDir : string) (connection : RabbitMqConnectionConfig)
    (daemonLogger qrmciQueue resultsQueue schedulerQueue schedulerLogger : string)
    (stagePollInterval : Z) : CommonConfig :=
  {|
    connection := connection;
    logDir := logDir;
    daemonLogger := daemonLogger;
    daemonLog := logPath logDir defaults.DaemonLog;
    qrmciQueue := qrmciQueue;
    resultsQueue := resultsQueue;
    schedulerQueue := schedulerQueue;
    schedulerLogger := schedulerLogger;
    schedulerLog := logPath logDir defaults.SchedulerLog;
    stagePollInterval := stagePollInterval;
  |}.

Definition makeSelectorConfig (logDir backendStatusQueue selectorLogger : string)
    (selectorEntryTimeToLive : Z) (selectionPolicy : BackendSelectionPolicy) : SelectorConfig :=
  {|
    backendStatusQueue := backendStatusQueue;
    selector_logger := selectorLogger;
    selector_logFile := logPath logDir defaults.SelectorLog;
    selector_entryTimeToLive := selectorEntryTimeToLive;
    selectionPolicy := selectionPolicy;
  |}.

Definition makeCompilerConfig (logDir compilerQueue compilerLogger : string)
    (taskReceiveTimeout : Z) : CompilerConfig :=
  {|
    compiler_queue := compilerQueue;
    compiler_logger := compilerLogger;
    compiler_logFile := logPath logDir defaults.CompilerLog;
    taskReceiveTimeout := taskReceiveTimeout;
  |}.

Definition makeSubmitterConfig (logDir submitterQueue submitterLogger qdmiDriver qdmiDeviceName
    qdmiDeviceId qdmiClientToken : string)
    (jobWaitTimeout submitterEntryTimeToLive backendStatusPublishInterval : Z) : SubmitterConfig :=
  {|
    submitter_queue := submitterQueue;
    submitter_logger := submitterLogger;
    submitter_logFile := logPath logDir defaults.SubmitterLog;
    qdmiDriver := qdmiDriver;
    qdmiDeviceName := qdmiDeviceName;
    qdmiDeviceId := qdmiDeviceId;
    qdmiClientToken := qdmiClientToken;
    jobWaitTimeout := jobWaitTimeout;
    submitter_entryTimeToLive := submitterEntryTimeToLive;
    backendStatusPublishInterval := backendStatusPublishInterval;
  |}.

(** [common.connection]. *)
Definition readConnection (connectionTable : option TomlNode) : result RabbitMqConnectionConfig :=
  host ← requiredStringField (toml_at connectionTable "host") "common.connection.host"
           "QRMCI_AMQP_HOST" defaults.AMQPHost;
  port ← (tomlValueOrExpected toml_value_int (toml_at connectionTable "port")
            "common.connection.port" defaults.AMQPPort
          ≫= fun fileValue => getEnvIntOrExpected "QRMCI_AMQP_PORT" fileValue);
  if (port <? 1)%Z || (65535 <? port)%Z then
    config_error "Configuration key 'common.connection.port' must be between 1 and 65535"
  else
  user ← stringField (toml_at connectionTable "user") "common.connection.user"
           "QRMCI_AMQP_USER" defaults.AMQPUser;
  password ← stringField (toml_at connectionTable "password") "common.connection.password"
               "QRMCI_AMQP_PASSWORD" defaults.AMQPPassword;
  vhost ← stringField (toml_at connectionTable "vhost") "common.connection.vhost"
            "QRMCI_AMQP_VHOST" defaults.AMQPVHost;
  Value (MkRabbitMqConnectionConfig host port user password vhost).

(** The rest of [common], after its connection. *)
Definition readCommon (commonTable : option TomlNode) (logDir : string) : result CommonConfig :=
  connection ← readConnection (toml_at commonTable "connection");
  daemonLogger ← tomlValueOrExpected toml_value_string (toml_at commonTable "daemonLogger")
                   "common.daemonLogger" "mqss::Daemon";
  qrmciQueue ← requiredStringField (toml_at commonTable "qrmciQueue") "common.qrmciQueue"
                 "QRMCI_QRMCI_QUEUE" defaults.QRMCIQueue;
  resultsQueue ← stringField (toml_at commonTable "resultsQueue") "common.resultsQueue"
                   "QRMCI_RESULTS_QUEUE" defaults.ResultsQueue;
  schedulerQueue ← stringField (toml_at commonTable "schedulerQueue") "common.schedulerQueue"
                     "QRMCI_SCHEDULER_QUEUE" defaults.SchedulerQueue;
  schedulerLogger ← tomlValueOrExpected toml_value_string (toml_at commonTable "schedulerLogger")
                      "common.schedulerLogger" "mqss::Scheduler";
  stagePollInterval ← tomlDurationOrExpected (toml_at commonTable "stagePollInterval")
                        "common.stagePollInterval" default_stagePollInterval Positive;
  Value (makeCommonConfig logDir connection daemonLogger qrmciQueue resultsQueue schedulerQueue
           schedulerLogger stagePollInterval).

(** [selector]. *)
Definition readSelector (selectorTable : option TomlNode) (logDir : string) : result SelectorConfig :=
  backendStatusQueue ← requiredStringField (toml_at selectorTable "backendStatusQueue")
                         "selector.backendStatusQueue" "QRMCI_BACKEND_STATUS_QUEUE"
                         defaults.BackendStatusQueue;
  selectorLogger ← tomlValueOrExpected toml_value_string (toml_at selectorTable "logger")
                     "selector.logger" "mqss::Selector";
  selectorEntryTimeToLive ← tomlDurationOrExpected
                     (toml_at (toml_at selectorTable "backendRegistry") "entryTimeToLive")
                     "selector.backendRegistry.entryTimeToLive" default_entryTimeToLive Positive;
  selectionPolicy ← (tomlValueOrExpected toml_value_string (toml_at selectorTable "selectionPolicy")
                       "selector.selectionPolicy" "lowest-name"
                     ≫= fun value => parseSelectionPolicy value "selector.selectionPolicy");
  Value (makeSelectorConfig logDir backendStatusQueue selectorLogger selectorEntryTimeToLive
           selectionPolicy).

(** [compiler]. *)
Definition readCompiler (compilerTable : option TomlNode) (logDir : string) : result CompilerConfig :=
  compilerQueue ← requiredStringField (toml_at compilerTable "queue") "compiler.queue"
                    "QRMCI_COMPILER_QUEUE" defaults.CompilerQueue;
  compilerLogger ← tomlValueOrExpected toml_value_string (toml_at compilerTable "logger")
                     "compiler.logger" "mqss::Compiler";
  taskReceiveTimeout ← tomlDurationOrExpected (toml_at compilerTable "taskReceiveTimeout")
                         "compiler.taskReceiveTimeout" default_taskReceiveTimeout NonNegative;
  Value (makeCompilerConfig logDir compilerQueue compilerLogger taskReceiveTimeout).

(** [submitter], with the check that an entry outlives the interval between two
    publications. *)
Definition readSubmitter (submitterTable : option TomlNode) (logDir : string)
    : result SubmitterConfig :=
  submitterQueue ← stringField (toml_at submitterTable "queue") "submitter.queue"
                     "QRMCI_SUBMITTER_QUEUE" defaults.SubmitterQueue;
  submitterLogger ← tomlValueOrExpected toml_value_string (toml_at submitterTable "logger")
                      "submitter.logger" "mqss::Submitter";
  qdmiDriver ← requiredStringField (toml_at submitterTable "qdmiDriver") "submitter.qdmiDriver"
                 "QRMCI_SUBMITTER_QDMI_DRIVER" defaults.SubmitterqdmiDriver;
  qdmiDeviceName ← requiredStringField (toml_at submitterTable "qdmiDeviceName")
                     "submitter.qdmiDeviceName" "QRMCI_SUBMITTER_QDMI_DEVICE_NAME"
                     defaults.SubmitterQdmiDeviceName;
  qdmiDeviceId ← requiredStringField (toml_at submitterTable "qdmiDeviceId")
                   "submitter.qdmiDeviceId" "QRMCI_SUBMITTER_QDMI_DEVICE_ID"
                   defaults.SubmitterQdmiDeviceId;
  qdmiClientToken ← stringField (toml_at submitterTable "qdmiClientToken")
                      "submitter.qdmiClientToken" "QRMCI_SUBMITTER_QDMI_CLIENT_TOKEN"
                      defaults.SubmitterQdmiClientToken;
  jobWaitTimeout ← tomlDurationOrExpected (toml_at submitterTable "jobWaitTimeout")
                     "submitter.jobWaitTimeout" default_jobWaitTimeout NonNegative;
  submitterEntryTimeToLive ← tomlDurationOrExpected
                     (toml_at (toml_at submitterTable "backendRegistry") "entryTimeToLive")
                     "submitter.backendRegistry.entryTimeToLive" default_entryTimeToLive Positive;
  backendStatusPublishInterval ← tomlDurationOrExpected
                     (toml_at submitterTable "backendStatusPublishInterval")
                     "submitter.backendStatusPublishInterval"
                     default_backendStatusPublishInterval Positive;
  if (seconds_to_ms submitterEntryTimeToLive <=? backendStatusPublishInterval)%Z then
    config_error ("Configuration key 'submitter.backendRegistry.entryTimeToLive' must " +:+
                  "be greater than 'submitter.backendStatusPublishInterval'")
  else
  Value (makeSubmitterConfig logDir submitterQueue submitterLogger qdmiDriver qdmiDeviceName qdmiDeviceId
           qdmiClientToken jobWaitTimeout submitterEntryTimeToLive backendStatusPublishInterval).

Definition assembleConfig (root : toml_table) : result Config :=
  _ ← checkSchema root;
  let view := Some (toml_of_table root) in
  logDir ← stringField (toml_at (toml_at view "common") "logDir") "common.logDir"
             "QRMCI_LOG_DIR" defaults.LogDir;
  common ← readCommon (toml_at view "common") logDir;
  selector ← readSelector (toml_at view "selector") logDir;
  compiler ← readCompiler (toml_at view "compiler") logDir;
  submitter ← readSubmitter (toml_at view "submitter") logDir;
  Value (MkConfig common selector compiler submitter).

Definition loadConfig_from (configFile : string) : result Config :=
  parseConfigFile configFile ≫= assembleConfig.

Definition DefaultConfigFilePath : string := "config/qrmci.toml".

Definition loadConfig : result Config :=
  loadConfig_from (getEnvOr "QRMCI_CONFIG_FILE" DefaultConfigFilePath).
End Config.

(** ** Reference: what each field of an accepted configuration is

    The three layers, stated declaratively: the environment wins over the file,
    the file over the default. *)

Section Reference.
Context `{ConfigSources}.

(** A present node has the type asked for. *)
Definition well_typed {T} (value : TomlNode -> option T) (node : option TomlNode) : Prop :=
  forall n, node = Some n -> is_Some (value n).

Definition file_or {T} (value : TomlNode -> option T) (node : option TomlNode) (fallback : T) : T :=
  default fallback (node ≫= value).

Definition layered (node : option TomlNode) (envName fallback : string) : string :=
  default (file_or toml_value_string node fallback) (getenv envName).

(** A present override must be an integer in its entirety. *)
Definition layered_port (node : option TomlNode) : option Z :=
  match getenv "QRMCI_AMQP_PORT" with
  | None => Some (file_or toml_value_int node defaults.AMQPPort)
  | Some s =>
      match from_chars s with
      | (Value n, EmptyString) => Some n
      | _ => None
      end
  end.

Definition policy_of (name : string) : option BackendSelectionPolicy :=
  if String.eqb name "lowest-name" then Some LowestName
  else if String.eqb name "smallest-sufficient" then Some SmallestSufficient
  else None.

Definition field (root : toml_table) (path : list string) : option TomlNode :=
  fold_left toml_at path (Some (toml_of_table root)).

(** The tables the schema documents, with the keys each may have. *)
Definition documented_tables : list (list string * list string) :=
  [([], ["common"; "selector"; "compiler"; "submitter"]);
   (["common"], ["connection"; "logDir"; "daemonLogger"; "qrmciQueue"; "resultsQueue";
                 "schedulerQueue"; "schedulerLogger"; "stagePollInterval"]);
   (["common"; "connection"], ["host"; "port"; "user"; "password"; "vhost"]);
   (["selector"], ["backendStatusQueue"; "logger"; "backendRegistry"; "selectionPolicy"]);
   (["selector"; "backendRegistry"], ["entryTimeToLive"]);
   (["compiler"], ["queue"; "logger"; "taskReceiveTimeout"]);
   (["submitter"], ["queue"; "logger"; "qdmiDriver"; "qdmiDeviceName"; "qdmiDeviceId";
                    "qdmiClientToken"; "jobWaitTimeout"; "backendRegistry";
                    "backendStatusPublishInterval"]);
   (["submitter"; "backendRegistry"], ["entryTimeToLive"])].

(** Every documented table that is present is a table, and has no other key. *)
Definition table_ok (node : option TomlNode) (allowed : list string) : Prop :=
  forall n, node = Some n -> exists t, toml_as_table n = Some t /\ t.*1 ⊆ allowed.

Definition schema_ok (root : toml_table) : Prop :=
  Forall (fun entry => table_ok (field root entry.1) entry.2) documented_tables.

Definition string_fields : list (list string) :=
  [["common"; "logDir"]; ["common"; "connection"; "host"]; ["common"; "connection"; "user"];
   ["common"; "connection"; "password"]; ["common"; "connection"; "vhost"];
   ["common"; "daemonLogger"]; ["common"; "qrmciQueue"]; ["common"; "resultsQueue"];
   ["common"; "schedulerQueue"]; ["common"; "schedulerLogger"];
   ["selector"; "backendStatusQueue"]; ["selector"; "logger"]; ["selector"; "selectionPolicy"];
   ["compiler"; "queue"]; ["compiler"; "logger"]; ["submitter"; "queue"];
   ["submitter"; "logger"]; ["submitter"; "qdmiDriver"]; ["submitter"; "qdmiDeviceName"];
   ["submitter"; "qdmiDeviceId"]; ["submitter"; "qdmiClientToken"]].

Definition duration_fields : list (list string) :=
  [["common"; "stagePollInterval"]; ["selector"; "backendRegistry"; "entryTimeToLive"];
   ["compiler"; "taskReceiveTimeout"]; ["submitter"; "jobWaitTimeout"];
   ["submitter"; "backendRegistry"; "entryTimeToLive"];
   ["submitter"; "backendStatusPublishInterval"]].

Definition fields_typed (root : toml_table) : Prop :=
  Forall (fun path => well_typed toml_value_string (field root path)) string_fields /\
  Forall (fun path => well_typed toml_value_int64 (field root path)) duration_fields /\
  well_typed toml_value_int (field root ["common"; "connection"; "port"]).

(** The configuration the three layers add up to, for a port and a policy. *)
Definition layered_config (root : toml_table) (p : Z) (policy : BackendSelectionPolicy) : Config :=
  let str path env fallback := layered (field root path) env fallback in
  let name path fallback := file_or toml_value_string (field root path) fallback in
  let duration path fallback := file_or toml_value_int64 (field root path) fallback in
  let dir := str ["common"; "logDir"] "QRMCI_LOG_DIR" defaults.LogDir in
  {|
    common := {|
      connection := {|
        host := str ["common"; "connection"; "host"] "QRMCI_AMQP_HOST" defaults.AMQPHost;
        port := p;
        user := str ["common"; "connection"; "user"] "QRMCI_AMQP_USER" defaults.AMQPUser;
        password := str ["common"; "connection"; "password"] "QRMCI_AMQP_PASSWORD"
                      defaults.AMQPPassword;
        vhost := str ["common"; "connection"; "vhost"] "QRMCI_AMQP_VHOST" defaults.AMQPVHost;
      |};
      logDir := dir;
      daemonLogger := name ["common"; "daemonLogger"] "mqss::Daemon";
      daemonLog := logPath dir defaults.DaemonLog;
      qrmciQueue := str ["common"; "qrmciQueue"] "QRMCI_QRMCI_QUEUE" defaults.QRMCIQueue;
      resultsQueue := str ["common"; "resultsQueue"] "QRMCI_RESULTS_QUEUE" defaults.ResultsQueue;
      schedulerQueue := str ["common"; "schedulerQueue"] "QRMCI_SCHEDULER_QUEUE"
                          defaults.SchedulerQueue;
      schedulerLogger := name ["common"; "schedulerLogger"] "mqss::Scheduler";
      schedulerLog := logPath dir defaults.SchedulerLog;
      stagePollInterval := duration ["common"; "stagePollInterval"] default_stagePollInterval;
    |};
    selector := {|
      backendStatusQueue := str ["selector"; "backendStatusQueue"] "QRMCI_BACKEND_STATUS_QUEUE"
                              defaults.BackendStatusQueue;
      selector_logger := name ["selector"; "logger"] "mqss::Selector";
      selector_logFile := logPath dir defaults.SelectorLog;
      selector_entryTimeToLive :=
        duration ["selector"; "backendRegistry"; "entryTimeToLive"] default_entryTimeToLive;
      selectionPolicy := policy;
    |};
    compiler := {|
      compiler_queue := str ["compiler"; "queue"] "QRMCI_COMPILER_QUEUE" defaults.CompilerQueue;
      compiler_logger := name ["compiler"; "logger"] "mqss::Compiler";
      compiler_logFile := logPath dir defaults.CompilerLog;
      taskReceiveTimeout := duration ["compiler"; "taskReceiveTimeout"] default_taskReceiveTimeout;
    |};
    submitter := {|
      submitter_queue := str ["submitter"; "queue"] "QRMCI_SUBMITTER_QUEUE" defaults.SubmitterQueue;
      submitter_logger := name ["submitter"; "logger"] "mqss::Submitter";
      submitter_logFile := logPath dir defaults.SubmitterLog;
      qdmiDriver := str ["submitter"; "qdmiDriver"] "QRMCI_SUBMITTER_QDMI_DRIVER"
                      defaults.SubmitterqdmiDriver;
      qdmiDeviceName := str ["submitter"; "qdmiDeviceName"] "QRMCI_SUBMITTER_QDMI_DEVICE_NAME"
                          defaults.SubmitterQdmiDeviceName;
      qdmiDeviceId := str ["submitter"; "qdmiDeviceId"] "QRMCI_SUBMITTER_QDMI_DEVICE_ID"
                        defaults.SubmitterQdmiDeviceId;
      qdmiClientToken := str ["submitter"; "qdmiClientToken"] "QRMCI_SUBMITTER_QDMI_CLIENT_TOKEN"
                           defaults.SubmitterQdmiClientToken;
      jobWaitTimeout := duration ["submitter"; "jobWaitTimeout"] default_jobWaitTimeout;
      submitter_entryTimeToLive :=
        duration ["submitter"; "backendRegistry"; "entryTimeToLive"] default_entryTimeToLive;
      backendStatusPublishInterval :=
        duration ["submitter"; "backendStatusPublishInterval"]
          default_backendStatusPublishInterval;
    |};
  |}.

(** The ranges and the cross-field constraint every configuration obeys. *)
Record config_valid (c : Config) : Prop := MkConfigValid {
  valid_port : (1 <= port (connection (common c)) <= 65535)%Z;
  valid_host : host (connection (common c)) <> "";
  valid_qrmciQueue : qrmciQueue (common c) <> "";
  valid_backendStatusQueue : backendStatusQueue (selector c) <> "";
  valid_compilerQueue : compiler_queue (compiler c) <> "";
  valid_qdmiDriver : qdmiDriver (submitter c) <> "";
  valid_qdmiDeviceName : qdmiDeviceName (submitter c) <> "";
  valid_qdmiDeviceId : qdmiDeviceId (submitter c) <> "";
  valid_stagePollInterval : (0 < stagePollInterval (common c))%Z;
  valid_selectorTimeToLive : (0 < selector_entryTimeToLive (selector c))%Z;
  valid_taskReceiveTimeout : (0 <= taskReceiveTimeout (compiler c))%Z;
  valid_jobWaitTimeout : (0 <= jobWaitTimeout (submitter c))%Z;
  valid_submitterTimeToLive : (0 < submitter_entryTimeToLive (submitter c))%Z;
  valid_publishInterval : (0 < backendStatusPublishInterval (submitter c))%Z;
  valid_outlives_publication :
    (backendStatusPublishInterval (submitter c) <
     seconds_to_ms (submitter_entryTimeToLive (submitter c)))%Z;
}.
End Reference.

(** ** Lemmas: one field *)

Section FieldLemmas.
Context `{ConfigSources}.

Lemma tomlValue_value {T} (value : TomlNode -> option T) node k fb v :
  tomlValueOrExpected value node k fb = Value v <->
  well_typed value node /\ v = file_or value node fb.
Proof.
  unfold tomlValueOrExpected, well_typed, file_or. destruct node as [n|]; cbn; [|naive_solver].
  destruct (value n) eqn:E; cbn; split.
  - intros [= ->]. split; [|done]. intros ? [= <-]. by rewrite E.
  - by intros [_ ->].
  - done.
  - intros [Ht _]. destruct (Ht n eq_refl). congruence.
Qed.

Lemma stringField_value node k e fb v :
  stringField node k e fb = Value v <->
  well_typed toml_value_string node /\ v = layered node e fb.
Proof.
  unfold stringField. rewrite expected_fmap_value. setoid_rewrite tomlValue_value.
  unfold layered, getEnvOr. split.
  - intros (a & [Ht ->] & ->). split; [done|]. by destruct (getenv e).
  - intros [Ht ->]. eexists. split; [done|]. by destruct (getenv e).
Qed.

Lemma requiredStringField_value node k e fb v :
  requiredStringField node k e fb = Value v <->
  well_typed toml_value_string node /\ v = layered node e fb /\ v <> "".
Proof.
  unfold requiredStringField. rewrite expected_bind_value. setoid_rewrite stringField_value.
  split.
  - intros (a & [Ht ->] & Hv). destruct (String.eqb_spec (layered node e fb) ""); by simplify_eq.
  - intros (Ht & -> & Hne). eexists. split; [done|]. by destruct (String.eqb_spec (layered node e fb) "").
Qed.

Lemma tomlDuration_value node k fb range v :
  tomlDurationOrExpected node k fb range = Value v <->
  well_typed toml_value_int64 node /\ v = file_or toml_value_int64 node fb /\
  match range with Positive => (0 < v)%Z | NonNegative => (0 <= v)%Z end.
Proof.
  assert (match node with
    | None => Value fb
    | Some n => match toml_value_int64 n with
                | Some v => Value v
                | None => config_error ("Configuration key '" +:+ k +:+
                            "' has the wrong type: expected an integer")
                end
    end = Value v <->
    well_typed toml_value_int64 node /\ v = file_or toml_value_int64 node fb) as Hread.
  { unfold well_typed, file_or. destruct node as [n|]; cbn; [|naive_solver].
    destruct (toml_value_int64 n) eqn:E; cbn; split; try done.
    - intros [= ->]. split; [|done]. intros ? [= <-]. by rewrite E.
    - by intros [_ ->].
    - intros [Ht _]. destruct (Ht n eq_refl). congruence. }
  unfold tomlDurationOrExpected. rewrite expected_bind_value. split.
  - intros (d & Hd & Hv). destruct (_ || _) eqn:E in Hv; [done|]. injection Hv as ->.
    apply Hread in Hd as [Ht ->]. split_and!; [done..|]. destruct range; lia.
  - intros (Ht & Hv & Hr). exists v. split; [by apply Hread|].
    destruct (_ || _) eqn:E; [|done]. destruct range; lia.
Qed.

Lemma port_value node k p :
  (tomlValueOrExpected toml_value_int node k defaults.AMQPPort
     ≫= fun fileValue => getEnvIntOrExpected "QRMCI_AMQP_PORT" fileValue) = Value p <->
  well_typed toml_value_int node /\ layered_port node = Some p.
Proof.
  rewrite expected_bind_value. setoid_rewrite tomlValue_value.
  unfold layered_port, getEnvIntOrExpected. split.
  - intros (a & [Ht ->] & Hp). split; [done|].
    destruct (getenv _) as [s|]; [|congruence]. by destruct (from_chars s) as [[] []]; simplify_eq.
  - intros [Ht Hp]. eexists. split; [done|].
    destruct (getenv _) as [s|]; [|congruence]. by destruct (from_chars s) as [[] []]; simplify_eq.
Qed.

Lemma parseSelectionPolicy_value v k p :
  parseSelectionPolicy v k = Value p <-> policy_of v = Some p.
Proof. unfold parseSelectionPolicy, policy_of. repeat case_match; split; naive_solver. Qed.

Lemma policy_value node k k' fb p :
  (tomlValueOrExpected toml_value_string node k fb
     ≫= fun value => parseSelectionPolicy value k') = Value p <->
  well_typed toml_value_string node /\ policy_of (file_or toml_value_string node fb) = Some p.
Proof.
  rewrite expected_bind_value. setoid_rewrite tomlValue_value.
  setoid_rewrite parseSelectionPolicy_value. naive_solver.
Qed.

(** ** Lemmas: the schema *)

Lemma checkKeys_value table prefix allowed :
  checkKeys table prefix allowed = Value tt <-> table.*1 ⊆ allowed.
Proof.
  induction table as [|[k n] table IH]; cbn; [set_solver|].
  case_bool_decide; cbn; [rewrite IH; set_solver|]. split; [done|set_solver].
Qed.

Lemma checkTableKeys_value node prefix allowed :
  checkTableKeys node prefix allowed = Value tt <-> table_ok node allowed.
Proof.
  unfold checkTableKeys, table_ok. destruct node as [n|]; [|naive_solver].
  destruct (toml_as_table n) as [t|] eqn:E; [rewrite checkKeys_value|]; split.
  - intros Hs ? [= <-]. eauto.
  - intros Hs. destruct (Hs n eq_refl) as (? & ? & ?). by simplify_eq.
  - done.
  - intros Hs. destruct (Hs n eq_refl) as (? & ? & ?). by simplify_eq.
Qed.

Lemma bind_unit_value {A} (m : result unit) (k : result A) a :
  (_ ← m; k) = Value a <-> m = Value tt /\ k = Value a.
Proof. rewrite expected_bind_value. split; [intros ([] & ? & ?)|intros []; exists tt]; auto. Qed.

Lemma checkSchema_value root : checkSchema root = Value tt <-> schema_ok root.
Proof.
  unfold checkSchema, schema_ok, documented_tables. cbv zeta.
  rewrite !bind_unit_value, !checkTableKeys_value, !Forall_cons.
  cbn [field fold_left fst snd]. pose proof (Forall_nil_2 (fun entry : list string * list string =>
    table_ok (field root entry.1) entry.2)). tauto.
Qed.
End FieldLemmas.
