(* ===== verification/ConfigProperties.v ===== *)
(** * Properties of the configuration

    What [loadConfig] accepts, what it answers, and what an accepted
    configuration guarantees to the daemons. *)

From Stdlib Require Import Ascii.
From S2P Require Import Prelude Error BackendWrapper BackendRegistry Config.

(** Read the next field of a successful assembly. *)
Ltac read_field H :=
  apply expected_bind_value in H as (? & ? & H); cbv beta in H.

(** Read all fields of a table that was read, and pass its checks. *)
Ltac read_table H :=
  repeat first
    [ read_field H
    | let E := fresh "Hcheck" in
      match type of H with (if ?b then _ else _) = _ => destruct b eqn:E; [done|] end ];
  injection H as <-.

(** Answer the next field of an assembly from its typing. *)
Ltac write_field :=
  apply expected_bind_value; eexists; split;
  [first [ apply stringField_value; split; [eassumption|reflexivity]
         | apply requiredStringField_value; split_and!; [eassumption|reflexivity|eassumption]
         | apply tomlDuration_value; split_and!; [eassumption|reflexivity|eassumption]
         | apply port_value; split; eassumption
         | apply policy_value; split; eassumption
         | apply tomlValue_value; split; [eassumption|reflexivity] ]
  |cbv beta].

(** Answer a whole table: its fields, its checks and the tables inside it. *)
Ltac write_fields :=
  repeat first
    [ write_field
    | apply expected_bind_value; eexists; split; [solve [write_fields; reflexivity]|cbv beta]
    | rewrite (proj2 (orb_false_iff _ _)) by (cbn in *; lia)
    | rewrite (proj2 (Z.leb_gt _ _)) by eassumption ].

Section Assembly.
Context `{ConfigSources}.

Lemma assembleConfig_sound root c :
  assembleConfig root = Value c ->
  schema_ok root /\ fields_typed root /\ config_valid c /\
  exists p policy,
    layered_port (field root ["common"; "connection"; "port"]) = Some p /\
    policy_of (file_or toml_value_string (field root ["selector"; "selectionPolicy"])
                 "lowest-name") = Some policy /\
    c = layered_config root p policy.
Proof.
  unfold assembleConfig. cbv zeta. intros Hc.
  apply bind_unit_value in Hc as [Hs%checkSchema_value Hc].
  repeat read_field Hc. injection Hc as <-.
  repeat match goal with
  | H : readCommon _ _ = Value _ |- _ => unfold readCommon in H; read_table H
  | H : readConnection _ = Value _ |- _ => unfold readConnection in H; read_table H
  | H : readSelector _ _ = Value _ |- _ => unfold readSelector in H; read_table H
  | H : readCompiler _ _ = Value _ |- _ => unfold readCompiler in H; read_table H
  | H : readSubmitter _ _ = Value _ |- _ => unfold readSubmitter in H; read_table H
  end.
  repeat match goal with
  | H : stringField _ _ _ _ = Value _ |- _ => apply stringField_value in H as [? ->]
  | H : requiredStringField _ _ _ _ = Value _ |- _ =>
      apply requiredStringField_value in H as (? & -> & ?)
  | H : tomlDurationOrExpected _ _ _ _ = Value _ |- _ =>
      apply tomlDuration_value in H as (? & -> & ?)
  | H : (tomlValueOrExpected toml_value_int _ _ _ ≫= _) = Value _ |- _ =>
      apply port_value in H as [? ?]
  | H : (tomlValueOrExpected toml_value_string _ _ _ ≫= _) = Value _ |- _ =>
      apply policy_value in H as [? ?]
  | H : tomlValueOrExpected _ _ _ _ = Value _ |- _ => apply tomlValue_value in H as [? ->]
  end.
  split; [done|]. split; [split_and!; [by repeat constructor..|done]|]. split.
  - bool_to_prop. by split.
  - do 2 eexists. split_and!; [eassumption..|reflexivity].
Qed.

Lemma assembleConfig_complete root p policy :
  schema_ok root -> fields_typed root ->
  layered_port (field root ["common"; "connection"; "port"]) = Some p ->
  policy_of (file_or toml_value_string (field root ["selector"; "selectionPolicy"])
               "lowest-name") = Some policy ->
  config_valid (layered_config root p policy) ->
  assembleConfig root = Value (layered_config root p policy).
Proof.
  intros Hs (Hstr & Hdur & Hint) Hp Hpol [].
  unfold string_fields, duration_fields in *. rewrite !Forall_cons in Hstr. rewrite !Forall_cons in Hdur.
  destruct_and! Hstr. destruct_and! Hdur.
  unfold assembleConfig. cbv zeta. apply bind_unit_value.
  split; [by apply checkSchema_value|].
  unfold readCommon, readConnection, readSelector, readCompiler, readSubmitter.
  write_fields. reflexivity.
Qed.
End Assembly.

(** ** Errors *)

Section Errors.
Context `{ConfigSources}.

Lemma config_error_kind {A} d : fails_only_with ConfigError (config_error (A := A) d).
Proof. apply fails_only_with_error. Qed.
#[local] Hint Resolve config_error_kind : qrmci.

Lemma checkKeys_kind t prefix allowed : fails_only_with ConfigError (checkKeys t prefix allowed).
Proof. induction t as [|[k n] t IH]; cbn; [|case_match]; auto with qrmci. Qed.

Lemma checkTableKeys_kind node prefix allowed :
  fails_only_with ConfigError (checkTableKeys node prefix allowed).
Proof. unfold checkTableKeys. repeat case_match; auto using checkKeys_kind with qrmci. Qed.

Lemma tomlValue_kind {T} (value : TomlNode -> option T) node k fb :
  fails_only_with ConfigError (tomlValueOrExpected value node k fb).
Proof. unfold tomlValueOrExpected. repeat case_match; auto with qrmci. Qed.

Lemma tomlDuration_kind node k fb range :
  fails_only_with ConfigError (tomlDurationOrExpected node k fb range).
Proof.
  unfold tomlDurationOrExpected. apply fails_only_with_bind; intros; repeat case_match;
    auto with qrmci.
Qed.

Lemma stringField_kind node k e fb : fails_only_with ConfigError (stringField node k e fb).
Proof. apply fails_only_with_fmap, tomlValue_kind. Qed.

Lemma requiredStringField_kind node k e fb :
  fails_only_with ConfigError (requiredStringField node k e fb).
Proof.
  apply fails_only_with_bind; [apply stringField_kind|]. intros v. case_match; auto with qrmci.
Qed.

Lemma getEnvInt_kind name fb : fails_only_with ConfigError (getEnvIntOrExpected name fb).
Proof. unfold getEnvIntOrExpected. repeat case_match; auto with qrmci. Qed.

Lemma parseSelectionPolicy_kind v k : fails_only_with ConfigError (parseSelectionPolicy v k).
Proof. unfold parseSelectionPolicy. repeat case_match; auto with qrmci. Qed.

#[local] Hint Resolve checkTableKeys_kind tomlValue_kind tomlDuration_kind stringField_kind
  requiredStringField_kind getEnvInt_kind parseSelectionPolicy_kind : qrmci.

(** Follow a chain of field reads. *)
Ltac chain :=
  repeat first
    [ solve [auto 1 with qrmci]
    | apply fails_only_with_bind; [|intros ?]
    | match goal with |- fails_only_with _ (if ?b then _ else _) => destruct b end ].

Lemma assembleConfig_kind root : fails_only_with ConfigError (assembleConfig root).
Proof.
  unfold assembleConfig, checkSchema, readCommon, readConnection, readSelector, readCompiler,
    readSubmitter. cbv zeta. chain.
Qed.

Lemma parseConfigFile_kind file : fails_only_with ConfigError (parseConfigFile file).
Proof. unfold parseConfigFile. repeat case_match; auto with qrmci. Qed.

Lemma loadConfig_from_kind file : fails_only_with ConfigError (loadConfig_from file).
Proof. apply fails_only_with_bind; [apply parseConfigFile_kind|apply assembleConfig_kind]. Qed.

(** The daemon always has a log file to ask for. *)
Lemma loadConfig_daemonLog c : loadConfig = Value c -> daemonLog (common c) <> "".
Proof.
  unfold loadConfig, loadConfig_from. intros E. expected_inv.
  apply assembleConfig_sound in E as (_ & _ & _ & p & policy & _ & _ & ->).
  cbn [common layered_config daemonLog]. unfold logPath, path_append. cbn -[layered].
  repeat case_match; destruct (layered _ _ _); done.
Qed.
End Errors.

(** ** Printing and reading integers *)

Lemma digit_value_pretty n : (n < 10)%N -> digit_value (pretty_N_char n) = Some (Z.of_N n).
Proof.
  intros Hn. destruct n as [|p]; [reflexivity|].
  do 4 (destruct p as [p|p|]; try reflexivity); lia.
Qed.

Lemma scan_pretty_go n s : scan_digits (pretty_N_go n s) 0 = scan_digits s (Z.of_N n).
Proof.
  revert s. induction (N.lt_wf_0 n) as [n _ IH]; intros s.
  destruct (N.eq_0_gt_0_cases n) as [->|Hn]; [by rewrite pretty_N_go_0|].
  rewrite pretty_N_go_step by done. rewrite IH by (by apply N.div_lt). cbn.
  rewrite digit_value_pretty by (by apply N.mod_lt). f_equal.
  rewrite (N.div_mod n 10) at 3 by done. lia.
Qed.

Lemma scan_pretty n : scan_digits (pretty n) 0 = (Z.of_N n, "").
Proof.
  unfold pretty, pretty_N. case_decide; [by subst|]. by rewrite scan_pretty_go.
Qed.

Lemma pretty_N_nonempty (n : N) : pretty n <> "".
Proof.
  intros E. pose proof (scan_pretty n) as Hs. rewrite E in Hs. cbn in Hs.
  injection Hs as Hn. assert (n = 0%N) as -> by lia. discriminate.
Qed.

Lemma pretty_N_no_dash (n : N) s : pretty n <> String "-"%char s.
Proof.
  unfold pretty, pretty_N. case_decide; [done|]. by apply (pretty_N_go_ne_dash n "" s).
Qed.

Lemma from_chars_pretty z : in_signed 32 z = true -> from_chars (pretty z) = (Value z, "").
Proof.
  assert (forall n : N, String.eqb "" (pretty n) = false) as Hne.
  { intros n. apply String.eqb_neq. intros E. by apply (pretty_N_nonempty n). }
  intros Hz. unfold from_chars. destruct z as [|p|p]; [done| |].
  - change (pretty (Z.pos p)) with (pretty (Npos p)).
    assert (match pretty (Npos p) with
      | String "-"%char rest => (true, rest) | _ => (false, pretty (Npos p)) end
      = (false, pretty (Npos p))) as ->.
    { pose proof (pretty_N_no_dash (Npos p)). repeat case_match; congruence. }
    rewrite scan_pretty, Hne. change (Z.of_N (N.pos p)) with (Z.pos p). by rewrite Hz.
  - change (pretty (Z.neg p)) with (String "-"%char (pretty (Npos p))). cbv beta iota zeta.
    rewrite scan_pretty, Hne. change (- Z.of_N (N.pos p))%Z with (Z.neg p). by rewrite Hz.
Qed.

(** ** A concrete TOML library and environment, for closed examples *)

#[local] Set Warnings "-register-all".
Inductive ExNode : Type :=
| ExString (s : string)
| ExInt (z : Z)
| ExTable (t : list (string * ExNode)).

Definition example_toml : TomlNodes := {|
  TomlNode := ExNode;
  toml_as_table n := match n with ExTable t => Some t | _ => None end;
  toml_of_table := ExTable;
  toml_value_string n := match n with ExString s => Some s | _ => None end;
  toml_value_int n :=
    match n with ExInt z => if in_signed 32 z then Some z else None | _ => None end;
  toml_value_int64 n :=
    match n with ExInt z => if in_signed 64 z then Some z else None | _ => None end;
|}.

Lemma example_toml_laws : @TomlLaws example_toml.
Proof. by intros t. Qed.

Definition example_sources (env : list (string * string)) (file : option (list (string * ExNode)))
    : @ConfigSources example_toml :=
  Build_ConfigSources example_toml
    (fun name => smap_find name env)
    (fun _ => match file with Some _ => true | None => false end)
    (fun _ => match file with Some t => Value t | None => Unexpected "no such file" end).

(** The configuration a bare deployment runs with. *)
Definition default_config : Config := {|
  common := {|
    connection := MkRabbitMqConnectionConfig "127.0.0.1" 5672 "guest" "guest" "/";
    logDir := "/var/log/qrmci";
    daemonLogger := "mqss::Daemon";
    daemonLog := "/var/log/qrmci/daemon.log";
    qrmciQueue := "qrmci.tasks.queue";
    resultsQueue := "test.results.queue";
    schedulerQueue := "scheduler.tasks.queue";
    schedulerLogger := "mqss::Scheduler";
    schedulerLog := "/var/log/qrmci/scheduler.log";
    stagePollInterval := 100;
  |};
  selector := MkSelectorConfig "backend.status.queue" "mqss::Selector"
    "/var/log/qrmci/selector.log" 30 LowestName;
  compiler := MkCompilerConfig "compiler.tasks.queue" "mqss::Compiler"
    "/var/log/qrmci/compiler.log" 500;
  submitter := MkSubmitterConfig "submitter.tasks.queue" "mqss::Submitter"
    "/var/log/qrmci/submitter.log" "/usr/local/lib/qrmci/libqdmi_example_driver.so"
    "C++ Device with 5 qubits" "cxxdevice5q" "token" 0 30 5000;
|}%Z.

Lemma default_config_valid : config_valid default_config.
Proof. by split; cbn; try lia. Qed.

Lemma field_empty `{TomlLaws} key path : field [] (key :: path) = None.
Proof.
  unfold field. cbn. rewrite toml_table_view. cbn. induction path as [|k path IH]; cbn; auto.
Qed.

(** ** Properties *)

(** C33: what the configuration accepts, exactly. A file is accepted if and only
    if every documented table is a table with documented keys only, every
    present field has its type, the port override (if any) is an integer and
    the policy is one of the two names, and the layered values obey the ranges:
    a port between 1 and 65535, non-empty host, queues, driver and device
    names, positive or non-negative durations, and an own-entry time-to-live
    above the publication interval. The configuration is then the layering
    itself: environment over file over default, in every field. *)
Theorem config_accepts_exactly `{ConfigSources} root c :
  assembleConfig root = Value c <->
  schema_ok root /\ fields_typed root /\ config_valid c /\
  exists p policy,
    layered_port (field root ["common"; "connection"; "port"]) = Some p /\
    policy_of (file_or toml_value_string (field root ["selector"; "selectionPolicy"])
                 "lowest-name") = Some policy /\
    c = layered_config root p policy.
Proof.
  split; [apply assembleConfig_sound|].
  intros (Hs & Ht & Hv & p & policy & Hp & Hpol & ->). by apply assembleConfig_complete.
Qed.

(** Loading never fails with anything but a [ConfigError], and a missing
    file is no failure: it is the empty table. *)
Theorem config_errors `{ConfigSources} file :
  fails_only_with ConfigError (loadConfig_from file) /\
  (file_exists file = false -> loadConfig_from file = assembleConfig []).
Proof.
  split.
  - apply fails_only_with_bind; [apply parseConfigFile_kind|apply assembleConfig_kind].
  - intros Hf. unfold loadConfig_from, parseConfigFile. by rewrite Hf.
Qed.

Lemma config_errors_witness :
  @loadConfig_from example_toml (example_sources [] None) "config/qrmci.toml" =
  @assembleConfig example_toml (example_sources [] None) [].
Proof. apply (@config_errors example_toml (example_sources [] None)). reflexivity. Defined.

(** A bare deployment runs: with no file and an empty environment, the
    configuration is the documented default, and it is valid. *)
Theorem default_config_loads `{TomlLaws} `{!ConfigSources} :
  (forall name, getenv name = None) -> (forall file, file_exists file = false) ->
  loadConfig = Value default_config /\ config_valid default_config.
Proof.
  intros Henv Hfile. split; [|apply default_config_valid].
  unfold loadConfig, loadConfig_from, getEnvOr, parseConfigFile. rewrite Henv, Hfile.
  change (assembleConfig [] = Value default_config).
  assert (layered_config [] 5672 LowestName = default_config) as <-.
  { unfold layered_config, layered, file_or. rewrite !Henv, !field_empty. reflexivity. }
  apply assembleConfig_complete.
  - repeat constructor; cbn [fst snd]; rewrite ?field_empty; intros n Hn; [|done..].
    exists []. cbn in Hn. simplify_eq. rewrite toml_table_view. split; [done|set_solver].
  - split_and!; [repeat constructor..|]; rewrite field_empty; by intros n.
  - unfold layered_port. by rewrite Henv, field_empty.
  - by rewrite field_empty.
  - unfold layered_config, layered, file_or. rewrite !Henv, !field_empty. apply default_config_valid.
Qed.

(** The port override reads back what was printed: an [int] written in
    decimal into the environment is read as itself, whatever the file says. *)
Theorem port_override_roundtrip `{ConfigSources} name z fileValue :
  getenv name = Some (pretty z) -> in_signed 32 z = true ->
  getEnvIntOrExpected name fileValue = Value z.
Proof.
  intros Henv Hz. unfold getEnvIntOrExpected. by rewrite Henv, from_chars_pretty.
Qed.

(** C40: an accepted time-to-live can be too long to represent. No upper bound is
    checked: a file that asks for 9223372037 seconds is accepted, and its
    conversion to nanoseconds overflows 64 bits; with the wrapped value every
    entry of the registry is stale at the very instant it is inserted. *)
Theorem oversized_time_to_live :
  exists c,
    @loadConfig example_toml (example_sources []
      (Some [("submitter", ExTable [("backendRegistry",
               ExTable [("entryTimeToLive", ExInt 9223372037)])])])) = Value c /\
    let r := new_BackendRegistry (seconds_to_ns (submitter_entryTimeToLive (submitter c))) in
    forall b now, find (expire now (insertOrRefresh b now r).2).2 (getName b) = None.
Proof.
  eexists. split; [vm_compute; reflexivity|]. intros r b now.
  assert (entryTimeToLive r = -9223372036709551616)%Z as Httl by reflexivity.
  unfold insertOrRefresh, queue_conflict, find, expire, smap_erase_if, stale. cbn -[r].
  change (entries r) with (@nil (string * Entry)). cbn -[r].
  rewrite Httl, (proj2 (Z.ltb_lt _ _)) by lia. reflexivity.
Qed.
