(* ===== verification/Logger.v ===== *)
(** * Logger.h: the logger every daemon installs

    A logger is its name, its sinks and its settings. Opening the rotating log
    file is an operation of the logging library, the parameter [LogFiles]: it
    succeeds or throws with a description. *)

From S2P Require Import Prelude Error.

Inductive LogLevel : Type := level_debug | level_info | level_warn | level_err.

(** A line handed to the process-wide default logger. *)
Definition LogLine : Type := LogLevel * string.

Inductive Sink : Type :=
| stdout_color_sink_mt
| rotating_file_sink_mt (file : string) (maxBytes maxFiles : Z).

Record Logger : Type := MkLogger {
  logger_name : string;
  sinks : list Sink;
  pattern : string;
  level : LogLevel;
  flush_on : LogLevel;
}.

(** The constructor of the rotating file sink: [Unexpected what] when it throws
    [spdlog_ex]. *)
Class LogFiles : Type := {
  open_rotating_file : string -> Z -> Z -> expected string unit;
}.

Definition MaxLogFileBytes : Z := 50 * 1024 * 1024.
Definition MaxLogFiles : Z := 5.

(** The lines it logs itself, and the logger. *)
Definition makeLogger `{LogFiles} (name logFile : string) : list LogLine * Logger :=
  let console := [stdout_color_sink_mt] in
  let '(logged, all_sinks) :=
    if String.eqb logFile "" then ([], console)
    else
      match open_rotating_file logFile MaxLogFileBytes MaxLogFiles with
      | Value _ => ([], console ++ [rotating_file_sink_mt logFile MaxLogFileBytes MaxLogFiles])
      | Unexpected what =>
          ([(level_warn, "Logging to console only; could not open '" +:+ logFile +:+ "': " +:+ what)],
           console)
      end in
  (logged,
   {| logger_name := name;
      sinks := all_sinks;
      pattern := "[%Y-%m-%d %H:%M:%S.%e] [%n] [%^%l%$] %v";
      level := level_info;
      flush_on := level_info |}).

(** The file sink is there exactly when a file is asked for and can be opened;
    the console sink always is, and a failure is the one thing reported. *)
Lemma makeLogger_spec `{LogFiles} name logFile :
  let '(logged, l) := makeLogger name logFile in
  logger_name l = name /\ stdout_color_sink_mt ∈ sinks l /\
  ((exists b n, rotating_file_sink_mt logFile b n ∈ sinks l) <->
     logFile <> "" /\ open_rotating_file logFile MaxLogFileBytes MaxLogFiles = Value tt) /\
  (logged = [] <->
     logFile = "" \/ open_rotating_file logFile MaxLogFileBytes MaxLogFiles = Value tt).
Proof.
  unfold makeLogger. destruct (String.eqb_spec logFile "") as [->|Hne]; cbn -[MaxLogFileBytes].
  - split_and!; [done|set_solver| |by split; auto].
    split; [|by intros []]. intros (b & n & Hin). set_solver.
  - destruct (open_rotating_file _ _ _) as [[]|what] eqn:E; cbn -[MaxLogFileBytes].
    + split_and!; [done|set_solver| |by split; auto]. split; [done|]. intros _.
      exists MaxLogFileBytes, MaxLogFiles. set_solver.
    + split_and!; [done|set_solver| |]; [|split; [done|by intros []]].
      split; [|by intros []]. intros (b & n & Hin). set_solver.
Qed.

(** A file system in which every log file can be opened but those below
    [/var/log]; for closed examples. *)
Definition example_log_files : LogFiles := {|
  open_rotating_file file _ _ :=
    if String.prefix "/var/log" file then Unexpected "permission denied" else Value tt
|}.
