(* ===== verification/CommunicationHandler.v ===== *)
(** * CommunicationHandler.h, CommunicationHandler.cpp

    Sending a message, and receiving the next one under a timeout and the
    termination flag. *)

From S2P Require Import Prelude Error Externals World RunnersExecution Config.

(** [mqss::TransportOptions], with the members the sources assign. *)
Record TransportOptions : Type := MkTransportOptions {
  to_host : string;
  to_port : Z;
  to_username : string;
  to_password : string;
  to_vhost : string;
}.

Definition makeTransportOptions (config : RabbitMqConnectionConfig) : TransportOptions :=
  MkTransportOptions (host config) (port config) (user config) (password config) (vhost config).

(** The handler has one member, the messenger; of the messenger, which is library
    code, the sources determine the options it is made with. *)
Record Handler := MkHandler { messenger : TransportOptions }.

Definition new_CommunicationHandler (config : RabbitMqConnectionConfig) : Handler :=
  MkHandler (makeTransportOptions config).

Definition DefaultReceiveTimeout : Z := 500.  (* milliseconds *)
Definition WaitForever : Z := -1.

(** The message types of the pipeline: a type without an instance cannot be
    sent, as one without an overload of [messageLabel] does not compile. *)
Class WireMessage (A : Type) : Type := {
  messageLabel : A -> string;
  wire : A -> Message;
}.

#[export] Instance QuantumTask_message : WireMessage QuantumTask := {|
  messageLabel task := "quantum task " +:+ pretty (task_id task);
  wire := MsgTask;
|}.

#[export] Instance QuantumResult_message : WireMessage QuantumResult := {|
  messageLabel result := "quantum result for task " +:+ pretty (qr_task_id result);
  wire := MsgResult;
|}.

#[export] Instance Backend_message : WireMessage Backend := {|
  messageLabel backend := "backend status for backend " +:+ be_name backend;
  wire := MsgBackend;
|}.

(** The message types the daemons receive. *)
Class Receivable `{Platform} (A : Type) `{!WireMessage A} : Type :=
  platform_receive : string -> Z -> Env -> Env * ReceiveOutcome Delivery A.

#[export] Instance QuantumTask_receivable `{Platform} : Receivable QuantumTask :=
  platform_receive_task.
#[export] Instance Backend_receivable `{Platform} : Receivable Backend :=
  platform_receive_backend.

Module CommunicationHandler.
Section Handler.
Context `{Platform}.

Definition send `{WireMessage A} (message : A) (queueName : string) : M (result unit) :=
  sendStatus ← messenger_send queueName (wire message);
  match sendStatus with
  | StatusFailed reason =>
      mret (Unexpected (MkError MessagingFailed
        ("Failed to send " +:+ messageLabel message +:+ ": " +:+ reason)))
  | StatusOk => mret (Value tt)
  end.

(** The loop of [receive]; [fuel] bounds the receive attempts. The answer of
    the acknowledgement is only logged. *)
Fixpoint receiveLoop `{!WireMessage A, !Receivable A} (fuel : nat) (queueName : string) (pollInterval : Z)
    (waitIndefinitely : bool) (terminationFlag : Flag) : M (result (option A)) :=
  match fuel with
  | 0 => out_of_fuel
  | S fuel' =>
      stop ← load terminationFlag;
      if (stop : bool) then mret (Value None)
      else
        received ← receiveExtended platform_receive wire queueName pollInterval;
        match received with
        | Received message delivery =>
            _ ← delivery_ack delivery;
            mret (Value (Some message))
        | ReceiveFailed status reason =>
            if negb (bool_decide (status = StatusTimeout)) then
              mret (Unexpected (MkError MessagingFailed ("Receive error: " +:+ reason)))
            else if negb waitIndefinitely then mret (Value None)
            else receiveLoop fuel' queueName pollInterval waitIndefinitely terminationFlag
        end
  end.

Definition receive `{!WireMessage A, !Receivable A} (fuel : nat) (queueName : string) (timeout : Z)
    (terminationFlag : Flag) : M (result (option A)) :=
  let waitIndefinitely := (timeout =? WaitForever)%Z in
  let pollInterval := if waitIndefinitely then DefaultReceiveTimeout else timeout in
  receiveLoop fuel queueName pollInterval waitIndefinitely terminationFlag.

(** The overload without a flag. *)
Definition receive_uninterruptible `{!WireMessage A, !Receivable A} (fuel : nat) (queueName : string)
    (timeout : Z) : M (result (option A)) :=
  receive fuel queueName timeout NeverTerminates.
End Handler.
End CommunicationHandler.

(** ** Lemmas *)

Section HandlerLemmas.
Context `{Receivable A}.

Definition empty_poll (f : Flag) (queue : string) (interval : Z) (reason : string) : list Event :=
  polls f false ++ [EvReceive queue interval (ReceiveFailed StatusTimeout reason)].

(** How a receive ended, and the events of its last round. *)
Inductive received_as (f : Flag) (queue : string) (interval : Z) (forever : bool)
    : result (option A) -> list Event -> Prop :=
| received_shutdown :
    f = terminationRequested ->
    received_as f queue interval forever (Value None) [EvLoadFlag true]
| received_message m d st :
    received_as f queue interval forever (Value (Some m))
      (polls f false ++ [EvReceive queue interval (Received (wire m) d); EvAck d st])
| received_nothing reason :
    forever = false ->
    received_as f queue interval forever (Value None) (empty_poll f queue interval reason)
| received_error status reason :
    status <> StatusTimeout ->
    received_as f queue interval forever
      (Unexpected (MkError MessagingFailed ("Receive error: " +:+ reason)))
      (polls f false ++ [EvReceive queue interval (ReceiveFailed status reason)]).

Lemma receiveLoop_wp fuel queue interval forever f :
  wp (CommunicationHandler.receiveLoop (A := A) fuel queue interval forever f) (fun evs r =>
    exists reasons tail,
      evs = (reasons ≫= empty_poll f queue interval) ++ tail /\
      (forever = false -> reasons = []) /\
      match r with
      | Some res => received_as f queue interval forever res tail
      | None => tail = [] /\ length reasons = fuel
      end).
Proof.
  induction fuel as [|fuel IH]; cbn [CommunicationHandler.receiveLoop]; [wp_step; by exists [], []|].
  wp_step. apply wp_poll. intros stop Hstop. wp_step.
  { wp_step. destruct f; [by specialize (Hstop eq_refl)|]. subst.
    exists [], [EvLoadFlag true]. split_and!; [done..|]. by constructor. }
  subst stop. wp_step. unfold receiveExtended. wp_step. destruct a as [m d|status reason].
  { wp_step. unfold delivery_ack. wp_step. wp_step. eexists [], _.
    split_and!; [done..|]. rewrite app_nil_r. constructor. }
  case_bool_decide as Hst; cbn [negb].
  2:{ wp_step. eexists [], _. split_and!; [done..|]. rewrite app_nil_r. by constructor. }
  subst status. destruct forever; cbn [negb].
  - eapply wp_mono; [apply IH|]. intros evs r (reasons & tail & -> & _ & Hr).
    exists (reason :: reasons), tail. cbn. unfold empty_poll at 2. rewrite <- !app_assoc.
    split_and!; [done..|]. destruct r; [done|]. naive_solver.
  - wp_step. eexists [], _. split_and!; [done..|]. rewrite app_nil_r. by constructor.
Qed.
End HandlerLemmas.

(** ** Properties *)

(** C36: receiving. The flag is consulted before every attempt and, once read as
    set, the transport is left alone; a bounded timeout makes at most one
    attempt, with that timeout, and always returns; an indefinite wait polls
    every 500 ms. A message that is returned was acknowledged, once, whatever
    the broker answered to it; a timeout is no message and any other failure is
    a [MessagingFailed] error. *)
Theorem receive_spec `{Receivable A} fuel queue timeout f :
  wp (CommunicationHandler.receive (A := A) fuel queue timeout f) (fun evs r =>
    let forever := (timeout =? WaitForever)%Z in
    let interval := if forever then DefaultReceiveTimeout else timeout in
    exists reasons tail,
      evs = (reasons ≫= empty_poll f queue interval) ++ tail /\
      (timeout <> WaitForever -> reasons = [] /\ (fuel <> 0 -> is_Some r)) /\
      match r with
      | Some res => received_as f queue interval forever res tail
      | None => tail = [] /\ length reasons = fuel
      end).
Proof.
  unfold CommunicationHandler.receive. cbv zeta.
  eapply wp_mono; [apply receiveLoop_wp|]. intros evs r (reasons & tail & -> & Hb & Hr).
  exists reasons, tail. split; [done|]. split; [|done]. intros Ht.
  rewrite (proj2 (Z.eqb_neq _ _)) in * by done. rewrite Hb in * by done.
  split; [done|]. destruct r; [done|]. by destruct Hr as [_ <-].
Qed.
