(* ===== verification/DaemonMessaging.v ===== *)
(** * DaemonMessaging.h: the queue I/O of a work loop

    A handler is a callback that captures state by reference: here it takes the
    state and returns the state it leaves. *)

From S2P Require Import Prelude Error Externals World RunnersExecution.
From S2P Require Import CommunicationHandler.

Section Messaging.
Context `{Platform}.

Definition receiveNext {S} `{!WireMessage A, !Receivable A} (fuel : nat) (queueName : string) (timeout : Z)
    (terminationFlag : Flag) (handle : A -> S -> M S) (s : S) : M (bool * S) :=
  received ← CommunicationHandler.receive fuel queueName timeout terminationFlag;
  match received with
  | Unexpected _ => mret (false, s)
  | Value None => mret (false, s)
  | Value (Some message) => s' ← handle message s; mret (true, s')
  end.

(** [fuel] bounds the messages of one drain; a receive with timeout 0 makes one
    attempt. *)
Fixpoint drainLoop {S} `{!WireMessage A, !Receivable A} (fuel : nat) (queueName : string) (terminationFlag : Flag)
    (handle : A -> S -> M S) (handledAny : bool) (s : S) : M (bool * S) :=
  match fuel with
  | 0 => out_of_fuel
  | S fuel' =>
      next ← receiveNext 1 queueName 0 terminationFlag handle s;
      let '(got, s') := next in
      if (got : bool) then drainLoop fuel' queueName terminationFlag handle true s'
      else mret (handledAny, s')
  end.

Definition drainQueue {S} `{!WireMessage A, !Receivable A} (fuel : nat) (queueName : string)
    (terminationFlag : Flag) (handle : A -> S -> M S) (s : S) : M (bool * S) :=
  drainLoop fuel queueName terminationFlag handle false s.

Definition send `{WireMessage A} (message : A) (queueName : string) : M unit :=
  _ ← CommunicationHandler.send message queueName; mret tt.

Definition sendFailure (task : QuantumTask) (failure : Error) : M unit :=
  send (cancelQuantumTask task (detail failure)) (result_destination task).

Definition sendResult (task : QuantumTask) (res : QuantumResult) : M unit :=
  send res (result_destination task).
End Messaging.

(** ** Lemmas *)

Section MessagingLemmas.
Context `{Platform}.

Lemma send_wp `{WireMessage A} (m : A) queue :
  wp (send m queue) (fun evs r => r = Some tt /\ exists st, evs = [EvSend queue (wire m) st]).
Proof.
  unfold send, CommunicationHandler.send. wp_step. wp_step. unfold messenger_send. wp_step.
  destruct a; wp_step; wp_step; eauto.
Qed.

(** The handler always returns, and [R m s evs s'] describes what it does. *)
Definition handles {A S} (handle : A -> S -> M S) (R : A -> S -> list Event -> S -> Prop) : Prop :=
  forall m s, wp (handle m s) (fun evs r => exists s', r = Some s' /\ R m s evs s').

Lemma receiveNext_wp {S} `{!WireMessage A, !Receivable A} fuel queue timeout f (handle : A -> S -> M S) R s :
  handles handle R -> fuel <> 0 -> timeout <> WaitForever ->
  wp (receiveNext fuel queue timeout f handle s) (fun evs r =>
    exists got s', r = Some (got, s') /\
    if (got : bool) then
      exists m d st hevs, R m s hevs s' /\
        evs = polls f false ++
          [EvReceive queue timeout (Received (wire m) d); EvAck d st] ++ hevs
    else s' = s /\
      (exists res, received_as (A := A) f queue timeout false res evs /\
         forall m, res <> Value (Some m))).
Proof.
  intros Hh Hfuel Ht. unfold receiveNext, CommunicationHandler.receive.
  rewrite (proj2 (Z.eqb_neq _ _)) by done. wp_step. eapply wp_mono; [apply receiveLoop_wp|].
  intros evs r (reasons & tail & -> & Hr0 & Hr). rewrite Hr0 in * by done.
  destruct r as [res|]; [|by destruct Hr as [_ <-]]. cbn [mbind list_bind app].
  destruct res as [[m|]|e].
  - inversion Hr; subst. wp_step. eapply wp_mono; [apply Hh|].
    intros hevs r (s' & -> & HR). wp_step. do 2 eexists. split; [done|]. cbn.
    exists m, d, st, hevs. split; [done|]. rewrite app_nil_r. by rewrite <- app_assoc.
  - wp_step. do 2 eexists. split; [done|]. split; [done|]. exists (Value None).
    rewrite app_nil_r. done.
  - wp_step. do 2 eexists. split; [done|]. split; [done|]. exists (Unexpected e).
    rewrite app_nil_r. done.
Qed.

(** The messages a drain handled, one after the other, each acknowledged before
    it was handled. *)
Inductive drained {A S} `{!WireMessage A} (f : Flag) (queue : string)
    (R : A -> S -> list Event -> S -> Prop) : list A -> S -> list Event -> S -> Prop :=
| drained_nil s : drained f queue R [] s [] s
| drained_cons m d st ms s hevs s1 evs s2 :
    R m s hevs s1 -> drained f queue R ms s1 evs s2 ->
    drained f queue R (m :: ms) s
      ((polls f false ++ [EvReceive queue 0 (Received (wire m) d); EvAck d st] ++ hevs) ++ evs) s2.

Lemma drainLoop_wp {S} `{!WireMessage A, !Receivable A} fuel queue f (handle : A -> S -> M S) R any s :
  handles handle R ->
  wp (drainLoop fuel queue f handle any s) (fun evs r =>
    exists ms devs tail s', evs = devs ++ tail /\ drained f queue R ms s devs s' /\
    match r with
    | Some (any', s'') =>
        s'' = s' /\ any' = any || negb (bool_decide (length ms = 0)) /\
        exists res, received_as (A := A) f queue 0 false res tail /\
          forall m, res <> Value (Some m)
    | None => tail = [] /\ length ms = fuel
    end).
Proof.
  intros Hh. revert any s. induction fuel as [|fuel IH]; intros any s; cbn [drainLoop].
  { wp_step. exists [], [], [], s. by split_and!; [|constructor|..]. }
  wp_step. eapply wp_mono; [by apply receiveNext_wp|].
  intros evs r (got & s' & -> & Hr). destruct got.
  - destruct Hr as (m & d & st & hevs & HR & ->). eapply wp_mono; [apply IH|].
    intros evs r (ms & devs & tail & s2 & -> & Hd & Hr).
    eexists (m :: ms), _, tail, s2. rewrite app_assoc. split; [done|].
    split; [by econstructor|]. destruct r as [[any' s'']|]; [|cbn; naive_solver].
    destruct Hr as (-> & -> & Hres). cbn. rewrite orb_true_r. done.
  - destruct Hr as (-> & Hres). wp_step. exists [], [], (evs ++ []), s.
    split_and!; [done|constructor|done|by rewrite orb_false_r|]. by rewrite app_nil_r.
Qed.
End MessagingLemmas.

(** ** Properties *)

(** Draining a queue. Every message the broker delivers is acknowledged and
    handled exactly once, in the order received, each handler starting from the
    state the previous one left; the drain stops at the first poll that brings
    no message (an empty queue, a broker failure or a shutdown) and answers
    whether it handled any. *)
Theorem drain_spec `{Platform} {S} `{!WireMessage A} `{!Receivable A} fuel queue f
    (handle : A -> S -> M S) (R : A -> S -> list Event -> S -> Prop) s :
  handles handle R ->
  wp (drainQueue fuel queue f handle s) (fun evs r =>
    exists ms devs tail s', evs = devs ++ tail /\ drained f queue R ms s devs s' /\
    match r with
    | Some (any, s'') =>
        s'' = s' /\ any = negb (bool_decide (length ms = 0)) /\
        exists res, received_as (A := A) f queue 0 false res tail /\
          forall m, res <> Value (Some m)
    | None => tail = [] /\ length ms = fuel
    end).
Proof. intros Hh. exact (drainLoop_wp fuel queue f handle R false s Hh). Qed.

Lemma drain_spec_witness :
  @wp sim_platform (bool * list Backend)
    (@drainQueue sim_platform _ Backend _ _ 5 "status" terminationRequested
       (fun b seen => mret (seen ++ [b])) [])
    (fun evs r => exists ms devs tail s', evs = devs ++ tail /\
      drained terminationRequested "status"
        (fun b seen hevs seen' => hevs = [] /\ seen' = seen ++ [b]) ms [] devs s' /\
      match r with
      | Some (any, s'') =>
          s'' = s' /\ any = negb (bool_decide (length ms = 0)) /\
          exists res, @received_as sim_platform Backend _ terminationRequested "status" 0 false
                        res tail /\ forall m, res <> Value (Some m)
      | None => tail = [] /\ length ms = 5
      end).
Proof.
  apply (@drain_spec sim_platform). intros b seen. apply wp_ret. eauto.
Defined.
