(* ===== verification/Daemon.v ===== *)
(** * Daemon.h, Daemon.cpp: what the daemon entrypoints share

    Process bring-up, the process's own device and its registry entry, and the
    compile-and-schedule stage. The clock a defaulted [now] argument reads is
    read where the call is made. *)

From S2P Require Import Prelude Error Externals ConstantsMapping CircuitFormatPolicy.
From S2P Require Import World BackendWrapper BackendRegistry PublicationThrottle.
From S2P Require Import RunnersSelection RunnersCompilation RunnersExecution Config.
From S2P Require Import ConfigProperties Logger.

(** ** Process bring-up *)

Definition SIGINT : Z := 2.
Definition SIGTERM : Z := 15.

(** The signal handler, on the termination flag. *)
Definition termination_handler (signal : Z) (flag : bool) : bool :=
  if (signal =? SIGINT)%Z || (signal =? SIGTERM)%Z then true else flag.

(** The process-wide state [initializeDaemon] sets up: the signals that have
    the handler, the default logger, and the lines logged so far. *)
Record Process : Type := MkProcess {
  handled_signals : list Z;
  default_logger : option Logger;
  logged : list LogLine;
}.

Definition new_Process : Process := MkProcess [] None [].

Definition installTerminationHandlers (p : Process) : Process :=
  MkProcess (SIGTERM :: SIGINT :: handled_signals p) (default_logger p) (logged p).

Definition initializeDaemon `{ConfigSources} `{LogFiles} (p : Process) : Process * result Config :=
  let p := installTerminationHandlers p in
  match loadConfig with
  | Unexpected e => (p, Unexpected e)
  | Value config =>
      let '(warnings, logger) :=
        makeLogger (daemonLogger (common config)) (daemonLog (common config)) in
      (MkProcess (handled_signals p) (Some logger) (logged p ++ warnings), Value config)
  end.

Definition optionalSetting (value : string) : option string :=
  if String.eqb value "" then None else Some value.

Section Daemon.
Context `{ProtocolEnums} `{CompilerFormats} `{Platform}.

Definition openConfiguredDevice (config : SubmitterConfig) : M (result Device) :=
  opened ← openDevice (qdmiDriver config) (qdmiDeviceName config)
             (MkSessionConfig (optionalSetting (qdmiClientToken config)))
             (MkDeviceConfig (optionalSetting (qdmiDeviceId config)));
  mret (transform_error (toQrmciError DriverUnavailable) opened).

(** ** The process's own device *)

Definition registerOwnDevice (device : Device) (dispatchQueue : string)
    (backends : BackendRegistry) : M (result unit * BackendRegistry) :=
  backend ← fromSubmitter device dispatchQueue;
  match backend with
  | Unexpected e => mret (Unexpected e, backends)
  | Value b =>
      t ← now;
      mret (Value tt, (insertOrRefresh b t backends).2)
  end.

Definition refreshOwnDeviceStatus (device : Device) (dispatchQueue : string)
    (backends : BackendRegistry) (throttle : PublicationThrottle)
    : M (option Backend * BackendRegistry * PublicationThrottle) :=
  t ← now;
  let '(due, throttle') := claim t throttle in
  if negb due then mret (None, backends, throttle')
  else
    refreshed ← fromSubmitter device dispatchQueue;
    match refreshed with
    | Unexpected _ => mret (None, backends, throttle')
    | Value b =>
        let status := toBackend b in
        t' ← now;
        mret (Some status, (insertOrRefresh b t' backends).2, throttle')
    end.

(** [expire()] at the current time. *)
Definition expireNow (backends : BackendRegistry) : M BackendRegistry :=
  t ← now; mret (expire t backends).2.

(** The lines that list the registered backends. *)
Definition logRegisteredBackends (backends : BackendRegistry) : list LogLine :=
  forEachBackend (fun lines name backend =>
    lines ++
    (level_info, "Backend: " +:+ name +:+ ", Qubits: " +:+ pretty (getNumQubits backend) +:+
       ", Status: " +:+ backendStatusLabel (getStatus backend)) ::
    ((fun format => (level_info, "  Supported format: " +:+ circuitFormatLabel format))
       <$> getSupportedCircuitFormats backend))
    backends [(level_info, "Available backends:")].

(** ** Compile and schedule *)

Definition compileAndSchedule (task : QuantumTask) (backends : BackendRegistry)
    : M (result unit * QuantumTask) :=
  match find backends (scheduled_qpu task) with
  | None =>
      mret (Unexpected (MkError NoBackendAvailable
        ("Backend '" +:+ scheduled_qpu task +:+ "' is not registered with this process.")), task)
  | Some backendInfo =>
      compiled ← compileQuantumTask task backendInfo;
      let '(res, task') := compiled in
      match res with
      | Unexpected e => mret (Unexpected e, task')
      | Value _ =>
          _ ← scheduleTask task';
          mret (Value tt, task')
      end
  end.

Definition selectCompileAndSchedule (task : QuantumTask) (backends : BackendRegistry)
    (policy : BackendSelectionPolicy) : M (result unit * QuantumTask) :=
  match chooseBackend task backends policy with
  | Unexpected e => mret (Unexpected e, task)
  | Value chosenBackend => compileAndSchedule (set_scheduled_qpu chosenBackend task) backends
  end.
End Daemon.

(** ** Lemmas *)

(** Logging does not decide whether a daemon starts. *)
Lemma initializeDaemon_config `{ConfigSources} `{LogFiles} p : (initializeDaemon p).2 = loadConfig.
Proof. unfold initializeDaemon. destruct loadConfig; [|done]. by destruct (makeLogger _ _). Qed.

(** The configuration a daemon runs with has been validated. *)
Lemma loadConfig_valid `{ConfigSources} c : loadConfig = Value c -> config_valid c.
Proof.
  unfold loadConfig, loadConfig_from. intros E. expected_inv.
  by apply assembleConfig_sound in E as (_ & _ & ? & _).
Qed.

Lemma initializeDaemon_valid `{ConfigSources} `{LogFiles} p c :
  (initializeDaemon p).2 = Value c -> config_valid c.
Proof. rewrite initializeDaemon_config. apply loadConfig_valid. Qed.

(** A device query that did not fail. *)
Definition clean_query `{Platform} (ev : Event) : Prop :=
  match ev with EvNow _ => False | _ => query_failed ev = false end.

(** [task'] is [task] compiled for [b], and [evs] are the compiler's calls: none
    for a task that must not be modified, otherwise one per circuit, in order,
    with the result format chosen for [b]. *)
Definition compiled_for `{ProtocolEnums} `{Platform} (b : BackendWrapper) (task task' : QuantumTask)
    (evs : list Event) : Prop :=
  if no_modify task then task' = task /\ evs = []
  else exists target level texts,
    compilerTarget b = Value target /\
    getCompilerOptimizationLevel (optimisation_level task) = Value level /\
    length texts = length (circuit_files task) /\
    evs = compile_events b (MkCompilerOptions level (compilerFormat target))
            (circuit_files task) texts /\
    task' = compiled_task texts (taskCircuitType target) task.

Lemma compiled_for_fields `{ProtocolEnums} `{Platform} b task task' evs :
  compiled_for b task task' evs ->
  scheduled_qpu task' = scheduled_qpu task /\
  result_destination task' = result_destination task /\ task_id task' = task_id task.
Proof.
  unfold compiled_for. destruct (no_modify task); [by intros [-> _]|].
  by intros (? & ? & ? & _ & _ & _ & _ & ->).
Qed.

Section DaemonLemmas.
Context `{ProtocolEnums} `{CompilerFormats} `{Platform}.

Lemma compileAndSchedule_wp task r :
  wp (compileAndSchedule task r) (fun evs o =>
    exists res task', o = Some (res, task') /\
    match res with
    | Value _ =>
        exists b cevs, find r (scheduled_qpu task) = Some b /\
          Forall nonempty_compile cevs /\ compiled_for b task task' cevs /\
          evs = cevs ++ [EvSchedule task']
    | Unexpected e =>
        task' = task /\ Forall nonempty_compile evs /\
        match find r (scheduled_qpu task) with
        | None => kind e = NoBackendAvailable /\ evs = []
        | Some b => kind e = CompilationFailed \/
                    (kind e = UnsupportedFormat /\ canRun b task = false)
        end
    end).
Proof.
  unfold compileAndSchedule. destruct (find r (scheduled_qpu task)) as [b|].
  2:{ wp_step. do 2 eexists. split; [done|]. by split_and!. }
  wp_step. eapply wp_mono; [apply compileQuantumTask_wp|].
  intros evs [[[u|e] task']|] [Hne Hr]; [..|done].
  - wp_step. unfold scheduleTask. wp_step. wp_step. do 2 eexists. split; [done|].
    exists b, evs. by split_and!.
  - wp_step. do 2 eexists. split; [done|]. rewrite app_nil_r.
    destruct Hr as (-> & Hm & Hk). split_and!; [done..|]. destruct Hk as [?|[? Hp]]; [by left|right].
    split; [done|]. unfold canRun. rewrite Hp. by repeat case_match.
Qed.

(** What [refreshOwnDeviceStatus] does, on every branch. *)
Lemma refreshOwnDeviceStatus_wp d q r th :
  wp (refreshOwnDeviceStatus d q r th) (fun evs o =>
    exists t status r', o = Some (status, r', (claim t th).2) /\
    match status with
    | None =>
        r' = r /\ ((claim t th).1 = false /\ evs = [EvNow t] \/
          (claim t th).1 = true /\ exists qevs, evs = EvNow t :: qevs /\
            exists ev, ev ∈ qevs /\ query_failed ev = true)
    | Some st =>
        (claim t th).1 = true /\
        exists w qevs t', evs = EvNow t :: qevs ++ [EvNow t'] /\
          Forall clean_query qevs /\ getName w = deviceId d /\ getQueueName w = q /\
          st = toBackend w /\ r' = (insertOrRefresh w t' r).2
    end).
Proof.
  unfold refreshOwnDeviceStatus. wp_step. unfold now at 1. wp_step.
  destruct (claim a th) as [due th'] eqn:Ec. destruct due; cbn [negb].
  2:{ wp_step. exists a, None, r. rewrite Ec. split; [done|]. split; [done|]. by left. }
  wp_step. eapply wp_mono; [apply fromSubmitter_wp|]. intros qevs [[w|e]|] Hq; [..|done].
  - wp_step. unfold now. wp_step. wp_step. eexists a, (Some _), _. rewrite Ec. split; [done|].
    split; [done|]. destruct Hq as (n & s & i & c & fs & coupling & -> & Hcm & ->).
    assert (query_failed (EvCouplingMap d c) = false) as Hc.
    { destruct Hcm as [->|(e & -> & Hc & _)]; cbn; [done|]. by rewrite bool_decide_eq_true_2. }
    eexists (BackendWrapper_of_device (deviceId d) q n s i coupling fs), [_; _; _; _; _], a0. split; [reflexivity|]. split; [by rewrite !Forall_cons|by split_and!].
  - wp_step. exists a, None, r. rewrite Ec. split; [done|]. split; [done|]. right. split; [done|].
    exists qevs. rewrite app_nil_r. split; [done|].
    destruct Hq as (_ & before & last & -> & Hl & _). exists last. split; [set_solver|done].
Qed.
End DaemonLemmas.

(** The clock readings of a trace, in order. *)
Definition clock_readings `{Platform} (evs : list Event) : list Z :=
  omap (fun ev => match ev with EvNow t => Some t | _ => None end) evs.

(** The process's own entry: registered under its queue, and refreshed no
    earlier than the last publication slot was claimed. *)
Definition own_entry (id q : string) (r : BackendRegistry) (th : PublicationThrottle) : Prop :=
  exists e, smap_find id (entries r) = Some e /\ getQueueName (backend e) = q /\
    forall last, lastClaimed th = Some last -> (last <= lastRefreshed e)%Z.

Lemma clock_readings_queries `{Platform} qevs rest :
  Forall clean_query qevs ->
  clock_readings (qevs ++ rest) = clock_readings rest.
Proof.
  induction 1 as [|ev qevs Hev _ IH]; cbn; [done|]. by destruct ev.
Qed.

(** An entry that is not stale outlives an expiry. *)
Lemma own_entry_expire id q r th e t :
  registry_wf r -> smap_find id (entries r) = Some e -> getQueueName (backend e) = q ->
  (forall last, lastClaimed th = Some last -> (last <= lastRefreshed e)%Z) ->
  (t - lastRefreshed e <= entryTimeToLive r)%Z ->
  own_entry id q (expire t r).2 th.
Proof.
  intros [Hs _] He Hq Hl Ht. exists e. split; [|done]. cbn.
  rewrite smap_find_erase_if, He by done. unfold stale. cbn.
  by rewrite (proj2 (Z.ltb_ge _ _)).
Qed.

Lemma queue_conflict_same id q r th b :
  own_entry id q r th -> getName b = id -> getQueueName b = q -> queue_conflict r b = false.
Proof.
  intros (e & He & Hq & _) Hn Hqb. destruct (queue_conflict r b) eqn:E; [|done].
  apply queue_conflict_true in E as (e' & He' & _ & _ & Hne). subst id q.
  rewrite He in He'. by simplify_eq.
Qed.

(** ** Properties *)

(** C35: the standalone intake stage. On success the task was assigned the
    backend the policy chooses, which is registered, online and able to run it;
    it was compiled for that backend, circuit by circuit, with nothing changed but
    the circuits and their type (a [no_modify] task is left as it is); and it was
    scheduled exactly once, as compiled. On failure nothing was scheduled and the
    task is as received but for its assigned backend; the failure is
    [NoBackendAvailable] with no compiler call, exactly when no registered backend
    is eligible, or [CompilationFailed]. The registry does not change between the
    choice and the lookup, so the chosen backend is found again. *)
Theorem select_compile_schedule_spec `{ProtocolEnums} `{CompilerFormats} `{Platform} task r policy :
  registry_wf r ->
  wp (selectCompileAndSchedule task r policy) (fun evs o =>
    exists res task', o = Some (res, task') /\
    match res with
    | Value _ =>
        exists n b cevs, chooseBackend task r policy = Value n /\ find r n = Some b /\
          eligible task b = true /\ Forall nonempty_compile cevs /\
          compiled_for b (set_scheduled_qpu n task) task' cevs /\ evs = cevs ++ [EvSchedule task']
    | Unexpected e =>
        Forall nonempty_compile evs /\
        ((e = MkError NoBackendAvailable "No suitable backend found" /\ task' = task /\ evs = [] /\
          forall n b, find r n = Some b -> eligible task b = false) \/
         (kind e = CompilationFailed /\
          exists n b, find r n = Some b /\ eligible task b = true /\
            task' = set_scheduled_qpu n task))
    end).
Proof.
  intros Hwf. unfold selectCompileAndSchedule.
  destruct (chooseBackend task r policy) as [n|e] eqn:Ec.
  2:{ apply chooseBackend_none in Ec as [-> Hn]; [|done]. wp_step. do 2 eexists. split; [done|].
      split; [done|]. by left. }
  apply chooseBackend_found in Ec as (b & Hb & _ & He); [|done].
  eapply wp_mono; [apply compileAndSchedule_wp|]. intros evs o (res & task' & -> & Hr).
  do 2 eexists. split; [done|]. destruct res as [u|e]; cbn [scheduled_qpu set_scheduled_qpu] in Hr.
  - destruct Hr as (b' & cevs & Hb' & Hne & Hc & ->). exists n, b', cevs.
    rewrite Hb in Hb'. simplify_eq. by split_and!.
  - destruct Hr as (-> & Hne & Hk). rewrite Hb in Hk. split; [done|]. right.
    assert (canRun b task = true) as Hrun by (by apply andb_true_iff in He as [_ ?]).
    destruct Hk as [Hk|[_ Hk]]; [eauto 6|]. by change (canRun b task = false) in Hk; rewrite Hrun in Hk.
Qed.

Lemma select_compile_schedule_spec_witness :
  exists evs res task',
    (@selectCompileAndSchedule example_enums example_formats sim_platform (example_task "" [])
       example_registry LowestName (sim_world 9 [])).2 = Some (res, task') /\
    (forall e, res = Unexpected e ->
       kind e = CompilationFailed \/
       e = MkError NoBackendAvailable "No suitable backend found") /\
    (res = Value tt -> exists n b cevs, find example_registry n = Some b /\
       evs = cevs ++ [EvSchedule task'] /\
       @compiled_for example_enums sim_platform b (set_scheduled_qpu n (example_task "" [])) task' cevs).
Proof.
  destruct (@select_compile_schedule_spec example_enums example_formats sim_platform (example_task "" [])
    example_registry LowestName example_registry_wf (sim_world 9 []))
    as (evs & _ & res & task' & Ho & Hr).
  exists evs, res, task'. split; [exact Ho|]. split.
  - intros e ->. destruct Hr as [_ [(-> & _)|(Hk & _)]]; auto.
  - intros ->. destruct Hr as (n & b & cevs & _ & Hb & _ & _ & Hc & ->). by exists n, b, cevs.
Defined.

(** C32: a process keeps its own entry. As long as the device can be read, the
    entry of a process's own device survives the expiry that follows each
    refresh, provided that the expiry comes within the time-to-live less the
    publication interval of the throttle's reading of the clock; and the
    invariant this rests on holds again for the next turn. *)
Theorem own_entry_survives `{ProtocolEnums} `{Platform} d q r th :
  registry_wf r -> own_entry (deviceId d) q r th -> (0 <= publishInterval th)%Z ->
  wp (refreshOwnDeviceStatus d q r th) (fun evs o =>
    Forall (fun ev => query_failed ev = false) evs ->
    forall t0 rest t, clock_readings evs = t0 :: rest ->
    Sorted Z.le (t0 :: rest ++ [t]) ->
    (t - t0 <= entryTimeToLive r - publishInterval th)%Z ->
    exists status r' th', o = Some (status, r', th') /\
      is_Some (find (expire t r').2 (deviceId d)) /\ own_entry (deviceId d) q (expire t r').2 th').
Proof.
  intros Hwf Hown Hint. eapply wp_mono; [apply refreshOwnDeviceStatus_wp|].
  intros evs o (tc & status & r' & -> & Hst) Hok t0 rest t Hclk Hsort Hslack.
  exists status, r', (claim tc th).2. split; [done|].
  cut (own_entry (deviceId d) q (expire t r').2 (claim tc th).2).
  { intros Ho. split; [|done]. destruct Ho as (e & He & _). unfold find. rewrite He. eauto. }
  destruct status as [st|].
  - destruct Hst as (Hdue & w & qevs & t' & -> & Hq & Hn & Hqn & _ & ->).
    change (tc :: clock_readings (qevs ++ [EvNow t']) = t0 :: rest) in Hclk.
    rewrite clock_readings_queries in Hclk by done. cbn in Hclk. simplify_eq.
    apply Sorted_StronglySorted in Hsort; [|by intros ???; apply Z.le_trans].
    apply StronglySorted_cons in Hsort as [[Ht1 _]%Forall_cons _].
    assert (queue_conflict r w = false) as Hc by (by eapply queue_conflict_same).
    apply own_entry_expire with (e := MkEntry w t').
    + by apply insertOrRefresh_wf.
    + unfold insertOrRefresh. rewrite Hc. cbn. rewrite Hn. apply smap_find_insert_eq.
    + done.
    + intros last. unfold claim in *. cbn. repeat case_match; naive_solver.
    + unfold insertOrRefresh. rewrite Hc. cbn. lia.
  - destruct Hst as [-> [[Hnd ->]|(_ & qevs & -> & ev & Hin & Hf)]].
    2:{ rewrite Forall_forall in Hok. rewrite Hok in Hf; [done|]. by right. }
    cbn in Hclk. simplify_eq. destruct Hown as (e & He & Hq & Hl).
    unfold claim in *. destruct (lastClaimed th) as [last|] eqn:El; [|done].
    destruct (Z.ltb_spec (t0 - last) (publishInterval th)); [|done]. cbn.
    eapply own_entry_expire; [done..| |].
    + rewrite El. done.
    + specialize (Hl last eq_refl). lia.
Qed.

Lemma own_entry_survives_witness :
  let r := (insertOrRefresh (MkBackendWrapper "dev" "" 5 0 1 0 0 "q" [] [] [2]) 10
              (new_BackendRegistry 30))%Z.2 in
  own_entry "dev" "q" r (new_PublicationThrottle 5) /\
  @wp sim_platform _ (@refreshOwnDeviceStatus example_enums sim_platform "dev" "q" r
                        (new_PublicationThrottle 5))
    (fun evs o =>
      Forall (fun ev => query_failed ev = false) evs ->
      forall t0 rest t, clock_readings evs = t0 :: rest ->
      Sorted Z.le (t0 :: rest ++ [t]) -> (t - t0 <= 30 - 5)%Z ->
      exists status r' th', o = Some (status, r', th') /\
        is_Some (find (expire t r').2 "dev") /\ own_entry "dev" "q" (expire t r').2 th').
Proof.
  intros r. assert (own_entry "dev" "q" r (new_PublicationThrottle 5)) as Hown.
  { eexists. split; [reflexivity|]. done. }
  split; [done|].
  apply (@own_entry_survives example_enums sim_platform "dev" "q" r); [|done|done].
  apply insertOrRefresh_wf, new_registry_wf.
Defined.

(** The configuration leaves that slack. With an accepted configuration
    whose time-to-live is at most 9223372036 seconds, the conversions of both
    durations to nanoseconds are exact, and the registry's time-to-live exceeds
    the throttle's interval by at least a millisecond. *)
Theorem publication_slack `{ConfigSources} root c :
  assembleConfig root = Value c -> (submitter_entryTimeToLive (submitter c) <= 9223372036)%Z ->
  let r := new_BackendRegistry (seconds_to_ns (submitter_entryTimeToLive (submitter c))) in
  let th := new_PublicationThrottle
              (milliseconds_to_ns (backendStatusPublishInterval (submitter c))) in
  entryTimeToLive r = (submitter_entryTimeToLive (submitter c) * 1000000000)%Z /\
  publishInterval th = (backendStatusPublishInterval (submitter c) * 1000000)%Z /\
  (publishInterval th + 1000000 <= entryTimeToLive r)%Z.
Proof.
  intros (_ & _ & [] & _)%assembleConfig_sound Hmax r th. rewrite seconds_to_ms_exact in valid_outlives_publication by lia.
  subst r th. cbn [entryTimeToLive publishInterval new_BackendRegistry new_PublicationThrottle].
  rewrite seconds_to_ns_exact, milliseconds_to_ns_exact by lia. lia.
Qed.

Lemma publication_slack_witness :
  (publishInterval (new_PublicationThrottle (milliseconds_to_ns 5000)) + 1000000
   <= entryTimeToLive (new_BackendRegistry (seconds_to_ns 30)))%Z.
Proof.
  apply (@publication_slack example_toml (example_sources [] None) [] default_config);
    vm_compute; [reflexivity|discriminate].
Defined.

(** C31: bring-up. Whatever happens, both termination signals have the handler
    afterwards and the answer is that of [loadConfig]; a refused configuration
    is a [ConfigError], with no logger installed and nothing logged. Otherwise
    the default logger is named as configured and writes to the console, and to
    the daemon's log file exactly when that can be opened; that it cannot is
    reported and is not a reason to refuse to start. *)
Theorem bring_up_spec `{ConfigSources} `{LogFiles} p :
  let '(p', answer) := initializeDaemon p in
  answer = loadConfig /\ handled_signals p' ≡ₚ SIGINT :: SIGTERM :: handled_signals p /\
  match answer with
  | Unexpected e =>
      kind e = ConfigError /\ default_logger p' = default_logger p /\ logged p' = logged p
  | Value c =>
      exists l, default_logger p' = Some l /\ logger_name l = daemonLogger (common c) /\
        stdout_color_sink_mt ∈ sinks l /\
        let opened :=
          (open_rotating_file (daemonLog (common c)) MaxLogFileBytes MaxLogFiles = Value tt) in
        ((exists b n, rotating_file_sink_mt (daemonLog (common c)) b n ∈ sinks l) <-> opened) /\
        (logged p' = logged p <-> opened)
  end.
Proof.
  unfold initializeDaemon. destruct loadConfig as [c|e] eqn:E.
  - apply loadConfig_daemonLog in E.
    pose proof (makeLogger_spec (daemonLogger (common c)) (daemonLog (common c))) as Hl.
    destruct (makeLogger _ _) as [warnings l]. destruct Hl as (Hn & Hc & Hf & Hw).
    split; [done|]. split; [apply perm_swap|]. exists l. cbn [default_logger logged].
    split_and!; [done..|naive_solver|].
    transitivity (warnings = []); [|naive_solver].
    split; [|intros ->; apply app_nil_r]. intros E'. apply (app_inv_head (logged p)).
    by rewrite app_nil_r.
  - split; [done|]. split; [apply perm_swap|]. split; [|done].
    by apply (loadConfig_from_kind _ _ E).
Qed.

(** A device that cannot be read says nothing. If any query of a refresh
    fails, no status is returned for publication and the registry is left as it
    was; a status that is returned is the snapshot just read, and it is the one
    registered unless its queue conflicts. *)
Theorem refresh_publishes_what_it_read `{ProtocolEnums} `{Platform} d q r th :
  wp (refreshOwnDeviceStatus d q r th) (fun evs o =>
    exists status r' th', o = Some (status, r', th') /\
    ((exists ev, ev ∈ evs /\ query_failed ev = true) -> status = None) /\
    match status with
    | None => r' = r
    | Some st => exists w, st = toBackend w /\ getName w = deviceId d /\ getQueueName w = q /\
                   (queue_conflict r w = false -> find r' (deviceId d) = Some w)
    end).
Proof.
  eapply wp_mono; [apply refreshOwnDeviceStatus_wp|].
  intros evs o (tc & status & r' & -> & Hst). do 3 eexists. split; [done|].
  destruct status as [st|]; [|by destruct Hst as [-> _]].
  destruct Hst as (_ & w & qevs & t' & -> & Hq & Hn & Hqn & -> & ->). split.
  - intros (ev & Hin & Hf). exfalso. rewrite Forall_forall in Hq.
    assert (ev ∈ qevs \/ exists t, ev = EvNow t) as [Hev|[t ->]] by set_solver; [|done].
    specialize (Hq _ Hev). unfold clean_query in Hq. destruct ev; congruence.
  - exists w. split_and!; [done..|]. intros Hc. rewrite <- Hn. by apply find_insertOrRefresh_accepted.
Qed.
