(* ===== verification/Traces.v ===== *)
(** * What the traces of the daemons show

    Projections of a trace to the messages and tasks that cross the process
    boundary, and the rule that the stages in between are silent: compiling,
    submitting, collecting and reading the device neither receive, send,
    schedule nor fetch a task. *)

From S2P Require Import Prelude Error Externals ConstantsMapping World.
From S2P Require Import BackendWrapper BackendRegistry PublicationThrottle.
From S2P Require Import RunnersSelection RunnersCompilation RunnersExecution.
From S2P Require Import CommunicationHandler DaemonMessaging Daemon.

Section Projections.
Context `{Platform}.

(** The tasks taken from a queue, in order. *)
Definition tasks_received (evs : list Event) : list QuantumTask :=
  omap (fun ev => match ev with EvReceive _ _ (Received (MsgTask t) _) => Some t | _ => None end) evs.

(** Every message sent, with its queue. *)
Definition outgoing (evs : list Event) : list (string * Message) :=
  omap (fun ev => match ev with EvSend q m _ => Some (q, m) | _ => None end) evs.

(** The results sent, with their queues. *)
Definition results_sent (evs : list Event) : list (string * QuantumResult) :=
  omap (fun ev => match ev with EvSend q (MsgResult r) _ => Some (q, r) | _ => None end) evs.

(** The tasks forwarded, with their queues. *)
Definition tasks_sent (evs : list Event) : list (string * QuantumTask) :=
  omap (fun ev => match ev with EvSend q (MsgTask t) _ => Some (q, t) | _ => None end) evs.

(** The tasks handed to the scheduler, and the ready tasks taken from it. *)
Definition tasks_scheduled (evs : list Event) : list QuantumTask :=
  omap (fun ev => match ev with EvSchedule t => Some t | _ => None end) evs.

Definition ready_tasks (evs : list Event) : list QuantumTask :=
  omap (fun ev => match ev with EvNextReady (Some t) => Some t | _ => None end) evs.

(** Events that cross no boundary the projections look at. *)
Definition internal (ev : Event) : Prop :=
  match ev with
  | EvSend _ _ _ | EvReceive _ _ _ | EvSchedule _ | EvNextReady _ => False
  | _ => True
  end.

(** All five projections of a trace at once. *)
Record Crossings : Type := MkCrossings {
  cr_received : list QuantumTask;
  cr_results : list (string * QuantumResult);
  cr_tasks : list (string * QuantumTask);
  cr_scheduled : list QuantumTask;
  cr_ready : list QuantumTask;
}.

Definition crossings (evs : list Event) : Crossings :=
  MkCrossings (tasks_received evs) (results_sent evs) (tasks_sent evs) (tasks_scheduled evs)
    (ready_tasks evs).

Definition no_crossings : Crossings := MkCrossings [] [] [] [] [].

Definition cr_app (a b : Crossings) : Crossings :=
  MkCrossings (cr_received a ++ cr_received b) (cr_results a ++ cr_results b)
    (cr_tasks a ++ cr_tasks b) (cr_scheduled a ++ cr_scheduled b) (cr_ready a ++ cr_ready b).

Lemma crossings_app evs evs' : crossings (evs ++ evs') = cr_app (crossings evs) (crossings evs').
Proof.
  unfold crossings, cr_app, tasks_received, results_sent, tasks_sent, tasks_scheduled, ready_tasks.
  cbn [cr_received cr_results cr_tasks cr_scheduled cr_ready]. by rewrite !omap_app.
Qed.

Lemma crossings_internal evs : Forall internal evs -> crossings evs = no_crossings.
Proof.
  induction 1 as [|ev evs Hev _ IH]; [done|].
  change (ev :: evs) with ([ev] ++ evs). rewrite crossings_app, IH. by destruct ev.
Qed.

Lemma cr_app_nil_l a : cr_app no_crossings a = a.
Proof. by destruct a. Qed.

Lemma cr_app_nil_r a : cr_app a no_crossings = a.
Proof. destruct a. unfold cr_app, no_crossings. cbn. by rewrite !app_nil_r. Qed.

Lemma tasks_sent_app evs evs' : tasks_sent (evs ++ evs') = tasks_sent evs ++ tasks_sent evs'.
Proof. apply omap_app. Qed.

Lemma results_sent_app evs evs' : results_sent (evs ++ evs') = results_sent evs ++ results_sent evs'.
Proof. apply omap_app. Qed.

Lemma tasks_received_app evs evs' :
  tasks_received (evs ++ evs') = tasks_received evs ++ tasks_received evs'.
Proof. apply omap_app. Qed.

Lemma outgoing_app evs evs' : outgoing (evs ++ evs') = outgoing evs ++ outgoing evs'.
Proof. apply omap_app. Qed.

Lemma internal_quiet evs : Forall internal evs -> tasks_received evs = [] /\ outgoing evs = [].
Proof.
  induction 1 as [|ev evs Hev _ [IH1 IH2]]; [done|].
  change (ev :: evs) with ([ev] ++ evs). rewrite tasks_received_app, outgoing_app, IH1, IH2.
  by destruct ev.
Qed.

(** ** Silent computations *)

Definition emits {A} (P : Event -> Prop) (m : M A) : Prop := wp m (fun evs _ => Forall P evs).

Lemma emits_ret {A} P (a : A) : emits P (mret a).
Proof. by apply wp_ret. Qed.

Lemma emits_out_of_fuel {A} P : emits P (@out_of_fuel _ A).
Proof. by apply wp_out_of_fuel. Qed.

Lemma emits_call {A} P (f : Env -> Env * A) ev : (forall a, P (ev a)) -> emits P (call f ev).
Proof. intros HP. apply wp_call. by constructor. Qed.

Lemma emits_bind {A B} P (m : M A) (k : A -> M B) :
  emits P m -> (forall a, emits P (k a)) -> emits P (m ≫= k).
Proof.
  intros Hm Hk. apply wp_bind. eapply wp_mono; [exact Hm|]. intros evs [a|] He; [|done].
  eapply wp_mono; [apply Hk|]. intros evs' r He'. by apply Forall_app.
Qed.

Lemma emits_or_return {A B} P (m : result A) (k : A -> M (result B)) :
  (forall a, emits P (k a)) -> emits P (or_return m k).
Proof. intros Hk. destruct m; [apply Hk|apply emits_ret]. Qed.

Lemma emits_load P f : (forall b, P (EvLoadFlag b)) -> emits P (load f).
Proof. intros HP. destruct f; [apply emits_ret|by apply emits_call]. Qed.

Lemma emits_mono {A} (P Q : Event -> Prop) (m : M A) :
  (forall ev, P ev -> Q ev) -> emits P m -> emits Q m.
Proof. intros HPQ Hm. eapply wp_mono; [exact Hm|]. intros evs o He. eapply Forall_impl; [exact He|exact HPQ]. Qed.

Lemma emits_and {A} P (m : M A) Q : emits P m -> wp m Q -> wp m (fun evs r => Forall P evs /\ Q evs r).
Proof. apply wp_and. Qed.

(** ** Trace properties that accumulate

    [keeps T m Q]: the events of [m] satisfy [T], also in the runs that do not
    return, and what it returns satisfies [Q]. *)
Definition keeps {A} (T : list Event -> Prop) (m : M A) (Q : A -> Prop) : Prop :=
  wp m (fun evs o => T evs /\ forall a, o = Some a -> Q a).

Lemma keeps_ret {A} T (a : A) (Q : A -> Prop) : T [] -> Q a -> keeps T (mret a) Q.
Proof. intros HT HQ. apply wp_ret. split; [done|]. by intros ? [= <-]. Qed.

Lemma keeps_bind {A B} T (m : M A) (k : A -> M B) Q Q' :
  (forall evs evs', T evs -> T evs' -> T (evs ++ evs')) ->
  keeps T m Q -> (forall a, Q a -> keeps T (k a) Q') -> keeps T (m ≫= k) Q'.
Proof.
  intros Happ Hm Hk. apply wp_bind. eapply wp_mono; [exact Hm|].
  intros evs [a|] [HT HQ]; [|done]. eapply wp_mono; [by apply Hk, HQ|].
  intros evs' o [HT' HQ']. auto.
Qed.
End Projections.

(** Show that a computation is silent by following its structure. *)
Ltac silent :=
  repeat first
    [ solve [eauto 2]
    | apply emits_load; intros; exact I
    | apply emits_ret | apply emits_out_of_fuel
    | apply emits_bind; [|intros ?]
    | apply emits_or_return; intros ?
    | apply emits_call; intros; exact I
    | match goal with
      | |- emits _ (match ?x with _ => _ end) => destruct x
      end ].

Section Silence.
Context `{ProtocolEnums} `{CompilerFormats} `{Platform}.

Lemma fromSubmitter_silent d q : emits internal (fromSubmitter d q).
Proof. unfold fromSubmitter. cbv zeta. silent. Qed.

Lemma cancelAll_silent jobs : emits internal (cancelAll jobs).
Proof. induction jobs; cbn [cancelAll]; silent. Qed.

Lemma submitCircuits_silent task d f format pl indices jobs :
  emits internal (submitCircuits task d f format pl indices jobs).
Proof.
  pose proof cancelAll_silent. revert jobs.
  induction indices; intros jobs; cbn [submitCircuits]; silent.
Qed.

Lemma submitQuantumTask_silent task d f : emits internal (submitQuantumTask task d f).
Proof. pose proof submitCircuits_silent. unfold submitQuantumTask. silent. Qed.

Lemma waitForJob_silent fuel job bounded timeout started f :
  emits internal (waitForJob fuel job bounded timeout started f).
Proof. induction fuel; cbn [waitForJob]; silent. Qed.

Lemma collectJobs_silent fuel jobs bounded timeout f h :
  emits internal (collectJobs fuel jobs bounded timeout f h).
Proof.
  pose proof waitForJob_silent. revert h.
  induction jobs; intros h; cbn [collectJobs]; silent.
Qed.

Lemma collectQuantumResult_silent fuel task jobs timeout f :
  emits internal (collectQuantumResult fuel task jobs timeout f).
Proof. pose proof collectJobs_silent. unfold collectQuantumResult. silent. Qed.

Lemma refreshOwnDeviceStatus_silent d q r th :
  emits internal (refreshOwnDeviceStatus d q r th).
Proof. pose proof fromSubmitter_silent. unfold refreshOwnDeviceStatus. silent. Qed.
End Silence.

(** ** What messaging emits *)

Section MessagingEmits.
Context `{Platform}.

Lemma send_emits P `{WireMessage A} (m : A) queue :
  (forall st, P (EvSend queue (wire m) st)) -> emits P (send m queue).
Proof.
  intros HP. eapply wp_mono; [apply send_wp|]. intros evs o [_ [st ->]]. by constructor.
Qed.

(** The events a receive makes: polls of the flag, attempts on its queue,
    acknowledgements. *)
Definition admits_receives (P : Event -> Prop) (queue : string) : Prop :=
  (forall b, P (EvLoadFlag b)) /\ (forall t r, P (EvReceive queue t r)) /\
  (forall d st, P (EvAck d st)).

Lemma receive_emits P `{!WireMessage A, !Receivable A} fuel queue timeout f :
  admits_receives P queue ->
  emits P (CommunicationHandler.receive (A := A) fuel queue timeout f).
Proof.
  intros (Hl & Hr & Ha). unfold CommunicationHandler.receive. cbv zeta.
  induction fuel; cbn [CommunicationHandler.receiveLoop]; [apply emits_out_of_fuel|].
  apply emits_bind; [by apply emits_load|]. intros [].
  { apply emits_ret. }
  apply emits_bind; [apply emits_call; intros; apply Hr|]. intros [m d|status reason].
  - apply emits_bind; [by apply emits_call|]. intros ?. silent.
  - silent.
Qed.

Lemma receiveNext_emits P {S} `{!WireMessage A, !Receivable A} fuel queue timeout f
    (handle : A -> S -> M S) s :
  admits_receives P queue -> (forall m s, emits P (handle m s)) ->
  emits P (receiveNext fuel queue timeout f handle s).
Proof.
  intros HP Hh. unfold receiveNext. apply emits_bind; [by apply receive_emits|]. intros ?. silent.
Qed.

Lemma drainQueue_emits P {S} `{!WireMessage A, !Receivable A} fuel queue f
    (handle : A -> S -> M S) s :
  admits_receives P queue -> (forall m s, emits P (handle m s)) -> emits P (drainQueue fuel queue f handle s).
Proof.
  intros HP Hh. unfold drainQueue. generalize false. revert s.
  induction fuel as [|fuel IH]; intros s any; cbn [drainLoop]; [apply emits_out_of_fuel|].
  apply emits_bind; [by apply receiveNext_emits|]. intros [[] s']; [apply IH|apply emits_ret].
Qed.

(** Every task taken comes from one queue. *)
Definition tasks_from (queue : string) (ev : Event) : Prop :=
  match ev with EvReceive q _ (Received (MsgTask _) _) => q = queue | _ => True end.

(** Neither handing a task to the scheduler nor taking one from it. *)
Definition unscheduled (ev : Event) : Prop :=
  match ev with EvSchedule _ | EvNextReady _ => False | _ => True end.
End MessagingEmits.

(** ** Replies *)

(** A result sent for a task: to its own destination, under its own identity. *)
Definition reply (task : QuantumTask) (sent : string * QuantumResult) : Prop :=
  sent.1 = result_destination task /\ qr_task_id sent.2 = task_id task /\
  qr_destination sent.2 = result_destination task.

Lemma reply_cancelled task reason : reply task (result_destination task, cancelQuantumTask task reason).
Proof. done. Qed.

Section Replies.
Context `{ProtocolEnums} `{CompilerFormats} `{Platform}.

(** Silent, and a shutdown is only reported after the flag was read as set. *)
Definition shutdown_honest {A} (evs : list Event) (o : option (result A)) : Prop :=
  Forall internal evs /\
  forall e, o = Some (Unexpected e) -> kind e = ShutdownRequested -> EvLoadFlag true ∈ evs.

Lemma submit_honest task d f : wp (submitQuantumTask task d f) shutdown_honest.
Proof.
  eapply wp_mono; [apply emits_and; [apply submitQuantumTask_silent|apply submitQuantumTask_wp]|].
  intros evs o [Hi Ho]. split; [done|]. intros e -> Hk.
  destruct Ho as [(e' & Hv & [= <-] & _)|(format & _ & [(se & _ & _ & [= ->])|
    (ans & pl & js & tail & _ & -> & _ & [(_ & _ & answers & _ & ->)|(se & -> & _)])])]; try done.
  - unfold validateSubmission in Hv. by branches.
  - set_solver.
Qed.

Lemma collect_honest fuel task jobs timeout f :
  wp (collectQuantumResult fuel task jobs timeout f) (fun evs o =>
    shutdown_honest evs o /\
    forall qr, o = Some (Value qr) -> reply task (result_destination task, qr)).
Proof.
  eapply wp_mono;
    [apply emits_and; [apply collectQuantumResult_silent|apply collectQuantumResult_wp]|].
  intros evs o [Hi (dn & rest & cs & blocks & tail & _ & _ & -> & Ho)].
  split; [split; [done|]|].
  - intros e -> Hk. destruct Ho as [(_ & _ & Hb)|(e' & j & rest' & [= <-] & _ & st & sl & tl & _ & -> & Hf)].
    + symmetry in Hb. apply buildQuantumResult_kind in Hb. congruence.
    + destruct Hf as [Hg|(se & -> & _)]; [|done]. inversion Hg; subst; try congruence; try done.
      set_solver.
  - intros qr ->. destruct Ho as [(_ & _ & Hb)|(? & ? & ? & ? & _)]; [|done].
    symmetry in Hb. apply buildQuantumResult_value in Hb as (? & _ & _ & _ & ->). done.
Qed.

Lemma execute_honest fuel task d timeout f :
  wp (executeQuantumTask fuel task d timeout f) (fun evs o =>
    shutdown_honest evs o /\
    forall qr, o = Some (Value qr) -> reply task (result_destination task, qr)).
Proof.
  unfold executeQuantumTask. wp_step. eapply wp_mono; [apply submit_honest|].
  intros evs [[jobs|e]|] [Hi Hs]; cbn [or_return]; [|wp_step; rewrite app_nil_r; by split; [split; [|naive_solver]|]|by split; [split|]].
  eapply wp_mono; [apply collect_honest|]. intros evs' o [[Hi' Hs'] Hr].
  split; [split; [by apply Forall_app|]|done]. intros e He Hk. apply elem_of_app. right. eauto.
Qed.

(** Sending a result crosses once. *)
Lemma sendResult_crossings task qr :
  wp (sendResult task qr) (fun evs o => o = Some tt /\
    crossings evs = MkCrossings [] [(result_destination task, qr)] [] [] [] /\
    EvLoadFlag true ∉ evs).
Proof.
  eapply wp_mono; [apply send_wp|]. intros evs o [-> [st ->]]. split_and!; [done..|]. set_solver.
Qed.

Lemma sendFailure_crossings task e :
  wp (sendFailure task e) (fun evs o => o = Some tt /\
    crossings evs =
      MkCrossings [] [(result_destination task, cancelQuantumTask task (detail e))] [] [] [] /\
    EvLoadFlag true ∉ evs).
Proof.
  eapply wp_mono; [apply send_wp|]. intros evs o [-> [st ->]]. split_and!; [done..|]. set_solver.
Qed.
End Replies.

(** ** Intake *)

(** How a task taken in was settled: scheduled, with its identity and
    destination, or cancelled towards its submitter. *)
Definition settled (task : QuantumTask) (outcome : QuantumTask + string * QuantumResult) : Prop :=
  match outcome with
  | inl t' => task_id t' = task_id task /\ result_destination t' = result_destination task
  | inr sent => reply task sent /\ qr_execution_status sent.2 = false /\ qr_results sent.2 = []
  end.

Definition scheduled_of (os : list (QuantumTask + string * QuantumResult)) : list QuantumTask :=
  omap (fun o => match o with inl t => Some t | inr _ => None end) os.
Definition answered_of (os : list (QuantumTask + string * QuantumResult))
    : list (string * QuantumResult) :=
  omap (fun o => match o with inl _ => None | inr s => Some s end) os.

Section Intake.
Context `{ProtocolEnums} `{CompilerFormats} `{Platform}.

(** What an intake handler does to one task. *)
Definition settles (task : QuantumTask) (evs : list Event) : Prop :=
  exists o, settled task o /\
    crossings evs = MkCrossings [] (answered_of [o]) [] (scheduled_of [o]) [].

Lemma nonempty_compile_internal evs : Forall nonempty_compile evs -> Forall internal evs.
Proof. intros H2. eapply Forall_impl; [exact H2|]. by intros []. Qed.

(** Compile, schedule and report a failure: the tail of both intake handlers. *)
Definition settle (prepared : result unit * QuantumTask) : M unit :=
  match prepared.1 with
  | Value _ => mret tt
  | Unexpected e => sendFailure prepared.2 e
  end.

Lemma compileAndSchedule_settles task task0 r :
  task_id task = task_id task0 -> result_destination task = result_destination task0 ->
  wp (compileAndSchedule task r ≫= settle) (fun evs o => o = Some tt /\ settles task0 evs).
Proof.
  intros Hid Hdest. wp_step. eapply wp_mono; [apply compileAndSchedule_wp|].
  intros evs o (res & task' & -> & Hr). destruct res as [u|e]; cbn [settle fst snd].
  - destruct Hr as (b & cevs & _ & Hi%nonempty_compile_internal & (_ & Hd & Ht)%compiled_for_fields & ->).
    apply wp_ret. split; [done|]. exists (inl task'). split; [split; congruence|].
    rewrite app_nil_r, crossings_app, crossings_internal, cr_app_nil_l by done. done.
  - destruct Hr as (-> & Hi%nonempty_compile_internal & _).
    eapply wp_mono; [apply sendFailure_crossings|]. intros evs' o (-> & Hc & _).
    split; [done|]. exists (inr (result_destination task, cancelQuantumTask task (detail e))).
    split; [unfold settled, reply; cbn; by rewrite Hid, Hdest|].
    by rewrite crossings_app, crossings_internal, cr_app_nil_l.
Qed.

Lemma selectCompileAndSchedule_settles task r policy :
  wp (selectCompileAndSchedule task r policy ≫= settle) (fun evs o =>
    o = Some tt /\ settles task evs).
Proof.
  unfold selectCompileAndSchedule. destruct (chooseBackend task r policy) as [n|e].
  - by apply compileAndSchedule_settles.
  - wp_step. wp_step. cbn [settle fst snd].
    eapply wp_mono; [apply sendFailure_crossings|]. intros evs o (-> & Hc & _).
    split; [done|]. exists (inr (result_destination task, cancelQuantumTask task (detail e))).
    split; [done|]. exact Hc.
Qed.

Lemma polls_crossings f b : crossings (polls f b) = no_crossings.
Proof. by destruct f. Qed.

Lemma drained_settles f queue ts u evs u' :
  drained f queue (fun task (_ : unit) evs (_ : unit) => settles task evs) ts u evs u' ->
  exists os, Forall2 settled ts os /\
    crossings evs = MkCrossings ts (answered_of os) [] (scheduled_of os) [].
Proof.
  induction 1 as [|t d st ts u hevs u1 evs u2 (o & Ho & Hc) _ (os & Hos & Hcs)].
  { exists []. split; [constructor|done]. }
  exists (o :: os). split; [by constructor|].
  rewrite !crossings_app, polls_crossings, cr_app_nil_l, Hc, Hcs.
  unfold cr_app, answered_of, scheduled_of. cbn. by destruct o.
Qed.

Lemma received_nothing_crossings {A} `{!WireMessage A} f queue interval forever res evs :
  received_as (A := A) f queue interval forever res evs -> (forall m, res <> Value (Some m)) ->
  crossings evs = no_crossings.
Proof.
  intros Hr Hno. inversion Hr; subst; try by (exfalso; eapply Hno).
  - done.
  - unfold empty_poll. by rewrite crossings_app, polls_crossings.
  - by rewrite crossings_app, polls_crossings.
Qed.

(** The crossings of an intake: the tasks taken in and how they were settled. *)
Definition intake (evs : list Event) : Prop :=
  exists ts os, Forall2 settled ts os /\
    crossings evs = MkCrossings ts (answered_of os) [] (scheduled_of os) [].

Lemma drain_intake fuel queue f handle :
  handles handle (fun task (_ : unit) evs (_ : unit) => settles task evs) ->
  wp (drainQueue fuel queue f handle tt) (fun evs _ => intake evs).
Proof.
  intros Hh. eapply wp_mono; [apply (drainLoop_wp _ _ _ _ _ _ _ Hh)|].
  intros evs o (ts & devs & tail & u & -> & (os & Hos & Hc)%drained_settles & Ho).
  exists ts, os. split; [done|]. rewrite crossings_app, Hc.
  destruct o as [[any u']|]; [|by destruct Ho as [-> _]; rewrite cr_app_nil_r].
  destruct Ho as (_ & _ & res & Hrec & Hno).
  by rewrite (received_nothing_crossings _ _ _ _ res tail Hrec Hno), cr_app_nil_r.
Qed.

Lemma next_intake fuel queue timeout f handle :
  handles handle (fun task (_ : unit) evs (_ : unit) => settles task evs) ->
  fuel <> 0 -> timeout <> WaitForever ->
  wp (receiveNext fuel queue timeout f handle tt) (fun evs o => is_Some o /\ intake evs).
Proof.
  intros Hh Hfuel Ht. eapply wp_mono; [by apply (receiveNext_wp _ _ _ _ _ _ _ Hh)|].
  intros evs o (got & u & -> & Ho). split; [eauto|]. destruct got.
  - destruct Ho as (t & d & st & hevs & (o & Hset & Hc) & ->). exists [t], [o].
    split; [by repeat constructor|]. rewrite !crossings_app, polls_crossings, Hc, cr_app_nil_l.
    done.
  - destruct Ho as (_ & res & Hrec & Hno). exists [], []. split; [constructor|].
    by rewrite (received_nothing_crossings _ _ _ _ res evs Hrec Hno).
Qed.

Lemma expireNow_silent r : wp (expireNow r) (fun evs o => is_Some o /\ Forall internal evs).
Proof. unfold expireNow, now. wp_step. wp_step. wp_step. split; [eauto|by repeat constructor]. Qed.

Lemma refresh_returns d q r th :
  wp (refreshOwnDeviceStatus d q r th) (fun evs o => Forall internal evs /\ is_Some o).
Proof.
  apply emits_and; [apply refreshOwnDeviceStatus_silent|].
  eapply wp_mono; [apply refreshOwnDeviceStatus_wp|]. intros evs o (? & ? & ? & -> & _). eauto.
Qed.
End Intake.

(** ** Tasks left without a reply *)

Section Left.
Context `{Platform}.

(** Not an attempt to receive. A turn receives before it takes ready tasks, so
    the next attempt to receive belongs to a later turn. *)
Definition no_receive (ev : Event) : Prop :=
  match ev with EvReceive _ _ _ => False | _ => True end.

(** The process took the ready task and has not tried to receive since. *)
Definition in_hand (evs : list Event) (t : QuantumTask) : Prop :=
  exists pre post, evs = pre ++ EvNextReady (Some t) :: post /\ Forall no_receive post.

(** After it took the task, and before it next tried to receive, it read the flag
    as set; [post] is what it did afterwards. *)
Definition told_to_stop (evs : list Event) (t : QuantumTask) (post : list Event) : Prop :=
  exists pre mid, evs = pre ++ EvNextReady (Some t) :: mid ++ EvLoadFlag true :: post /\
    Forall no_receive mid.

Definition stopped (evs : list Event) (t : QuantumTask) : Prop := exists post, told_to_stop evs t post.

(** It did so while it worked: this was not the last poll of the work loop, after
    which a process makes no call any more. *)
Definition stopped_working (evs : list Event) (t : QuantumTask) : Prop :=
  exists post, told_to_stop evs t post /\ post <> [].

Lemma ready_split evs t :
  t ∈ ready_tasks evs -> exists pre post, evs = pre ++ EvNextReady (Some t) :: post.
Proof.
  intros (ev & Hin & Hev)%list_elem_of_omap. apply list_elem_of_split in Hin as (pre & post & ->).
  exists pre, post. by destruct ev as [| | | | | | | | | | | | | | | |[t'|]| | |]; simplify_eq.
Qed.

Lemma in_hand_ready pre evs t :
  t ∈ ready_tasks evs -> Forall no_receive evs -> in_hand (pre ++ evs) t.
Proof.
  intros (pre' & post & ->)%ready_split [_ [_ Hp]%Forall_cons]%Forall_app.
  exists (pre ++ pre'), post. by rewrite <- app_assoc.
Qed.

Lemma in_hand_app pre evs t : in_hand evs t -> in_hand (pre ++ evs) t.
Proof. intros (pre' & post & -> & Hp). exists (pre ++ pre'), post. by rewrite <- app_assoc. Qed.

Lemma in_hand_still evs post t : in_hand evs t -> Forall no_receive post -> in_hand (evs ++ post) t.
Proof.
  intros (pre' & post' & -> & Hp) Hn. exists pre', (post' ++ post).
  split; [by rewrite <- app_assoc|by apply Forall_app].
Qed.

Lemma internal_no_receive evs : Forall internal evs -> Forall no_receive evs.
Proof. intros Hi. eapply Forall_impl; [exact Hi|]. by intros []. Qed.

Lemma told_to_stop_app pre evs t post post' :
  told_to_stop evs t post -> told_to_stop (pre ++ evs ++ post') t (post ++ post').
Proof.
  intros (pre' & mid & -> & Hm). exists (pre ++ pre'), mid. split; [|done].
  by rewrite <- !app_assoc; cbn; rewrite <- ?app_assoc.
Qed.

Lemma stopped_app pre evs post t : stopped evs t -> stopped (pre ++ evs ++ post) t.
Proof. intros [p Hp]. exists (p ++ post). by apply told_to_stop_app. Qed.

Lemma stopped_working_app pre evs t : stopped_working evs t -> stopped_working (pre ++ evs) t.
Proof.
  intros (p & Hp & Hne). exists p. split; [|done].
  apply (told_to_stop_app pre _ _ _ []) in Hp. by rewrite !app_nil_r in Hp.
Qed.

(** Something was done afterwards. *)
Lemma stopped_followed evs post t : stopped evs t -> post <> [] -> stopped_working (evs ++ post) t.
Proof.
  intros [p Hp] Hne. exists (p ++ post). split; [by apply (told_to_stop_app [])|].
  by destruct p.
Qed.

Lemma stopped_flag evs t : stopped evs t -> EvLoadFlag true ∈ evs.
Proof. intros (post & pre & mid & -> & _). set_solver. Qed.

(** A task taken in one stretch, and the flag read as set in the next. *)
Lemma stopped_later pre evs evs' t :
  t ∈ ready_tasks evs -> Forall no_receive evs -> Forall no_receive evs' -> EvLoadFlag true ∈ evs' ->
  stopped (pre ++ evs ++ evs') t.
Proof.
  intros (pre' & mid & ->)%ready_split [_ [_ Hm]%Forall_cons]%Forall_app Hn Hf.
  apply list_elem_of_split in Hf as (mid' & post & ->). apply Forall_app in Hn as [Hn _].
  exists post, (pre ++ pre'), (mid ++ mid'). split; [|by apply Forall_app].
  by rewrite <- !app_assoc; cbn; rewrite <- ?app_assoc.
Qed.
End Left.

(** ** Whole runs *)

(** The account of a stretch of calls: every task taken in was scheduled or
    cancelled, and the ready tasks are, up to order, those that got one reply
    each and those that were [left]; nothing else was sent but statuses. *)
Definition accounts `{Platform} (evs : list Event) (left : list QuantumTask) : Prop :=
  exists outcomes answered replies,
    Forall2 settled (tasks_received evs) outcomes /\
    tasks_scheduled evs = scheduled_of outcomes /\
    ready_tasks evs ≡ₚ answered ++ left /\ Forall2 reply answered replies /\
    results_sent evs ≡ₚ answered_of outcomes ++ replies /\ tasks_sent evs = [].

(** The account of a turn; [R] says that it has returned. Then every task left
    was left because the flag was read as set after it was taken. *)
Definition turn_accounts `{Platform} (evs : list Event) (R : Prop) : Prop :=
  exists left, accounts evs left /\ Forall (in_hand evs) left /\ (R -> Forall (stopped evs) left).

(** The account of turns that have all returned. *)
Definition turns_account `{Platform} (evs : list Event) : Prop :=
  exists left, accounts evs left /\ Forall (stopped evs) left.

(** The account of a run. [R] says that it has returned. Every task left was left
    because after taking it, before it next tried to receive and while still at
    work, the process read the flag as set; or else it has not returned and has
    not tried to receive since. *)
Definition run_answered `{Platform} (evs : list Event) (R : Prop) : Prop :=
  exists left, accounts evs left /\
    Forall (fun t => stopped_working evs t \/ ~ R /\ in_hand evs t) left.

Section Runs.
Context `{ProtocolEnums} `{Platform}.

Lemma accounts_app evs evs' lf lf' :
  accounts evs lf -> accounts evs' lf' -> accounts (evs ++ evs') (lf ++ lf').
Proof.
  intros (os & an & rp & Hos & Hs & Hr & Han & Hres & Ht)
    (os' & an' & rp' & Hos' & Hs' & Hr' & Han' & Hres' & Ht').
  exists (os ++ os'), (an ++ an'), (rp ++ rp').
  unfold tasks_received, tasks_scheduled, ready_tasks, results_sent, tasks_sent, scheduled_of,
    answered_of in *. rewrite !omap_app. split_and!.
  - by apply Forall2_app.
  - congruence.
  - rewrite Hr, Hr'. rewrite <- !app_assoc. f_equiv. rewrite !app_assoc. f_equiv.
    apply Permutation_app_comm.
  - by apply Forall2_app.
  - rewrite Hres, Hres'. rewrite <- !app_assoc. f_equiv. rewrite !app_assoc. f_equiv.
    apply Permutation_app_comm.
  - by rewrite Ht, Ht'.
Qed.

Lemma accounts_internal evs : Forall internal evs -> accounts evs [].
Proof.
  intros Hi%crossings_internal. unfold crossings in Hi. injection Hi as H1 H2 H3 H4 H5.
  exists [], [], []. rewrite H1, H2, H3, H4, H5. by split_and!; [constructor|..|constructor| |].
Qed.

Lemma run_answered_internal evs R : Forall internal evs -> run_answered evs R.
Proof. intros Hi. exists []. split; [by apply accounts_internal|constructor]. Qed.

Lemma turns_account_internal evs : Forall internal evs -> turns_account evs.
Proof. intros Hi. exists []. split; [by apply accounts_internal|constructor]. Qed.

Lemma turns_account_app evs evs' :
  turns_account evs -> turns_account evs' -> turns_account (evs ++ evs').
Proof.
  intros (lf & Ha & Hl) (lf' & Ha' & Hl'). exists (lf ++ lf'). split; [by apply accounts_app|].
  apply Forall_app. split; (eapply Forall_impl; [eassumption|]); intros t Ht.
  - by apply (stopped_app []).
  - apply (stopped_app evs _ []) in Ht. by rewrite app_nil_r in Ht.
Qed.

Lemma turn_accounts_turns evs R : turn_accounts evs R -> R -> turns_account evs.
Proof. intros (lf & Ha & _ & Hl) HR. exists lf. auto. Qed.

(** The start-up of a process that owns a device. *)
Lemma openConfiguredDevice_silent config : emits internal (openConfiguredDevice config).
Proof. unfold openConfiguredDevice. silent. Qed.

Lemma registerOwnDevice_silent d q r : emits internal (registerOwnDevice d q r).
Proof. pose proof fromSubmitter_silent. unfold registerOwnDevice. silent. Qed.

Lemma run_answered_silent evs evs' R :
  Forall internal evs -> run_answered evs' R -> run_answered (evs ++ evs') R.
Proof.
  intros Hi%accounts_internal (lf & Ha & Hl). exists lf. split; [by apply (accounts_app _ _ [])|].
  eapply Forall_impl; [exact Hl|]. intros t [Ht|[HR Ht]].
  - left. by apply stopped_working_app.
  - right. split; [done|]. by apply in_hand_app.
Qed.

Lemma run_after_silent {A B} (m : M A) (k : A -> M B) :
  emits internal m -> (forall a, wp (k a) (fun evs o => run_answered evs (is_Some o))) ->
  wp (m ≫= k) (fun evs o => run_answered evs (is_Some o)).
Proof.
  intros Hm Hk. wp_step. eapply wp_mono; [exact Hm|]. intros evs [a|] Hi.
  - eapply wp_mono; [apply Hk|]. intros evs' o Ho. by apply run_answered_silent.
  - by apply run_answered_internal.
Qed.

(** The account of a work loop: when it returns it has polled the flag. *)
Definition loop_answered (evs : list Event) (R : Prop) : Prop :=
  run_answered evs R /\ (R -> evs <> []).

(** A poll of the flag, and what comes after it if the flag is clear. *)
Lemma loop_after_poll {A} (z : A) (m : M A) :
  wp m (fun evs o => run_answered evs (is_Some o)) ->
  wp (stop ← load terminationRequested; if (stop : bool) then mret z else m)
    (fun evs o => loop_answered evs (is_Some o)).
Proof.
  intros Hm. wp_step. cbn [load]. wp_step. destruct a; [wp_step|].
  - split; [|done]. apply run_answered_internal. by repeat constructor.
  - eapply wp_mono; [exact Hm|]. intros evs o Ho. split; [|done].
    apply run_answered_silent; [by repeat constructor|done].
Qed.

(** A turn, and the rest of the loop once it has returned. *)
Lemma loop_after_turn {A B} (m : M A) (k : A -> M B) :
  wp m (fun evs o => turn_accounts evs (is_Some o)) ->
  (forall a, wp (k a) (fun evs o => loop_answered evs (is_Some o))) ->
  wp (m ≫= k) (fun evs o => run_answered evs (is_Some o)).
Proof.
  intros Hm Hk. wp_step. eapply wp_mono; [exact Hm|]. intros evs [a|] (lf & Ha & Hh & Hs).
  - eapply wp_mono; [apply Hk|]. intros evs' o [(lf' & Ha' & Hl') Hne]. exists (lf ++ lf').
    split; [by apply accounts_app|]. apply Forall_app. split.
    + specialize (Hs (mk_is_Some _ _ eq_refl)). rewrite Forall_forall in *. intros t Ht.
      destruct evs' as [|ev evs'].
      * right. rewrite app_nil_r. split; [|auto]. intros Ho. by destruct (Hne Ho).
      * left. by apply stopped_followed; [apply Hs|].
    + eapply Forall_impl; [exact Hl'|]. intros t [Ht|[HR Ht]].
      * left. by apply stopped_working_app.
      * right. split; [done|]. by apply in_hand_app.
  - exists lf. split; [done|]. eapply Forall_impl; [exact Hh|]. intros t Ht. right.
    split; [by intros []|done].
Qed.

(** A run that returned and read the flag as set only at its very end, at the
    poll of the work loop, has left nothing. *)
Lemma run_answered_to_the_end evs :
  run_answered (evs ++ [EvLoadFlag true]) True -> EvLoadFlag true ∉ evs ->
  accounts (evs ++ [EvLoadFlag true]) [].
Proof.
  intros (lf & Ha & Hl) Hf. destruct lf as [|t lf]; [done|].
  apply Forall_cons in Hl as [[(post & (pre & mid & E & _) & Hne)|[[] _]] _]; [|done].
  destruct (exists_last Hne) as (post' & ev & ->).
  assert (evs = pre ++ EvNextReady (Some t) :: mid ++ EvLoadFlag true :: post') as ->.
  { replace (pre ++ EvNextReady (Some t) :: mid ++ EvLoadFlag true :: post' ++ [ev])
      with ((pre ++ EvNextReady (Some t) :: mid ++ EvLoadFlag true :: post') ++ [ev]) in E
      by (rewrite <- app_assoc; cbn; by rewrite <- app_assoc).
    by apply app_inj_tail in E as [-> _]. }
  destruct Hf. set_solver.
Qed.
End Runs.
