(* ===== verification/Selector.v ===== *)
(** * apps/distributed/selector/main.cpp: the backend selector

    It absorbs the statuses the workers publish and forwards each task to the
    queue of the backend it chooses. *)

From S2P Require Import Prelude Error Externals ConstantsMapping CircuitFormatPolicy.
From S2P Require Import World BackendWrapper BackendRegistry RunnersSelection.
From S2P Require Import RunnersCompilation RunnersExecution Config ConfigProperties.
From S2P Require Import Logger.
From S2P Require Import CommunicationHandler DaemonMessaging Daemon Traces.

Definition EXIT_SUCCESS : Z := 0.
Definition EXIT_FAILURE : Z := 1.

Module Selector.
Section Selector.
Context `{ProtocolEnums} `{CompilerFormats} `{Platform}.

(** The handler of a published status. *)
Definition absorbStatus (status : Backend) (availableBackends : BackendRegistry)
    : M BackendRegistry :=
  match fromPublishedStatus status with
  | Unexpected _ => mret availableBackends
  | Value backend =>
      t ← now;
      mret (insertOrRefresh backend t availableBackends).2
  end.

(** The handler of a task. *)
Definition assignTask (config : Config) (availableBackends : BackendRegistry)
    (task : QuantumTask) (_ : unit) : M unit :=
  match chooseBackend task availableBackends (selectionPolicy (selector config)) with
  | Unexpected e => sendFailure task e
  | Value backendName =>
      match find availableBackends backendName with
      | None =>
          sendFailure task (MkError NoBackendAvailable
            ("Backend '" +:+ backendName +:+ "' is no longer registered."))
      | Some backend =>
          send (set_scheduled_qpu backendName task) (getQueueName backend)
      end
  end.

(** One turn of the work loop; [fuel] bounds each drain. *)
Definition turn (fuel : nat) (config : Config) (availableBackends : BackendRegistry)
    : M BackendRegistry :=
  drainedStatus ← drainQueue fuel (backendStatusQueue (selector config)) terminationRequested
                    absorbStatus availableBackends;
  availableBackends ← expireNow drainedStatus.2;
  drainedTasks ← drainQueue fuel (qrmciQueue (common config)) terminationRequested
                   (assignTask config availableBackends) tt;
  if negb drainedTasks.1 then
    _ ← sleep_for (stagePollInterval (common config));
    mret availableBackends
  else mret availableBackends.

(** The work loop; [turns] bounds its turns. *)
Fixpoint loop (turns fuel : nat) (config : Config) (availableBackends : BackendRegistry) : M Z :=
  match turns with
  | 0 => out_of_fuel
  | S turns' =>
      stop ← load terminationRequested;
      if (stop : bool) then mret EXIT_SUCCESS
      else
        availableBackends ← turn fuel config availableBackends;
        loop turns' fuel config availableBackends
  end.

Definition main `{ConfigSources} `{LogFiles} (turns fuel : nat) (p : Process) : M Z :=
  match (initializeDaemon p).2 with
  | Unexpected _ => mret EXIT_FAILURE
  | Value config =>
      loop turns fuel config
        (new_BackendRegistry (seconds_to_ns (selector_entryTimeToLive (selector config))))
  end.
End Selector.
End Selector.

(** ** Invariant *)

(** The selector's registry: well formed, and every backend in it has a name
    and a dispatch queue. *)
Definition selector_inv : BackendRegistry -> Prop :=
  registry_all (fun n b => n <> "" /\ getQueueName b <> "").

Section SelectorLemmas.
Context `{ProtocolEnums} `{CompilerFormats} `{Platform}.

Lemma selector_inv_new ttl : selector_inv (new_BackendRegistry ttl).
Proof. apply registry_all_new. Qed.

Lemma selector_inv_insert w t r :
  selector_inv r -> getName w <> "" -> getQueueName w <> "" ->
  selector_inv (insertOrRefresh w t r).2.
Proof. intros. by apply registry_all_insert. Qed.

Lemma selector_inv_expire t r : selector_inv r -> selector_inv (expire t r).2.
Proof. apply registry_all_expire. Qed.

(** ** The handlers *)

Lemma absorbStatus_handles :
  handles Selector.absorbStatus (fun b r evs r' =>
    Forall internal evs /\ (selector_inv r -> selector_inv r')).
Proof.
  intros b r. unfold Selector.absorbStatus.
  destruct (fromPublishedStatus b) as [w|e] eqn:E; [|wp_step; eauto].
  apply fromPublishedStatus_value in E as (Hn & Hq & ->).
  wp_step. unfold now. wp_step. wp_step. eexists. split; [done|]. split; [by repeat constructor|].
  intros Hinv. by apply selector_inv_insert.
Qed.

(** The answer to a task: forwarded to the queue of an eligible backend, or
    cancelled towards its own destination. *)
Definition assigned (r : BackendRegistry) (task : QuantumTask) (ev : Event) : Prop :=
  (exists n b st, find r n = Some b /\ eligible task b = true /\
     ev = EvSend (getQueueName b) (MsgTask (set_scheduled_qpu n task)) st) \/
  ((forall n b, find r n = Some b -> eligible task b = false) /\
   exists st, ev = EvSend (result_destination task)
     (MsgResult (cancelQuantumTask task "No suitable backend found")) st).

Lemma assignTask_handles config r :
  registry_wf r ->
  handles (Selector.assignTask config r) (fun task _ evs _ =>
    exists ev, evs = [ev] /\ assigned r task ev).
Proof.
  intros Hwf task []. unfold Selector.assignTask.
  destruct (chooseBackend task r _) as [n|e] eqn:Ec.
  - apply chooseBackend_found in Ec as (b & Hb & _ & He); [|done]. rewrite Hb.
    eapply wp_mono; [apply send_wp|]. intros evs o [-> [st ->]]. exists tt. split; [done|].
    eexists. split; [done|]. left. exists n, b, st. auto.
  - apply chooseBackend_none in Ec as [-> Hn]; [|done].
    eapply wp_mono; [apply send_wp|]. intros evs o [-> [st ->]]. exists tt. split; [done|].
    eexists. split; [done|]. right. split; [done|]. by exists st.
Qed.

(** A status with a name and a queue, of a backend the registry knows under no
    other queue, is the entry the name has from then on. *)
Lemma absorbStatus_registers w registry :
  getName w <> "" -> getQueueName w <> "" ->
  (forall b, find registry (getName w) = Some b ->
     getQueueName b = "" \/ getQueueName b = getQueueName w) ->
  wp (Selector.absorbStatus (toBackend w) registry) (fun _ o =>
    exists registry', o = Some registry' /\
      find registry' (getName w) = Some (BackendWrapper_of_Backend (toBackend w))).
Proof.
  intros Hn Hq Hreg. set (b := BackendWrapper_of_Backend (toBackend w)).
  assert (fromPublishedStatus (toBackend w) = Value b) as Hb
    by (apply fromPublishedStatus_value; by split_and!).
  assert (queue_conflict registry b = false) as Hc.
  { destruct (queue_conflict registry b) eqn:E; [|done].
    apply queue_conflict_true in E as (e & He & He1 & _ & He2).
    change (getName b) with (getName w) in He. destruct (Hreg (backend e)); [|done..].
    unfold find. by rewrite He. }
  unfold Selector.absorbStatus. rewrite Hb. wp_step. unfold now. wp_step. wp_step.
  eexists. split; [done|]. by apply (find_insertOrRefresh_accepted b).
Qed.

(** A task is sent to the queue of the backend chosen for it. *)
Lemma assignTask_chosen config r task n b :
  chooseBackend task r (selectionPolicy (selector config)) = Value n -> find r n = Some b ->
  wp (Selector.assignTask config r task tt) (fun evs _ =>
    exists st, evs = [EvSend (getQueueName b) (MsgTask (set_scheduled_qpu n task)) st]).
Proof.
  intros Hc Hb. unfold Selector.assignTask. rewrite Hc, Hb.
  eapply wp_mono; [apply send_wp|]. by intros evs o [_ ?].
Qed.

(** ** Traces of a turn *)

(** The answer a task gets from the selector, as a message on a queue. *)
Definition answer (task : QuantumTask) (sent : string * Message) : Prop :=
  (exists n, sent.1 <> "" /\ n <> "" /\ sent.2 = MsgTask (set_scheduled_qpu n task)) \/
  (sent.1 = result_destination task /\
   exists reason, sent.2 = MsgResult (cancelQuantumTask task reason)).

(** The tasks received and the messages sent correspond one to one, in order. *)
Definition answers_all (evs : list Event) : Prop :=
  Forall2 answer (tasks_received evs) (outgoing evs).

Lemma answers_all_app evs evs' : answers_all evs -> answers_all evs' -> answers_all (evs ++ evs').
Proof.
  unfold answers_all. intros. rewrite tasks_received_app, outgoing_app. by apply Forall2_app.
Qed.

Lemma answers_all_quiet evs : tasks_received evs = [] -> outgoing evs = [] -> answers_all evs.
Proof. unfold answers_all. intros -> ->. constructor. Qed.

Lemma polls_internal f b : Forall internal (polls f b).
Proof. destruct f; by repeat constructor. Qed.

Lemma answers_all_internal evs : Forall internal evs -> answers_all evs.
Proof. intros [??]%internal_quiet. by apply answers_all_quiet. Qed.

Lemma received_nothing_quiet {A} `{!WireMessage A} f queue interval forever res evs :
  received_as (A := A) f queue interval forever res evs -> (forall m, res <> Value (Some m)) ->
  answers_all evs.
Proof.
  intros Hr Hno. inversion Hr; subst; try by (exfalso; eapply Hno).
  - by apply answers_all_internal; repeat constructor.
  - apply answers_all_app; [apply answers_all_internal, polls_internal|by apply answers_all_quiet].
  - apply answers_all_app; [apply answers_all_internal, polls_internal|by apply answers_all_quiet].
Qed.

Lemma drained_statuses f queue bs r evs r' :
  drained f queue (fun (_ : Backend) r evs r' =>
    Forall internal evs /\ (selector_inv r -> selector_inv r')) bs r evs r' ->
  answers_all evs /\ (selector_inv r -> selector_inv r').
Proof.
  induction 1 as [|b d st bs r hevs r1 evs r2 [Hi Hinv] _ [IH1 IH2]].
  { split; [constructor|done]. }
  split; [|auto]. apply answers_all_app; [|done].
  apply answers_all_app; [apply answers_all_internal, polls_internal|].
  apply answers_all_app; [by apply answers_all_quiet|by apply answers_all_internal].
Qed.

Lemma drained_tasks f queue r ts u evs u' :
  selector_inv r ->
  drained f queue (fun task (_ : unit) evs (_ : unit) => exists ev, evs = [ev] /\ assigned r task ev)
    ts u evs u' ->
  answers_all evs.
Proof.
  intros [_ Hq]. induction 1 as [|t d st ts u hevs u1 evs u2 (ev & -> & Ha) _ IH]; [constructor|].
  apply answers_all_app; [|done]. apply answers_all_app; [apply answers_all_internal, polls_internal|].
  unfold answers_all. destruct Ha as [(n & b & st' & Hb & _ & ->)|[_ [st' ->]]]; cbn.
  - apply Forall2_cons. split; [|constructor]. left. exists n. apply Hq in Hb as [? ?]. auto.
  - apply Forall2_cons. split; [|constructor]. right. cbn. eauto.
Qed.

Lemma absorb_turn fuel queue r :
  selector_inv r ->
  keeps answers_all (drainQueue fuel queue terminationRequested Selector.absorbStatus r)
    (fun res => selector_inv res.2).
Proof.
  intros Hinv. eapply wp_mono; [apply (drainLoop_wp _ _ _ _ _ _ _ absorbStatus_handles)|].
  intros evs o (bs & devs & tail & r1 & -> & [Ha Hi]%drained_statuses & Ho).
  destruct o as [[any r1']|].
  - destruct Ho as (-> & _ & res & Hrec & Hno). split.
    + apply answers_all_app; [done|]. by eapply received_nothing_quiet with (res := res).
    + intros ? [= <-]. by apply Hi.
  - destruct Ho as [-> _]. by rewrite app_nil_r.
Qed.

Lemma assign_turn fuel queue config r :
  selector_inv r ->
  keeps answers_all (drainQueue fuel queue terminationRequested (Selector.assignTask config r) tt)
    (fun _ => True).
Proof.
  intros Hinv. eapply wp_mono;
    [apply (drainLoop_wp _ _ _ _ _ _ _ (assignTask_handles config r (proj1 Hinv)))|].
  intros evs o (ts & devs & tail & u & -> & Ha%drained_tasks & Ho); [|done]. split; [|done].
  destruct o as [[any u']|].
  - destruct Ho as (_ & _ & res & Hrec & Hno).
    apply answers_all_app; [done|]. by eapply received_nothing_quiet with (res := res).
  - destruct Ho as [-> _]. by rewrite app_nil_r.
Qed.

Lemma answers_all_call {A} (f : Env -> Env * A) ev (Q : A -> Prop) :
  (forall a, internal (ev a)) -> (forall a, Q a) -> keeps answers_all (call f ev) Q.
Proof.
  intros Hi HQ. apply wp_call. intros a. split; [|by intros ? [= <-]].
  apply answers_all_internal. by constructor.
Qed.

Lemma turn_keeps fuel config r :
  selector_inv r -> keeps answers_all (Selector.turn fuel config r) selector_inv.
Proof.
  intros Hinv. unfold Selector.turn, expireNow.
  eapply keeps_bind; [apply answers_all_app|by apply absorb_turn|]. intros [any r1] Hinv1.
  eapply keeps_bind; [apply answers_all_app| |].
  { eapply keeps_bind; [apply answers_all_app|by apply (answers_all_call _ _ (fun _ => True))|].
    intros t _. apply keeps_ret; [constructor|]. by apply selector_inv_expire. }
  intros r2 Hinv2. cbn in Hinv2.
  eapply keeps_bind; [apply answers_all_app|by apply assign_turn|]. intros [got u] _. cbn.
  destruct got; cbn; [by apply keeps_ret; [constructor|]|].
  eapply keeps_bind; [apply answers_all_app|by apply (answers_all_call _ _ (fun _ => True))|].
  intros _ _. by apply keeps_ret; [constructor|].
Qed.

Lemma loop_keeps turns fuel config r :
  selector_inv r -> keeps answers_all (Selector.loop turns fuel config r) (fun code => code = EXIT_SUCCESS).
Proof.
  revert r. induction turns as [|turns IH]; intros r Hinv; cbn [Selector.loop].
  { apply wp_out_of_fuel. split; [constructor|done]. }
  eapply keeps_bind; [apply answers_all_app|by apply (answers_all_call _ _ (fun _ => True))|].
  intros [] _; [by apply keeps_ret; [constructor|]|].
  eapply keeps_bind; [apply answers_all_app|by apply turn_keeps|]. intros r' Hr'. by apply IH.
Qed.

Lemma selector_main_answers `{ConfigSources} `{LogFiles} turns fuel p :
  wp (Selector.main turns fuel p) (fun evs _ => answers_all evs).
Proof.
  unfold Selector.main. destruct (initializeDaemon p).2 as [config|e].
  - eapply wp_mono; [apply loop_keeps, selector_inv_new|]. by intros evs o [? _].
  - apply wp_ret. constructor.
Qed.

(** The selector has no scheduler. *)
Lemma selector_turn_unscheduled fuel config r : emits unscheduled (Selector.turn fuel config r).
Proof.
  unfold Selector.turn, Selector.absorbStatus, Selector.assignTask, expireNow, sendFailure.
  repeat (silent; try by apply send_emits; try by apply drainQueue_emits).
  all: apply drainQueue_emits; [done..|]; intros; repeat (silent; try by apply send_emits).
Qed.

Lemma selector_main_unscheduled `{ConfigSources} `{LogFiles} turns fuel p :
  emits unscheduled (Selector.main turns fuel p).
Proof.
  pose proof selector_turn_unscheduled. unfold Selector.main.
  destruct (initializeDaemon p).2 as [config|e]; [|apply emits_ret].
  generalize (new_BackendRegistry (seconds_to_ns (selector_entryTimeToLive (selector config)))).
  induction turns as [|turns IH]; intros r; cbn [Selector.loop]; silent.
Qed.
End SelectorLemmas.

(** ** Properties *)

(** The selector answers a task at once and for good. It sends exactly one
    message: the task, marked with the chosen backend, to the dispatch queue
    that backend registered, where the backend is online and can run the task;
    or, exactly when no registered backend is eligible, the cancellation to the
    task's own destination. The answer for a backend that is no longer
    registered is never given. *)
Theorem selector_assigns_or_cancels `{ProtocolEnums} `{CompilerFormats} `{Platform} config r task :
  registry_wf r ->
  wp (Selector.assignTask config r task tt) (fun evs o =>
    o = Some tt /\ exists ev, evs = [ev] /\ assigned r task ev).
Proof.
  intros Hwf. eapply wp_mono; [by apply (assignTask_handles config r Hwf task tt)|].
  intros evs o ([] & -> & Ha). auto.
Qed.

Lemma selector_assigns_or_cancels_witness :
  @wp sim_platform _
    (@Selector.assignTask example_enums example_formats sim_platform default_config
       example_registry (example_task "" []) tt)
    (fun evs o => o = Some tt /\ exists ev, evs = [ev] /\
       @assigned example_enums example_formats sim_platform example_registry (example_task "" []) ev).
Proof.
  apply (@selector_assigns_or_cancels example_enums example_formats sim_platform).
  apply example_registry_wf.
Defined.

(** The selector loses no task and makes none up. In every run of the
    process, also one that is cut off between turns, the tasks taken from the
    intake queue and the messages sent correspond one to one and in order: each
    task is forwarded to a named backend on a non-empty queue, unchanged but for
    its assigned backend, or is cancelled towards its own destination. *)
Theorem selector_conserves_tasks `{ProtocolEnums} `{CompilerFormats} `{Platform} `{ConfigSources}
    `{LogFiles} turns fuel p :
  wp (Selector.main turns fuel p) (fun evs o =>
    Forall2 answer (tasks_received evs) (outgoing evs)).
Proof. apply selector_main_answers. Qed.

(** A run on the simulated platform: one status, one task, and the task goes to
    the queue of the backend that was announced. *)
Example selector_run :
  let task := MkQuantumTask 7 2 100 ["circuit"] "quake" "out" "" "" [] false 0 0 in
  let run := @Selector.main example_enums example_formats sim_platform example_toml
    (example_sources [] None) example_log_files 5 5 new_Process
    (sim_world 12 [("backend.status.queue", MsgBackend example_backend);
                   ("qrmci.tasks.queue", MsgTask task)]) in
  run.2 = Some EXIT_SUCCESS /\
  outgoing (trace run.1) = [("alpha.queue", MsgTask (set_scheduled_qpu "alpha" task))].
Proof. vm_compute. auto. Qed.
