(* ===== verification/Freshness.v ===== *)
(** * What the selector knows, and for how long

    The selector's registry is a cache of what the workers publish. Here its
    content is given from the messages received and the clock alone: a backend
    is known exactly while its latest status is no older than the time-to-live,
    so a worker that keeps publishing is never forgotten, and no task is sent to
    one that has been silent for longer. *)

From S2P Require Import Prelude Error Externals ConstantsMapping CircuitFormatPolicy.
From S2P Require Import World BackendWrapper BackendRegistry RunnersSelection.
From S2P Require Import RunnersCompilation RunnersExecution Config ConfigProperties.
From S2P Require Import Logger CommunicationHandler DaemonMessaging Daemon Traces Selector.
From S2P Require Import SelectorSpec.

Section Freshness.
Context `{ProtocolEnums} `{CompilerFormats} `{Platform}.

(** The valid statuses received, in order, each with the reading of the clock it
    was registered at; first the one still in hand. *)
Definition hear (acc : option BackendWrapper * list (BackendWrapper * Z)) (ev : Event)
    : option BackendWrapper * list (BackendWrapper * Z) :=
  match ev with
  | EvReceive _ _ (Received (MsgBackend status) _) =>
      match fromPublishedStatus status with
      | Value w => (Some w, acc.2)
      | Unexpected _ => acc
      end
  | EvNow t => (None, match acc.1 with Some w => acc.2 ++ [(w, t)] | None => acc.2 end)
  | _ => acc
  end.

Definition hearing (evs : list Event) : option BackendWrapper * list (BackendWrapper * Z) :=
  foldl hear (None, []) evs.
Definition statuses_heard (evs : list Event) : list (BackendWrapper * Z) := (hearing evs).2.

(** The latest status of a backend. *)
Definition latest (n : string) (l : list (BackendWrapper * Z)) : option (BackendWrapper * Z) :=
  last (filter (fun wt => getName wt.1 = n) l).

(** What is known of a backend: its latest status, unless that is older, at the
    last reading of the clock, than the time-to-live. *)
Definition fresh_status (ttl : Z) (evs : list Event) (n : string) : option BackendWrapper :=
  match latest n (statuses_heard evs), last (clock_readings evs) with
  | Some (w, t), Some now => if (now - t <=? ttl)%Z then Some w else None
  | _, _ => None
  end.

(** No two statuses give one backend different dispatch queues. *)
Definition one_queue_each (l : list (BackendWrapper * Z)) : Prop :=
  forall w t w' t', (w, t) ∈ l -> (w', t') ∈ l -> getName w = getName w' ->
    getQueueName w = getQueueName w'.

(** ** Lists that grow at the end *)

Lemma latest_snoc n l w t :
  latest n (l ++ [(w, t)]) = if bool_decide (getName w = n) then Some (w, t) else latest n l.
Proof.
  unfold latest. rewrite filter_app. case_bool_decide as E.
  - rewrite filter_cons_True by done. apply last_snoc.
  - by rewrite filter_cons_False, filter_nil, app_nil_r.
Qed.

Lemma latest_elem n l w t : latest n l = Some (w, t) -> (w, t) ∈ l /\ getName w = n.
Proof. intros [??]%last_Some_elem_of%list_elem_of_filter. done. Qed.

Lemma clock_readings_snoc evs ev :
  clock_readings (evs ++ [ev]) =
  clock_readings evs ++ match ev with EvNow t => [t] | _ => [] end.
Proof. unfold clock_readings. rewrite omap_app. by destruct ev. Qed.

Lemma sorted_snoc_le (l : list Z) t x : Sorted Z.le (l ++ [t]) -> x ∈ l ++ [t] -> (x <= t)%Z.
Proof.
  intros Hs Hin. apply Sorted_StronglySorted in Hs; [|exact Z.le_trans].
  apply elem_of_app in Hin as [Hx| ->%list_elem_of_singleton]; [|lia].
  eapply (StronglySorted_app_1_elem_of Z.le l [t]); [exact Hs|done|set_solver].
Qed.

(** ** The machine's map *)

Lemma hearing_snoc evs ev : hearing (evs ++ [ev]) = hear (hearing evs) ev.
Proof. apply foldl_snoc. Qed.

Lemma view_snoc ttl v evs ev : view ttl v (evs ++ [ev]) = view_step ttl (view ttl v evs) ev.
Proof. apply foldl_snoc. Qed.

(** The status in hand is the one the machine has in hand. *)
Lemma hearing_in_hand ttl evs : (hearing evs).1 = heard (view ttl start_view evs).
Proof.
  induction evs as [|ev evs IH] using rev_ind; [done|].
  rewrite hearing_snoc, view_snoc. destruct ev; cbn -[fromPublishedStatus] in *; try done.
  - by destruct (heard _).
  - destruct r as [[]|]; cbn -[fromPublishedStatus]; try done. by destruct (fromPublishedStatus b).
Qed.

(** A task in hand is the last one received. *)
Lemma asked_last ttl evs task :
  asked (view ttl start_view evs) = Some task -> last (tasks_received evs) = Some task.
Proof.
  induction evs as [|ev evs IH] using rev_ind; [done|].
  rewrite view_snoc, tasks_received_app. destruct ev; cbn -[fromPublishedStatus];
    rewrite ?app_nil_r; try done.
  - by destruct (heard _).
  - destruct r as [[]|]; cbn -[fromPublishedStatus]; rewrite ?app_nil_r; try done.
    + intros [= ->]. apply last_snoc.
    + by destruct (fromPublishedStatus b).
Qed.

(** A swept map holds no entry older than the time-to-live. *)
Lemma swept_fresh ttl evs n e :
  swept (view ttl start_view evs) = true -> known (view ttl start_view evs) !! n = Some e ->
  exists now, last (clock_readings evs) = Some now /\ (now - lastRefreshed e <= ttl)%Z.
Proof.
  induction evs as [|ev evs IH] using rev_ind; [done|].
  rewrite view_snoc, clock_readings_snoc. destruct ev; cbn -[fromPublishedStatus Spec.publish];
    rewrite ?app_nil_r; try done.
  - destruct (heard _); cbn -[Spec.publish]; [done|]. intros _ Hk.
    unfold Spec.prune in Hk. apply map_lookup_filter_Some in Hk as [_ Hle].
    exists t. by rewrite last_snoc.
  - destruct r as [[]|]; cbn -[fromPublishedStatus]; try done.
    by destruct (fromPublishedStatus b).
Qed.

(** The map holds the latest status of each backend, unless a reading of the
    clock has found it stale. *)
Definition remembers (ttl : Z) (evs : list Event) (n : string) : Prop :=
  match known (view ttl start_view evs) !! n with
  | Some e => latest n (statuses_heard evs) = Some (backend e, lastRefreshed e)
  | None => forall w t, latest n (statuses_heard evs) = Some (w, t) ->
      exists now, now ∈ clock_readings evs /\ (ttl < now - t)%Z
  end.

Lemma publish_lookup w t m n :
  (Spec.publish w t m).2 !! n =
  if bool_decide (getName w = n) then
    if (Spec.publish w t m).1 then Some (MkEntry w t) else m !! n
  else m !! n.
Proof.
  unfold Spec.publish. case_bool_decide as E; [subst n|];
    destruct (m !! getName w) as [e|] eqn:El; try case_bool_decide; cbn;
    by rewrite ?lookup_insert_eq, ?lookup_insert_ne by done.
Qed.

Lemma publish_accepts w t m :
  (forall e, m !! getName w = Some e -> getQueueName (backend e) = getQueueName w) ->
  (Spec.publish w t m).1 = true.
Proof.
  unfold Spec.publish. intros Hq. destruct (m !! getName w) as [e|]; [|done].
  rewrite bool_decide_eq_false_2; [done|]. rewrite (Hq e eq_refl). tauto.
Qed.

Lemma statuses_heard_snoc evs ev :
  statuses_heard (evs ++ [ev]) =
  statuses_heard evs ++
    match ev, (hearing evs).1 with EvNow t, Some w => [(w, t)] | _, _ => [] end.
Proof.
  unfold statuses_heard. rewrite hearing_snoc. destruct ev; cbn -[fromPublishedStatus];
    rewrite ?app_nil_r; try done.
  - destruct (hearing evs).1; cbn; by rewrite ?app_nil_r.
  - destruct r as [[]|]; cbn -[fromPublishedStatus]; try done. by destruct (fromPublishedStatus b).
Qed.

(** An event that is no reading of the clock changes neither the map nor what
    has been heard. *)
Lemma remembers_other ttl evs ev n :
  (forall t, ev <> EvNow t) -> remembers ttl evs n -> remembers ttl (evs ++ [ev]) n.
Proof.
  intros Hev. unfold remembers. rewrite statuses_heard_snoc, clock_readings_snoc, view_snoc.
  assert (known (view_step ttl (view ttl start_view evs) ev) = known (view ttl start_view evs)) as ->.
  { destruct ev; cbn -[fromPublishedStatus]; try done; [by destruct (Hev t)|].
    destruct r as [[]|]; cbn -[fromPublishedStatus]; try done. by destruct (fromPublishedStatus b). }
  destruct ev; rewrite ?app_nil_r; try done. by destruct (Hev t).
Qed.

Lemma remembers_sweep ttl evs t n :
  (hearing evs).1 = None -> remembers ttl evs n -> remembers ttl (evs ++ [EvNow t]) n.
Proof.
  intros Hh. unfold remembers. rewrite statuses_heard_snoc, clock_readings_snoc, view_snoc, Hh.
  rewrite (hearing_in_hand ttl) in Hh. cbn [view_step]. rewrite Hh. cbn [known]. unfold Spec.prune.
  rewrite app_nil_r. set (m := known _). intros IH. rewrite map_lookup_filter.
  destruct (m !! n) as [e|] eqn:E; cbn [option_bind mbind].
  - case_guard; cbn; [done|]. intros w t' Hl. rewrite IH in Hl. simplify_eq. exists t. split; [set_solver|]. cbn in *. lia.
  - intros w t' Hl. destruct (IH w t' Hl) as (now & ? & ?). exists now. set_solver.
Qed.

Lemma remembers_publish ttl evs w t n :
  (hearing evs).1 = Some w -> one_queue_each (statuses_heard evs ++ [(w, t)]) ->
  (forall k, remembers ttl evs k) -> remembers ttl (evs ++ [EvNow t]) n.
Proof.
  intros Hh Hq IH. pose proof (IH n) as IHn. unfold remembers in *.
  rewrite statuses_heard_snoc, clock_readings_snoc, view_snoc, Hh.
  rewrite (hearing_in_hand ttl) in Hh. cbn [view_step]. rewrite Hh. cbn [known].
  rewrite publish_lookup, latest_snoc. case_bool_decide as E.
  - rewrite publish_accepts; [done|]. intros e He. specialize (IH (getName w)). rewrite He in IH.
    apply latest_elem in IH as [Hin Hn]. apply (Hq _ (lastRefreshed e) _ t); [set_solver..|done].
  - destruct (known _ !! n) as [e|]; [done|]. intros w' t' Hl.
    destruct (IHn w' t' Hl) as (now & ? & ?). exists now. set_solver.
Qed.

Lemma view_remembers ttl evs :
  one_queue_each (statuses_heard evs) -> forall n, remembers ttl evs n.
Proof.
  induction evs as [|ev evs IH] using rev_ind; intros Hq n.
  { unfold remembers. cbn [view foldl start_view known]. by rewrite lookup_empty. }
  assert (one_queue_each (statuses_heard evs)) as Hq'.
  { intros w t w' t' Hw Hw'. apply (Hq w t w' t'); rewrite statuses_heard_snoc; set_solver. }
  specialize (IH Hq'). destruct ev as [t| | | | | | | | | | | | | | | | | | |];
    try (by apply remembers_other).
  rewrite statuses_heard_snoc in Hq. destruct (hearing evs).1 as [w|] eqn:Hh.
  - by eapply remembers_publish.
  - by apply remembers_sweep.
Qed.

(** What a swept map knows is what is fresh. *)
Lemma swept_knows ttl evs n :
  swept (view ttl start_view evs) = true -> Sorted Z.le (clock_readings evs) ->
  one_queue_each (statuses_heard evs) ->
  known_backend (view ttl start_view evs) n = fresh_status ttl evs n.
Proof.
  intros Hs Hsort Hq. pose proof (view_remembers ttl evs Hq n) as Hr.
  unfold known_backend, fresh_status. unfold remembers in Hr.
  destruct (known _ !! n) as [e|] eqn:Ek; cbn [fmap option_fmap option_map].
  - rewrite Hr. destruct (swept_fresh _ _ _ _ Hs Ek) as (now & -> & Hle).
    by rewrite (proj2 (Z.leb_le _ _)).
  - destruct (latest n (statuses_heard evs)) as [[w t]|] eqn:El; [|done].
    destruct (Hr w t eq_refl) as (now' & Hin & Hlt).
    destruct (clock_readings evs) as [|now l _] using rev_ind; [done|].
    rewrite last_snoc. pose proof (sorted_snoc_le _ _ _ Hsort Hin).
    rewrite (proj2 (Z.leb_gt _ _)); [done|lia].
Qed.

(** The message at any point of a permitted trace. *)
Lemma permitted_send ttl config evs pre queue m st post :
  permitted ttl config start_view evs -> evs = pre ++ EvSend queue m st :: post ->
  swept (view ttl start_view pre) = true /\
  exists task, last (tasks_received pre) = Some task /\
    answered_from (selectionPolicy (selector config)) (known_backend (view ttl start_view pre))
      task queue m.
Proof.
  intros Hp ->. apply permitted_app in Hp as [_ [[Hs (task & Ha & Hfrom)] _]].
  split; [done|]. exists task. split; [by eapply asked_last|done].
Qed.
End Freshness.

(** ** Properties *)

(** C9: tasks go to fresh backends, and only for want of one are they refused.
    In every run of the selector, under an accepted configuration, whose clock does
    not run backwards and in which all statuses of a backend name the same dispatch
    queue (a status that names another one is refused), every message sent answers the
    task received last, from the fresh statuses: the latest of each backend, no
    older at the last reading of the clock than the time-to-live. A backend that
    keeps publishing within its time-to-live is therefore always considered, and
    one silent for longer is never sent a task. *)
Theorem selector_answers_from_fresh `{ProtocolEnums} `{CompilerFormats} `{Platform} `{ConfigSources}
    `{LogFiles} turns fuel p config :
  loadConfig = Value config ->
  wp (Selector.main turns fuel p) (fun evs _ =>
    forall pre queue m st post, evs = pre ++ EvSend queue m st :: post ->
    Sorted Z.le (clock_readings pre) -> one_queue_each (statuses_heard pre) ->
    exists task, last (tasks_received pre) = Some task /\
      answered_from (selectionPolicy (selector config))
        (fresh_status (seconds_to_ns (selector_entryTimeToLive (selector config))) pre)
        task queue m).
Proof.
  intros Hc. unfold Selector.main. rewrite initializeDaemon_config, Hc.
  set (ttl := seconds_to_ns _). eapply wp_mono.
  { apply (loop_permitted ttl config turns fuel (new_BackendRegistry ttl) false).
    split; [apply new_registry_wf|done]. }
  intros evs _ Hp pre queue m st post -> Hsort Hq.
  destruct (permitted_send ttl config _ pre _ _ _ _ Hp eq_refl) as (Hs & task & Ht & Ha).
  exists task. split; [done|]. eapply answered_from_ext; [|exact Ha].
  intros n. by apply swept_knows.
Qed.

Lemma selector_answers_from_fresh_witness :
  let run := @Selector.main example_enums example_formats sim_platform example_toml
    (example_sources [] None) example_log_files 5 5 new_Process in
  @wp sim_platform Z run (fun evs _ =>
    forall pre queue m st post, evs = pre ++ EvSend queue m st :: post ->
    Sorted Z.le (clock_readings pre) ->
    @one_queue_each (@statuses_heard example_enums sim_platform pre) ->
    exists task, last (tasks_received pre) = Some task /\
      @answered_from example_enums example_formats LowestName
        (@fresh_status example_enums sim_platform (seconds_to_ns 30) pre) task queue m).
Proof.
  intros run.
  exact (@selector_answers_from_fresh example_enums example_formats sim_platform example_toml
    (example_sources [] None) example_log_files 5 5 new_Process default_config
    ltac:(vm_compute; reflexivity)).
Defined.
