(* ===== verification/Standalone.v ===== *)
(** * apps/standalone/main.cpp: the standalone daemon

    Intake, selection, compilation, scheduling and execution in one process, on
    its own device. *)

From S2P Require Import Prelude Error Externals ConstantsMapping World.
From S2P Require Import BackendWrapper BackendRegistry PublicationThrottle.
From S2P Require Import RunnersSelection RunnersCompilation RunnersExecution Config.
From S2P Require Import ConfigProperties CommunicationHandler DaemonMessaging Daemon.
From S2P Require Import Logger.
From S2P Require Import Traces Selector.

Module Standalone.
Section Standalone.
Context `{ProtocolEnums} `{CompilerFormats} `{Platform}.

(** The handler of a task. *)
Definition prepareTask (config : Config) (availableBackends : BackendRegistry)
    (task : QuantumTask) (_ : unit) : M unit :=
  prepared ← selectCompileAndSchedule task availableBackends (selectionPolicy (selector config));
  match prepared.1 with
  | Value _ => mret tt
  | Unexpected e => sendFailure prepared.2 e
  end.

(** The execution loop; [fuel] bounds the tasks of one turn and [jobFuel] the
    wait slices of each job. *)
Fixpoint executeReady (fuel jobFuel : nat) (config : Config) (device : Device)
    (executedTasks : bool) : M bool :=
  match fuel with
  | 0 => out_of_fuel
  | S fuel' =>
      nextTask ← getNextReadyTask;
      match nextTask with
      | None => mret executedTasks
      | Some task =>
          executionResult ← executeQuantumTask jobFuel task device
                              (jobWaitTimeout (submitter config)) terminationRequested;
          match executionResult with
          | Value qr =>
              _ ← sendResult task qr;
              executeReady fuel' jobFuel config device true
          | Unexpected e =>
              if bool_decide (kind e = ShutdownRequested) then mret true
              else
                _ ← sendFailure task e;
                executeReady fuel' jobFuel config device true
          end
      end
  end.

(** One turn of the work loop. *)
Definition turn (fuel jobFuel : nat) (config : Config) (device : Device)
    (availableBackends : BackendRegistry) (throttle : PublicationThrottle)
    : M (BackendRegistry * PublicationThrottle) :=
  refreshed ← refreshOwnDeviceStatus device "" availableBackends throttle;
  let '(_, availableBackends, throttle) := refreshed in
  availableBackends ← expireNow availableBackends;
  drainedTasks ← drainQueue fuel (qrmciQueue (common config)) terminationRequested
                   (prepareTask config availableBackends) tt;
  executedTasks ← executeReady fuel jobFuel config device false;
  if negb drainedTasks.1 && negb executedTasks then
    _ ← sleep_for (stagePollInterval (common config));
    mret (availableBackends, throttle)
  else mret (availableBackends, throttle).

Fixpoint loop (turns fuel jobFuel : nat) (config : Config) (device : Device)
    (availableBackends : BackendRegistry) (throttle : PublicationThrottle) : M Z :=
  match turns with
  | 0 => out_of_fuel
  | S turns' =>
      stop ← load terminationRequested;
      if (stop : bool) then mret EXIT_SUCCESS
      else
        state ← turn fuel jobFuel config device availableBackends throttle;
        loop turns' fuel jobFuel config device state.1 state.2
  end.

Definition main `{ConfigSources} `{LogFiles} (turns fuel jobFuel : nat) (p : Process) : M Z :=
  match (initializeDaemon p).2 with
  | Unexpected _ => mret EXIT_FAILURE
  | Value config =>
      openedDevice ← openConfiguredDevice (submitter config);
      match openedDevice with
      | Unexpected _ => mret EXIT_FAILURE
      | Value device =>
          let availableBackends :=
            new_BackendRegistry (seconds_to_ns (submitter_entryTimeToLive (submitter config))) in
          let throttle :=
            new_PublicationThrottle
              (milliseconds_to_ns (backendStatusPublishInterval (submitter config))) in
          registered ← registerOwnDevice device "" availableBackends;
          match registered.1 with
          | Unexpected _ => mret EXIT_FAILURE
          | Value _ => loop turns fuel jobFuel config device registered.2 throttle
          end
      end
  end.
End Standalone.
End Standalone.

(** ** Lemmas *)

Section StandaloneLemmas.
Context `{ProtocolEnums} `{CompilerFormats} `{Platform}.

Lemma prepareTask_handles config r :
  handles (Standalone.prepareTask config r) (fun task _ evs _ => settles task evs).
Proof.
  intros task []. eapply wp_mono;
    [apply (selectCompileAndSchedule_settles task r (selectionPolicy (selector config)))|].
  intros evs o [-> Hs]. eauto.
Qed.

(** The execution loop: every ready task but perhaps the last gets one reply,
    in order; the last goes without only if the flag was read as set after it was
    taken, or if its job is still being waited for. *)
Definition ready_answered (any : bool) (evs : list Event) (o : option bool) : Prop :=
  exists ts rest replies,
    Forall2 reply ts replies /\
    crossings evs = MkCrossings [] replies [] [] (ts ++ rest) /\
    length rest <= 1 /\
    forall any', o = Some any' ->
      Forall (stopped evs) rest /\
      any' = any || negb (bool_decide (length (ts ++ rest) = 0)).

Lemma ready_answered_cons any t res xevs evs o :
  reply t res -> crossings xevs = MkCrossings [] [res] [] [] [t] ->
  ready_answered true evs o -> ready_answered any (xevs ++ evs) o.
Proof.
  intros Hres Hx (ts & rest & replies & Hts & Hc & Hlen & Ho).
  exists (t :: ts), rest, (res :: replies). split_and!; [by constructor| |done|].
  - by rewrite crossings_app, Hx, Hc.
  - intros any' [Hrest ->]%Ho. cbn. rewrite orb_true_r. split; [|done].
    eapply Forall_impl; [exact Hrest|]. intros t' Ht'. apply (stopped_app xevs _ []) in Ht'.
    by rewrite app_nil_r in Ht'.
Qed.

Lemma executeReady_no_receive fuel jobFuel config d any :
  emits no_receive (Standalone.executeReady fuel jobFuel config d any).
Proof.
  assert (forall {A} (m : M A), emits internal m -> emits no_receive m) as Hi.
  { intros A m. apply emits_mono. by intros []. }
  pose proof (fun task f => Hi _ _ (submitQuantumTask_silent task d f)).
  pose proof (fun t js => Hi _ _ (collectQuantumResult_silent jobFuel t js
    (jobWaitTimeout (submitter config)) terminationRequested)).
  revert any. induction fuel; intros any; cbn [Standalone.executeReady];
    unfold executeQuantumTask, sendResult, sendFailure; repeat (silent; try by apply send_emits).
Qed.

Lemma executeReady_wp fuel jobFuel config d any :
  wp (Standalone.executeReady fuel jobFuel config d any) (ready_answered any).
Proof.
  revert any. induction fuel as [|fuel IH]; intros any; cbn [Standalone.executeReady].
  { wp_step. exists [], [], []. by split_and!; [constructor|..|cbn; lia|]. }
  wp_step. unfold getNextReadyTask. wp_step. destruct a as [t|].
  2:{ wp_step. exists [], [], []. split_and!; [constructor|done|cbn; lia|].
      intros ? [= <-]. by rewrite orb_false_r; split; [constructor|]. }
  wp_step. eapply wp_mono; [apply execute_honest|]. intros xevs o [[Hi Hs] Hr].
  assert (crossings ([EvNextReady (Some t)] ++ xevs) = MkCrossings [] [] [] [] [t]) as Hx.
  { by rewrite crossings_app, (crossings_internal xevs), cr_app_nil_r. }
  assert (forall res (m : M unit), reply t res ->
    wp m (fun evs o => o = Some tt /\ crossings evs = MkCrossings [] [res] [] [] [] /\
                       EvLoadFlag true ∉ evs) ->
    wp (_ ← m; Standalone.executeReady fuel jobFuel config d true) (fun evs o =>
      ready_answered any ([EvNextReady (Some t)] ++ xevs ++ evs) o)) as Hcont.
  { intros res m Hres Hm. wp_step. eapply wp_mono; [exact Hm|]. intros sevs o' (-> & Hc & _).
    eapply wp_mono; [apply IH|]. intros evs o' He. rewrite !app_assoc.
    eapply ready_answered_cons; [exact Hres| |done]. by rewrite crossings_app, Hx, Hc. }
  destruct o as [[qr|e]|].
  - apply (Hcont (result_destination t, qr)); [by apply Hr|apply sendResult_crossings].
  - case_bool_decide as Hk.
    + wp_step. exists [], [t], []. rewrite app_nil_r. split_and!; [constructor|done|cbn; lia|].
      intros ? [= <-]. cbn. rewrite orb_true_r. split; [|done]. apply Forall_singleton.
      apply (stopped_later [] [EvNextReady (Some t)] xevs); [set_solver|by repeat constructor| |by apply (Hs e)].
      by apply internal_no_receive.
    + eapply Hcont; [apply (reply_cancelled t (detail e))|apply sendFailure_crossings].
  - exists [], [t], []. by split_and!; [constructor|..|cbn; lia|].
Qed.

(** The crossings of a turn that takes tasks in and runs the ready ones; [R]
    says that the turn has returned. *)
Definition turn_answered (evs : list Event) (R : Prop) : Prop :=
  exists received outcomes ts rest replies,
    crossings evs =
      MkCrossings received (answered_of outcomes ++ replies) [] (scheduled_of outcomes) (ts ++ rest) /\
    Forall2 settled received outcomes /\ Forall2 reply ts replies /\
    length rest <= 1 /\ Forall (in_hand evs) rest /\ (R -> Forall (stopped evs) rest).

Lemma answered_ready ievs xevs o :
  intake ievs -> Forall no_receive xevs -> ready_answered false xevs o ->
  turn_answered (ievs ++ xevs) (is_Some o).
Proof.
  intros (rs & os & Hos & Hci) Hn (ts & rest & replies & Hts & Hcx & Hl & Ho).
  exists rs, os, ts, rest, replies. split_and!; [|done..| |].
  - rewrite crossings_app, Hci, Hcx. unfold cr_app. cbn. by rewrite !app_nil_r.
  - unfold crossings in Hcx. injection Hcx as _ _ _ _ Hready. apply Forall_forall. intros t Ht.
    apply in_hand_ready; [|done]. rewrite Hready. set_solver.
  - intros [any [Hf _]%Ho]. eapply Forall_impl; [exact Hf|]. intros t Ht.
    apply (stopped_app ievs _ []) in Ht. by rewrite app_nil_r in Ht.
Qed.

Lemma turn_answered_weaken evs (R R' : Prop) :
  (R' -> R) -> turn_answered evs R -> turn_answered evs R'.
Proof.
  intros HR (rs & os & ts & rest & replies & ? & ? & ? & ? & ? & Hf).
  exists rs, os, ts, rest, replies. split_and!; [done..|]. auto.
Qed.

Lemma answered_intake evs R : intake evs -> turn_answered evs R.
Proof.
  intros (rs & os & Hos & Hc). exists rs, os, [], [], [].
  by split_and!; [rewrite app_nil_r| |constructor|cbn; lia|constructor|constructor].
Qed.

Lemma answered_around pre evs post R :
  Forall internal pre -> Forall internal post -> turn_answered evs R ->
  turn_answered (pre ++ evs ++ post) R.
Proof.
  intros Hpre Hpost (rs & os & ts & rest & replies & Hc & Hos & Hts & Hl & Hh & Hf).
  exists rs, os, ts, rest, replies. split_and!; [|done..| |].
  - by rewrite !crossings_app, (crossings_internal pre), (crossings_internal post), Hc,
      cr_app_nil_l, cr_app_nil_r.
  - eapply Forall_impl; [exact Hh|]. intros t Ht. apply in_hand_app, in_hand_still; [done|].
    by apply internal_no_receive.
  - intros HR. eapply Forall_impl; [by apply Hf|]. intros t. apply stopped_app.
Qed.

Lemma turn_wp fuel jobFuel config d r th :
  wp (Standalone.turn fuel jobFuel config d r th) (fun evs o => turn_answered evs (is_Some o)).
Proof.
  unfold Standalone.turn. wp_step. eapply wp_mono; [apply refresh_returns|].
  intros pre [[[st r1] th1]|] [Hpre Hs]; [|by destruct Hs]. wp_step.
  eapply wp_mono; [apply expireNow_silent|]. intros pre' [r2|] [Hs' Hpre']; [|by destruct Hs'].
  wp_step. eapply wp_mono; [apply drain_intake, prepareTask_handles|].
  assert (Forall internal (pre ++ pre')) as Hp by (by apply Forall_app).
  intros ievs [[got u]|] Hint.
  2:{ rewrite app_assoc, <- (app_nil_r ievs). by apply answered_around; [| |apply answered_intake]. }
  wp_step. eapply wp_mono; [apply emits_and; [apply executeReady_no_receive|apply executeReady_wp]|].
  intros xevs [any|] [Hn Hx].
  2:{ rewrite app_assoc, (app_assoc _ ievs), <- app_assoc, <- (app_nil_r (ievs ++ xevs)).
      apply answered_around; [done..|].
      eapply turn_answered_weaken; [|by apply answered_ready]. by intros []. }
  assert (turn_answered (ievs ++ xevs) (is_Some (Some any))) as Hall by (by apply answered_ready).
  assert (forall post (o : option (BackendRegistry * PublicationThrottle)), Forall internal post ->
    turn_answered (pre ++ pre' ++ ievs ++ xevs ++ post) (is_Some o)) as Hend.
  { intros post o Hpost. rewrite app_assoc, (app_assoc ievs). apply answered_around; [done..|].
    eapply turn_answered_weaken; [|exact Hall]. eauto. }
  cbn [fst]. destruct (negb got && negb any).
  - wp_step. unfold sleep_for. wp_step. wp_step. apply Hend. by repeat constructor.
  - wp_step. by apply Hend.
Qed.

Lemma turn_run fuel jobFuel config d r th :
  wp (Standalone.turn fuel jobFuel config d r th) (fun evs o => turn_accounts evs (is_Some o)).
Proof.
  eapply wp_mono; [apply turn_wp|].
  intros evs o (rs & os & ts & rest & replies & Hc & Hos & Hts & Hl & Hh & Hf).
  unfold crossings in Hc. injection Hc as Hr Hres Ht Hsched Hready.
  exists rest. split; [|done]. exists os, ts, replies. by rewrite Hr, Hres, Hready.
Qed.

Lemma loop_run turns fuel jobFuel config d r th :
  wp (Standalone.loop turns fuel jobFuel config d r th) (fun evs o => loop_answered evs (is_Some o)).
Proof.
  revert r th. induction turns as [|turns IH]; intros r th; cbn [Standalone.loop].
  { apply wp_out_of_fuel. split; [by apply run_answered_internal|by intros []]. }
  apply loop_after_poll, loop_after_turn; [apply turn_run|]. intros [r' th']. apply IH.
Qed.

Lemma standalone_main_run `{ConfigSources} `{LogFiles} turns fuel jobFuel p :
  wp (Standalone.main turns fuel jobFuel p) (fun evs o => run_answered evs (is_Some o)).
Proof.
  unfold Standalone.main. destruct (initializeDaemon p).2 as [config|e].
  2:{ apply wp_ret. by apply run_answered_internal. }
  apply run_after_silent; [apply openConfiguredDevice_silent|]. intros [d|e].
  2:{ apply wp_ret. by apply run_answered_internal. }
  cbv zeta. apply run_after_silent; [apply registerOwnDevice_silent|]. intros [[u|e] r]; cbn [fst snd].
  - eapply wp_mono; [apply loop_run|]. by intros evs o [? _].
  - apply wp_ret. by apply run_answered_internal.
Qed.
End StandaloneLemmas.

(** ** Properties *)

(** The standalone daemon answers for every task. In a turn, each task
    taken from the queue is either scheduled, with its identity and destination,
    or cancelled towards its submitter; each ready task gets exactly one result
    or cancellation, at its own destination, in the order they became ready.
    Only the last ready task may go without: when the termination flag was read
    as set after it was taken, or when the turn is still waiting for its jobs. Nothing else is
    sent. *)
Theorem standalone_answers_every_task `{ProtocolEnums} `{CompilerFormats} `{Platform}
    fuel jobFuel config d r th :
  wp (Standalone.turn fuel jobFuel config d r th) (fun evs o =>
    exists outcomes ts rest replies,
      Forall2 settled (tasks_received evs) outcomes /\
      tasks_scheduled evs = scheduled_of outcomes /\
      ready_tasks evs = ts ++ rest /\ Forall2 reply ts replies /\
      results_sent evs = answered_of outcomes ++ replies /\ tasks_sent evs = [] /\
      length rest <= 1 /\ (is_Some o -> Forall (stopped evs) rest)).
Proof.
  eapply wp_mono; [apply turn_wp|].
  intros evs o (rs & os & ts & rest & replies & Hc & Hos & Hts & Hl & _ & Hf).
  unfold crossings in Hc. injection Hc as Hr Hres Ht Hsched Hready.
  exists os, ts, rest, replies. by rewrite Hr.
Qed.


(** A run on the simulated platform: one task is executed, the other does not
    compile and is cancelled. *)
Example standalone_run :
  let task i circuits := MkQuantumTask i 2 100 circuits "quake" "out" "" "" [] false 0 0 in
  let run := @Standalone.main example_enums example_formats sim_platform example_toml
    (example_sources [] None) example_log_files 5 5 5 new_Process
    (sim_world 12 [("qrmci.tasks.queue", MsgTask (task 7%Z ["a"; "b"]));
                   ("qrmci.tasks.queue", MsgTask (task 8%Z ["bad"]))]) in
  run.2 = Some EXIT_SUCCESS /\
  (fun sent => (qr_task_id sent.2, qr_execution_status sent.2, length (qr_results sent.2)))
    <$> results_sent (trace run.1) = [(8%Z, false, 0); (7%Z, true, 2)].
Proof. vm_compute. auto. Qed.
