(* ===== verification/Worker.v ===== *)
(** * apps/distributed/worker/main.cpp: the distributed worker

    It publishes the status of its own device, compiles and schedules the tasks
    the selector sends it, submits every ready task and then collects the
    results. *)

From S2P Require Import Prelude Error Externals ConstantsMapping World.
From S2P Require Import BackendWrapper BackendRegistry PublicationThrottle.
From S2P Require Import RunnersSelection RunnersCompilation RunnersExecution Config.
From S2P Require Import ConfigProperties CommunicationHandler DaemonMessaging Daemon.
From S2P Require Import Logger.
From S2P Require Import Traces Selector.

Module Worker.
Section Worker.
Context `{ProtocolEnums} `{CompilerFormats} `{Platform}.

(** The handler of a task. *)
Definition prepareTask (availableBackends : BackendRegistry) (task : QuantumTask) (_ : unit)
    : M unit :=
  compiled ← compileAndSchedule task availableBackends;
  match compiled.1 with
  | Value _ => mret tt
  | Unexpected e => sendFailure compiled.2 e
  end.

(** The submission loop; [fuel] bounds the ready tasks of one turn. *)
Fixpoint submitReady (fuel : nat) (device : Device)
    (submittedJobs : list (QuantumTask * list Job)) : M (list (QuantumTask * list Job)) :=
  match fuel with
  | 0 => out_of_fuel
  | S fuel' =>
      nextTask ← getNextReadyTask;
      match nextTask with
      | None => mret submittedJobs
      | Some task =>
          jobs ← submitQuantumTask task device terminationRequested;
          match jobs with
          | Value js => submitReady fuel' device (submittedJobs ++ [(task, js)])
          | Unexpected e =>
              if bool_decide (kind e = ShutdownRequested) then mret submittedJobs
              else
                _ ← sendFailure task e;
                submitReady fuel' device submittedJobs
          end
      end
  end.

(** The collection loop; [jobFuel] bounds the wait slices of each job. *)
Fixpoint collectAll (jobFuel : nat) (config : Config)
    (submittedJobs : list (QuantumTask * list Job)) : M unit :=
  match submittedJobs with
  | [] => mret tt
  | (submittedTask, jobs) :: rest =>
      executionResult ← collectQuantumResult jobFuel submittedTask jobs
                          (jobWaitTimeout (submitter config)) terminationRequested;
      match executionResult with
      | Value qr =>
          _ ← sendResult submittedTask qr;
          collectAll jobFuel config rest
      | Unexpected e =>
          if bool_decide (kind e = ShutdownRequested) then mret tt
          else
            _ ← sendFailure submittedTask e;
            collectAll jobFuel config rest
      end
  end.

(** The first half of a turn: status, expiry, intake and submission. *)
Definition intakeAndSubmit (fuel : nat) (config : Config) (device : Device)
    (availableBackends : BackendRegistry) (throttle : PublicationThrottle)
    : M (BackendRegistry * PublicationThrottle * bool * list (QuantumTask * list Job)) :=
  refreshed ← refreshOwnDeviceStatus device (compiler_queue (compiler config))
                availableBackends throttle;
  let '(status, availableBackends, throttle) := refreshed in
  _ ← match status with
      | Some st => send st (backendStatusQueue (selector config))
      | None => mret tt
      end;
  availableBackends ← expireNow availableBackends;
  received ← receiveNext fuel (compiler_queue (compiler config))
               (taskReceiveTimeout (compiler config)) terminationRequested
               (prepareTask availableBackends) tt;
  submittedJobs ← submitReady fuel device [];
  mret (availableBackends, throttle, received.1, submittedJobs).

(** The second half: collection, and the pause of an idle turn. *)
Definition collectAndPause (jobFuel : nat) (config : Config) (receivedTask : bool)
    (submittedJobs : list (QuantumTask * list Job)) : M unit :=
  _ ← collectAll jobFuel config submittedJobs;
  if negb receivedTask then sleep_for (stagePollInterval (common config)) else mret tt.

(** One turn of the work loop. *)
Definition turn (fuel jobFuel : nat) (config : Config) (device : Device)
    (availableBackends : BackendRegistry) (throttle : PublicationThrottle)
    : M (BackendRegistry * PublicationThrottle) :=
  state ← intakeAndSubmit fuel config device availableBackends throttle;
  let '(availableBackends, throttle, receivedTask, submittedJobs) := state in
  _ ← collectAndPause jobFuel config receivedTask submittedJobs;
  mret (availableBackends, throttle).

Fixpoint loop (turns fuel jobFuel : nat) (config : Config) (device : Device)
    (availableBackends : BackendRegistry) (throttle : PublicationThrottle) : M Z :=
  match turns with
  | 0 => out_of_fuel
  | S turns' =>
      stop ← load terminationRequested;
      if (stop : bool) then mret EXIT_SUCCESS
      else
        state ← turn fuel jobFuel config device availableBackends throttle;
        loop turns' fuel jobFuel config device state.1 state.2
  end.

Definition main `{ConfigSources} `{LogFiles} (turns fuel jobFuel : nat) (p : Process) : M Z :=
  match (initializeDaemon p).2 with
  | Unexpected _ => mret EXIT_FAILURE
  | Value config =>
      openedDevice ← openConfiguredDevice (submitter config);
      match openedDevice with
      | Unexpected _ => mret EXIT_FAILURE
      | Value device =>
          let availableBackends :=
            new_BackendRegistry (seconds_to_ns (submitter_entryTimeToLive (submitter config))) in
          let throttle :=
            new_PublicationThrottle
              (milliseconds_to_ns (backendStatusPublishInterval (submitter config))) in
          registered ← registerOwnDevice device (compiler_queue (compiler config)) availableBackends;
          match registered.1 with
          | Unexpected _ => mret EXIT_FAILURE
          | Value _ => loop turns fuel jobFuel config device registered.2 throttle
          end
      end
  end.
End Worker.
End Worker.

(** ** Lemmas *)

Section WorkerLemmas.
Context `{ProtocolEnums} `{CompilerFormats} `{Platform}.

Lemma worker_prepareTask_handles r :
  handles (Worker.prepareTask r) (fun task _ evs _ => settles task evs).
Proof.
  intros task []. eapply wp_mono; [by apply (compileAndSchedule_settles task task r)|].
  intros evs o [-> Hs]. eauto.
Qed.

(** The submission loop: a ready task is refused with one reply, submitted, or
    left when the flag was read as set. *)
Definition submitted_or_refused (acc : list (QuantumTask * list Job)) (evs : list Event)
    (o : option (list (QuantumTask * list Job))) : Prop :=
  exists ready refused replies subs rest,
    crossings evs = MkCrossings [] replies [] [] ready /\
    Forall2 reply refused replies /\ ready ≡ₚ refused ++ subs.*1 ++ rest /\
    forall all, o = Some all -> all = acc ++ subs /\ Forall (stopped evs) rest.

Lemma stopped_after evs evs' rest : Forall (stopped evs') rest -> Forall (stopped (evs ++ evs')) rest.
Proof.
  intros Hr. eapply Forall_impl; [exact Hr|]. intros t Ht. apply (stopped_app evs _ []) in Ht.
  by rewrite app_nil_r in Ht.
Qed.

Lemma submitted_step acc t js evs0 evs o :
  crossings evs0 = MkCrossings [] [] [] [] [t] ->
  submitted_or_refused (acc ++ [(t, js)]) evs o -> submitted_or_refused acc (evs0 ++ evs) o.
Proof.
  intros H0' (ready & refused & replies & subs & rest & Hc & Hr & Hp & Ho).
  exists (t :: ready), refused, replies, ((t, js) :: subs), rest.
  split_and!; [by rewrite crossings_app, H0', Hc|done| |].
  - rewrite Hp. cbn. by rewrite Permutation_middle.
  - intros all Hall. destruct (Ho all Hall) as [-> Hf]. rewrite <- app_assoc. split; [done|].
    by apply stopped_after.
Qed.

Lemma refused_step acc t sent evs0 evs o :
  reply t sent -> crossings evs0 = MkCrossings [] [sent] [] [] [t] ->
  submitted_or_refused acc evs o -> submitted_or_refused acc (evs0 ++ evs) o.
Proof.
  intros Ht H0' (ready & refused & replies & subs & rest & Hc & Hr & Hp & Ho).
  exists (t :: ready), (t :: refused), (sent :: replies), subs, rest.
  split_and!; [by rewrite crossings_app, H0', Hc|by constructor|by rewrite Hp|].
  intros all Hall. destruct (Ho all Hall) as [-> Hf]. split; [done|]. by apply stopped_after.
Qed.

Lemma submitReady_wp fuel d acc :
  wp (Worker.submitReady fuel d acc) (submitted_or_refused acc).
Proof.
  revert acc. induction fuel as [|fuel IH]; intros acc; cbn [Worker.submitReady].
  { wp_step. exists [], [], [], [], []. by split_and!; [|constructor|..]. }
  wp_step. unfold getNextReadyTask. wp_step. destruct a as [t|].
  2:{ wp_step. exists [], [], [], [], []. split_and!; [done|constructor|done|].
      intros ? [= <-]. by rewrite app_nil_r; split; [|constructor]. }
  wp_step. eapply wp_mono; [apply submit_honest|]. intros sevs o [Hi Hs].
  assert (crossings ([EvNextReady (Some t)] ++ sevs) = MkCrossings [] [] [] [] [t]) as Hx.
  { by rewrite crossings_app, (crossings_internal sevs), cr_app_nil_r. }
  destruct o as [[js|e]|].
  - eapply wp_mono; [apply IH|]. intros evs o Ho. rewrite app_assoc. by eapply submitted_step.
  - case_bool_decide as Hk.
    + wp_step. exists [t], [], [], [], [t]. rewrite app_nil_r. split_and!; [done|constructor|done|].
      intros ? [= <-]. rewrite app_nil_r. split; [done|]. apply Forall_singleton.
      apply (stopped_later [] [EvNextReady (Some t)] sevs); [set_solver|by repeat constructor| |by apply (Hs e)].
      by apply internal_no_receive.
    + wp_step. eapply wp_mono; [apply sendFailure_crossings|]. intros fevs o (-> & Hf & _).
      eapply wp_mono; [apply IH|]. intros evs o Ho. rewrite !app_assoc.
      eapply refused_step; [apply (reply_cancelled t (detail e))| |done].
      by rewrite crossings_app, Hx, Hf.
  - exists [t], [], [], [], [t]. by split_and!; [|constructor|..].
Qed.

(** The collection loop: the submitted tasks get one reply each, in order, up to
    one that is left when the flag was read as set. *)
Definition collected_or_left (subs : list (QuantumTask * list Job)) (evs : list Event)
    (o : option unit) : Prop :=
  exists dn rest replies,
    subs.*1 = dn ++ rest /\ Forall2 reply dn replies /\
    crossings evs = MkCrossings [] replies [] [] [] /\
    (is_Some o -> rest <> [] -> EvLoadFlag true ∈ evs).

Lemma collected_step t js sent subs evs0 evs o :
  reply t sent -> crossings evs0 = MkCrossings [] [sent] [] [] [] ->
  collected_or_left subs evs o -> collected_or_left ((t, js) :: subs) (evs0 ++ evs) o.
Proof.
  intros Ht H0' (dn & rest & replies & Hsubs & Hr & Hc & Ho).
  exists (t :: dn), rest, (sent :: replies). cbn. rewrite Hsubs.
  split_and!; [done|by constructor|by rewrite crossings_app, H0', Hc|].
  intros Hs Hne. apply elem_of_app. auto.
Qed.

Lemma collectAll_wp jobFuel config subs :
  wp (Worker.collectAll jobFuel config subs) (collected_or_left subs).
Proof.
  induction subs as [|[t js] subs IH]; cbn [Worker.collectAll].
  { wp_step. exists [], [], []. by split_and!; [|constructor|..]. }
  wp_step. eapply wp_mono; [apply collect_honest|]. intros cevs o [[Hi Hs] Hr].
  pose proof (crossings_internal cevs Hi) as Hx.
  destruct o as [[qr|e]|].
  - wp_step. eapply wp_mono; [apply sendResult_crossings|]. intros fevs o (-> & Hf & _).
    eapply wp_mono; [apply IH|]. intros evs o Ho. rewrite !app_assoc.
    eapply collected_step; [by apply Hr| |done]. by rewrite crossings_app, Hx, Hf.
  - case_bool_decide as Hk.
    + wp_step. exists [], (t :: subs.*1), []. rewrite app_nil_r. split_and!; [done|constructor|done|].
      intros _ _. by apply (Hs e).
    + wp_step. eapply wp_mono; [apply sendFailure_crossings|]. intros fevs o (-> & Hf & _).
      eapply wp_mono; [apply IH|]. intros evs o Ho. rewrite !app_assoc.
      eapply collected_step; [apply (reply_cancelled t (detail e))| |done].
      by rewrite crossings_app, Hx, Hf.
  - exists [], (t :: subs.*1), []. split_and!; [done|constructor|done|]. by intros [].
Qed.

(** Publishing a status crosses no boundary the tasks cross. *)
Lemma publish_crossings (status : option Backend) queue :
  wp (match status with Some st => send st queue | None => mret tt end) (fun evs o =>
    o = Some tt /\ crossings evs = no_crossings).
Proof.
  destruct status; [|by wp_step]. eapply wp_mono; [apply send_wp|]. by intros evs o [-> [st ->]].
Qed.

(** The first half of a turn: the tasks taken in are settled, and the ready ones
    refused, submitted or left. *)
Definition half_answered (evs : list Event) (o : option (list (QuantumTask * list Job))) : Prop :=
  exists received outcomes ready refused replies subs rest,
    crossings evs =
      MkCrossings received (answered_of outcomes ++ replies) [] (scheduled_of outcomes) ready /\
    Forall2 settled received outcomes /\ Forall2 reply refused replies /\
    ready ≡ₚ refused ++ subs.*1 ++ rest /\
    (exists intake work, evs = intake ++ work /\ Forall no_receive work /\ ready_tasks work = ready) /\
    forall all, o = Some all -> all = subs /\ Forall (stopped evs) rest.

(** Neither half receives once it has taken ready tasks. *)
Lemma internal_emits {A} (m : M A) : emits internal m -> emits no_receive m.
Proof. apply emits_mono. by intros []. Qed.

Lemma submitReady_no_receive fuel d acc : emits no_receive (Worker.submitReady fuel d acc).
Proof.
  pose proof (fun t f => internal_emits _ (submitQuantumTask_silent t d f)).
  revert acc. induction fuel; intros acc; cbn [Worker.submitReady]; unfold sendFailure;
    repeat (silent; try by apply send_emits).
Qed.

Lemma collectAndPause_no_receive jobFuel config got subs :
  emits no_receive (Worker.collectAndPause jobFuel config got subs).
Proof.
  pose proof (fun t js => internal_emits _ (collectQuantumResult_silent jobFuel t js
    (jobWaitTimeout (submitter config)) terminationRequested)).
  unfold Worker.collectAndPause. apply emits_bind; [|intros _; silent].
  induction subs as [|[t js] subs IH]; cbn [Worker.collectAll]; unfold sendResult, sendFailure;
    repeat (silent; try by apply send_emits).
Qed.

Lemma intakeAndSubmit_wp fuel config d r th :
  fuel <> 0 -> taskReceiveTimeout (compiler config) <> WaitForever ->
  wp (Worker.intakeAndSubmit fuel config d r th) (fun evs o => half_answered evs (snd <$> o)).
Proof.
  intros Hfuel Ht. unfold Worker.intakeAndSubmit. wp_step. eapply wp_mono; [apply refresh_returns|].
  intros e1 [[[st r1] th1]|] [C1%crossings_internal Hs]; [|by destruct Hs]. wp_step.
  eapply wp_mono; [apply publish_crossings|]. intros e2 o2 [-> C2]. wp_step.
  eapply wp_mono; [apply expireNow_silent|].
  intros e3 [r2|] [Hs3 C3%crossings_internal]; [|by destruct Hs3]. wp_step.
  eapply wp_mono; [by apply next_intake; [apply worker_prepareTask_handles|..]|].
  intros e4 [[got u]|] [Hs4 (rs & os & Hos & C4)]; [|by destruct Hs4]. wp_step.
  eapply wp_mono; [apply emits_and; [apply submitReady_no_receive|apply submitReady_wp]|].
  intros e5 o [Hn5 (ready & refused & replies & subs & rest & C5 & Hr & Hp & Ho)].
  assert (crossings (e1 ++ e2 ++ e3 ++ e4 ++ e5) =
    MkCrossings rs (answered_of os ++ replies) [] (scheduled_of os) ready) as Hc.
  { rewrite !crossings_app, C1, C2, C3, C4, C5, !cr_app_nil_l. unfold cr_app. cbn.
    by rewrite !app_nil_r. }
  assert (exists intake work, e1 ++ e2 ++ e3 ++ e4 ++ e5 = intake ++ work /\
    Forall no_receive work /\ ready_tasks work = ready) as Hw.
  { exists (e1 ++ e2 ++ e3 ++ e4), e5. rewrite <- !app_assoc. by injection C5. }
  destruct o as [all|].
  - wp_step. rewrite app_nil_r. exists rs, os, ready, refused, replies, subs, rest.
    split_and!; [done..|]. cbn. intros ? [= <-]. destruct (Ho all eq_refl) as [-> Hf].
    split; [done|]. by do 4 apply stopped_after.
  - exists rs, os, ready, refused, replies, subs, rest. by split_and!.
Qed.

Lemma collectAndPause_wp jobFuel config got subs :
  wp (Worker.collectAndPause jobFuel config got subs) (collected_or_left subs).
Proof.
  unfold Worker.collectAndPause. wp_step. eapply wp_mono; [apply collectAll_wp|].
  intros evs o (dn & rest & replies & Hsubs & Hr & Hc & Ho). destruct o as [[]|].
  2:{ exists dn, rest, replies. by split_and!. }
  assert (forall post, crossings post = no_crossings ->
    collected_or_left subs (evs ++ post) (Some tt)) as Hend.
  { intros post Hpost. exists dn, rest, replies. split_and!; [done..| |].
    - by rewrite crossings_app, Hpost, cr_app_nil_r.
    - intros Hs Hne. apply elem_of_app. auto. }
  destruct got; cbn [negb]; [wp_step; by apply Hend|].
  unfold sleep_for. apply wp_call. intros []. by apply Hend.
Qed.

(** The crossings of a whole turn; [R] says that the turn has returned. *)
Definition worker_answered (evs : list Event) (R : Prop) : Prop :=
  exists received outcomes ready answered left replies,
    crossings evs =
      MkCrossings received (answered_of outcomes ++ replies) [] (scheduled_of outcomes) ready /\
    Forall2 settled received outcomes /\ Forall2 reply answered replies /\
    ready ≡ₚ answered ++ left /\ Forall (in_hand evs) left /\ (R -> Forall (stopped evs) left).

Lemma half_alone evs (R : Prop) : half_answered evs None -> ~ R -> worker_answered evs R.
Proof.
  intros (rs & os & ready & refused & replies & subs & rest & Hc & Hos & Hr & Hp &
    (intake & work & -> & Hn & Hw) & _) HR.
  exists rs, os, ready, refused, (subs.*1 ++ rest), replies. split_and!; [done..| |done].
  apply Forall_forall. intros t Ht. apply in_hand_ready; [|done]. rewrite Hw, Hp. set_solver.
Qed.

Lemma halves_answered evs subs cevs o (R : Prop) :
  half_answered evs (Some subs) -> Forall no_receive cevs -> collected_or_left subs cevs o ->
  (R -> is_Some o) -> worker_answered (evs ++ cevs) R.
Proof.
  intros (rs & os & ready & refused & replies & subs' & rest & Hc & Hos & Hr & Hp &
    (intake & work & -> & Hn & Hw) & Ho) Hcn (dn & left & creplies & Hsubs & Hcr & Hcc & Hco) HR.
  destruct (Ho subs eq_refl) as [<- Hf].
  exists rs, os, ready, (refused ++ dn), (left ++ rest), (replies ++ creplies).
  assert (forall t, t ∈ left ++ rest -> t ∈ ready_tasks work) as Hin.
  { intros t Ht. rewrite Hw, Hp, Hsubs. set_solver. }
  split_and!; [|done|by apply Forall2_app| | |].
  - rewrite crossings_app, Hc, Hcc. unfold cr_app. cbn. rewrite !app_nil_r. by rewrite <- app_assoc.
  - rewrite Hp, Hsubs. by rewrite <- !app_assoc.
  - apply Forall_forall. intros t Ht. apply in_hand_still; [|done]. apply in_hand_ready; auto.
  - intros Hs%HR. apply Forall_app. split.
    + apply Forall_forall. intros t Ht. rewrite <- app_assoc. apply stopped_later; [|done..|].
      * apply Hin. set_solver.
      * apply Hco; [done|]. by intros ->; apply not_elem_of_nil in Ht.
    + eapply Forall_impl; [exact Hf|]. intros t. apply (stopped_app []).
Qed.

Lemma worker_turn_wp fuel jobFuel config d r th :
  fuel <> 0 -> taskReceiveTimeout (compiler config) <> WaitForever ->
  wp (Worker.turn fuel jobFuel config d r th) (fun evs o => worker_answered evs (is_Some o)).
Proof.
  intros Hfuel Ht. unfold Worker.turn. wp_step.
  eapply wp_mono; [by apply intakeAndSubmit_wp|].
  intros evs [[[[r1 th1] got] all]|] Hhalf; [|apply half_alone; [done|by intros []]].
  wp_step. eapply wp_mono;
    [apply emits_and; [apply collectAndPause_no_receive|apply collectAndPause_wp]|].
  intros cevs [[]|] [Hn Hcol].
  - wp_step. rewrite app_nil_r. eapply halves_answered; [exact Hhalf|exact Hn|exact Hcol|eauto].
  - eapply halves_answered; [exact Hhalf|exact Hn|exact Hcol|]. by intros [].
Qed.

Lemma worker_turn_run fuel jobFuel config d r th :
  fuel <> 0 -> taskReceiveTimeout (compiler config) <> WaitForever ->
  wp (Worker.turn fuel jobFuel config d r th) (fun evs o => turn_accounts evs (is_Some o)).
Proof.
  intros Hfuel Ht. eapply wp_mono; [by apply worker_turn_wp|].
  intros evs o (rs & os & ready & answered & left & replies & Hc & Hos & Hr & Hp & Hh & Hf).
  unfold crossings in Hc. injection Hc as Hrec Hres Htasks Hsched Hready.
  exists left. split; [|done]. exists os, answered, replies. by rewrite Hrec, Hres, Hready.
Qed.

Lemma worker_loop_run turns fuel jobFuel config d r th :
  fuel <> 0 -> taskReceiveTimeout (compiler config) <> WaitForever ->
  wp (Worker.loop turns fuel jobFuel config d r th) (fun evs o => loop_answered evs (is_Some o)).
Proof.
  intros Hfuel Ht. revert r th. induction turns as [|turns IH]; intros r th; cbn [Worker.loop].
  { apply wp_out_of_fuel. split; [by apply run_answered_internal|by intros []]. }
  apply loop_after_poll, loop_after_turn; [by apply worker_turn_run|]. intros [r' th']. apply IH.
Qed.

Lemma worker_main_run `{ConfigSources} `{LogFiles} turns fuel jobFuel p :
  wp (Worker.main turns (S fuel) jobFuel p) (fun evs o => run_answered evs (is_Some o)).
Proof.
  unfold Worker.main. destruct (initializeDaemon p).2 as [config|e] eqn:Ec.
  2:{ apply wp_ret. by apply run_answered_internal. }
  assert (taskReceiveTimeout (compiler config) <> WaitForever) as Ht.
  { apply initializeDaemon_valid in Ec as Hvalid.
    pose proof (valid_taskReceiveTimeout _ Hvalid). unfold WaitForever. lia. }
  apply run_after_silent; [apply openConfiguredDevice_silent|]. intros [d|e].
  2:{ apply wp_ret. by apply run_answered_internal. }
  cbv zeta. apply run_after_silent; [apply registerOwnDevice_silent|]. intros [[u|e] r]; cbn [fst snd].
  - eapply wp_mono; [by apply worker_loop_run|]. by intros evs o [? _].
  - apply wp_ret. by apply run_answered_internal.
Qed.
End WorkerLemmas.

(** ** Order within a turn *)

(** Neither waiting for a job nor reading its counts. *)
Definition no_collection `{Platform} (ev : Event) : Prop :=
  match ev with EvWait _ _ _ | EvCounts _ _ => False | _ => True end.

(** Neither fetching a ready task, compiling nor submitting. *)
Definition no_submission `{Platform} (ev : Event) : Prop :=
  match ev with EvNextReady _ | EvCompile _ _ _ _ _ _ | EvSubmit _ _ _ _ => False | _ => True end.

Section OrderLemmas.
Context `{ProtocolEnums} `{CompilerFormats} `{Platform}.

Lemma compileCircuitFiles_no_collection b opts files staged :
  emits no_collection (compileCircuitFiles b opts files staged).
Proof. revert staged. induction files; intros staged; cbn [compileCircuitFiles]; silent. Qed.

Lemma compileAndSchedule_no_collection task r : emits no_collection (compileAndSchedule task r).
Proof.
  pose proof compileCircuitFiles_no_collection.
  unfold compileAndSchedule, compileQuantumTask. silent.
Qed.

Lemma cancelAll_no_collection jobs : emits no_collection (cancelAll jobs).
Proof. induction jobs; cbn [cancelAll]; silent. Qed.

Lemma submitCircuits_no_collection task d f format pl indices jobs :
  emits no_collection (submitCircuits task d f format pl indices jobs).
Proof.
  pose proof cancelAll_no_collection. revert jobs.
  induction indices; intros jobs; cbn [submitCircuits]; silent.
Qed.

Lemma receive_no_collection fuel queue timeout f :
  emits no_collection (CommunicationHandler.receive (A := QuantumTask) fuel queue timeout f).
Proof.
  unfold CommunicationHandler.receive. cbv zeta.
  induction fuel; cbn [CommunicationHandler.receiveLoop]; silent.
Qed.

Lemma submitReady_no_collection fuel d acc : emits no_collection (Worker.submitReady fuel d acc).
Proof.
  pose proof submitCircuits_no_collection. revert acc.
  induction fuel; intros acc; cbn [Worker.submitReady]; unfold submitQuantumTask, sendFailure;
    repeat (silent; try by apply send_emits).
Qed.

Lemma intakeAndSubmit_no_collection fuel config d r th :
  emits no_collection (Worker.intakeAndSubmit fuel config d r th).
Proof.
  pose proof compileAndSchedule_no_collection. pose proof receive_no_collection.
  pose proof submitReady_no_collection.
  unfold Worker.intakeAndSubmit, refreshOwnDeviceStatus, fromSubmitter, receiveNext,
    Worker.prepareTask, expireNow, sendFailure. cbv zeta.
  repeat (silent; try by apply send_emits).
Qed.

Lemma waitForJob_no_submission fuel job bounded timeout started f :
  emits no_submission (waitForJob fuel job bounded timeout started f).
Proof. induction fuel; cbn [waitForJob]; silent. Qed.

Lemma collectJobs_no_submission fuel jobs bounded timeout f h :
  emits no_submission (collectJobs fuel jobs bounded timeout f h).
Proof.
  pose proof waitForJob_no_submission. revert h. induction jobs; intros h; cbn [collectJobs]; silent.
Qed.

Lemma collectAndPause_no_submission jobFuel config got subs :
  emits no_submission (Worker.collectAndPause jobFuel config got subs).
Proof.
  pose proof collectJobs_no_submission. unfold Worker.collectAndPause. apply emits_bind.
  - induction subs as [|[t js] subs IH]; cbn [Worker.collectAll];
      unfold collectQuantumResult, sendResult, sendFailure;
      repeat (silent; try by apply send_emits).
  - intros _. silent.
Qed.
End OrderLemmas.

(** ** Properties *)

(** C22: the worker loses no task and answers none twice. Over a whole run of the
    process, from start-up on and over any number of turns, each task received
    is scheduled, with its identity and destination, or cancelled towards its
    submitter; the ready tasks are, up to order, those that got exactly one
    result or cancellation, at their own destination, and those that were left.
    A task is left only if the process, after taking it and before it next tried
    to receive, read the termination flag as set, at a poll other than the one
    that ends the run; or if it has not returned and has not tried to receive
    since. Nothing else is sent but statuses. *)
Theorem worker_conserves_tasks `{ProtocolEnums} `{CompilerFormats} `{Platform} `{ConfigSources}
    `{LogFiles} turns fuel jobFuel p :
  wp (Worker.main turns (S fuel) jobFuel p) (fun evs o => run_answered evs (is_Some o)).
Proof. apply worker_main_run. Qed.

(** The worker keeps the device busy: in a turn it submits every ready task
    before it waits for, or reads the counts of, any job, and once it collects
    it neither fetches, compiles nor submits. *)
Theorem worker_submits_before_collecting `{ProtocolEnums} `{CompilerFormats} `{Platform}
    fuel jobFuel config d r th :
  wp (Worker.turn fuel jobFuel config d r th) (fun evs _ =>
    exists submitting collecting, evs = submitting ++ collecting /\
      Forall no_collection submitting /\ Forall no_submission collecting).
Proof.
  unfold Worker.turn. wp_step. eapply wp_mono; [apply intakeAndSubmit_no_collection|].
  intros evs [[[[r1 th1] got] all]|] Hn; [|exists evs, []; by rewrite app_nil_r].
  wp_step. eapply wp_mono; [apply collectAndPause_no_submission|].
  intros cevs [[]|] Hc; [wp_step; rewrite app_nil_r|]; eauto.
Qed.

(** C34: the route back. Let a worker with an accepted configuration publish a
    status of its device, which has a non-empty name, and let the selector hold
    no backend of that name or one whose queue is empty or the worker's own. Then
    the selector accepts the status and registers under the device's name a
    backend with the worker's compile queue; and every task for which it then
    chooses that name is sent, once and to no other queue, to the queue the worker
    listens on, marked with the name under which the worker holds its device. *)
Theorem worker_status_routes_back `{ProtocolEnums} `{CompilerFormats} `{Platform}
    config d r th registry :
  config_valid config -> deviceId d <> "" ->
  (forall b, find registry (deviceId d) = Some b ->
     getQueueName b = "" \/ getQueueName b = compiler_queue (compiler config)) ->
  wp (refreshOwnDeviceStatus d (compiler_queue (compiler config)) r th) (fun _ o =>
    forall st r' th', o = Some (Some st, r', th') ->
    wp (Selector.absorbStatus st registry) (fun _ absorbed =>
      exists registry' w, absorbed = Some registry' /\
        find registry' (deviceId d) = Some w /\ getName w = deviceId d /\
        getQueueName w = compiler_queue (compiler config) /\
        forall selectorConfig task,
          chooseBackend task registry' (selectionPolicy (selector selectorConfig)) =
            Value (deviceId d) ->
          wp (Selector.assignTask selectorConfig registry' task tt) (fun evs _ =>
            exists sent, evs = [EvSend (compiler_queue (compiler config))
              (MsgTask (set_scheduled_qpu (deviceId d) task)) sent]))).
Proof.
  intros Hvalid Hid Hreg. eapply wp_mono; [apply refreshOwnDeviceStatus_wp|].
  intros evs o (t & status & r1 & -> & Hst) st r' th' [= -> _ _].
  destruct Hst as (_ & w & qevs & t' & _ & _ & Hn & Hq & -> & _).
  eapply wp_mono; [apply absorbStatus_registers; rewrite ?Hn, ?Hq; [done|apply Hvalid|done]|].
  intros aevs absorbed (registry' & -> & Hfind). rewrite Hn in Hfind.
  exists registry', (BackendWrapper_of_Backend (toBackend w)).
  split_and!; [done..|].
  intros selectorConfig task Hchosen. eapply wp_mono; [by eapply assignTask_chosen|].
  intros sevs _ [sent ->]. exists sent. by rewrite <- Hq.
Qed.

Lemma worker_status_routes_back_witness :
  @wp sim_platform _
    (@refreshOwnDeviceStatus example_enums sim_platform "dev"
       (compiler_queue (compiler default_config)) (new_BackendRegistry 30)
       (new_PublicationThrottle 5))
    (fun _ o => forall st r' th', o = Some (Some st, r', th') ->
      @wp sim_platform _
        (@Selector.absorbStatus example_enums sim_platform st (new_BackendRegistry 30))
        (fun _ absorbed => exists registry' w, absorbed = Some registry' /\
          find registry' "dev" = Some w /\ getName w = "dev" /\
          getQueueName w = "compiler.tasks.queue" /\
          forall selectorConfig task,
            @chooseBackend example_enums example_formats task registry'
              (selectionPolicy (selector selectorConfig)) = Value "dev" ->
            @wp sim_platform _
              (@Selector.assignTask example_enums example_formats sim_platform
                 selectorConfig registry' task tt)
              (fun evs _ => exists sent, evs =
                [EvSend "compiler.tasks.queue" (MsgTask (set_scheduled_qpu "dev" task)) sent]))).
Proof.
  apply (@worker_status_routes_back example_enums example_formats sim_platform default_config "dev");
    [apply default_config_valid|done|by intros b [=]].
Defined.

(** A run on the simulated platform: a task for this worker's device is executed,
    one for a device it does not hold is cancelled. *)
Example worker_run :
  let task i qpu := MkQuantumTask i 2 100 ["a"] "quake" "out" "" qpu [] false 0 0 in
  let run := @Worker.main example_enums example_formats sim_platform example_toml
    (example_sources [] None) example_log_files 9 5 5 new_Process
    (sim_world 12 [("compiler.tasks.queue", MsgTask (task 7%Z "cxxdevice5q"));
                   ("compiler.tasks.queue", MsgTask (task 8%Z "elsewhere"))]) in
  run.2 = Some EXIT_SUCCESS /\
  (fun sent => (qr_task_id sent.2, qr_execution_status sent.2, length (qr_results sent.2)))
    <$> results_sent (trace run.1) = [(7%Z, true, 1); (8%Z, false, 0)].
Proof. vm_compute. auto. Qed.
