(* ===== verification/WorkLoop.v ===== *)
(** * The shape of the processes

    The three [main] functions have one shape: start up, then poll the flag and
    take a turn. The laws here state it once, so that a property of whole
    processes is proved from the property of a turn. *)

From S2P Require Import Prelude Error Externals World BackendWrapper BackendRegistry.
From S2P Require Import PublicationThrottle RunnersSelection RunnersExecution Config ConfigProperties.
From S2P Require Import Logger Daemon Selector Standalone Worker.

(** [loop] polls the flag before every [turn] and threads the state through. *)
Record work_loop `{Platform} {S} (loop : nat -> S -> M Z) (turn : S -> M S) : Prop := MkWorkLoop {
  work_loop_0 s : loop 0 s = out_of_fuel;
  work_loop_S turns s : loop (Datatypes.S turns) s =
    (stop ← load terminationRequested;
     if (stop : bool) then mret EXIT_SUCCESS else s' ← turn s; loop turns s');
}.

(** [k] complete turns: each after a clear read of the flag, each returning. *)
Inductive taken `{Platform} {S} (turn : S -> M S) : nat -> S -> World -> S -> World -> Prop :=
| taken_0 s w : taken turn 0 s w s w
| taken_S k s w w0 s1 w1 s2 w2 :
    load terminationRequested w = (w0, Some false) -> turn s w0 = (w1, Some s1) ->
    taken turn k s1 w1 s2 w2 -> taken turn (Datatypes.S k) s w s2 w2.

(** They are what the loop has done when it is stopped after [k] turns. *)
Lemma taken_loop `{Platform} {S} (loop : nat -> S -> M Z) (turn : S -> M S) k s w s' w' :
  work_loop loop turn -> taken turn k s w s' w' -> loop k s w = (w', None).
Proof.
  intros Hl. induction 1 as [s w|k s w w0 s1 w1 s2 w2 Hload Hturn _ IH].
  - by rewrite (work_loop_0 _ _ Hl).
  - rewrite (work_loop_S _ _ Hl). unfold mbind, M_bind. by rewrite Hload, Hturn.
Qed.

(** The turns, computed. *)
Fixpoint take_turns `{Platform} {S} (turn : S -> M S) (k : nat) (s : S) (w : World)
    : option (S * World) :=
  match k with
  | 0 => Some (s, w)
  | Datatypes.S k =>
      match load terminationRequested w with
      | (w0, Some false) =>
          match turn s w0 with
          | (w1, Some s1) => take_turns turn k s1 w1
          | _ => None
          end
      | _ => None
      end
  end.

Lemma take_turns_taken `{Platform} {S} (turn : S -> M S) k s w s' w' :
  take_turns turn k s w = Some (s', w') -> taken turn k s w s' w'.
Proof.
  revert s w. induction k as [|k IH]; intros s w; cbn [take_turns].
  { intros [= <- <-]. constructor. }
  destruct (load terminationRequested w) as [w0 [[]|]] eqn:El; [done| |done].
  destruct (turn s w0) as [w1 [s1|]] eqn:Et; [|done]. intros Hk. by econstructor; [..|apply IH].
Qed.

(** A property of traces that every turn has and that accumulates; [I] is an
    invariant of the state. *)
Lemma taken_trace `{Platform} {S} (turn : S -> M S) (I : S -> Prop) (T : list Event -> Prop) k s w s' w' :
  T [] -> T [EvLoadFlag false] -> (forall evs evs', T evs -> T evs' -> T (evs ++ evs')) ->
  (forall s, I s -> wp (turn s) (fun evs o => forall s1, o = Some s1 -> T evs /\ I s1)) ->
  I s -> taken turn k s w s' w' -> exists evs, trace w' = trace w ++ evs /\ T evs.
Proof.
  intros H0 Hl Happ Ht HI Hk. revert HI.
  induction Hk as [s w|k s w w0 s1 w1 s2 w2 Hload Hturn _ IH]; intros HI.
  { exists []. by rewrite app_nil_r. }
  destruct (Ht s HI w0) as (evs & Htr & Hs). rewrite Hturn in Htr, Hs. cbn in Htr, Hs.
  destruct (Hs s1 eq_refl) as [HT HI1]. destruct (IH HI1) as (evs' & Htr' & HT').
  exists ([EvLoadFlag false] ++ evs ++ evs'). split; [|auto].
  unfold load, call in Hload. destruct (platform_load_flag (env w)) as [e b].
  injection Hload as <- ->. cbn in Htr. by rewrite Htr', Htr, <- !app_assoc.
Qed.

(** The state of a process that owns a device: its registry and its throttle. *)
Abbreviation DeviceState := (BackendRegistry * PublicationThrottle)%type.

Section Shape.
Context `{ProtocolEnums} `{CompilerFormats} `{Platform}.

Definition selector_loop (fuel : nat) (config : Config) (turns : nat) : BackendRegistry -> M Z :=
  Selector.loop turns fuel config.

Lemma selector_work_loop fuel config :
  work_loop (selector_loop fuel config) (Selector.turn fuel config).
Proof. by split. Qed.

Definition worker_loop (fuel jobFuel : nat) (config : Config) (d : Device) (turns : nat)
    (s : DeviceState) : M Z :=
  Worker.loop turns fuel jobFuel config d s.1 s.2.
Definition worker_turn (fuel jobFuel : nat) (config : Config) (d : Device) (s : DeviceState)
    : M DeviceState :=
  Worker.turn fuel jobFuel config d s.1 s.2.

Lemma worker_work_loop fuel jobFuel config d :
  work_loop (worker_loop fuel jobFuel config d) (worker_turn fuel jobFuel config d).
Proof. by split. Qed.

Definition standalone_loop (fuel jobFuel : nat) (config : Config) (d : Device) (turns : nat)
    (s : DeviceState) : M Z :=
  Standalone.loop turns fuel jobFuel config d s.1 s.2.
Definition standalone_turn (fuel jobFuel : nat) (config : Config) (d : Device) (s : DeviceState)
    : M DeviceState :=
  Standalone.turn fuel jobFuel config d s.1 s.2.

Lemma standalone_work_loop fuel jobFuel config d :
  work_loop (standalone_loop fuel jobFuel config d) (standalone_turn fuel jobFuel config d).
Proof. by split. Qed.

(** Start-up of a process that owns a device: open it, register it under
    [queue], and enter the loop. *)
Definition with_own_device (config : SubmitterConfig) (queue : string)
    (loop : Device -> DeviceState -> M Z) : M Z :=
  openedDevice ← openConfiguredDevice config;
  match openedDevice with
  | Unexpected _ => mret EXIT_FAILURE
  | Value device =>
      registered ← registerOwnDevice device queue
        (new_BackendRegistry (seconds_to_ns (submitter_entryTimeToLive config)));
      match registered.1 with
      | Unexpected _ => mret EXIT_FAILURE
      | Value _ =>
          loop device (registered.2, new_PublicationThrottle
            (milliseconds_to_ns (backendStatusPublishInterval config)))
      end
  end.

(** That start-up, when it succeeds. *)
Inductive came_up (config : SubmitterConfig) (queue : string)
    : World -> Device -> DeviceState -> World -> Prop :=
| came_up_intro w w1 w2 d reg :
    openConfiguredDevice config w = (w1, Some (Value d)) ->
    registerOwnDevice d queue
      (new_BackendRegistry (seconds_to_ns (submitter_entryTimeToLive config))) w1
      = (w2, Some (Value tt, reg)) ->
    came_up config queue w d (reg, new_PublicationThrottle
      (milliseconds_to_ns (backendStatusPublishInterval config))) w2.

(** That start-up and [k] turns after it, computed. *)
Definition device_turns (config : SubmitterConfig) (queue : string)
    (turn : Device -> DeviceState -> M DeviceState) (k : nat) (w : World)
    : option (DeviceState * World) :=
  match openConfiguredDevice config w with
  | (w1, Some (Value d)) =>
      match registerOwnDevice d queue
              (new_BackendRegistry (seconds_to_ns (submitter_entryTimeToLive config))) w1 with
      | (w2, Some (Value tt, reg)) =>
          take_turns (turn d) k (reg, new_PublicationThrottle
            (milliseconds_to_ns (backendStatusPublishInterval config))) w2
      | _ => None
      end
  | _ => None
  end.

Lemma device_turns_taken config queue turn k w s w' :
  device_turns config queue turn k w = Some (s, w') ->
  exists d s0 w0, came_up config queue w d s0 w0 /\ taken (turn d) k s0 w0 s w'.
Proof.
  unfold device_turns.
  destruct (openConfiguredDevice config w) as [w1 [[d|]|]] eqn:Eo; [|done..].
  destruct (registerOwnDevice d _ _ w1) as [w2 [[[[]|] reg]|]] eqn:Er; [|done..].
  intros Hk%take_turns_taken. exists d. do 2 eexists. split; [by econstructor|exact Hk].
Qed.

Lemma came_up_loop config queue loop w d s w' :
  came_up config queue w d s w' -> with_own_device config queue loop w = loop d s w'.
Proof.
  destruct 1 as [w w1 w2 d reg Ho Hr]. unfold with_own_device, mbind, M_bind. by rewrite Ho, Hr.
Qed.

Lemma selector_main_shape `{ConfigSources} `{LogFiles} turns fuel p :
  Selector.main turns fuel p =
  match loadConfig with
  | Unexpected _ => mret EXIT_FAILURE
  | Value config =>
      selector_loop fuel config turns
        (new_BackendRegistry (seconds_to_ns (selector_entryTimeToLive (selector config))))
  end.
Proof. unfold Selector.main. by rewrite initializeDaemon_config. Qed.

Lemma worker_main_shape `{ConfigSources} `{LogFiles} turns fuel jobFuel p :
  Worker.main turns fuel jobFuel p =
  match loadConfig with
  | Unexpected _ => mret EXIT_FAILURE
  | Value config =>
      with_own_device (submitter config) (compiler_queue (compiler config))
        (fun d => worker_loop fuel jobFuel config d turns)
  end.
Proof. unfold Worker.main. by rewrite initializeDaemon_config. Qed.

Lemma standalone_main_shape `{ConfigSources} `{LogFiles} turns fuel jobFuel p :
  Standalone.main turns fuel jobFuel p =
  match loadConfig with
  | Unexpected _ => mret EXIT_FAILURE
  | Value config =>
      with_own_device (submitter config) "" (fun d => standalone_loop fuel jobFuel config d turns)
  end.
Proof. unfold Standalone.main. by rewrite initializeDaemon_config. Qed.
End Shape.
