(* ===== verification/WireTypes.v ===== *)
(** * Wire types: what the daemons put into messages

    The protocol messages have fixed-width fields; the model keeps them as
    integers. Here: as long as what comes in is well typed, everything the
    daemons send is, and a result says what its status says. *)

From S2P Require Import Prelude Error Externals World BackendWrapper BackendRegistry.
From S2P Require Import PublicationThrottle RunnersSelection RunnersCompilation RunnersExecution.
From S2P Require Import Config ConfigProperties CommunicationHandler DaemonMessaging.
From S2P Require Import Logger Daemon Traces Selector Standalone Worker WorkLoop.

(** ** Well-typed messages *)

Definition task_typed (t : QuantumTask) : Prop :=
  in_signed 32 (n_qbits t) = true /\ in_signed 32 (n_shots t) = true /\
  in_signed 32 (optimisation_level t) = true.

Definition uint32 (z : Z) : Prop := in_unsigned 32 z = true.

Definition backend_typed (b : Backend) : Prop :=
  uint32 (be_num_qubits b) /\ uint32 (be_queue_length b) /\
  Forall (fun q => uint32 q.1 /\ uint32 q.2) (be_connectivity b).

(** A result: an executed task has non-negative int32 counts, a cancelled one
    has no results. *)
Definition result_typed (r : QuantumResult) : Prop :=
  if qr_execution_status r then
    qr_additional_information r = "COMPLETED" /\
    Forall (fun m => forall key n, m !! key = Some n -> (0 <= n <= INT32_MAX)%Z) (qr_results r)
  else qr_results r = [].

Definition message_typed (m : Message) : Prop :=
  match m with
  | MsgTask t => task_typed t
  | MsgBackend b => backend_typed b
  | MsgResult r => result_typed r
  end.

Lemma cancelled_typed task reason : result_typed (cancelQuantumTask task reason).
Proof. done. Qed.

Lemma uwrap_uint32 z : uint32 (uwrap 32 z).
Proof.
  unfold uint32, in_unsigned, uwrap. pose proof (Z.mod_pos_bound z (2 ^ 32)).
  apply andb_true_iff. lia.
Qed.

Lemma device_status_typed `{ProtocolEnums} id q n st ins coupling formats :
  backend_typed (toBackend (BackendWrapper_of_device id q n st ins coupling formats)).
Proof.
  unfold backend_typed. cbn -[uwrap]. split_and!; [apply uwrap_uint32|done|].
  apply Forall_fmap, Forall_true. intros c. cbn -[uwrap]. by split; apply uwrap_uint32.
Qed.

Lemma counts_typed c :
  counts_wf c -> counts_fit c ->
  forall key n, protoCounts c !! key = Some n -> (0 <= n <= INT32_MAX)%Z.
Proof.
  intros Hwf Hfit key n Hn. rewrite protoCounts_exact in Hn by done.
  apply elem_of_list_to_map_2 in Hn. destruct Hwf as [_ Hu].
  unfold counts_fit in Hfit. rewrite Forall_forall in Hu, Hfit.
  specialize (Hu _ Hn). specialize (Hfit _ Hn). cbn in *. unfold in_unsigned in Hu. lia.
Qed.

(** What the declared types of the platform's answers guarantee: counts are a map
    to 64-bit unsigned values, and a received task is a decoded message. *)
Class TypedAnswers `{Platform} : Prop := {
  counts_answer_wf j e c : (platform_counts j e).2 = Value c -> counts_wf c;
  task_answer_typed q t e task d :
    (platform_receive_task q t e).2 = Received task d -> task_typed task;
}.

Section Typing.
Context `{ProtocolEnums} `{CompilerFormats} `{Platform} `{!TypedAnswers}.

(** A call whose answer has the type its interface declares. *)
Definition event_typed (ev : Event) : Prop :=
  match ev with
  | EvCounts _ (Value c) => counts_wf c
  | EvReceive _ _ (Received (MsgTask t) _) => task_typed t
  | _ => True
  end.

(** What a call emits, from what its operation answers. *)
Lemma emits_answer {A} P (f : Env -> Env * A) ev : (forall e, P (ev (f e).2)) -> emits P (call f ev).
Proof.
  intros HP w. specialize (HP (env w)). unfold call. destruct (f (env w)) as [e a].
  exists [ev a]. split; [done|]. by constructor.
Qed.

Lemma counts_event_typed j : emits event_typed (counts j).
Proof.
  apply emits_answer. intros e. destruct (platform_counts j e).2 as [c|] eqn:E; [|done].
  by apply counts_answer_wf in E.
Qed.

Lemma receive_task_event_typed q t :
  emits event_typed (receiveExtended (A := QuantumTask) platform_receive wire q t).
Proof.
  apply emits_answer. intros e.
  destruct (platform_receive q t e).2 as [task d|] eqn:E; [|done]. by apply task_answer_typed in E.
Qed.

Lemma receive_backend_event_typed q t :
  emits event_typed (receiveExtended (A := Backend) platform_receive wire q t).
Proof. apply emits_call. by intros []. Qed.

(** ** Executed results *)

Lemma waitForJob_event_typed fuel job bounded timeout started f :
  emits event_typed (waitForJob fuel job bounded timeout started f).
Proof. induction fuel; cbn [waitForJob]; silent. Qed.

Lemma collectJobs_event_typed fuel jobs bounded timeout f h :
  emits event_typed (collectJobs fuel jobs bounded timeout f h).
Proof.
  pose proof waitForJob_event_typed. pose proof counts_event_typed. revert h.
  induction jobs; intros h; cbn [collectJobs]; silent.
Qed.

Lemma jobs_collected_counts f bounded timeout jobs cs blocks :
  jobs_collected f bounded timeout jobs cs blocks ->
  Forall event_typed (concat blocks) -> Forall counts_wf cs.
Proof.
  intros (Hc & Hb & Hall) Ht. apply Forall_lookup_2. intros i c Hi.
  pose proof (lookup_lt_Some _ _ _ Hi) as Hlt.
  destruct (lookup_lt_is_Some_2 jobs i) as [j Hj]; [lia|].
  destruct (lookup_lt_is_Some_2 blocks i) as [evs Hevs]; [lia|].
  destruct (Hall i j c evs Hj Hi Hevs) as (started & slices & _ & ->).
  apply Forall_concat in Ht. apply (Forall_lookup_1 _ _ _ _ Ht) in Hevs.
  rewrite Forall_forall in Hevs. apply (Hevs (EvCounts j (Value c))). set_solver.
Qed.

Lemma collected_typed fuel task jobs timeout f :
  wp (collectQuantumResult fuel task jobs timeout f) (fun evs o =>
    Forall internal evs /\ forall r, o = Some (Value r) -> result_typed r).
Proof.
  assert (emits event_typed (collectQuantumResult fuel task jobs timeout f)) as Ht.
  { pose proof collectJobs_event_typed. unfold collectQuantumResult. silent. }
  eapply wp_mono; [apply emits_and; [apply collectQuantumResult_silent|]|].
  { apply wp_and; [exact Ht|apply collectQuantumResult_wp]. }
  intros evs o (Hi & Htyped & dn & rest & cs & blocks & tail & _ & Hjs & -> & Ho). split; [done|].
  intros r ->. destruct Ho as [(_ & _ & Hb)|(? & ? & ? & ? & _)]; [|done].
  symmetry in Hb. apply buildQuantumResult_value in Hb as (cs' & Heq & _ & Hfit & ->).
  apply Forall_app in Htyped as [Hblocks _]. apply (jobs_collected_counts _ _ _ _ _ _ Hjs) in Hblocks.
  apply (inj (fmap Some)) in Heq as <-. split; [done|]. cbn [qr_results].
  apply Forall_fmap. rewrite Forall_forall in Hblocks, Hfit |- *. intros c Hc. cbn.
  apply counts_typed; auto.
Qed.

(** ** What the processes send *)

Definition outgoing_typed (evs : list Event) : Prop := Forall message_typed (outgoing evs).*2.

(** Everything [m] sends is well typed. *)
Definition posts {A} (m : M A) : Prop := keeps outgoing_typed m (fun _ => True).

Lemma outgoing_typed_app evs evs' :
  outgoing_typed evs -> outgoing_typed evs' -> outgoing_typed (evs ++ evs').
Proof. unfold outgoing_typed. rewrite outgoing_app, fmap_app. intros. by apply Forall_app. Qed.

Definition unsent (ev : Event) : Prop := match ev with EvSend _ _ _ => False | _ => True end.

Lemma unsent_typed evs : Forall unsent evs -> outgoing_typed evs.
Proof.
  intros Hu. unfold outgoing_typed. assert (outgoing evs = []) as ->; [|constructor].
  induction Hu as [|ev evs Hev _ IH]; [done|]. change (ev :: evs) with ([ev] ++ evs).
  rewrite outgoing_app, IH. by destruct ev.
Qed.

Lemma internal_unsent evs : Forall internal evs -> Forall unsent evs.
Proof. intros Hi. eapply Forall_impl; [exact Hi|]. by intros []. Qed.

Lemma posts_silent {A} (m : M A) : emits unsent m -> posts m.
Proof. intros Hm. eapply wp_mono; [exact Hm|]. intros evs o He%unsent_typed. by split. Qed.

Lemma posts_bind {A B} (m : M A) (k : A -> M B) :
  posts m -> (forall a, posts (k a)) -> posts (m ≫= k).
Proof. intros Hm Hk. eapply keeps_bind; [apply outgoing_typed_app|exact Hm|]. intros a _. apply Hk. Qed.

Lemma posts_ret {A} (a : A) : posts (mret a).
Proof. by apply keeps_ret; [constructor|]. Qed.

Lemma posts_send `{WireMessage A} (m : A) queue : message_typed (wire m) -> posts (send m queue).
Proof.
  intros Hm. eapply wp_mono; [apply send_wp|]. intros evs o [_ [st ->]]. split; [|done].
  by repeat constructor.
Qed.

Lemma posts_failure task e : posts (sendFailure task e).
Proof. apply posts_send, cancelled_typed. Qed.

Lemma submitQuantumTask_unsent task d f : emits unsent (submitQuantumTask task d f).
Proof.
  eapply wp_mono; [apply submitQuantumTask_silent|]. intros evs o. apply internal_unsent.
Qed.

Lemma compileCircuitFiles_unsent b opts files staged :
  emits unsent (compileCircuitFiles b opts files staged).
Proof. revert staged. induction files; intros staged; cbn [compileCircuitFiles]; silent. Qed.

Lemma compileAndSchedule_unsent task r : emits unsent (compileAndSchedule task r).
Proof.
  pose proof compileCircuitFiles_unsent. unfold compileAndSchedule, compileQuantumTask. silent.
Qed.

Lemma expireNow_unsent r : emits unsent (expireNow r).
Proof. unfold expireNow. silent. Qed.

(** The status of the own device is narrowed to the wire's widths. *)
Lemma refresh_typed d q r th :
  keeps outgoing_typed (refreshOwnDeviceStatus d q r th)
    (fun res => forall st, res.1.1 = Some st -> backend_typed st).
Proof.
  eapply wp_mono; [apply emits_and; [apply refreshOwnDeviceStatus_silent|]|].
  2:{ intros evs o [Hi%internal_unsent Ho]. split; [by apply unsent_typed|exact Ho]. }
  unfold refreshOwnDeviceStatus. wp_step. unfold now. wp_step. destruct (claim a th) as [due th'].
  destruct due; cbn [negb]; [|wp_step; by intros ? [= <-]].
  wp_step. eapply wp_mono; [apply fromSubmitter_wp|]. intros evs [[b|e]|] Hq; [..|done].
  - destruct Hq as (n & s & i & c & f & coupling & _ & _ & ->). wp_step. wp_step. wp_step.
    intros ? [= <-]. cbn. intros st [= <-]. apply device_status_typed.
  - wp_step. by intros ? [= <-].
Qed.

Lemma posts_receiveNext {S} `{!WireMessage A, !Receivable A} fuel queue timeout f
    (handle : A -> S -> M S) s :
  (forall m s, posts (handle m s)) -> posts (receiveNext fuel queue timeout f handle s).
Proof.
  intros Hh. unfold receiveNext. apply posts_bind.
  { apply posts_silent, receive_emits. by split_and!. }
  intros [[m|]|e]; [|apply posts_ret..]. apply posts_bind; [apply Hh|]. intros. apply posts_ret.
Qed.

Lemma posts_drain {S} `{!WireMessage A, !Receivable A} fuel queue f (handle : A -> S -> M S) s :
  (forall m s, posts (handle m s)) -> posts (drainQueue fuel queue f handle s).
Proof.
  intros Hh. unfold drainQueue. generalize false. revert s.
  induction fuel as [|fuel IH]; intros s any; cbn [drainLoop].
  { apply posts_silent, emits_out_of_fuel. }
  apply posts_bind; [by apply posts_receiveNext|]. intros [[] s']; [apply IH|apply posts_ret].
Qed.

Lemma posts_settle (prepare : M (result unit * QuantumTask)) :
  emits unsent prepare -> posts (prepare ≫= settle).
Proof.
  intros Hp. apply posts_bind; [by apply posts_silent|]. intros [[u|e] task]; cbn [settle fst snd];
    [apply posts_ret|apply posts_failure].
Qed.

Lemma posts_submitReady fuel d acc : posts (Worker.submitReady fuel d acc).
Proof.
  revert acc. induction fuel as [|fuel IH]; intros acc; cbn [Worker.submitReady].
  { apply posts_silent, emits_out_of_fuel. }
  apply posts_bind; [apply posts_silent; silent|]. intros [t|]; [|apply posts_ret].
  apply posts_bind; [apply posts_silent, submitQuantumTask_unsent|]. intros [js|e]; [apply IH|].
  case_bool_decide; [apply posts_ret|]. apply posts_bind; [apply posts_failure|]. intros _. apply IH.
Qed.

Lemma collect_then fuel task jobs timeout f {B} (k : result QuantumResult -> M B) :
  (forall res, (forall r, res = Value r -> result_typed r) -> posts (k res)) ->
  posts (collectQuantumResult fuel task jobs timeout f ≫= k).
Proof.
  intros Hk.
  apply (keeps_bind _ _ _ (fun res => forall r, res = Value r -> result_typed r));
    [apply outgoing_typed_app| |exact Hk].
  eapply wp_mono; [apply collected_typed|]. intros evs o [Hi%internal_unsent Hr].
  split; [by apply unsent_typed|]. intros res -> r ->. by apply Hr.
Qed.

Lemma posts_result task r : result_typed r -> posts (sendResult task r).
Proof. intros Hr. by apply posts_send. Qed.

Lemma posts_collectAll jobFuel config subs : posts (Worker.collectAll jobFuel config subs).
Proof.
  induction subs as [|[t js] subs IH]; cbn [Worker.collectAll]; [apply posts_ret|].
  apply collect_then. intros [r|e] Hr.
  - apply posts_bind; [by apply posts_result, Hr|]. intros _. exact IH.
  - case_bool_decide; [apply posts_ret|]. apply posts_bind; [apply posts_failure|]. intros _. exact IH.
Qed.

Lemma posts_executeReady fuel jobFuel config d any :
  posts (Standalone.executeReady fuel jobFuel config d any).
Proof.
  revert any. induction fuel as [|fuel IH]; intros any; cbn [Standalone.executeReady].
  { apply posts_silent, emits_out_of_fuel. }
  apply posts_bind; [apply posts_silent; silent|]. intros [t|]; [|apply posts_ret].
  apply (keeps_bind _ _ _ (fun res => forall r, res = Value r -> result_typed r));
    [apply outgoing_typed_app| |].
  - unfold executeQuantumTask.
    apply (keeps_bind _ _ _ (fun _ => True)); [apply outgoing_typed_app| |].
    { apply posts_silent, submitQuantumTask_unsent. }
    intros [js|e] _; cbn [or_return]; [|by apply keeps_ret; [constructor|]].
    eapply wp_mono; [apply collected_typed|]. intros evs o [Hi%internal_unsent Hr].
    split; [by apply unsent_typed|]. intros res -> r ->. by apply Hr.
  - intros [r|e] Hr.
    + apply posts_bind; [by apply posts_result, Hr|]. intros _. apply IH.
    + case_bool_decide; [apply posts_ret|]. apply posts_bind; [apply posts_failure|]. intros _. apply IH.
Qed.

Lemma posts_worker_turn fuel jobFuel config d r th :
  posts (Worker.turn fuel jobFuel config d r th).
Proof.
  unfold Worker.turn, Worker.intakeAndSubmit, Worker.collectAndPause.
  apply posts_bind; [|intros [[[r1 th1] got] subs]].
  - eapply keeps_bind; [apply outgoing_typed_app|apply refresh_typed|].
    intros [[st r1] th1] Hst. cbn [fst] in Hst. apply posts_bind.
    { destruct st as [st|]; [by apply posts_send, Hst|apply posts_ret]. }
    intros _. apply posts_bind; [apply posts_silent, expireNow_unsent|]. intros r2.
    apply posts_bind; [apply posts_receiveNext|].
    { intros task u. apply (posts_settle (compileAndSchedule task r2)), compileAndSchedule_unsent. }
    intros got. apply posts_bind; [apply posts_submitReady|]. intros subs. apply posts_ret.
  - apply posts_bind; [|intros _; apply posts_ret].
    apply posts_bind; [apply posts_collectAll|]. intros _. apply posts_silent. silent.
Qed.

Lemma posts_standalone_turn fuel jobFuel config d r th :
  posts (Standalone.turn fuel jobFuel config d r th).
Proof.
  unfold Standalone.turn.
  eapply keeps_bind; [apply outgoing_typed_app|apply refresh_typed|]. intros [[st r1] th1] _.
  apply posts_bind; [apply posts_silent, expireNow_unsent|]. intros r2.
  apply posts_bind; [apply posts_drain|].
  { intros task u. apply (posts_settle (selectCompileAndSchedule task r2 _)).
    pose proof compileAndSchedule_unsent. unfold selectCompileAndSchedule. silent. }
  intros got. apply posts_bind; [apply posts_executeReady|]. intros executed.
  apply posts_silent. silent.
Qed.

(** ** The processes *)

(** A work loop whose turns post well-typed messages. *)
Lemma posts_loop {S} (loop : nat -> S -> M Z) (turn : S -> M S) turns s :
  work_loop loop turn ->
  (forall s, posts (turn s)) -> posts (loop turns s).
Proof.
  intros Hl Ht. revert s. induction turns as [|turns IH]; intros s.
  { rewrite (work_loop_0 _ _ Hl). apply posts_silent, emits_out_of_fuel. }
  rewrite (work_loop_S _ _ Hl). apply posts_bind; [apply posts_silent; silent|]. intros []; [apply posts_ret|].
  apply posts_bind; [apply Ht|]. intros s'. apply IH.
Qed.

(** Opening and registering the device, then a work loop. *)
Lemma posts_start_up config queue (loop : Device -> DeviceState -> M Z) :
  (forall d s, posts (loop d s)) -> posts (with_own_device config queue loop).
Proof.
  intros Hl. apply posts_bind; [|intros [d|e]; [|apply posts_ret]].
  { eapply posts_silent, wp_mono; [apply openConfiguredDevice_silent|]. intros evs o.
    apply internal_unsent. }
  apply posts_bind; [|intros [[u|e] reg]; cbn [fst snd]; [apply Hl|apply posts_ret]].
  eapply posts_silent, wp_mono; [apply registerOwnDevice_silent|]. intros evs o.
  apply internal_unsent.
Qed.

Lemma receive_event_typed `{!WireMessage A, !Receivable A} fuel queue timeout f :
  (forall q t, emits event_typed (receiveExtended (A := A) platform_receive wire q t)) ->
  emits event_typed (CommunicationHandler.receive (A := A) fuel queue timeout f).
Proof.
  intros Hr. unfold CommunicationHandler.receive. cbv zeta.
  induction fuel; cbn [CommunicationHandler.receiveLoop]; [apply emits_out_of_fuel|].
  apply emits_bind; [by apply emits_load|]. intros []; [apply emits_ret|].
  apply emits_bind; [apply Hr|]. intros []; silent.
Qed.

Lemma drain_event_typed {S} `{!WireMessage A, !Receivable A} fuel queue f (handle : A -> S -> M S) s :
  (forall q t, emits event_typed (receiveExtended (A := A) platform_receive wire q t)) ->
  (forall m s, emits event_typed (handle m s)) ->
  emits event_typed (drainQueue fuel queue f handle s).
Proof.
  intros Hr Hh. unfold drainQueue. generalize false. revert s.
  induction fuel as [|fuel IH]; intros s any; cbn [drainLoop]; [apply emits_out_of_fuel|].
  apply emits_bind; [|intros [[] s']; [apply IH|apply emits_ret]].
  unfold receiveNext. apply emits_bind; [by apply receive_event_typed|]. intros ?. silent.
Qed.

Lemma selector_event_typed `{ConfigSources} `{LogFiles} turns fuel p :
  emits event_typed (Selector.main turns fuel p).
Proof.
  unfold Selector.main. destruct (initializeDaemon p).2 as [config|e]; [|apply emits_ret].
  generalize (new_BackendRegistry (seconds_to_ns (selector_entryTimeToLive (selector config)))).
  induction turns as [|turns IH]; intros r; cbn [Selector.loop]; [apply emits_out_of_fuel|].
  unfold Selector.turn, expireNow. apply emits_bind; [by apply emits_load|].
  intros []; [apply emits_ret|]. apply emits_bind; [|intros ?; apply IH].
  apply emits_bind; [apply drain_event_typed; [apply receive_backend_event_typed|]|].
  { intros status reg. unfold Selector.absorbStatus. silent. }
  intros [any r1]. apply emits_bind; [silent|]. intros r2.
  apply emits_bind; [apply drain_event_typed; [apply receive_task_event_typed|]|intros ?; silent].
  intros task u. unfold Selector.assignTask, sendFailure.
  repeat (silent; try by apply send_emits).
Qed.

Lemma posts_worker_main `{ConfigSources} `{LogFiles} turns fuel jobFuel p :
  posts (Worker.main turns fuel jobFuel p).
Proof.
  rewrite worker_main_shape. destruct loadConfig as [config|e]; [|apply posts_ret].
  apply posts_start_up. intros d s. apply (posts_loop _ _ _ _ (worker_work_loop _ _ _ _)).
  intros st. apply posts_worker_turn.
Qed.

Lemma posts_standalone_main `{ConfigSources} `{LogFiles} turns fuel jobFuel p :
  posts (Standalone.main turns fuel jobFuel p).
Proof.
  rewrite standalone_main_shape. destruct loadConfig as [config|e]; [|apply posts_ret].
  apply posts_start_up. intros d s. apply (posts_loop _ _ _ _ (standalone_work_loop _ _ _ _)).
  intros st. apply posts_standalone_turn.
Qed.
End Typing.

(** The answers to well-typed tasks are well typed. *)
Lemma received_tasks_typed `{Platform} evs :
  Forall event_typed evs -> Forall task_typed (tasks_received evs).
Proof.
  unfold tasks_received. induction 1 as [|ev evs Hev _ IH]; [constructor|].
  change (ev :: evs) with ([ev] ++ evs). rewrite omap_app. apply Forall_app. split; [|done].
  destruct ev as [| | | | | | | | | | | | | | | | | |q t [[]|]|]; cbn; try constructor; [done|constructor].
Qed.

Lemma answers_typed ts out :
  Forall2 answer ts out -> Forall task_typed ts -> Forall message_typed out.*2.
Proof.
  induction 1 as [|t [q m] ts out Ha _ IH]; intros Ht; [constructor|].
  apply Forall_cons in Ht as [Ht Hts]. cbn. constructor; [|by apply IH].
  destruct Ha as [(n & _ & _ & Hm)|[_ [reason Hm]]]; cbn in Hm; subst m; [exact Ht|done].
Qed.

(** ** Properties *)

(** C30: the daemons keep to the wire's types. Where counts and received tasks
    have the types their interfaces declare, every message the selector, the
    worker or the standalone daemon sends in a run has the widths of the
    protocol's fields: statuses hold unsigned 32-bit numbers although the device
    answers with wider ones, a result of an executed task holds non-negative
    int32 counts, a cancellation holds none, and a forwarded task is as typed as
    it came. *)
Theorem messages_well_typed `{ProtocolEnums} `{CompilerFormats} `{Platform} `{ConfigSources}
    `{LogFiles} turns fuel jobFuel p :
  TypedAnswers ->
  let typed evs (_ : option Z) := Forall message_typed (outgoing evs).*2 in
  wp (Selector.main turns fuel p) typed /\
  wp (Worker.main turns fuel jobFuel p) typed /\
  wp (Standalone.main turns fuel jobFuel p) typed.
Proof.
  intros Ht typed. split_and!.
  - eapply wp_mono; [apply emits_and; [apply selector_event_typed|apply selector_main_answers]|].
    intros evs o [He Ha]. eapply answers_typed; [exact Ha|]. by apply received_tasks_typed.
  - eapply wp_mono; [by apply posts_worker_main|]. by intros evs o [He _].
  - eapply wp_mono; [by apply posts_standalone_main|]. by intros evs o [He _].
Qed.

Lemma sim_typed_answers : @TypedAnswers sim_platform.
Proof.
  split.
  - intros j e c [= <-]. split.
    + cbn. apply NoDup_ListNoDup. repeat constructor; cbn; intuition discriminate.
    + by repeat constructor.
  - intros q t e task d. cbn. unfold sim_receive.
    destruct (sim_take sim_decode_task q (sim_broker e)) as [[task' rest]|] eqn:E; [|done].
    intros [= <-]. apply sim_take_decoded in E as [[] Hm]; try done. cbn in Hm.
    destruct (in_signed 32 (n_qbits t0)) eqn:?, (in_signed 32 (n_shots t0)) eqn:?,
      (in_signed 32 (optimisation_level t0)) eqn:?; try done. by injection Hm as <-.
Qed.

Lemma messages_well_typed_witness :
  @wp sim_platform _ (@Worker.main example_enums example_formats sim_platform example_toml
    (example_sources [] None) example_log_files 5 5 5 new_Process)
    (fun evs _ => Forall message_typed (outgoing evs).*2).
Proof.
  refine (proj1 (proj2 (@messages_well_typed example_enums example_formats sim_platform example_toml
    (example_sources [] None) example_log_files 5 5 5 new_Process _))).
  apply sim_typed_answers.
Defined.
