(* ===== verification/Responsiveness.v ===== *)
(** * Responsiveness: when the daemons look at the termination flag, and how they exit

    Trace properties of whole runs of the three processes, proved by following
    the structure of the programs: every call that may block or that starts work
    on the device comes right after the flag was read as clear, and the exit code
    tells a shutdown from a failed start. *)

From S2P Require Import Prelude Error Externals World BackendWrapper BackendRegistry.
From S2P Require Import PublicationThrottle RunnersSelection RunnersCompilation RunnersExecution.
From S2P Require Import Config ConfigProperties CommunicationHandler DaemonMessaging.
From S2P Require Import Logger Daemon Traces Selector Standalone Worker WorkLoop.

Section Guards.
Context `{Platform}.

(** The calls that block on another party or start work there: receiving,
    submitting a job, waiting for one. *)
Definition blocking (ev : Event) : bool :=
  match ev with EvReceive _ _ _ | EvSubmit _ _ _ _ | EvWait _ _ _ => true | _ => false end.

(** Reading the flag as clear. *)
Definition arms (ev : Event) : bool :=
  match ev with EvLoadFlag set => negb set | _ => false end.

(** [armed]: the flag has just been read as clear. *)
Fixpoint guarded (armed : bool) (evs : list Event) : Prop :=
  match evs with
  | [] => True
  | ev :: rest => (blocking ev = true -> armed = true) /\ guarded (arms ev) rest
  end.

Lemma guarded_arm armed evs : guarded false evs -> guarded armed evs.
Proof. destruct evs; cbn; [done|]. destruct armed; naive_solver. Qed.

Lemma guarded_app armed evs evs' :
  guarded armed evs -> guarded false evs' -> guarded armed (evs ++ evs').
Proof.
  revert armed. induction evs as [|ev evs IH]; intros armed; cbn; [intros _; apply guarded_arm|].
  intros [Hb Hr] He. auto.
Qed.

Lemma guarded_split armed before ev after :
  guarded armed (before ++ ev :: after) -> blocking ev = true ->
  before = [] /\ armed = true \/ exists before', before = before' ++ [EvLoadFlag false].
Proof.
  revert armed. induction before as [|x before IH]; intros armed; cbn; [naive_solver|].
  intros [_ Hg] Hb. right. destruct (IH _ Hg Hb) as [[-> Ha]|[before' ->]].
  - destruct x; try discriminate. destruct set; [discriminate|]. by exists [].
  - by exists (x :: before').
Qed.

(** ** Guarded computations *)

Definition guards {A} (armed : bool) (m : M A) : Prop := wp m (fun evs _ => guarded armed evs).

Lemma guards_ret {A} armed (a : A) : guards armed (mret a).
Proof. by apply wp_ret. Qed.

Lemma guards_out_of_fuel {A} armed : guards armed (@out_of_fuel _ A).
Proof. by apply wp_out_of_fuel. Qed.

Lemma guards_call {A} armed (f : Env -> Env * A) ev :
  armed = true \/ (forall a, blocking (ev a) = false) -> guards armed (call f ev).
Proof.
  intros Hev. apply wp_call. intros a. cbn. split; [|done]. destruct Hev as [->|Hev]; [done|].
  rewrite Hev. done.
Qed.

Lemma guards_bind {A B} armed (m : M A) (k : A -> M B) :
  guards armed m -> (forall a, guards false (k a)) -> guards armed (m ≫= k).
Proof.
  intros Hm Hk. apply wp_bind. eapply wp_mono; [exact Hm|]. intros evs [a|] He; [|done].
  eapply wp_mono; [apply Hk|]. intros evs' r He'. by apply guarded_app.
Qed.

Lemma guards_or_return {A B} armed (m : result A) (k : A -> M (result B)) :
  (forall a, guards armed (k a)) -> guards armed (or_return m k).
Proof. intros Hk. destruct m; [apply Hk|apply guards_ret]. Qed.

Lemma guards_poll {A} armed (stopped going : M A) :
  guards false stopped -> guards true going ->
  guards armed (stop ← load terminationRequested; if (stop : bool) then stopped else going).
Proof.
  intros Hs Hg. apply wp_bind. apply wp_call. intros [].
  - eapply wp_mono; [exact Hs|]. intros evs r He. by split.
  - eapply wp_mono; [exact Hg|]. intros evs r He. by split.
Qed.
End Guards.

(** Show that a computation is guarded by following its structure. *)
Ltac follow :=
  repeat first
    [ solve [eauto 2]
    | apply guards_ret | apply guards_out_of_fuel
    | apply guards_poll
    | apply guards_bind; [|intros ?]
    | apply guards_or_return; intros ?
    | apply guards_call; solve [by left | by right]
    | match goal with
      | |- guards _ (match ?x with _ => _ end) => destruct x
      end ].

Section Stages.
Context `{ProtocolEnums} `{CompilerFormats} `{Platform}.

Lemma fromSubmitter_guarded d q : guards false (fromSubmitter d q).
Proof. unfold fromSubmitter. cbv zeta. follow. Qed.

Lemma cancelAll_guarded jobs : guards false (cancelAll jobs).
Proof. induction jobs; cbn [cancelAll]; follow. Qed.

Lemma submitCircuits_guarded task d format pl indices jobs :
  guards false (submitCircuits task d terminationRequested format pl indices jobs).
Proof.
  pose proof cancelAll_guarded. revert jobs.
  induction indices; intros jobs; cbn [submitCircuits]; follow.
Qed.

Lemma submitQuantumTask_guarded task d :
  guards false (submitQuantumTask task d terminationRequested).
Proof. pose proof submitCircuits_guarded. unfold submitQuantumTask. follow. Qed.

Lemma waitForJob_guarded fuel job bounded timeout started :
  guards false (waitForJob fuel job bounded timeout started terminationRequested).
Proof. induction fuel; cbn [waitForJob]; follow. Qed.

Lemma collectJobs_guarded fuel jobs bounded timeout h :
  guards false (collectJobs fuel jobs bounded timeout terminationRequested h).
Proof.
  pose proof waitForJob_guarded. revert h. induction jobs; intros h; cbn [collectJobs]; follow.
Qed.

Lemma collectQuantumResult_guarded fuel task jobs timeout :
  guards false (collectQuantumResult fuel task jobs timeout terminationRequested).
Proof. pose proof collectJobs_guarded. unfold collectQuantumResult. follow. Qed.

Lemma send_guarded `{WireMessage A} (m : A) queue : guards false (send m queue).
Proof. unfold send, CommunicationHandler.send. follow. Qed.

Lemma refreshOwnDeviceStatus_guarded d q r th : guards false (refreshOwnDeviceStatus d q r th).
Proof. pose proof fromSubmitter_guarded. unfold refreshOwnDeviceStatus. follow. Qed.

Lemma expireNow_guarded r : guards false (expireNow r).
Proof. unfold expireNow. follow. Qed.

Lemma compileCircuitFiles_guarded b opts files staged :
  guards false (compileCircuitFiles b opts files staged).
Proof. revert staged. induction files; intros staged; cbn [compileCircuitFiles]; follow. Qed.

Lemma compileAndSchedule_guarded task r : guards false (compileAndSchedule task r).
Proof.
  pose proof compileCircuitFiles_guarded. unfold compileAndSchedule, compileQuantumTask. follow.
Qed.

Lemma receiveNext_guarded {S} `{!WireMessage A, !Receivable A} fuel queue timeout
    (handle : A -> S -> M S) s :
  (forall m s, guards false (handle m s)) ->
  guards false (receiveNext fuel queue timeout terminationRequested handle s).
Proof.
  intros Hh. unfold receiveNext. apply guards_bind.
  - unfold CommunicationHandler.receive. cbv zeta.
    induction fuel; cbn [CommunicationHandler.receiveLoop]; follow.
  - intros ?. follow.
Qed.

Lemma drainQueue_guarded {S} `{!WireMessage A, !Receivable A} fuel queue
    (handle : A -> S -> M S) s :
  (forall m s, guards false (handle m s)) ->
  guards false (drainQueue fuel queue terminationRequested handle s).
Proof.
  intros Hh. unfold drainQueue. generalize false at 2. revert s.
  induction fuel as [|fuel IH]; intros s any; cbn [drainLoop]; [apply guards_out_of_fuel|].
  apply guards_bind; [by apply receiveNext_guarded|]. intros [[] s']; [apply IH|apply guards_ret].
Qed.
End Stages.

(** ** The processes *)

Section Processes.
Context `{ProtocolEnums} `{CompilerFormats} `{Platform}.

Lemma selector_turn_guarded fuel config r : guards false (Selector.turn fuel config r).
Proof.
  pose proof @send_guarded. pose proof expireNow_guarded. unfold Selector.turn.
  apply guards_bind; [apply drainQueue_guarded|intros ?].
  { intros status reg. unfold Selector.absorbStatus. follow. }
  apply guards_bind; [done|]. intros ?.
  apply guards_bind; [apply drainQueue_guarded|intros ?; follow].
  intros task u. unfold Selector.assignTask, sendFailure. follow.
Qed.

Lemma submitReady_guarded fuel d acc : guards false (Worker.submitReady fuel d acc).
Proof.
  pose proof @send_guarded. pose proof submitQuantumTask_guarded. revert acc.
  induction fuel; intros acc; cbn [Worker.submitReady]; unfold sendFailure; follow.
Qed.

Lemma collectAll_guarded jobFuel config subs : guards false (Worker.collectAll jobFuel config subs).
Proof.
  pose proof @send_guarded. pose proof collectQuantumResult_guarded.
  induction subs as [|[t js] subs IH]; cbn [Worker.collectAll]; unfold sendResult, sendFailure; follow.
Qed.

Lemma worker_turn_guarded fuel jobFuel config d r th :
  guards false (Worker.turn fuel jobFuel config d r th).
Proof.
  pose proof @send_guarded. pose proof refreshOwnDeviceStatus_guarded.
  pose proof expireNow_guarded. pose proof submitReady_guarded. pose proof collectAll_guarded.
  pose proof compileAndSchedule_guarded.
  unfold Worker.turn, Worker.intakeAndSubmit, Worker.collectAndPause.
  apply guards_bind; [|intros [[[r1 th1] got] subs]; follow].
  apply guards_bind; [done|]. intros [[st r1] th1]. apply guards_bind; [follow|]. intros ?.
  apply guards_bind; [done|]. intros r2.
  apply guards_bind; [apply receiveNext_guarded|intros ?; follow].
  intros ? ?. unfold Worker.prepareTask, sendFailure. follow.
Qed.

Lemma standalone_turn_guarded fuel jobFuel config d r th :
  guards false (Standalone.turn fuel jobFuel config d r th).
Proof.
  pose proof @send_guarded. pose proof refreshOwnDeviceStatus_guarded.
  pose proof expireNow_guarded. pose proof compileAndSchedule_guarded.
  pose proof submitQuantumTask_guarded. pose proof collectQuantumResult_guarded.
  unfold Standalone.turn.
  apply guards_bind; [done|]. intros [[st r1] th1]. apply guards_bind; [done|]. intros r2.
  apply guards_bind; [apply drainQueue_guarded|intros ?].
  { intros ? ?. unfold Standalone.prepareTask, selectCompileAndSchedule, sendFailure. follow. }
  apply guards_bind; [|intros ?; follow]. generalize false at 2. revert fuel.
  induction fuel as [|fuel IH]; intros any; cbn [Standalone.executeReady];
    unfold executeQuantumTask, sendResult, sendFailure; follow.
Qed.

(** ** Exit codes *)

(** The calls of a start-up, and those whose answer makes it fail. *)
Definition start_up (ev : Event) : Prop :=
  match ev with
  | EvNow _ | EvOpenDevice _ _ _ _ _ | EvQubitsNum _ _ | EvStatus _ _ | EvOperationNames _ _
  | EvCouplingMap _ _ | EvSupportedPayloadFormats _ _ => True
  | _ => False
  end.

Definition start_failed (ev : Event) : bool :=
  match ev with
  | EvOpenDevice _ _ _ _ r => negb (has_value r)
  | _ => query_failed ev
  end.

(** How a run that returns has ended. *)
Definition shut_down (evs : list Event) (code : Z) : Prop :=
  code = EXIT_SUCCESS /\ exists before, evs = before ++ [EvLoadFlag true].
Definition failed_to_start `{ConfigSources} (evs : list Event) (code : Z) : Prop :=
  code = EXIT_FAILURE /\ Forall start_up evs /\
  ((exists e, loadConfig = Unexpected e) /\ evs = [] \/
   exists before ev, evs = before ++ [ev] /\ start_failed ev = true).

Definition exits `{ConfigSources} (evs : list Event) (o : option Z) : Prop :=
  forall code, o = Some code -> shut_down evs code \/ failed_to_start evs code.

(** A work loop with guarded turns. *)
Lemma work_loop_wp {S} (loop : nat -> S -> M Z) (turn : S -> M S) turns s :
  work_loop loop turn ->
  (forall s, guards false (turn s)) ->
  wp (loop turns s) (fun evs o =>
    guarded false evs /\ forall code, o = Some code -> shut_down evs code).
Proof.
  intros Hl Ht. revert s. induction turns as [|turns IH]; intros s.
  { rewrite (work_loop_0 _ _ Hl). by apply wp_out_of_fuel. }
  rewrite (work_loop_S _ _ Hl). wp_step. apply wp_call. intros [].
  { wp_step. split; [done|]. intros code [= <-]. split; [done|]. by exists []. }
  wp_step. eapply wp_mono; [apply Ht|]. intros evs [s'|] Hg; [|split; [by apply guarded_app|done]].
  eapply wp_mono; [apply IH|]. intros evs' o [Hg' Ho]. split.
  - apply guarded_app; [done|]. by apply guarded_app.
  - intros code Hcode. destruct (Ho code Hcode) as [-> [before ->]]. split; [done|].
    exists (([EvLoadFlag false] ++ evs) ++ before). by rewrite <- !app_assoc.
Qed.

(** The account of a whole run. *)
Definition responsive `{ConfigSources} (evs : list Event) (o : option Z) : Prop :=
  guarded false evs /\ exits evs o.

Lemma start_up_guarded evs : Forall start_up evs -> guarded false evs.
Proof.
  intros Hs. assert (forall armed, guarded armed evs) as Hg; [|apply Hg].
  induction Hs as [|ev evs Hev _ IH]; intros armed; cbn; [done|]. split; [|apply IH]. by destruct ev.
Qed.

Lemma failed_start `{ConfigSources} evs before ev :
  Forall start_up evs -> evs = before ++ [ev] -> start_failed ev = true ->
  responsive evs (Some EXIT_FAILURE).
Proof.
  intros Hs -> Hf. split; [by apply start_up_guarded|]. intros code [= <-]. right.
  split; [done|]. split; [done|]. right. eauto.
Qed.

Lemma run_after_start `{ConfigSources} pre evs o :
  Forall start_up pre -> guarded false evs -> (forall code, o = Some code -> shut_down evs code) ->
  responsive (pre ++ evs) o.
Proof.
  intros Hs Hg Ho. split; [apply guarded_app; [by apply start_up_guarded|done]|].
  intros code Hcode. left. destruct (Ho code Hcode) as [-> [before ->]]. split; [done|].
  exists (pre ++ before). by rewrite <- app_assoc.
Qed.

Lemma fromSubmitter_start_up d q : emits start_up (fromSubmitter d q).
Proof. unfold fromSubmitter. cbv zeta. silent. Qed.

(** Opening and registering the device, then a work loop. *)
Lemma start_up_responsive `{ConfigSources} config queue (loop : Device -> DeviceState -> M Z) :
  (forall d s, wp (loop d s) (fun evs o =>
     guarded false evs /\ forall code, o = Some code -> shut_down evs code)) ->
  wp (with_own_device config queue loop) responsive.
Proof.
  intros Hl. unfold with_own_device. wp_step. unfold openConfiguredDevice, openDevice. wp_step. apply wp_call.
  intros [d|err]; cbn [transform_error]; wp_step.
  2:{ wp_step. eapply failed_start with (before := []); [by repeat constructor|done..]. }
  wp_step. unfold registerOwnDevice. wp_step.
  eapply wp_mono; [apply emits_and; [apply fromSubmitter_start_up|apply fromSubmitter_wp]|].
  intros evs [[b|e]|] [Hs Hq]; [| |done].
  - wp_step. unfold now. wp_step. wp_step. cbn [fst snd]. eapply wp_mono; [apply Hl|].
    intros evs' o [Hg Ho]. rewrite app_assoc. apply run_after_start; [|done..].
    rewrite !Forall_app. by split_and!; repeat constructor.
  - destruct Hq as (_ & before & last & -> & Hl' & _). wp_step. cbn [fst]. wp_step.
    eapply failed_start; [|rewrite !app_nil_r, app_assoc; reflexivity|].
    + rewrite !app_nil_r, Forall_app. by split; [repeat constructor|].
    + by destruct last.
Qed.

Lemma refused_config `{ConfigSources} e : loadConfig = Unexpected e -> wp (mret EXIT_FAILURE) responsive.
Proof.
  intros E. apply wp_ret. split; [done|]. intros code [= <-]. right.
  split; [done|]. split; [done|]. left. eauto.
Qed.

Lemma selector_main_responsive `{ConfigSources} `{LogFiles} turns fuel p :
  wp (Selector.main turns fuel p) responsive.
Proof.
  rewrite selector_main_shape. destruct loadConfig as [config|e] eqn:E; [|by eapply refused_config].
  eapply wp_mono; [apply (work_loop_wp _ _ _ _ (selector_work_loop _ _)), selector_turn_guarded|].
  intros evs o [Hg Ho]. by apply (run_after_start []).
Qed.

Lemma worker_main_responsive `{ConfigSources} `{LogFiles} turns fuel jobFuel p :
  wp (Worker.main turns fuel jobFuel p) responsive.
Proof.
  rewrite worker_main_shape. destruct loadConfig as [config|e] eqn:E; [|by eapply refused_config].
  apply start_up_responsive. intros d s. apply (work_loop_wp _ _ _ _ (worker_work_loop _ _ _ _)).
  intros st. apply worker_turn_guarded.
Qed.

Lemma standalone_main_responsive `{ConfigSources} `{LogFiles} turns fuel jobFuel p :
  wp (Standalone.main turns fuel jobFuel p) responsive.
Proof.
  rewrite standalone_main_shape. destruct loadConfig as [config|e] eqn:E; [|by eapply refused_config].
  apply start_up_responsive. intros d s. apply (work_loop_wp _ _ _ _ (standalone_work_loop _ _ _ _)).
  intros st. apply standalone_turn_guarded.
Qed.
End Processes.

(** ** Properties *)

(** C28: no process blocks without having looked. In every run of the selector,
    the worker and the standalone daemon, right before each attempt to receive,
    each job submission and each wait for a job, the termination flag was read
    as clear: no call comes in between. *)
Theorem daemons_poll_before_blocking `{ProtocolEnums} `{CompilerFormats} `{Platform}
    `{ConfigSources} `{LogFiles} turns fuel jobFuel p :
  let polled_first evs (_ : option Z) :=
    forall before ev after, evs = before ++ ev :: after -> blocking ev = true ->
    exists before', before = before' ++ [EvLoadFlag false] in
  wp (Selector.main turns fuel p) polled_first /\
  wp (Worker.main turns fuel jobFuel p) polled_first /\
  wp (Standalone.main turns fuel jobFuel p) polled_first.
Proof.
  assert (forall evs o, responsive evs o ->
    forall before ev after, evs = before ++ ev :: after -> blocking ev = true ->
    exists before', before = before' ++ [EvLoadFlag false]) as Hr.
  { intros evs o [Hg _] before ev after -> Hb.
    by destruct (guarded_split _ _ _ _ Hg Hb) as [[_ ?]|?]. }
  split_and!; eapply wp_mono; [apply selector_main_responsive|apply Hr|
    apply worker_main_responsive|apply Hr|apply standalone_main_responsive|apply Hr].
Qed.

(** C29: what the exit codes mean. A process returns [EXIT_SUCCESS] only right
    after reading the termination flag as set, and [EXIT_FAILURE] only from its
    start-up: then the configuration was refused and nothing was called at all,
    or opening or reading the device failed and that was the last call; in
    either case nothing has been received, sent, scheduled or submitted. *)
Theorem exit_codes `{ProtocolEnums} `{CompilerFormats} `{Platform} `{ConfigSources} `{LogFiles}
    turns fuel jobFuel p :
  wp (Selector.main turns fuel p) exits /\
  wp (Worker.main turns fuel jobFuel p) exits /\
  wp (Standalone.main turns fuel jobFuel p) exits.
Proof.
  split_and!; eapply wp_mono;
    [apply selector_main_responsive|by intros evs o []|apply worker_main_responsive|
     by intros evs o []|apply standalone_main_responsive|by intros evs o []].
Qed.
