(* ===== verification/Shutdown.v ===== *)
(** * Shutdown: the daemons stop when they are told to

    Total-correctness rules for computations in an environment in which the
    termination signal comes: the flag is read as clear only finitely often.
    Each loop of the daemons either polls the flag in every iteration or takes a
    task from the scheduler, so every one of them ends, whatever the broker, the
    device and the compiler answer, and however many messages keep arriving. *)

From S2P Require Import Prelude Error Externals World BackendWrapper BackendRegistry.
From S2P Require Import PublicationThrottle RunnersSelection RunnersCompilation RunnersExecution.
From S2P Require Import Config ConfigProperties CommunicationHandler DaemonMessaging.
From S2P Require Import Logger Daemon Traces Selector Standalone Worker WorkLoop.

Section Environment.
Context `{Platform} (clear pending : Env -> nat).

(** An operation after which the flag is read as clear no more often, and no
    more tasks are ready to come, than before. *)
Definition steady {A} (f : Env -> Env * A) : Prop :=
  forall e, clear (f e).1 <= clear e /\ pending (f e).1 <= pending e.

(** An environment in which a shutdown comes: [clear e] bounds how often the
    flag is still read as clear from [e] on, and [pending e] how many ready
    tasks the scheduler still has; only scheduling a task adds one. *)
Class ShutdownComes : Prop := {
  load_steady : steady platform_load_flag;
  load_clear e : (platform_load_flag e).2 = false -> clear (platform_load_flag e).1 < clear e;
  ready_steady : steady platform_getNextReadyTask;
  ready_taken e t : (platform_getNextReadyTask e).2 = Some t ->
    pending (platform_getNextReadyTask e).1 < pending e;
  schedule_adds t e : clear (platform_scheduleTask t e) <= clear e /\
    pending (platform_scheduleTask t e) <= S (pending e);
  now_steady : steady platform_now;
  sleep_steady ms : steady (fun e => (platform_sleep ms e, tt));
  open_steady driver name s o : steady (platform_openDevice driver name s o);
  qubits_steady d : steady (platform_qubitsNum d);
  status_steady d : steady (platform_status d);
  operations_steady d : steady (platform_operationNames d);
  coupling_steady d : steady (platform_couplingMap d);
  formats_steady d : steady (platform_supportedPayloadFormats d);
  children_steady d : steady (platform_children d);
  submit_steady d req pl : steady (platform_submitJob d req pl);
  wait_steady j s : steady (platform_wait j s);
  counts_steady j : steady (platform_counts j);
  cancel_steady j : steady (platform_cancel j);
  compile_steady src tgt ins con o : steady (platform_compileSource src tgt ins con o);
  send_steady q m : steady (platform_send q m);
  receive_task_steady q t : steady (platform_receive_task q t);
  receive_backend_steady q t : steady (platform_receive_backend q t);
  ack_steady d : steady (platform_ack d);
}.

(** ** Total correctness *)

(** From a state of the environment that satisfies [P], [m] returns, and what it
    returns and leaves satisfies [Q]. *)
Definition returns {A} (P : Env -> Prop) (m : M A) (Q : A -> Env -> Prop) : Prop :=
  forall w, P (env w) -> exists a, (m w).2 = Some a /\ Q a (env (m w).1).

(** At most [r] clear reads are left, and at most [b] clear reads and ready
    tasks together. *)
Definition budget (r b : nat) (e : Env) : Prop := clear e <= r /\ clear e + pending e <= b.

(** With fewer than [n] clear reads left, [m] returns and costs nothing. *)
Definition calm {A} (n : nat) (m : M A) : Prop :=
  forall r b, r < n -> returns (budget r b) m (fun _ => budget r b).

Lemma budget_mono r b r' b' e : budget r b e -> r <= r' -> b <= b' -> budget r' b' e.
Proof. unfold budget. lia. Qed.

Lemma returns_ret {A} (P : Env -> Prop) (a : A) (Q : A -> Env -> Prop) :
  (forall e, P e -> Q a e) -> returns P (mret a) Q.
Proof. intros HQ w HP. exists a. split; [done|]. by apply HQ. Qed.

Lemma returns_bind {A B} P (m : M A) (k : A -> M B) R Q :
  returns P m R -> (forall a, returns (R a) (k a) Q) -> returns P (m ≫= k) Q.
Proof.
  intros Hm Hk w HP. destruct (Hm w HP) as (a & Ha & HR).
  unfold mbind, M_bind. destruct (m w) as [w' o]. cbn in *. subst o. by apply Hk.
Qed.

Lemma returns_call {A} (P : Env -> Prop) (f : Env -> Env * A) ev (Q : A -> Env -> Prop) :
  (forall e, P e -> Q (f e).2 (f e).1) -> returns P (call f ev) Q.
Proof.
  intros HQ w HP. specialize (HQ _ HP). unfold call. destruct (f (env w)) as [e a]. by exists a.
Qed.

Lemma returns_mono {A} (P P' : Env -> Prop) (m : M A) (Q Q' : A -> Env -> Prop) :
  returns P m Q -> (forall e, P' e -> P e) -> (forall a e, Q a e -> Q' a e) -> returns P' m Q'.
Proof. intros Hm HP HQ w Hw. destruct (Hm w) as (a & ? & ?); eauto. Qed.

Lemma returns_pre {A} (P : Env -> Prop) (F : Prop) (m : M A) Q :
  (F -> returns P m Q) -> returns (fun e => F /\ P e) m Q.
Proof. intros Hm w [HF HP]. by apply Hm. Qed.

(** ** Calm computations *)

Lemma calm_ret {A} n (a : A) : calm n (mret a).
Proof. intros r b _. by apply returns_ret. Qed.

Lemma calm_bind {A B} n (m : M A) (k : A -> M B) :
  calm n m -> (forall a, calm n (k a)) -> calm n (m ≫= k).
Proof. intros Hm Hk r b Hr. eapply returns_bind; [by apply Hm|]. intros a. by apply Hk. Qed.

Lemma calm_call {A} n (f : Env -> Env * A) ev : steady f -> calm n (call f ev).
Proof.
  intros Hf r b _. apply returns_call. intros e He. specialize (Hf e). unfold budget in *. lia.
Qed.

Lemma calm_or_return {A B} n (m : result A) (k : A -> M (result B)) :
  (forall a, calm n (k a)) -> calm n (or_return m k).
Proof. intros Hk. destruct m; [apply Hk|apply calm_ret]. Qed.

Context `{!ShutdownComes}.

Lemma calm_load n f : calm n (load f).
Proof. destruct f; [apply calm_ret|apply calm_call, load_steady]. Qed.

(** A read of the flag as clear is paid for. *)
Lemma load_returns r b :
  returns (budget r b) (load terminationRequested) (fun stop e =>
    if (stop : bool) then budget r b e else (0 < r /\ 0 < b) /\ budget (pred r) (pred b) e).
Proof.
  apply returns_call. intros e He. pose proof (load_steady e). pose proof (load_clear e) as Hc.
  unfold budget in *. destruct (platform_load_flag e) as [e' []]; cbn in *; [lia|].
  specialize (Hc eq_refl). lia.
Qed.

(** The step of a polling loop. *)
Lemma calm_poll {A} n (stopped going : M A) :
  calm (S n) stopped -> calm n going ->
  calm (S n) (stop ← load terminationRequested; if (stop : bool) then stopped else going).
Proof.
  intros Hs Hg r b Hr. eapply returns_bind; [apply load_returns|]. intros []; [by apply Hs|].
  apply returns_pre. intros [??]. eapply returns_mono; [apply (Hg (pred r) (pred b)); lia|done|].
  intros ? e He. eapply budget_mono; [exact He|lia..].
Qed.

(** Taking a ready task is paid for by the task, and scheduling one costs one. *)
Lemma ready_returns r b :
  returns (budget r b) getNextReadyTask (fun next e =>
    match next with Some _ => 0 < b /\ budget r (pred b) e | None => budget r b e end).
Proof.
  apply returns_call. intros e He. pose proof (ready_steady e). pose proof (ready_taken e) as Ht.
  unfold budget in *. destruct (platform_getNextReadyTask e) as [e' [t|]]; cbn in *; [|lia].
  specialize (Ht t eq_refl). lia.
Qed.

Lemma schedule_returns r b t :
  returns (budget r b) (scheduleTask t) (fun _ => budget r (S b)).
Proof. apply returns_call. intros e He. pose proof (schedule_adds t e). unfold budget in *. cbn. lia. Qed.
End Environment.

(** Show that a computation is calm by following its structure. *)
Create HintDb calm.
#[export] Hint Resolve now_steady sleep_steady open_steady qubits_steady status_steady
  operations_steady coupling_steady formats_steady children_steady submit_steady wait_steady
  counts_steady cancel_steady compile_steady send_steady receive_task_steady
  receive_backend_steady ack_steady load_steady ready_steady : calm.

Ltac calmly :=
  repeat first
    [ solve [eauto 2 with calm]
    | apply calm_ret
    | apply calm_load; assumption
    | apply calm_poll; [assumption| |]
    | apply calm_bind; [|intros ?]
    | apply calm_or_return; intros ?
    | apply calm_call; solve [eauto 2 with calm]
    | match goal with
      | |- calm _ _ _ (match ?x with _ => _ end) => destruct x
      end ].

Section Stages.
Context `{ProtocolEnums} `{CompilerFormats} `{Platform} (clear pending : Env -> nat).
Context `{!ShutdownComes clear pending}.

Abbreviation calm := (calm clear pending).
Abbreviation budget := (budget clear pending).

(** ** The stages without a loop of their own *)

Lemma fromSubmitter_calm n d q : calm n (fromSubmitter d q).
Proof. unfold fromSubmitter. cbv zeta. calmly. Qed.

Lemma cancelAll_calm n jobs : calm n (cancelAll jobs).
Proof. induction jobs; cbn [cancelAll]; calmly. Qed.

Lemma submitCircuits_calm n task d f format pl indices jobs :
  calm n (submitCircuits task d f format pl indices jobs).
Proof.
  pose proof cancelAll_calm. revert jobs.
  induction indices; intros jobs; cbn [submitCircuits]; calmly.
Qed.

Lemma submitQuantumTask_calm n task d f : calm n (submitQuantumTask task d f).
Proof. pose proof submitCircuits_calm. unfold submitQuantumTask. calmly. Qed.

Lemma send_calm n `{WireMessage A} (m : A) queue : calm n (send m queue).
Proof. unfold send, CommunicationHandler.send. calmly. Qed.

Lemma refreshOwnDeviceStatus_calm n d q r th : calm n (refreshOwnDeviceStatus d q r th).
Proof. pose proof fromSubmitter_calm. unfold refreshOwnDeviceStatus. calmly. Qed.

Lemma expireNow_calm n r : calm n (expireNow r).
Proof. unfold expireNow. calmly. Qed.

Lemma compileCircuitFiles_calm n b opts files staged :
  calm n (compileCircuitFiles b opts files staged).
Proof. revert staged. induction files; intros staged; cbn [compileCircuitFiles]; calmly. Qed.

Lemma compileQuantumTask_calm n task b : calm n (compileQuantumTask task b).
Proof. pose proof compileCircuitFiles_calm. unfold compileQuantumTask. calmly. Qed.

(** ** Waiting for jobs *)

Lemma waitForJob_calm fuel job bounded timeout started :
  calm fuel (waitForJob fuel job bounded timeout started terminationRequested).
Proof.
  induction fuel as [|fuel IH]; cbn [waitForJob]; [intros r b Hr; lia|].
  calmly.
Qed.

Lemma collectJobs_calm fuel jobs bounded timeout h :
  calm fuel (collectJobs fuel jobs bounded timeout terminationRequested h).
Proof.
  pose proof waitForJob_calm. revert h. induction jobs; intros h; cbn [collectJobs]; calmly.
Qed.

Lemma collectQuantumResult_calm fuel task jobs timeout :
  calm fuel (collectQuantumResult fuel task jobs timeout terminationRequested).
Proof. pose proof collectJobs_calm. unfold collectQuantumResult. calmly. Qed.

Lemma executeQuantumTask_calm fuel task d timeout :
  calm fuel (executeQuantumTask fuel task d timeout terminationRequested).
Proof.
  pose proof collectQuantumResult_calm. pose proof submitQuantumTask_calm.
  unfold executeQuantumTask. calmly.
Qed.

Lemma collectAll_calm fuel config subs : calm fuel (Worker.collectAll fuel config subs).
Proof.
  pose proof collectQuantumResult_calm.
  induction subs as [|[t js] subs IH]; cbn [Worker.collectAll]; unfold sendResult, sendFailure;
    repeat (calmly; try apply send_calm).
Qed.

(** ** Receiving *)

(** The budget after a receive: a message was paid for by a clear read. *)
Definition after_receive {A} (r b : nat) (res : result (option A)) (e : Env) : Prop :=
  match res with
  | Value (Some _) => (0 < r /\ 0 < b) /\ budget (pred r) (pred b) e
  | _ => budget r b e
  end.

Lemma receiveLoop_returns `{!WireMessage A, !Receivable A} fuel queue interval forever r b :
  (forall q t, steady clear pending (platform_receive (A := A) q t)) ->
  r < fuel \/ (fuel <> 0 /\ forever = false) ->
  returns (budget r b)
    (CommunicationHandler.receiveLoop (A := A) fuel queue interval forever terminationRequested)
    (after_receive r b).
Proof.
  intros Hs. revert r b. induction fuel as [|fuel IH]; intros r b Hf; [lia|].
  cbn [CommunicationHandler.receiveLoop]. eapply returns_bind; [by apply load_returns|].
  intros []; [by apply returns_ret|]. apply returns_pre. intros Hrb.
  eapply returns_bind; [apply (calm_call clear pending (S r) _ _ (Hs queue interval)); lia|].
  cbn beta. intros [m d|st reason].
  - eapply returns_bind; [apply (calm_call clear pending (S r) _ _ (ack_steady clear pending d)); lia|].
    intros st. by apply returns_ret.
  - destruct (negb (bool_decide _)).
    { apply returns_ret. intros e He. eapply budget_mono; [exact He|lia..]. }
    destruct forever; cbn [negb].
    2:{ apply returns_ret. intros e He. eapply budget_mono; [exact He|lia..]. }
    eapply returns_mono; [apply (IH (pred r) (pred b)); left; lia|done|].
    intros [[m|]|err] e He; cbn in *.
    + split; [lia|]. destruct He as [? He]. eapply budget_mono; [exact He|lia..].
    + eapply budget_mono; [exact He|lia..].
    + eapply budget_mono; [exact He|lia..].
Qed.

(** A handler that schedules at most one task. *)
Definition schedules_one {A S} (handle : A -> S -> M S) : Prop :=
  forall m s r b, returns (budget r b) (handle m s) (fun _ => budget r (Datatypes.S b)).

Lemma receiveNext_returns {S} `{!WireMessage A, !Receivable A} fuel queue timeout
    (handle : A -> S -> M S) s r b :
  (forall q t, steady clear pending (platform_receive (A := A) q t)) -> schedules_one handle ->
  r < fuel \/ (fuel <> 0 /\ timeout <> WaitForever) ->
  returns (budget r b) (receiveNext fuel queue timeout terminationRequested handle s)
    (fun res e => if (res.1 : bool) then (0 < r /\ 0 < b) /\ budget (pred r) b e else budget r b e).
Proof.
  intros Hs Hh Hf. unfold receiveNext. eapply returns_bind.
  { unfold CommunicationHandler.receive. cbv zeta. apply receiveLoop_returns; [done|].
    destruct Hf as [|[? ?]]; [by left|right]. split; [done|]. by apply Z.eqb_neq. }
  intros [[m|]|err]; [|by apply returns_ret..]. cbn [after_receive]. apply returns_pre. intros Hrb.
  eapply returns_bind; [apply Hh|]. intros s'. apply returns_ret. cbn. intros e He.
  split; [done|]. eapply budget_mono; [exact He|lia..].
Qed.

Lemma drainQueue_calm {S} `{!WireMessage A, !Receivable A} fuel queue (handle : A -> S -> M S) s :
  (forall q t, steady clear pending (platform_receive (A := A) q t)) -> schedules_one handle ->
  calm fuel (drainQueue fuel queue terminationRequested handle s).
Proof.
  intros Hs Hh. unfold drainQueue. generalize false. revert s.
  induction fuel as [|fuel IH]; intros s any r b Hr; [lia|]. cbn [drainLoop].
  eapply returns_bind; [apply receiveNext_returns; [done..|right]|].
  { unfold WaitForever. by split. }
  intros [[] s']; cbn; [|by apply returns_ret].
  apply returns_pre. intros Hrb. eapply returns_mono; [apply (IH s' true (pred r) b); lia|done|].
  cbn. intros ? e He. eapply budget_mono; [exact He|lia..].
Qed.

(** ** The handlers *)

Lemma calm_schedules_one {A S} (handle : A -> S -> M S) :
  (forall n m s, calm n (handle m s)) -> schedules_one handle.
Proof.
  intros Hh m s r b. eapply returns_mono; [apply (Hh (Datatypes.S r) m s r b); lia|done|].
  cbn. intros ? e He. eapply budget_mono; [exact He|lia..].
Qed.

Lemma compileAndSchedule_returns task reg r b :
  returns (budget r b) (compileAndSchedule task reg) (fun _ => budget r (S b)).
Proof.
  assert (forall e, budget r b e -> budget r (S b) e) as Hmono.
  { intros e He. eapply budget_mono; [exact He|lia..]. }
  unfold compileAndSchedule. destruct (find reg (scheduled_qpu task)) as [bk|]; [|by apply returns_ret].
  eapply returns_bind; [apply (compileQuantumTask_calm (S r)); lia|].
  cbn beta. intros [[u|err] task']; [|by apply returns_ret].
  eapply returns_bind; [by apply schedule_returns|]. intros ?. by apply returns_ret.
Qed.

Lemma settle_returns (prepare : M (result unit * QuantumTask)) r b :
  returns (budget r b) prepare (fun _ => budget r (S b)) ->
  returns (budget r b) (prepare ≫= settle) (fun _ => budget r (S b)).
Proof.
  intros Hp. eapply returns_bind; [exact Hp|]. intros [[u|e] task']; cbn [settle fst snd].
  - by apply returns_ret.
  - apply (send_calm (S r)). lia.
Qed.

Lemma worker_prepareTask_schedules reg : schedules_one (Worker.prepareTask reg).
Proof. intros task [] r b. apply settle_returns, compileAndSchedule_returns. Qed.

Lemma standalone_prepareTask_schedules config reg : schedules_one (Standalone.prepareTask config reg).
Proof.
  intros task [] r b. apply (settle_returns (selectCompileAndSchedule _ _ _)).
  unfold selectCompileAndSchedule. destruct (chooseBackend task reg _).
  - apply compileAndSchedule_returns.
  - apply returns_ret. intros ? He. eapply budget_mono; [exact He|lia..].
Qed.

Lemma absorbStatus_schedules : schedules_one Selector.absorbStatus.
Proof. apply calm_schedules_one. intros n status reg. unfold Selector.absorbStatus. calmly. Qed.

Lemma assignTask_schedules config reg : schedules_one (Selector.assignTask config reg).
Proof.
  apply calm_schedules_one. intros n task []. unfold Selector.assignTask, sendFailure.
  repeat (calmly; try apply send_calm).
Qed.

(** ** The loops over ready tasks *)

Lemma submitReady_returns fuel d acc r b :
  b < fuel -> returns (budget r b) (Worker.submitReady fuel d acc) (fun _ => budget r b).
Proof.
  revert acc b. induction fuel as [|fuel IH]; intros acc b Hb; [lia|]. cbn [Worker.submitReady].
  eapply returns_bind; [by apply ready_returns|]. intros [t|]; [|by apply returns_ret].
  apply returns_pre. intros Hpos.
  assert (forall e, budget r (pred b) e -> budget r b e) as Hmono.
  { intros e He. eapply budget_mono; [exact He|lia..]. }
  eapply returns_bind; [apply (submitQuantumTask_calm (S r)); lia|]. cbn beta. intros [js|e].
  - eapply returns_mono; [apply (IH _ (pred b)); lia|done|]. eauto.
  - case_bool_decide; [by apply returns_ret|].
    eapply returns_bind; [apply (send_calm (S r)); lia|]. intros ?.
    eapply returns_mono; [apply (IH _ (pred b)); lia|done|]. eauto.
Qed.

Lemma executeReady_returns fuel jobFuel config d any r b :
  b < fuel -> r < jobFuel ->
  returns (budget r b) (Standalone.executeReady fuel jobFuel config d any) (fun _ => budget r b).
Proof.
  intros Hb Hj. revert any b Hb.
  induction fuel as [|fuel IH]; intros any b Hb; [lia|]. cbn [Standalone.executeReady].
  eapply returns_bind; [by apply ready_returns|]. intros [t|]; [|by apply returns_ret].
  apply returns_pre. intros Hpos.
  assert (forall e, budget r (pred b) e -> budget r b e) as Hmono.
  { intros e He. eapply budget_mono; [exact He|lia..]. }
  eapply returns_bind; [by apply executeQuantumTask_calm|]. cbn beta. intros [qr|e].
  - eapply returns_bind; [apply (send_calm (S r)); lia|]. intros ?.
    eapply returns_mono; [apply (IH _ (pred b)); lia|done|]. eauto.
  - case_bool_decide; [by apply returns_ret|].
    eapply returns_bind; [apply (send_calm (S r)); lia|]. intros ?.
    eapply returns_mono; [apply (IH _ (pred b)); lia|done|]. eauto.
Qed.

(** ** Turns *)

Lemma selector_turn_returns fuel config reg : calm fuel (Selector.turn fuel config reg).
Proof.
  pose proof absorbStatus_schedules. pose proof assignTask_schedules. pose proof expireNow_calm.
  unfold Selector.turn. apply calm_bind.
  { apply drainQueue_calm; [|done]. intros. apply receive_backend_steady. done. }
  intros [any reg1]. apply calm_bind; [done|]. intros reg2. apply calm_bind.
  { apply drainQueue_calm; [|done]. intros. apply receive_task_steady. done. }
  intros [got u]. calmly.
Qed.

Lemma worker_turn_returns fuel jobFuel config d reg th r b :
  r < fuel -> b < fuel -> r < jobFuel ->
  returns (budget r b) (Worker.turn fuel jobFuel config d reg th) (fun _ => budget r b).
Proof.
  intros Hf Hb Hj. unfold Worker.turn, Worker.intakeAndSubmit, Worker.collectAndPause.
  eapply returns_bind.
  { eapply returns_bind; [apply (refreshOwnDeviceStatus_calm (S r)); lia|]. intros [[st reg1] th1].
    eapply returns_bind with (R := fun _ => budget r b).
    { destruct st; [apply (send_calm (S r)); lia|by apply returns_ret]. }
    intros ?. eapply returns_bind; [apply (expireNow_calm (S r)); lia|]. intros reg2.
    eapply returns_bind with (R := fun _ => budget r b).
    { eapply returns_mono;
        [apply (receiveNext_returns _ _ _ _ _ r b); [|apply worker_prepareTask_schedules|by left]|done|].
      - intros. apply receive_task_steady. done.
      - intros [[] u] e He; cbn in He; [|done]. destruct He as [? He].
        eapply budget_mono; [exact He|lia..]. }
    intros [got u]. eapply returns_bind; [by apply submitReady_returns|]. intros subs.
    apply returns_ret with (Q := fun _ => budget r b). done. }
  intros [[[reg1 th1] got] subs]. eapply returns_bind with (R := fun _ => budget r b).
  { eapply returns_bind; [by apply collectAll_calm|]. intros ?.
    destruct (negb got); [|by apply returns_ret].
    apply (calm_call clear pending (S r) _ _ (sleep_steady clear pending _)). lia. }
  intros ?. by apply returns_ret.
Qed.

Lemma standalone_turn_returns fuel jobFuel config d reg th r b :
  r < fuel -> b < fuel -> r < jobFuel ->
  returns (budget r b) (Standalone.turn fuel jobFuel config d reg th) (fun _ => budget r b).
Proof.
  intros Hf Hb Hj. unfold Standalone.turn.
  eapply returns_bind; [apply (refreshOwnDeviceStatus_calm (S r)); lia|]. intros [[st reg1] th1].
  eapply returns_bind; [apply (expireNow_calm (S r)); lia|]. intros reg2.
  eapply returns_bind.
  { apply (drainQueue_calm fuel); [|apply standalone_prepareTask_schedules|done].
    intros. apply receive_task_steady. done. }
  intros [got u]. eapply returns_bind; [by apply executeReady_returns|]. intros executed.
  cbn [fst]. destruct (negb got && negb executed); [|by apply returns_ret].
  eapply returns_bind;
    [apply (calm_call clear pending (S r) _ _ (sleep_steady clear pending _)); lia|].
  intros ?. by apply returns_ret.
Qed.

(** ** Work loops *)

(** A loop that polls the flag before every turn. *)
Lemma work_loop_returns {S} (loop : nat -> S -> M Z) (turn : S -> M S) turns s r b :
  work_loop loop turn ->
  (forall s r' b', r' <= r -> b' <= b -> returns (budget r' b') (turn s) (fun _ => budget r' b')) ->
  r < turns ->
  returns (budget r b) (loop turns s) (fun code _ => code = EXIT_SUCCESS).
Proof.
  intros Hl Ht. revert s r b Ht. induction turns as [|turns IH]; intros s r b Ht Hr; [lia|].
  rewrite (work_loop_S _ _ Hl). eapply returns_bind; [by apply load_returns|].
  intros []; [by apply returns_ret|].
  apply returns_pre. intros Hrb. eapply returns_bind; [apply Ht; lia|]. intros s'.
  apply IH; [|lia]. intros. apply Ht; lia.
Qed.

Lemma openConfiguredDevice_calm n config : calm n (openConfiguredDevice config).
Proof. unfold openConfiguredDevice. calmly. Qed.

Lemma registerOwnDevice_calm n d q reg : calm n (registerOwnDevice d q reg).
Proof. pose proof fromSubmitter_calm. unfold registerOwnDevice. calmly. Qed.

(** The start-up of a process that owns a device, before its work loop. *)
Lemma start_up_returns config queue r b (loop : Device -> DeviceState -> M Z) :
  (forall d s, returns (budget r b) (loop d s) (fun code _ => code = EXIT_SUCCESS)) ->
  returns (budget r b) (with_own_device config queue loop)
    (fun code _ => code = EXIT_SUCCESS \/ code = EXIT_FAILURE).
Proof.
  intros Hl. unfold with_own_device.
  eapply returns_bind; [apply (openConfiguredDevice_calm (S r)); lia|].
  intros [d|e]; [|apply returns_ret; by right].
  eapply returns_bind; [apply (registerOwnDevice_calm (S r)); lia|].
  intros [[u|e] reg]; cbn [fst snd]; [|apply returns_ret; by right].
  eapply returns_mono; [apply Hl|done|by left].
Qed.
End Stages.

(** The simulated platform is such an environment. *)
Lemma sim_shutdown_comes :
  @ShutdownComes sim_platform sim_stop (fun e => length (sim_ready e)).
Proof.
  split; unfold steady, sim_platform; cbn; try (intros; lia).
  - intros e Hb%bool_decide_eq_false. lia.
  - intros e. destruct (sim_ready e) eqn:E; cbn; rewrite ?E; cbn; lia.
  - intros e t. by destruct (sim_ready e) eqn:E; cbn; [|lia].
  - intros t e. rewrite length_app. cbn. lia.
  - intros j s e. destruct j as [|j]; [cbn; lia|]. by case_match; cbn.
  - intros q t e. unfold sim_receive. by destruct (sim_take _ _ _) as [[]|].
  - intros q t e. unfold sim_receive. by destruct (sim_take _ _ _) as [[]|].
Qed.

(** ** Properties *)

(** C24: the selector stops when told to. With an accepted configuration, in an
    environment in which the termination flag is read as clear only finitely often, the process returns
    [EXIT_SUCCESS], whatever the broker delivers: a queue that never runs empty
    cannot keep it from shutting down. *)
Theorem selector_shuts_down `{ProtocolEnums} `{CompilerFormats} `{Platform} `{ConfigSources}
    `{LogFiles} (clear pending : Env -> nat) turns fuel p w config :
  ShutdownComes clear pending -> loadConfig = Value config ->
  clear (env w) < turns -> clear (env w) < fuel ->
  (Selector.main turns fuel p w).2 = Some EXIT_SUCCESS.
Proof.
  intros Hs Hc Ht Hf. rewrite selector_main_shape, Hc.
  destruct (work_loop_returns clear pending _ _ turns
    (new_BackendRegistry (seconds_to_ns (selector_entryTimeToLive (selector config))))
    (clear (env w)) (clear (env w) + pending (env w)) (selector_work_loop fuel config))
    with (w := w) as (code & Hcode & ->); [|done..].
  intros st r' b' ??. apply selector_turn_returns; [done|lia].
Qed.

Lemma selector_shuts_down_witness :
  (@Selector.main example_enums example_formats sim_platform example_toml
    (example_sources [] None) example_log_files 5 5 new_Process
    (sim_world 4 [("qrmci.tasks.queue", MsgTask (example_task "" []))])).2 = Some EXIT_SUCCESS.
Proof.
  apply (@selector_shuts_down example_enums example_formats sim_platform example_toml
    (example_sources [] None) example_log_files sim_stop (fun e => length (sim_ready e)) _ _ _ _
    default_config); [apply sim_shutdown_comes|vm_compute; reflexivity|cbn; lia..].
Defined.

(** C25: the worker and the standalone daemon stop when told to, even while they
    wait without a timeout for a job that never finishes. Under the same
    condition, and with ready tasks only coming from tasks scheduled, every run
    returns: with [EXIT_SUCCESS] once it has come up. The turns, the messages and
    slices of a turn are bounded by the clear reads left, the ready tasks by
    those and the tasks waiting at the start. *)
Theorem device_daemons_shut_down `{ProtocolEnums} `{CompilerFormats} `{Platform} `{ConfigSources}
    `{LogFiles} (clear pending : Env -> nat) turns fuel jobFuel p w :
  ShutdownComes clear pending ->
  clear (env w) < turns -> clear (env w) + pending (env w) < fuel -> clear (env w) < jobFuel ->
  let stops (m : M Z) := exists code, (m w).2 = Some code /\
    (code = EXIT_SUCCESS \/ code = EXIT_FAILURE) in
  stops (Worker.main turns fuel jobFuel p) /\ stops (Standalone.main turns fuel jobFuel p).
Proof.
  intros Hs Ht Hf Hj stops. unfold stops. rewrite worker_main_shape, standalone_main_shape.
  destruct loadConfig as [config|e]; [|split; by eauto].
  split; apply (start_up_returns clear pending _ _ (clear (env w)) (clear (env w) + pending (env w)));
    try (by split); intros d s.
  - apply (work_loop_returns clear pending _ _ _ _ _ _ (worker_work_loop _ _ _ _)); [|done].
    intros st r' b' ??. apply worker_turn_returns; [done|lia..].
  - apply (work_loop_returns clear pending _ _ _ _ _ _ (standalone_work_loop _ _ _ _)); [|done].
    intros st r' b' ??. apply standalone_turn_returns; [done|lia..].
Qed.

(** The device of this run holds 200 jobs that never finish. *)
Lemma device_daemons_shut_down_witness :
  let w := @MkWorld sim_platform (MkSimEnv 0 4 [] [] 200) [] in
  exists code, (@Worker.main example_enums example_formats sim_platform example_toml
    (example_sources [] None) example_log_files 5 5 5 new_Process w).2 = Some code /\
    (code = EXIT_SUCCESS \/ code = EXIT_FAILURE).
Proof.
  intros w.
  refine (proj1 (@device_daemons_shut_down example_enums example_formats sim_platform example_toml
    (example_sources [] None) example_log_files sim_stop (fun e => length (sim_ready e)) 5 5 5
    new_Process w _ _ _ _)); [apply sim_shutdown_comes|cbn; lia..].
Defined.
