(* ===== verification/Broker.v ===== *)
(** * The broker, and the accounts of what passes through it

    The messenger the daemons share is a library; a deployment relies on what a
    message broker documents: each queue is first-in first-out, and a message
    that is taken is gone. The broker here may also refuse or lose a message and
    deliver one a second time, and its accounts then say so. Tasks are followed
    by their tickets, in multisets. *)

From stdpp Require Import gmultiset.
From S2P Require Import Prelude Error Externals World RunnersExecution.

(** ** Traffic *)

(** What a process does at the broker: put a message on a queue, with whether
    the broker took it, or get one from a queue. *)
Inductive NetEvent : Type :=
| Put (queue : string) (m : Message) (accepted : bool)
| Got (queue : string) (m : Message).

Definition net_event `{Platform} (ev : Event) : option NetEvent :=
  match ev with
  | EvSend q m StatusOk => Some (Put q m true)
  | EvSend q m (StatusFailed _) => Some (Put q m false)
  | EvReceive q _ (Received m _) => Some (Got q m)
  | _ => None
  end.

Definition traffic `{Platform} (evs : list Event) : list NetEvent := omap net_event evs.

(** ** The broker *)

#[export] Instance QuantumTask_eq_dec : EqDecision QuantumTask.
Proof. solve_decision. Defined.
#[export] Instance QuantumResult_eq_dec : EqDecision QuantumResult.
Proof. solve_decision. Defined.
#[export] Instance Backend_eq_dec : EqDecision Backend.
Proof. solve_decision. Defined.
#[export] Instance Message_eq_dec : EqDecision Message.
Proof. solve_decision. Defined.

(** The messages queued, oldest first, and the two accounts: the messages that
    were refused or lost, and those put back or delivered once more. *)
Record Broker : Type := MkBroker {
  queued : list (string * Message);
  lost : list (string * Message);
  redelivered : list (string * Message);
}.

Definition empty_broker : Broker := MkBroker [] [] [].

(** What can happen: a client submits a task or collects a result, daemon [i]
    acts, or the broker drops the head of a queue or repeats a message. *)
Inductive Label : Type :=
| Submits (queue : string) (t : QuantumTask)
| Collects (queue : string) (r : QuantumResult)
| Does (i : nat) (ev : NetEvent)
| Loses (queue : string)
| Redelivers (queue : string) (m : Message).

(** The first message of a queue. *)
Fixpoint take_first (queue : string) (l : list (string * Message))
    : option (Message * list (string * Message)) :=
  match l with
  | [] => None
  | (q, m) :: rest =>
      if String.eqb q queue then Some (m, rest)
      else '(m', rest') ← take_first queue rest; Some (m', (q, m) :: rest')
  end.

Definition enqueue (queue : string) (m : Message) (b : Broker) : Broker :=
  MkBroker (queued b ++ [(queue, m)]) (lost b) (redelivered b).

Definition deliver (queue : string) (m : Message) (b : Broker) : option Broker :=
  '(m', rest) ← take_first queue (queued b);
  if bool_decide (m' = m) then Some (MkBroker rest (lost b) (redelivered b)) else None.

Definition broker_step (b : Broker) (l : Label) : option Broker :=
  match l with
  | Submits q t => Some (enqueue q (MsgTask t) b)
  | Collects q r => deliver q (MsgResult r) b
  | Does _ (Put q m true) => Some (enqueue q m b)
  | Does _ (Put q m false) => Some (MkBroker (queued b) ((q, m) :: lost b) (redelivered b))
  | Does _ (Got q m) => deliver q m b
  | Loses q =>
      '(m, rest) ← take_first q (queued b);
      Some (MkBroker rest ((q, m) :: lost b) (redelivered b))
  | Redelivers q m => Some (MkBroker ((q, m) :: queued b) (lost b) ((q, m) :: redelivered b))
  end.

Fixpoint broker_run (b : Broker) (ls : list Label) : option Broker :=
  match ls with
  | [] => Some b
  | l :: ls => b' ← broker_step b l; broker_run b' ls
  end.

(** ** Tickets

    The identity of a task that every stage keeps: its id and where its result
    goes. *)

Definition Ticket : Type := Z * string.
Abbreviation Tickets := (gmultiset Ticket).

Definition ticket (t : QuantumTask) : Ticket := (task_id t, result_destination t).
(** The ticket a result answers, from the queue it was sent to. *)
Definition answered_ticket (sent : string * QuantumResult) : Ticket := (qr_task_id sent.2, sent.1).

Definition tickets (ts : list QuantumTask) : Tickets := list_to_set_disj (ticket <$> ts).
Definition answered_tickets (rs : list (string * QuantumResult)) : Tickets :=
  list_to_set_disj (answered_ticket <$> rs).

Lemma tickets_size ts : size (tickets ts) = length ts.
Proof.
  unfold tickets. induction ts as [|t ts IH]; [done|]. cbn [fmap list_fmap list_to_set_disj length].
  by rewrite gmultiset_size_disj_union, gmultiset_size_singleton, IH.
Qed.

Lemma tickets_one t : tickets [t] = {[+ ticket t +]}.
Proof. unfold tickets. cbn [fmap list_fmap list_to_set_disj]. multiset_solver. Qed.

(** The tickets of the tasks among some messages. *)
Definition message_ticket (m : Message) : Tickets :=
  match m with MsgTask t => {[+ ticket t +]} | _ => ∅ end.

(** The total of a measure over a log. *)
Definition total {A} (f : A -> Tickets) (l : list A) : Tickets :=
  foldr (fun a acc => f a ⊎ acc) ∅ l.

Definition in_flight (l : list (string * Message)) : Tickets :=
  total (fun qm => message_ticket qm.2) l.

(** The tickets a traffic log puts on, and takes off, the broker, and those it
    answers. A ticket is answered when a reply to it has been sent: sends are best
    effort, so this counts a reply that the broker refused as well. *)
Definition puts (ev : NetEvent) : Tickets :=
  match ev with Put _ m _ => message_ticket m | Got _ _ => ∅ end.
Definition gets (ev : NetEvent) : Tickets :=
  match ev with Got _ m => message_ticket m | Put _ _ _ => ∅ end.
Definition answers (ev : NetEvent) : Tickets :=
  match ev with Put q (MsgResult r) _ => {[+ answered_ticket (q, r) +]} | _ => ∅ end.

Definition submitted (ls : list Label) : Tickets :=
  total (fun l => match l with Submits _ t => {[+ ticket t +]} | _ => ∅ end) ls.
(** What the daemons did, all of it and one by one. *)
Definition all_traffic (ls : list Label) : list NetEvent :=
  omap (fun l => match l with Does _ ev => Some ev | _ => None end) ls.
Definition traffic_of (i : nat) (ls : list Label) : list NetEvent :=
  omap (fun l => match l with Does j ev => if bool_decide (j = i) then Some ev else None | _ => None end) ls.

(** ** Totals *)

Lemma total_nil {A} (f : A -> Tickets) : total f [] = ∅.
Proof. done. Qed.

Lemma total_cons {A} (f : A -> Tickets) a l : total f (a :: l) = f a ⊎ total f l.
Proof. done. Qed.

Lemma total_app {A} (f : A -> Tickets) l l' : total f (l ++ l') = total f l ⊎ total f l'.
Proof.
  induction l as [|a l IH]; [multiset_solver|].
  rewrite <- app_comm_cons, !total_cons, IH. multiset_solver.
Qed.

Lemma total_empty {A} (l : list A) : total (fun _ => ∅) l = ∅.
Proof. induction l as [|a l IH]; [done|]. rewrite total_cons, IH. multiset_solver. Qed.

Lemma total_union {A} (f g : A -> Tickets) l :
  total (fun a => f a ⊎ g a) l = total f l ⊎ total g l.
Proof.
  induction l as [|a l IH]; [rewrite !total_nil; multiset_solver|].
  rewrite !total_cons, IH. multiset_solver.
Qed.

Lemma total_ext {A} (f g : A -> Tickets) l :
  (forall a, a ∈ l -> f a = g a) -> total f l = total g l.
Proof.
  induction l as [|a l IH]; intros Heq; [done|]. rewrite !total_cons, (Heq a), IH; [done| |set_solver].
  intros. apply Heq. set_solver.
Qed.

Lemma total_singletons {A} (f : A -> Ticket) l :
  total (fun a => {[+ f a +]}) l = list_to_set_disj (f <$> l).
Proof. induction l as [|a l IH]; [done|]. by rewrite total_cons, IH. Qed.

Lemma total_omap {A B : Type} (f : B -> Tickets) (g : A -> option B) l :
  total f (omap g l) = total (fun a => match g a with Some b => f b | None => ∅ end) l.
Proof.
  induction l as [|a l IH]; [done|]. cbn [omap list_omap]. rewrite total_cons, <- IH.
  destruct (g a); [done|]. by rewrite left_id_L by apply _.
Qed.

(** An event counted for one index of a range. *)
Lemma total_absent (X : Tickets) (j : nat) l :
  j ∉ l -> total (fun i => if bool_decide (j = i) then X else ∅) l = ∅.
Proof.
  intros Hj. rewrite (total_ext _ (fun _ => ∅)); [apply total_empty|].
  intros i Hi. rewrite bool_decide_false; [done|]. by intros ->.
Qed.

Lemma total_single (X : Tickets) (j n : nat) :
  j < n -> total (fun i => if bool_decide (j = i) then X else ∅) (seq 0 n) = X.
Proof.
  intros Hj. assert (seq 0 n = seq 0 j ++ j :: seq (S j) (n - S j)) as ->.
  { change (j :: seq (S j) (n - S j)) with (seq j (S (n - S j))).
    rewrite <- (seq_app j _ 0). f_equal. lia. }
  rewrite total_app, total_cons, !total_absent, bool_decide_true by (rewrite ?elem_of_seq; lia || done).
  multiset_solver.
Qed.

(** The daemons' traffic is the sum of each daemon's. *)
Lemma total_by_daemon (f : NetEvent -> Tickets) n ls :
  (forall i ev, Does i ev ∈ ls -> i < n) ->
  total f (all_traffic ls) = total (fun i => total f (traffic_of i ls)) (seq 0 n).
Proof.
  induction ls as [|l ls IH]; intros Hn; [by rewrite total_empty|].
  assert (forall i ev, Does i ev ∈ ls -> i < n) as Hls by (intros i ev Hi; apply (Hn i ev); by right).
  specialize (IH Hls). destruct l as [| |j ev| |]; try exact IH.
  change (all_traffic _) with (ev :: all_traffic ls). rewrite total_cons, IH.
  rewrite <- (total_single (f ev) j n) at 1 by (apply (Hn j ev); by left).
  rewrite <- total_union. apply total_ext. intros i _.
  change (traffic_of i (Does j ev :: ls)) with
    (omap (fun l => match l with Does j ev => if bool_decide (j = i) then Some ev else None | _ => None end)
      ([Does j ev] ++ ls)).
  rewrite omap_app. fold (traffic_of i ls). rewrite total_app. f_equal. cbn [omap list_omap].
  case_bool_decide; [|done]. rewrite total_cons, total_nil. multiset_solver.
Qed.

(** ** The broker's accounts *)

Lemma in_flight_cons qm l : in_flight (qm :: l) = message_ticket qm.2 ⊎ in_flight l.
Proof. done. Qed.

Lemma in_flight_snoc l qm : in_flight (l ++ [qm]) = in_flight l ⊎ message_ticket qm.2.
Proof. unfold in_flight. rewrite total_app, total_cons, total_nil. multiset_solver. Qed.

Lemma take_first_flow q l m rest :
  take_first q l = Some (m, rest) -> in_flight l = message_ticket m ⊎ in_flight rest.
Proof.
  revert rest. induction l as [|[q' m'] l IH]; intros rest; cbn [take_first]; [done|].
  destruct (String.eqb q' q); [by intros [= -> ->]|].
  intros E. apply bind_Some in E as ([m1 rest1] & E & [= <- <-]).
  rewrite !in_flight_cons, (IH _ E). multiset_solver.
Qed.

Definition label_in (l : Label) : Tickets :=
  match l with Submits _ t => {[+ ticket t +]} | Does _ ev => puts ev | _ => ∅ end.
Definition label_out (l : Label) : Tickets :=
  match l with Does _ ev => gets ev | _ => ∅ end.

Lemma deliver_flow q m b b' :
  deliver q m b = Some b' ->
  in_flight (queued b) = message_ticket m ⊎ in_flight (queued b') /\
  lost b' = lost b /\ redelivered b' = redelivered b.
Proof.
  unfold deliver. intros ([m' rest] & E%take_first_flow & Hb)%bind_Some.
  case_bool_decide; [|done]. by simplify_eq.
Qed.

Lemma broker_step_flow b l b' :
  broker_step b l = Some b' ->
  in_flight (queued b) ⊎ in_flight (lost b) ⊎ label_in l ⊎ in_flight (redelivered b') =
  in_flight (queued b') ⊎ in_flight (lost b') ⊎ label_out l ⊎ in_flight (redelivered b).
Proof.
  destruct l as [q t|q r|i [q m []|q m]|q|q m]; cbn [broker_step label_in label_out puts gets].
  2,5: intros (-> & -> & ->)%deliver_flow; cbn [message_ticket]; multiset_solver.
  4: intros ([m rest] & ->%take_first_flow & [= <-])%bind_Some.
  1-3,5: intros [= <-].
  all: unfold enqueue; cbn [queued lost redelivered];
    rewrite ?in_flight_snoc, ?in_flight_cons; cbn [snd message_ticket]; multiset_solver.
Qed.

Lemma label_in_total l ls :
  submitted (l :: ls) ⊎ total puts (all_traffic (l :: ls)) =
  label_in l ⊎ submitted ls ⊎ total puts (all_traffic ls).
Proof.
  unfold submitted. rewrite total_cons.
  destruct l; cbn [label_in]; try (change (all_traffic (_ :: ls)) with (all_traffic ls); multiset_solver).
  change (all_traffic (_ :: ls)) with (ev :: all_traffic ls). rewrite total_cons. multiset_solver.
Qed.

Lemma label_out_total l ls :
  total gets (all_traffic (l :: ls)) = label_out l ⊎ total gets (all_traffic ls).
Proof.
  destruct l; cbn [label_out]; try (change (all_traffic (_ :: ls)) with (all_traffic ls); multiset_solver).
  apply total_cons.
Qed.

Lemma broker_run_flow b ls b' :
  broker_run b ls = Some b' ->
  in_flight (queued b) ⊎ in_flight (lost b) ⊎ submitted ls ⊎ total puts (all_traffic ls) ⊎
    in_flight (redelivered b') =
  in_flight (queued b') ⊎ in_flight (lost b') ⊎ total gets (all_traffic ls) ⊎
    in_flight (redelivered b).
Proof.
  revert b. induction ls as [|l ls IH]; intros b; cbn [broker_run].
  { intros [= <-]. unfold submitted. rewrite !total_nil. multiset_solver. }
  intros (b1 & E%broker_step_flow & Hr%IH)%bind_Some.
  pose proof (label_in_total l ls). pose proof (label_out_total l ls). multiset_solver.
Qed.
