(* ===== verification/Deployment.v ===== *)
(** * The distributed deployment: daemons around one broker

    apps/distributed runs a selector and any number of workers (and
    apps/standalone a daemon that does both) as separate processes that only
    meet at the message broker. Here they run together: a schedule is any
    interleaving of what the clients, the daemons and the broker do, and each
    daemon's part in it is the traffic of a run of its [main]. *)

From stdpp Require Import gmultiset.
From S2P Require Import Prelude Error Externals World BackendRegistry CommunicationHandler.
From S2P Require Import RunnersExecution Config ConfigProperties Logger Daemon.
From S2P Require Import Traces Selector Standalone Worker WorkLoop Broker.

(** ** The daemons' accounts *)

Section Daemons.
Context `{ProtocolEnums} `{CompilerFormats} `{Platform} `{TomlNodes}.

(** A run of one of the three programs, each under its own configuration, from
    any state of its environment: [evs] are the calls it made, [o] the exit code
    it has returned, if it has. *)
Inductive daemon_run (evs : list Event) (o : option Z) : Prop :=
| selector_process (cfg : ConfigSources) (logs : LogFiles) turns fuel p w w' :
    Selector.main turns fuel p w = (w', o) -> trace w' = trace w ++ evs -> daemon_run evs o
| worker_process (cfg : ConfigSources) (logs : LogFiles) turns fuel jobFuel p w w' :
    Worker.main turns (S fuel) jobFuel p w = (w', o) -> trace w' = trace w ++ evs ->
    daemon_run evs o
| standalone_process (cfg : ConfigSources) (logs : LogFiles) turns fuel jobFuel p w w' :
    Standalone.main turns fuel jobFuel p w = (w', o) -> trace w' = trace w ++ evs ->
    daemon_run evs o.

(** A process started in a world without a past. *)
Lemma selector_process_fresh (cfg : ConfigSources) (logs : LogFiles) turns fuel p e :
  let run := Selector.main turns fuel p (MkWorld e []) in daemon_run (trace run.1) run.2.
Proof.
  intros run. apply (selector_process _ _ cfg logs turns fuel p (MkWorld e []) run.1); [|done].
  apply surjective_pairing.
Qed.

Lemma worker_process_fresh (cfg : ConfigSources) (logs : LogFiles) turns fuel jobFuel p e :
  let run := Worker.main turns (S fuel) jobFuel p (MkWorld e []) in daemon_run (trace run.1) run.2.
Proof.
  intros run. apply (worker_process _ _ cfg logs turns fuel jobFuel p (MkWorld e []) run.1); [|done].
  apply surjective_pairing.
Qed.

(** A daemon between two turns: it has come up and taken [k] turns. *)
Inductive idle_daemon (evs : list Event) : Prop :=
| idle_selector (cfg : ConfigSources) (logs : LogFiles) config fuel k w s w' :
    loadConfig = Value config ->
    taken (Selector.turn fuel config) k
      (new_BackendRegistry (seconds_to_ns (selector_entryTimeToLive (selector config)))) w s w' ->
    trace w' = trace w ++ evs -> idle_daemon evs
| idle_worker (cfg : ConfigSources) (logs : LogFiles) config fuel jobFuel k w d s0 w0 s w' :
    loadConfig = Value config ->
    came_up (submitter config) (compiler_queue (compiler config)) w d s0 w0 ->
    taken (worker_turn (S fuel) jobFuel config d) k s0 w0 s w' ->
    trace w' = trace w ++ evs -> idle_daemon evs
| idle_standalone (cfg : ConfigSources) (logs : LogFiles) config fuel jobFuel k w d s0 w0 s w' :
    loadConfig = Value config -> came_up (submitter config) "" w d s0 w0 ->
    taken (standalone_turn fuel jobFuel config d) k s0 w0 s w' ->
    trace w' = trace w ++ evs -> idle_daemon evs.

(** It is a run of its program that has not exited. *)
Lemma idle_daemon_run evs : idle_daemon evs -> daemon_run evs None.
Proof.
  destruct 1 as [cfg logs config fuel k w s w' Hc Hk Ht
    |cfg logs config fuel jobFuel k w d s0 w0 s w' Hc Hu Hk Ht
    |cfg logs config fuel jobFuel k w d s0 w0 s w' Hc Hu Hk Ht].
  - apply (selector_process _ _ cfg logs k fuel new_Process w w'); [|done].
    rewrite selector_main_shape, Hc. exact (taken_loop _ _ _ _ _ _ _ (selector_work_loop _ _) Hk).
  - apply (worker_process _ _ cfg logs k fuel jobFuel new_Process w w'); [|done].
    rewrite worker_main_shape, Hc, (came_up_loop _ _ _ _ _ _ _ Hu).
    exact (taken_loop _ _ _ _ _ _ _ (worker_work_loop _ _ _ _) Hk).
  - apply (standalone_process _ _ cfg logs k fuel jobFuel new_Process w w'); [|done].
    rewrite standalone_main_shape, Hc, (came_up_loop _ _ _ _ _ _ _ Hu).
    exact (taken_loop _ _ _ _ _ _ _ (standalone_work_loop _ _ _ _) Hk).
Qed.

(** The scheduler hands out what it was handed, each task once. *)
Definition honest_scheduler (evs : list Event) : Prop :=
  tickets (ready_tasks evs) ⊆ tickets (tasks_scheduled evs).

(** The tickets in the scheduler of a process. *)
Definition waiting (evs : list Event) : Tickets :=
  tickets (tasks_scheduled evs) ∖ tickets (ready_tasks evs).

(** What a process holds: what waits in its scheduler, and ready tasks it has
    not answered. Each of these it has in hand, if it has not exited, or it left
    because after taking it, before it next tried to receive and while still at
    work, it read the termination flag as set. *)
Definition holds (run : list Event * option Z) (X : Tickets) : Prop :=
  exists left, X = waiting run.1 ⊎ tickets left /\ tickets left ⊆ tickets (ready_tasks run.1) /\
    Forall (fun t => stopped_working run.1 t \/ run.2 = None /\ in_hand run.1 t) left.

(** ** From traces to traffic *)

Definition reply_ticket (sent : string * Message) : Tickets :=
  match sent.2 with MsgResult r => {[+ answered_ticket (sent.1, r) +]} | _ => ∅ end.

(** Both sides as totals over the events, compared event by event. *)
Ltac by_event :=
  unfold traffic, in_flight, outgoing, tasks_received, tasks_sent, results_sent, tickets,
    answered_tickets;
  rewrite <- ?list_fmap_compose, <- ?total_singletons, ?total_omap;
  apply total_ext; unfold net_event; intros ev _; by repeat case_match; simplify_eq.

Lemma traffic_gets evs : total gets (traffic evs) = tickets (tasks_received evs).
Proof. by_event. Qed.

Lemma traffic_puts evs : total puts (traffic evs) = in_flight (outgoing evs).
Proof. by_event. Qed.

Lemma traffic_answers evs : total answers (traffic evs) = total reply_ticket (outgoing evs).
Proof. by_event. Qed.

Lemma outgoing_tasks evs : in_flight (outgoing evs) = tickets (tasks_sent evs).*2.
Proof. by_event. Qed.

Lemma outgoing_replies evs :
  total reply_ticket (outgoing evs) = answered_tickets (results_sent evs).
Proof. by_event. Qed.

(** ** One daemon *)

#[local] Instance tickets_perm : Proper ((≡ₚ) ==> (=)) tickets.
Proof. intros ts ts' Hp. unfold tickets. by rewrite Hp. Qed.
#[local] Instance answered_tickets_perm : Proper ((≡ₚ) ==> (=)) answered_tickets.
Proof. intros rs rs' Hp. unfold answered_tickets. by rewrite Hp. Qed.

Lemma tickets_app ts ts' : tickets (ts ++ ts') = tickets ts ⊎ tickets ts'.
Proof. unfold tickets. by rewrite fmap_app, list_to_set_disj_app. Qed.

Lemma answered_tickets_app rs rs' :
  answered_tickets (rs ++ rs') = answered_tickets rs ⊎ answered_tickets rs'.
Proof. unfold answered_tickets. by rewrite fmap_app, list_to_set_disj_app. Qed.

Lemma replies_tickets ts rs : Forall2 reply ts rs -> tickets ts = answered_tickets rs.
Proof.
  induction 1 as [|t [q r] ts rs (Hq & Hid & _) _ IH]; [done|].
  unfold tickets, answered_tickets in *. cbn [fmap list_fmap list_to_set_disj]. rewrite IH.
  unfold ticket, answered_ticket. cbn [fst snd] in *. by rewrite Hq, Hid.
Qed.

Lemma settled_tickets ts os :
  Forall2 settled ts os -> tickets ts = tickets (scheduled_of os) ⊎ answered_tickets (answered_of os).
Proof.
  induction 1 as [|t o ts os Ho _ IH]; [done|].
  change (t :: ts) with ([t] ++ ts). rewrite tickets_app, IH. destruct o as [t'|[q r]].
  - change (scheduled_of (inl t' :: os)) with ([t'] ++ scheduled_of os).
    change (answered_of (inl t' :: os)) with (answered_of os). rewrite tickets_app.
    destruct Ho as [Hid Hd]. unfold tickets at 1 3. cbn [fmap list_fmap].
    unfold ticket. rewrite Hid, Hd. multiset_solver.
  - change (answered_of (inr (q, r) :: os)) with ([(q, r)] ++ answered_of os).
    change (scheduled_of (inr (q, r) :: os)) with (scheduled_of os). rewrite answered_tickets_app.
    rewrite <- (replies_tickets [t] [(q, r)]) by (constructor; [exact (proj1 Ho)|constructor]).
    multiset_solver.
Qed.

Lemma answer_tickets ts out :
  Forall2 answer ts out -> tickets ts = in_flight out ⊎ total reply_ticket out.
Proof.
  induction 1 as [|t [q m] ts out Ho _ IH]; [done|].
  change (t :: ts) with ([t] ++ ts).
  rewrite tickets_app, IH, in_flight_cons, total_cons.
  assert (tickets [t] = message_ticket m ⊎ reply_ticket (q, m)) as ->; [|multiset_solver].
  unfold tickets, reply_ticket, answered_ticket, ticket. cbn [fmap list_fmap fst snd].
  unfold answer in Ho. cbn [fst snd] in Ho.
  destruct Ho as [(n & _ & _ & ->)|[-> [reason ->]]]; cbn [list_to_set_disj message_ticket];
    multiset_solver.
Qed.

(** The account of a process: what it took off the broker it has forwarded,
    answered, or holds. *)
Definition balanced (run : list Event * option Z) : Prop :=
  exists held, holds run held /\
    total gets (traffic run.1) =
      total puts (traffic run.1) ⊎ total answers (traffic run.1) ⊎ held.

Lemma unscheduled_quiet evs :
  Forall unscheduled evs -> tasks_scheduled evs = [] /\ ready_tasks evs = [].
Proof.
  unfold tasks_scheduled, ready_tasks. induction 1 as [|ev evs Hev _ [IH1 IH2]]; [done|].
  change (ev :: evs) with ([ev] ++ evs). rewrite !omap_app, IH1, IH2. by destruct ev.
Qed.

Lemma answers_all_balanced evs o :
  answers_all evs -> Forall unscheduled evs -> balanced (evs, o).
Proof.
  intros Ha [Hs Hr]%unscheduled_quiet.
  exists ∅. split.
  - exists []. unfold waiting. cbn [fst]. rewrite Hs, Hr. split_and!; [multiset_solver..|constructor].
  - cbn [fst]. rewrite traffic_gets, traffic_puts, traffic_answers, (answer_tickets _ _ Ha).
    multiset_solver.
Qed.

(** What the books of a stretch of calls say of the tickets. *)
Lemma accounts_tickets evs left :
  accounts evs left -> honest_scheduler evs ->
  tickets left ⊆ tickets (ready_tasks evs) /\
  total gets (traffic evs) =
    total puts (traffic evs) ⊎ total answers (traffic evs) ⊎ (waiting evs ⊎ tickets left).
Proof.
  intros (os & answered & replies & Hos & Hsched & Hready & Hrep & Hres & Hsent) Hh. split.
  { rewrite Hready, tickets_app. multiset_solver. }
  rewrite traffic_gets, traffic_puts, traffic_answers, outgoing_tasks, outgoing_replies.
  rewrite Hsent, Hres, answered_tickets_app, (settled_tickets _ _ Hos), <- Hsched,
    <- (replies_tickets _ _ Hrep).
  unfold waiting, honest_scheduler in *. rewrite Hready, tickets_app in *.
  change (tickets (fmap snd [])) with (∅ : Tickets). multiset_solver.
Qed.

Lemma run_answered_balanced evs o :
  run_answered evs (is_Some o) -> honest_scheduler evs -> balanced (evs, o).
Proof.
  intros (left & Ha & Hl) Hh. destruct (accounts_tickets _ _ Ha Hh) as [Hs E].
  exists (waiting evs ⊎ tickets left). split; [|done]. exists left. split_and!; [done..|].
  eapply Forall_impl; [exact Hl|]. intros t [?|[Ho ?]]; [by left|right].
  split; [by apply eq_None_not_Some|done].
Qed.

Lemma daemon_run_balanced evs o : daemon_run evs o -> honest_scheduler evs -> balanced (evs, o).
Proof.
  intros Hrun Hh.
  destruct Hrun as [cfg logs turns fuel p w w' E Ht|cfg logs turns fuel jobFuel p w w' E Ht
    |cfg logs turns fuel jobFuel p w w' E Ht].
  - apply answers_all_balanced.
    + exact (wp_run _ _ _ _ _ _ (selector_main_answers turns fuel p) E Ht).
    + exact (wp_run _ _ _ _ _ _ (selector_main_unscheduled turns fuel p) E Ht).
  - apply run_answered_balanced; [|done].
    exact (wp_run _ _ _ _ _ _ (worker_main_run turns fuel jobFuel p) E Ht).
  - apply run_answered_balanced; [|done].
    exact (wp_run _ _ _ _ _ _ (standalone_main_run turns fuel jobFuel p) E Ht).
Qed.

(** ** Daemons between turns *)

Lemma came_up_silent config queue w d s w' :
  came_up config queue w d s w' ->
  exists evs, trace w' = trace w ++ evs /\ turns_account evs.
Proof.
  destruct 1 as [w w1 w2 d reg Ho Hr].
  destruct (openConfiguredDevice_silent config w) as (evs & Ht & Hi).
  match type of Hr with registerOwnDevice _ _ ?r0 _ = _ =>
    destruct (registerOwnDevice_silent d queue r0 w1) as (evs' & Ht' & Hi') end.
  rewrite Ho in Ht. rewrite Hr in Ht'. cbn in Ht, Ht'. exists (evs ++ evs').
  rewrite Ht', Ht, app_assoc. split; [done|]. apply turns_account_internal. by apply Forall_app.
Qed.

(** Turns that answer, one after the other. *)
Lemma taken_turns_account {S} (turn : S -> M S) k s w s' w' :
  (forall s, wp (turn s) (fun evs o => turn_accounts evs (is_Some o))) -> taken turn k s w s' w' ->
  exists evs, trace w' = trace w ++ evs /\ turns_account evs.
Proof.
  intros Hturn Hk.
  refine (taken_trace turn (fun _ => True) turns_account k s w s' w' _ _ _ _ I Hk).
  - by apply turns_account_internal.
  - apply turns_account_internal. by repeat constructor.
  - intros evs1 evs2 H1' H2'. by apply turns_account_app.
  - intros st _. eapply wp_mono; [apply Hturn|]. intros evs1 o Ho st1 ->. split; [|done].
    by eapply turn_accounts_turns.
Qed.

(** The turns of a process that owns a device, after its start-up. *)
Lemma came_up_taken config queue turn k w d s0 w0 s w' evs :
  came_up config queue w d s0 w0 -> taken turn k s0 w0 s w' ->
  (forall s, wp (turn s) (fun evs o => turn_accounts evs (is_Some o))) ->
  trace w' = trace w ++ evs -> turns_account evs.
Proof.
  intros (evs0 & Ht0 & Ha0)%came_up_silent Hk Hturn Ht.
  destruct (taken_turns_account _ _ _ _ _ _ Hturn Hk) as (evs1 & Ht1 & Ha1).
  assert (evs = evs0 ++ evs1) as ->; [|by apply turns_account_app].
  apply (app_inv_head (trace w)). by rewrite <- Ht, Ht1, Ht0, app_assoc.
Qed.

(** What such a daemon still owes, when it has not been told to stop: what waits
    in its scheduler, and nothing else. *)
Definition owes_waiting (evs : list Event) : Prop :=
  total gets (traffic evs) =
    total puts (traffic evs) ⊎ total answers (traffic evs) ⊎ waiting evs.

Lemma turns_account_owes evs :
  turns_account evs -> honest_scheduler evs -> EvLoadFlag true ∉ evs -> owes_waiting evs.
Proof.
  intros (left & Ha & Hl) Hh Hflag. destruct (accounts_tickets _ _ Ha Hh) as [_ E].
  destruct left as [|t left]; [|by apply Forall_cons in Hl as [Ht%stopped_flag _]].
  unfold owes_waiting. rewrite E. change (tickets []) with (∅ : Tickets). multiset_solver.
Qed.

Lemma selector_taken_owes fuel config k ttl w s w' evs :
  taken (Selector.turn fuel config) k (new_BackendRegistry ttl) w s w' ->
  trace w' = trace w ++ evs -> owes_waiting evs.
Proof.
  intros Hk Ht.
  assert (exists evs1, trace w' = trace w ++ evs1 /\ answers_all evs1 /\ Forall unscheduled evs1)
    as (evs1 & Ht1 & Ha & Hu).
  { refine (taken_trace (Selector.turn fuel config) selector_inv
      (fun evs => answers_all evs /\ Forall unscheduled evs) k _ w s w' _ _ _ _ _ Hk).
    - split; constructor.
    - split; [apply answers_all_internal|]; by repeat constructor.
    - intros evs1 evs2 [??] [??]. split; [by apply answers_all_app|by apply Forall_app].
    - intros st Hinv. eapply wp_mono;
        [apply wp_and; [by apply turn_keeps|apply selector_turn_unscheduled]|].
      intros evs1 o [[Ha Hi] Hun] st1 ->. auto.
    - apply selector_inv_new. }
  rewrite Ht1 in Ht. apply app_inv_head in Ht as ->.
  destruct (answers_all_balanced evs None Ha Hu) as (held & (left & -> & Hl & _) & E).
  cbn [fst] in *. apply unscheduled_quiet in Hu as [_ Hr]. rewrite Hr in Hl.
  unfold owes_waiting. rewrite E. clear E. change (tickets (@nil QuantumTask)) with (∅ : Tickets) in Hl.
  multiset_solver.
Qed.

Lemma idle_daemon_owes evs :
  idle_daemon evs -> honest_scheduler evs -> EvLoadFlag true ∉ evs -> owes_waiting evs.
Proof.
  intros Hidle Hh Hflag.
  destruct Hidle as [cfg logs config fuel k w s w' Hc Hk Ht
    |cfg logs config fuel jobFuel k w d s0 w0 s w' Hc Hu Hk Ht
    |cfg logs config fuel jobFuel k w d s0 w0 s w' Hc Hu Hk Ht].
  - by eapply selector_taken_owes.
  - apply turns_account_owes; [|done..]. eapply came_up_taken; [exact Hu|exact Hk| |exact Ht].
    intros st. apply worker_turn_run; [done|].
    pose proof (valid_taskReceiveTimeout _ (loadConfig_valid _ Hc)). unfold WaitForever. lia.
  - apply turns_account_owes; [|done..]. eapply came_up_taken; [exact Hu|exact Hk| |exact Ht].
    intros st. apply turn_run.
Qed.

(** Idle daemons, computed from a world without a past. *)
Definition turns_events {S} (o : option (S * World)) : list Event :=
  match o with Some (_, w) => trace w | None => [] end.

Definition returned {S} (o : option (S * World)) : bool :=
  match o with Some _ => true | None => false end.

Lemma idle_selector_computed (cfg : ConfigSources) (logs : LogFiles) config fuel k e :
  let o := take_turns (Selector.turn fuel config) k
    (new_BackendRegistry (seconds_to_ns (selector_entryTimeToLive (selector config)))) (MkWorld e []) in
  loadConfig = Value config -> returned o = true -> idle_daemon (turns_events o).
Proof.
  intros o Hc Ho. destruct o as [[s w']|] eqn:E; [|done]. apply take_turns_taken in E.
  by eapply (idle_selector _ cfg logs).
Qed.

Lemma idle_worker_computed (cfg : ConfigSources) (logs : LogFiles) config fuel jobFuel k e :
  let o := device_turns (submitter config) (compiler_queue (compiler config))
    (worker_turn (S fuel) jobFuel config) k (MkWorld e []) in
  loadConfig = Value config -> returned o = true -> idle_daemon (turns_events o).
Proof.
  intros o Hc Ho. destruct o as [[s w']|] eqn:E; [|done].
  apply device_turns_taken in E as (d & s0 & w0 & Hu & Hk).
  by eapply (idle_worker _ cfg logs).
Qed.
End Daemons.

(** ** The deployment *)

(** A schedule [ls] of a deployment of the daemons [runs], each as [good] asks,
    that leaves the broker in state [b]: the broker allows it from empty queues
    on, the part of daemon [i] in it is the traffic of its run, and its scheduler
    hands out only tickets it was handed, each once per time it was handed it. *)
Record deployment_of `{Platform} (good : list Event -> option Z -> Prop)
    (ls : list Label) (runs : list (list Event * option Z)) (b : Broker) : Prop := MkDeployment {
  dep_broker : broker_run empty_broker ls = Some b;
  dep_daemons : Forall (fun run => good run.1 run.2) runs;
  dep_schedulers : Forall (fun run => honest_scheduler run.1) runs;
  dep_range : forall i ev, Does i ev ∈ ls -> i < length runs;
  dep_traffic : forall i run, runs !! i = Some run -> traffic_of i ls = traffic run.1;
}.

(** A deployment of runs of the three programs, cut off anywhere. *)
Definition deployment `{ProtocolEnums} `{CompilerFormats} `{Platform} `{TomlNodes} :=
  deployment_of daemon_run.

(** A deployment in which every daemon is between two turns and has not been
    told to stop. *)
Definition quiet_deployment `{ProtocolEnums} `{CompilerFormats} `{Platform} `{TomlNodes} :=
  deployment_of (fun evs _ => idle_daemon evs /\ EvLoadFlag true ∉ evs).

Section DeploymentLemmas.
Context `{ProtocolEnums} `{CompilerFormats} `{Platform} `{TomlNodes}.

Lemma total_runs (f : NetEvent -> Tickets) good ls runs b :
  deployment_of good ls runs b ->
  total f (all_traffic ls) = total (fun run => total f (traffic run.1)) runs.
Proof.
  intros []. rewrite (total_by_daemon f (length runs)) by done.
  clear dep_daemons0 dep_schedulers0 dep_range0 dep_broker0.
  induction runs as [|run runs IH] using rev_ind; [done|].
  rewrite length_app, Nat.add_1_r, seq_S, !total_app, IH.
  - rewrite !total_cons, !total_nil. cbn [Nat.add].
    by rewrite (dep_traffic0 (length runs) run) by (by rewrite lookup_app_r, Nat.sub_diag by lia).
  - intros i r Hi. apply dep_traffic0. by apply lookup_app_l_Some.
Qed.

Lemma balanced_runs runs :
  Forall balanced runs ->
  exists held, Forall2 holds runs held /\
    total (fun run => total gets (traffic run.1)) runs =
    total (fun run => total puts (traffic run.1)) runs ⊎
      total (fun run => total answers (traffic run.1)) runs ⊎ total id held.
Proof.
  induction 1 as [|run runs (X & HX & E) _ (held & Hh & IH)].
  { exists []. split; [constructor|]. rewrite !total_nil. multiset_solver. }
  exists (X :: held). split; [by constructor|]. rewrite !total_cons, IH, E. unfold id. multiset_solver.
Qed.

Lemma deployment_account ls runs b :
  deployment ls runs b ->
  exists held, Forall2 holds runs held /\
    submitted ls ⊎ in_flight (redelivered b) =
    total answers (all_traffic ls) ⊎ in_flight (queued b) ⊎ in_flight (lost b) ⊎ total id held.
Proof.
  intros Hd. assert (Forall balanced runs) as Hb.
  { destruct Hd as [_ Hr Hs _ _]. rewrite Forall_forall in *. intros [evs o] Hin.
    apply daemon_run_balanced; [by apply (Hr (evs, o))|by apply (Hs (evs, o))]. }
  apply balanced_runs in Hb as (held & Hh & E). exists held. split; [done|].
  pose proof (broker_run_flow _ _ _ (dep_broker _ _ _ _ Hd)) as Hf. cbn [empty_broker queued lost redelivered] in Hf.
  rewrite <- !(total_runs _ _ _ _ _ Hd) in E. change (in_flight []) with (∅ : Tickets) in Hf.
  multiset_solver.
Qed.

Lemma quiet_account ls runs b :
  quiet_deployment ls runs b ->
  submitted ls ⊎ in_flight (redelivered b) =
  total answers (all_traffic ls) ⊎ in_flight (queued b) ⊎ in_flight (lost b) ⊎
    total (fun run => waiting run.1) runs.
Proof.
  intros Hd. pose proof (broker_run_flow _ _ _ (dep_broker _ _ _ _ Hd)) as Hf.
  cbn [empty_broker queued lost redelivered] in Hf. change (in_flight []) with (∅ : Tickets) in Hf.
  assert (total gets (all_traffic ls) = total puts (all_traffic ls) ⊎
    total answers (all_traffic ls) ⊎ total (fun run => waiting run.1) runs); [|multiset_solver].
  rewrite !(total_runs _ _ _ _ _ Hd), <- !total_union. apply total_ext. intros [evs o] Hin.
  destruct Hd as [_ Hr Hs _ _]. rewrite Forall_forall in Hr, Hs.
  destruct (Hr _ Hin). apply idle_daemon_owes; [done| |done]. by apply (Hs (evs, o)).
Qed.

(** A deployment of two daemons. *)
Lemma deployment_of_two good ls evs0 o0 evs1 o1 b :
  broker_run empty_broker ls = Some b -> good evs0 o0 -> good evs1 o1 ->
  ready_tasks evs0 = tasks_scheduled evs0 -> ready_tasks evs1 = tasks_scheduled evs1 ->
  Forall (fun l => match l with Does i _ => i < 2 | _ => True end) ls ->
  traffic_of 0 ls = traffic evs0 -> traffic_of 1 ls = traffic evs1 ->
  deployment_of good ls [(evs0, o0); (evs1, o1)] b.
Proof.
  intros Hb Hd0 Hd1 Hs0 Hs1 Hr Ht0 Ht1. split; [done|..].
  - by repeat constructor.
  - unfold honest_scheduler. rewrite !Forall_cons. cbn [fst]. rewrite Hs0, Hs1. by split_and!; [..|constructor].
  - rewrite Forall_forall in Hr. intros i ev Hin. exact (Hr _ Hin).
  - intros [|[|i]] run Hrun; by simplify_eq/=.
Qed.
End DeploymentLemmas.

(** ** An example *)

(** A deployment of one selector and one worker on the simulated platform: the
    worker publishes its status, the selector assigns the client's task to it,
    the worker executes it and the client collects the result. *)
Definition example_client_task : QuantumTask :=
  MkQuantumTask 7 2 100 ["a"] "quake" "out" "" "" [] false 0 0.

Definition example_worker_world : @World sim_platform :=
  sim_world 9 [("compiler.tasks.queue",
                MsgTask (set_scheduled_qpu "cxxdevice5q" example_client_task))].

Definition example_worker_run : @World sim_platform * option Z :=
  @Worker.main example_enums example_formats sim_platform example_toml
    (example_sources [] None) example_log_files 9 5 5 new_Process
    example_worker_world.

Definition example_selector_world (status : Message) : @World sim_platform :=
  sim_world 9 [("backend.status.queue", status); ("qrmci.tasks.queue", MsgTask example_client_task)].

Definition example_selector_run (status : Message) : @World sim_platform * option Z :=
  @Selector.main example_enums example_formats sim_platform example_toml
    (example_sources [] None) example_log_files 5 5 new_Process
    (example_selector_world status).

Definition example_worker_events : list (@Event sim_platform) := trace example_worker_run.1.
Definition example_status : Message :=
  match outgoing example_worker_events with (_, m) :: _ => m | [] => MsgTask example_client_task end.
Definition example_result : QuantumResult :=
  match results_sent example_worker_events with
  | (_, r) :: _ => r
  | [] => cancelQuantumTask example_client_task ""
  end.
Definition example_selector_events : list (@Event sim_platform) :=
  trace (example_selector_run example_status).1.

Definition example_runs : list (list (@Event sim_platform) * option Z) :=
  [(example_selector_events, (example_selector_run example_status).2);
   (example_worker_events, example_worker_run.2)].

(** Daemon 0 is the selector, daemon 1 the worker. *)
Definition example_schedule_of (selecting working : list (@Event sim_platform)) : list Label :=
  [Submits "qrmci.tasks.queue" example_client_task] ++
  (Does 1 <$> take 1 (traffic working)) ++
  (Does 0 <$> traffic selecting) ++
  (Does 1 <$> drop 1 (traffic working)) ++
  [Collects "out" example_result].

Definition example_schedule : list Label :=
  example_schedule_of example_selector_events example_worker_events.

Lemma example_broker : broker_run empty_broker example_schedule = Some empty_broker.
Proof. vm_compute. reflexivity. Qed.

Lemma example_selector_daemon :
  @daemon_run example_enums example_formats sim_platform example_toml
    example_selector_events (example_selector_run example_status).2.
Proof.
  exact (@selector_process_fresh example_enums example_formats sim_platform example_toml
    (example_sources [] None) example_log_files 5 5 new_Process
    (env (example_selector_world example_status))).
Qed.

Lemma example_worker_daemon :
  @daemon_run example_enums example_formats sim_platform example_toml
    example_worker_events example_worker_run.2.
Proof.
  exact (@worker_process_fresh example_enums example_formats sim_platform example_toml
    (example_sources [] None) example_log_files 9 4 5 new_Process (env example_worker_world)).
Qed.

Lemma example_selector_traffic : traffic_of 0 example_schedule = traffic example_selector_events.
Proof. vm_compute. reflexivity. Qed.

Lemma example_worker_traffic : traffic_of 1 example_schedule = traffic example_worker_events.
Proof. vm_compute. reflexivity. Qed.

Lemma example_schedulers :
  ready_tasks example_selector_events = tasks_scheduled example_selector_events /\
  ready_tasks example_worker_events = tasks_scheduled example_worker_events.
Proof. vm_compute. split; reflexivity. Qed.

Lemma example_range selecting working :
  Forall (fun l => match l with Does i _ => i < 2 | _ => True end)
    (example_schedule_of selecting working).
Proof.
  unfold example_schedule_of. rewrite !Forall_app, !Forall_fmap, !Forall_cons.
  split_and!; try done; apply Forall_true; cbn; intros; lia.
Qed.

Lemma example_deployment :
  @deployment example_enums example_formats sim_platform example_toml
    example_schedule example_runs empty_broker.
Proof.
  destruct example_schedulers as [Hs0 Hs1].
  exact (deployment_of_two _ _ _ _ _ _ _ example_broker example_selector_daemon example_worker_daemon
    Hs0 Hs1 (example_range _ _) example_selector_traffic example_worker_traffic).
Qed.

(** The same daemons after one turn each, with no shutdown in sight. *)
Definition example_quiet_selector : list (@Event sim_platform) :=
  turns_events (take_turns (@Selector.turn example_enums example_formats sim_platform 5 default_config) 1
    (new_BackendRegistry (seconds_to_ns (selector_entryTimeToLive (selector default_config))))
    (sim_world 99 [("backend.status.queue", example_status);
                   ("qrmci.tasks.queue", MsgTask example_client_task)])).

Definition example_quiet_worker : list (@Event sim_platform) :=
  turns_events (@device_turns example_enums sim_platform (submitter default_config)
    (compiler_queue (compiler default_config))
    (@worker_turn example_enums example_formats sim_platform 5 5 default_config) 1
    (sim_world 99 [("compiler.tasks.queue",
                    MsgTask (set_scheduled_qpu "cxxdevice5q" example_client_task))])).

Definition example_quiet_schedule : list Label :=
  example_schedule_of example_quiet_selector example_quiet_worker.
Definition example_quiet_runs : list (list (@Event sim_platform) * option Z) :=
  [(example_quiet_selector, None); (example_quiet_worker, None)].

Lemma example_loads : @loadConfig example_toml (example_sources [] None) = Value default_config.
Proof. vm_compute. reflexivity. Qed.

Lemma example_quiet_selector_idle :
  @idle_daemon example_enums example_formats sim_platform example_toml example_quiet_selector.
Proof.
  apply (@idle_selector_computed example_enums example_formats sim_platform example_toml
    (example_sources [] None) example_log_files default_config 5 1); [exact example_loads|].
  vm_compute. reflexivity.
Qed.

Lemma example_quiet_worker_idle :
  @idle_daemon example_enums example_formats sim_platform example_toml example_quiet_worker.
Proof.
  apply (@idle_worker_computed example_enums example_formats sim_platform example_toml
    (example_sources [] None) example_log_files default_config 4 5 1); [exact example_loads|].
  vm_compute. reflexivity.
Qed.

(** No read of the flag as set, computed. *)
Lemma never_told (evs : list (@Event sim_platform)) :
  forallb (fun ev => match ev with EvLoadFlag true => false | _ => true end) evs = true ->
  EvLoadFlag true ∉ evs.
Proof.
  intros Hall Hin. apply list_elem_of_In in Hin. rewrite forallb_forall in Hall.
  by specialize (Hall _ Hin).
Qed.

Lemma example_quiet_flags :
  (EvLoadFlag true ∉ example_quiet_selector) /\ (EvLoadFlag true ∉ example_quiet_worker).
Proof. split; apply never_told; vm_compute; reflexivity. Qed.

Lemma example_quiet_schedulers :
  ready_tasks example_quiet_selector = tasks_scheduled example_quiet_selector /\
  ready_tasks example_quiet_worker = tasks_scheduled example_quiet_worker.
Proof. vm_compute. split; reflexivity. Qed.

Lemma example_quiet_broker : broker_run empty_broker example_quiet_schedule = Some empty_broker.
Proof. vm_compute. reflexivity. Qed.

Lemma example_quiet_traffic :
  traffic_of 0 example_quiet_schedule = traffic example_quiet_selector /\
  traffic_of 1 example_quiet_schedule = traffic example_quiet_worker.
Proof. vm_compute. split; reflexivity. Qed.

Lemma example_quiet_deployment :
  @quiet_deployment example_enums example_formats sim_platform example_toml
    example_quiet_schedule example_quiet_runs empty_broker.
Proof.
  destruct example_quiet_schedulers as [Hs0 Hs1], example_quiet_flags as [Hf0 Hf1],
    example_quiet_traffic as [Ht0 Ht1].
  exact (deployment_of_two _ _ _ _ _ _ _ example_quiet_broker
    (conj example_quiet_selector_idle Hf0) (conj example_quiet_worker_idle Hf1)
    Hs0 Hs1 (example_range _ _) Ht0 Ht1).
Qed.

(** ** Properties *)


(** C2: at most one reply. If the clients' tickets are distinct, the broker
    repeats no task and the schedulers hand out only what they were handed, each
    task once, then no ticket is sent two replies, whatever the daemons, the
    devices and the schedule do; only submitted tickets are answered; and a
    ticket that has been answered is neither queued nor lost any more. *)
Theorem deployment_answers_once `{ProtocolEnums} `{CompilerFormats} `{Platform} `{TomlNodes}
    ls runs b :
  deployment ls runs b -> in_flight (redelivered b) = ∅ ->
  (forall x, multiplicity x (submitted ls) <= 1) ->
  forall x, multiplicity x (total answers (all_traffic ls)) <= 1 /\
    (x ∈ total answers (all_traffic ls) ->
     x ∈ submitted ls /\ (x ∉ in_flight (queued b)) /\ (x ∉ in_flight (lost b))).
Proof.
  intros Hd Hr Hs x. destruct (deployment_account _ _ _ Hd) as (held & _ & E).
  rewrite Hr in E. specialize (Hs x).
  assert (multiplicity x (submitted ls) = multiplicity x (total answers (all_traffic ls)) +
    multiplicity x (in_flight (queued b)) + multiplicity x (in_flight (lost b)) +
    multiplicity x (total id held)) as Hm by multiset_solver.
  rewrite !elem_of_multiplicity. lia.
Qed.

(** C3: exactly one reply. When every daemon is between two turns and has not
    been told to stop, the schedulers hand out only what they were handed, each
    task once, and hold none now, the broker holds no task and has neither lost
    nor repeated any, then a reply to every ticket submitted has been sent, to
    its destination, exactly as often as it was submitted. *)
Theorem deployment_answers_all `{ProtocolEnums} `{CompilerFormats} `{Platform} `{TomlNodes}
    ls runs b :
  quiet_deployment ls runs b -> Forall (fun run => waiting run.1 = ∅) runs ->
  in_flight (queued b) = ∅ -> in_flight (lost b) = ∅ -> in_flight (redelivered b) = ∅ ->
  total answers (all_traffic ls) = submitted ls.
Proof.
  intros E%quiet_account Hw Hq Hl Hr. rewrite Hq, Hl, Hr in E.
  rewrite (total_ext _ (fun _ => ∅) runs), total_empty in E; [multiset_solver|].
  rewrite Forall_forall in Hw. exact Hw.
Qed.


Lemma deployment_answers_once_witness :
  multiplicity (7%Z, "out") (total answers (all_traffic example_schedule)) <= 1.
Proof.
  refine (proj1 (@deployment_answers_once example_enums example_formats sim_platform example_toml
    _ _ _ example_deployment _ _ (7%Z, "out"))); [reflexivity|].
  intros x. assert (submitted example_schedule = {[+ (7%Z, "out") +]}) as ->
    by (vm_compute; reflexivity).
  destruct (decide (x = (7%Z, "out"))) as [->|Hne];
    [by rewrite multiplicity_singleton|rewrite multiplicity_singleton_ne by done; lia].
Defined.

Lemma deployment_answers_all_witness :
  total answers (all_traffic example_quiet_schedule) = submitted example_quiet_schedule.
Proof.
  apply (@deployment_answers_all example_enums example_formats sim_platform example_toml
    _ _ _ example_quiet_deployment); [|reflexivity..].
  unfold example_quiet_runs. rewrite !Forall_cons. unfold waiting. cbn [fst].
  destruct example_quiet_schedulers as [-> ->]. split_and!; [..|constructor]; multiset_solver.
Defined.
