(* ===== verification/Ordering.v ===== *)
(** * The order of tasks across a deployment

    A queue of the broker is first-in first-out, the selector forwards tasks in
    the order it takes them, and a daemon with a device schedules them in the
    order it takes them. Together: tasks are scheduled in the order in which
    they were submitted, whatever the interleaving, even when some are lost,
    refused or cancelled on the way. *)

From stdpp Require Import gmultiset.
From S2P Require Import Prelude Error Externals World BackendWrapper BackendRegistry.
From S2P Require Import CommunicationHandler DaemonMessaging.
From S2P Require Import RunnersCompilation RunnersExecution Config ConfigProperties Logger Daemon.
From S2P Require Import Traces Selector SelectorSpec Standalone Worker WorkLoop Broker Deployment.

(** ** The tasks on a queue, in order *)

Definition message_tickets (m : Message) : list Ticket :=
  match m with MsgTask t => [ticket t] | _ => [] end.

(** The tickets of the tasks that wait on a queue. *)
Definition on_queue (queue : string) (l : list (string * Message)) : list Ticket :=
  l ≫= fun qm => if String.eqb qm.1 queue then message_tickets qm.2 else [].

(** What a daemon puts on, and takes off, a queue. *)
Definition task_puts (queue : string) (evs : list NetEvent) : list Ticket :=
  evs ≫= fun ev =>
    match ev with
    | Put q m true => if String.eqb q queue then message_tickets m else []
    | _ => []
    end.
Definition task_gets (queue : string) (evs : list NetEvent) : list Ticket :=
  evs ≫= fun ev =>
    match ev with Got q m => if String.eqb q queue then message_tickets m else [] | _ => [] end.

(** What anyone, clients included, puts on a queue, and daemons take off it, in
    the order of the schedule. *)
Definition put_on (queue : string) (ls : list Label) : list Ticket :=
  ls ≫= fun l =>
    match l with
    | Submits q t => if String.eqb q queue then [ticket t] else []
    | Does _ ev => task_puts queue [ev]
    | _ => []
    end.
Definition taken_from (queue : string) (ls : list Label) : list Ticket :=
  ls ≫= fun l => match l with Does _ ev => task_gets queue [ev] | _ => [] end.

(** Only daemon [i] puts tasks on the queue. *)
Definition fed_by (i : nat) (queue : string) (ls : list Label) : bool :=
  forallb (fun l =>
    match l with
    | Submits q _ => negb (String.eqb q queue)
    | Does j (Put q (MsgTask _) true) => negb (String.eqb q queue) || Nat.eqb j i
    | _ => true
    end) ls.

(** ** Queues are first-in first-out *)

Lemma take_first_on_queue q l m rest queue :
  take_first q l = Some (m, rest) ->
  on_queue queue l = (if String.eqb q queue then message_tickets m else []) ++ on_queue queue rest.
Proof.
  revert rest. induction l as [|[q' m'] l IH]; intros rest; cbn [take_first]; [done|].
  destruct (String.eqb_spec q' q) as [->|Hne].
  { by intros [= -> ->]. }
  intros ([m1 rest1] & E & [= <- <-])%bind_Some. specialize (IH _ E).
  unfold on_queue in *. cbn [mbind list_bind fst snd]. rewrite IH.
  destruct (String.eqb_spec q queue) as [->|]; [|done].
  by rewrite (proj2 (String.eqb_neq _ _)).
Qed.

Lemma deliver_on_queue q m b b' queue :
  deliver q m b = Some b' ->
  on_queue queue (queued b) =
    (if String.eqb q queue then message_tickets m else []) ++ on_queue queue (queued b').
Proof.
  unfold deliver. intros ([m' rest] & E & Hb)%bind_Some.
  case_bool_decide; [|done]. simplify_eq. cbn. by apply take_first_on_queue.
Qed.

Lemma on_queue_snoc queue l q m :
  on_queue queue (l ++ [(q, m)]) =
  on_queue queue l ++ if String.eqb q queue then message_tickets m else [].
Proof. unfold on_queue. rewrite bind_app. cbn. by rewrite app_nil_r. Qed.

Lemma message_tickets_none m : message_ticket m = ∅ -> message_tickets m = [].
Proof. destruct m; cbn; multiset_solver. Qed.

(** What one step takes off a queue, and what it puts on it, when it repeats no
    task. *)
Lemma broker_step_on_queue b l b' queue :
  broker_step b l = Some b' -> in_flight (redelivered b') = ∅ ->
  taken_from queue [l] ++ on_queue queue (queued b') `sublist_of`
    on_queue queue (queued b) ++ put_on queue [l].
Proof.
  destruct l as [q t|q r|i [q m []|q m]|q|q m]; cbn [broker_step];
    unfold taken_from, put_on, task_puts, task_gets; cbn [mbind list_bind app]; rewrite ?app_nil_r.
  - intros [= <-] _. unfold enqueue. cbn [queued]. by rewrite on_queue_snoc.
  - intros E%(deliver_on_queue _ _ _ _ queue) _. rewrite E. by destruct (String.eqb q queue).
  - intros [= <-] _. unfold enqueue. cbn [queued]. by rewrite on_queue_snoc.
  - by intros [= <-] _.
  - intros E%(deliver_on_queue _ _ _ _ queue) _. by rewrite E.
  - intros ([m rest] & E%(take_first_on_queue _ _ _ _ queue) & [= <-])%bind_Some _. rewrite E.
    cbn [queued]. by apply sublist_inserts_l.
  - intros [= <-]. cbn [redelivered queued]. rewrite in_flight_cons. cbn [snd]. intros Hr.
    unfold on_queue. cbn [mbind list_bind fst snd].
    rewrite (message_tickets_none m) by multiset_solver. by destruct (String.eqb q queue).
Qed.

Lemma broker_step_redelivered b l b' :
  broker_step b l = Some b' -> in_flight (redelivered b) ⊆ in_flight (redelivered b').
Proof.
  destruct l as [q t|q r|i [q m []|q m]|q|q m]; cbn [broker_step].
  2,5: by intros (_ & _ & ->)%deliver_flow.
  4: by intros ([m rest] & _ & [= <-])%bind_Some.
  all: intros [= <-]; cbn [enqueue redelivered]; rewrite ?in_flight_cons; multiset_solver.
Qed.

Lemma broker_run_redelivered b ls b' :
  broker_run b ls = Some b' -> in_flight (redelivered b) ⊆ in_flight (redelivered b').
Proof.
  revert b. induction ls as [|l ls IH]; intros b; cbn [broker_run]; [by intros [= <-]|].
  intros (b1 & E%broker_step_redelivered & Hr%IH)%bind_Some. multiset_solver.
Qed.

Lemma put_on_cons queue l ls : put_on queue (l :: ls) = put_on queue [l] ++ put_on queue ls.
Proof. unfold put_on. cbn. by rewrite app_nil_r. Qed.

Lemma taken_from_cons queue l ls :
  taken_from queue (l :: ls) = taken_from queue [l] ++ taken_from queue ls.
Proof. unfold taken_from. cbn. by rewrite app_nil_r. Qed.

Lemma broker_run_fifo b ls b' queue :
  broker_run b ls = Some b' -> in_flight (redelivered b') = ∅ ->
  taken_from queue ls ++ on_queue queue (queued b') `sublist_of`
    on_queue queue (queued b) ++ put_on queue ls.
Proof.
  intros Hr He. revert b Hr. induction ls as [|l ls IH]; intros b; cbn [broker_run].
  { intros [= <-]. cbn. by rewrite app_nil_r. }
  intros (b1 & E & Hr)%bind_Some. specialize (IH _ Hr). apply broker_run_redelivered in Hr.
  rewrite taken_from_cons, put_on_cons, <- app_assoc. etrans.
  { apply sublist_app; [done|exact IH]. }
  rewrite !app_assoc. apply sublist_app; [|done].
  apply broker_step_on_queue; [done|]. multiset_solver.
Qed.

(** ** From the schedule to one daemon *)

Lemma traffic_of_cons i l ls :
  traffic_of i (l :: ls) =
  match l with Does j ev => if bool_decide (j = i) then [ev] else [] | _ => [] end ++ traffic_of i ls.
Proof. unfold traffic_of. destruct l; cbn; try done. by case_bool_decide. Qed.

Lemma task_gets_cons queue ev evs : task_gets queue (ev :: evs) = task_gets queue [ev] ++ task_gets queue evs.
Proof. unfold task_gets. cbn. by rewrite app_nil_r. Qed.

Lemma task_puts_cons queue ev evs : task_puts queue (ev :: evs) = task_puts queue [ev] ++ task_puts queue evs.
Proof. unfold task_puts. cbn. by rewrite app_nil_r. Qed.

Lemma task_puts_app queue evs evs' :
  task_puts queue (evs ++ evs') = task_puts queue evs ++ task_puts queue evs'.
Proof. apply bind_app. Qed.

Lemma task_gets_app queue evs evs' :
  task_gets queue (evs ++ evs') = task_gets queue evs ++ task_gets queue evs'.
Proof. apply bind_app. Qed.

Lemma daemon_takes i queue ls : task_gets queue (traffic_of i ls) `sublist_of` taken_from queue ls.
Proof.
  induction ls as [|l ls IH]; [done|]. rewrite traffic_of_cons, taken_from_cons.
  destruct l as [| |j ev| |]; try exact IH. case_bool_decide; cbn [app].
  - rewrite task_gets_cons. apply sublist_app; [|done]. unfold taken_from. cbn. by rewrite !app_nil_r.
  - by apply sublist_inserts_l.
Qed.

Lemma fed_by_puts i queue ls :
  fed_by i queue ls = true -> put_on queue ls = task_puts queue (traffic_of i ls).
Proof.
  induction ls as [|l ls IH]; [done|]. cbn [fed_by forallb]. intros [Hl Hls]%andb_true_iff.
  rewrite traffic_of_cons, put_on_cons, (IH Hls). destruct l as [q t| |j ev| |]; try done.
  { unfold put_on. cbn. by destruct (String.eqb q queue). }
  case_bool_decide as Hj; cbn [app].
  { rewrite (task_puts_cons _ ev). unfold put_on at 1. cbn [mbind list_bind]. by rewrite app_nil_r. }
  apply Nat.eqb_neq in Hj. unfold put_on, task_puts. destruct ev as [q [t| |] []|]; cbn; try done.
  - rewrite Hj, orb_false_r in Hl. by destruct (String.eqb q queue).
  - by destruct (String.eqb q queue).
  - by destruct (String.eqb q queue).
Qed.

Section Daemons.
Context `{ProtocolEnums} `{CompilerFormats} `{Platform} `{TomlNodes}.

(** ** In one daemon *)

Lemma traffic_cons ev evs :
  traffic (ev :: evs) = match net_event ev with Some n => [n] | None => [] end ++ traffic evs.
Proof. unfold traffic. cbn. by destruct (net_event ev). Qed.

Lemma traffic_app evs evs' : traffic (evs ++ evs') = traffic evs ++ traffic evs'.
Proof. apply omap_app. Qed.

(** A daemon that takes its tasks from one queue. *)
Lemma received_in_order queue evs :
  Forall (tasks_from queue) evs -> task_gets queue (traffic evs) = ticket <$> tasks_received evs.
Proof.
  induction 1 as [|ev evs Hev _ IH]; [done|]. rewrite traffic_cons.
  change (ev :: evs) with ([ev] ++ evs). rewrite tasks_received_app, fmap_app, <- IH.
  destruct ev; try done; cbn.
  - by destruct st.
  - destruct r as [[]|]; cbn in *; try done; subst; unfold task_gets; cbn;
      [by rewrite String.eqb_refl|by case_match..].
Qed.

(** The tasks a daemon forwards to a queue are among those it sends. *)
Lemma forwarded_in_order queue evs :
  task_puts queue (traffic evs) `sublist_of` (outgoing evs ≫= fun s => message_tickets s.2).
Proof.
  induction evs as [|ev evs IH]; [done|]. rewrite traffic_cons.
  change (ev :: evs) with ([ev] ++ evs). rewrite outgoing_app, bind_app.
  rewrite task_puts_app. apply sublist_app; [|exact IH].
  destruct ev; try apply sublist_nil_l; cbn.
  - destruct st; cbn; unfold task_puts; cbn; rewrite ?app_nil_r; [|apply sublist_nil_l].
    destruct (String.eqb _ _); [done|apply sublist_nil_l].
  - destruct r; cbn; apply sublist_nil_l.
Qed.

(** Whatever the queue, a daemon takes and puts only what it receives and sends. *)
Lemma gets_received queue evs :
  task_gets queue (traffic evs) `sublist_of` ticket <$> tasks_received evs.
Proof.
  induction evs as [|ev evs IH]; [done|]. rewrite traffic_cons.
  change (ev :: evs) with ([ev] ++ evs). rewrite tasks_received_app, task_gets_app, fmap_app.
  apply sublist_app; [|exact IH]. destruct ev; try apply sublist_nil_l; cbn.
  - destruct st; apply sublist_nil_l.
  - destruct r as [[]|]; cbn; unfold task_gets; cbn; try apply sublist_nil_l;
      destruct (String.eqb _ _); (done || apply sublist_nil_l).
Qed.

Lemma puts_sent queue evs :
  task_puts queue (traffic evs) `sublist_of` ticket <$> (tasks_sent evs).*2.
Proof.
  induction evs as [|ev evs IH]; [done|]. rewrite traffic_cons. unfold tasks_sent in *.
  change (ev :: evs) with ([ev] ++ evs). rewrite omap_app, task_puts_app, !fmap_app.
  apply sublist_app; [|exact IH]. destruct ev; try apply sublist_nil_l; cbn.
  - destruct st, m; cbn; unfold task_puts; cbn; try apply sublist_nil_l;
      destruct (String.eqb _ _); (done || apply sublist_nil_l).
  - destruct r; apply sublist_nil_l.
Qed.

(** The selector's answers keep the order of the tasks. *)
Lemma answers_in_order ts out :
  Forall2 answer ts out -> (out ≫= fun s => message_tickets s.2) `sublist_of` ticket <$> ts.
Proof.
  induction 1 as [|t [q m] ts out Ha _ IH]; [done|]. cbn.
  destruct Ha as [(n & _ & _ & Hm)|[_ [reason Hm]]]; cbn in Hm; subst m; cbn.
  - by apply sublist_skip.
  - by apply sublist_cons.
Qed.

(** A settled intake schedules in the order of the tasks. *)
Lemma scheduled_in_order ts os :
  Forall2 settled ts os -> ticket <$> scheduled_of os `sublist_of` ticket <$> ts.
Proof.
  induction 1 as [|t o ts os Ho _ IH]; [done|]. unfold scheduled_of in *.
  destruct o as [t'|sent]; cbn.
  - destruct Ho as [Hid Hd]. unfold ticket at 1 3. rewrite Hid, Hd. by apply sublist_skip.
  - by apply sublist_cons.
Qed.

Lemma run_scheduled_in_order evs R :
  run_answered evs R -> ticket <$> tasks_scheduled evs `sublist_of` ticket <$> tasks_received evs.
Proof. intros (_ & (os & _ & _ & Hos & -> & _) & _). by apply scheduled_in_order. Qed.

(** ** Where a daemon takes its tasks from *)

Lemma compileCircuitFiles_silent b opts files staged :
  emits internal (compileCircuitFiles b opts files staged).
Proof. revert staged. induction files; intros staged; cbn [compileCircuitFiles]; silent. Qed.

(** What the stages after the intake do: calls that cross no boundary, results
    sent, tasks handed to the scheduler and taken from it. *)
Definition stage_events (P : Event -> Prop) : Prop :=
  (forall ev, internal ev -> P ev) /\ (forall q r st, P (EvSend q (MsgResult r) st)) /\
  (forall t, P (EvSchedule t)) /\ (forall o, P (EvNextReady o)).

Section StageEvents.
Context (P : Event -> Prop) (HP : stage_events P).

Lemma silent_stage {A} (m : M A) : emits internal m -> emits P m.
Proof. apply emits_mono, HP. Qed.

Lemma result_stage (r : QuantumResult) q : emits P (send r q).
Proof. apply send_emits. apply HP. Qed.

Lemma compileAndSchedule_stage task r : emits P (compileAndSchedule task r).
Proof.
  unfold compileAndSchedule. destruct (find r _) as [b|]; [|apply emits_ret].
  apply emits_bind.
  - apply silent_stage. pose proof compileCircuitFiles_silent. unfold compileQuantumTask. silent.
  - intros [[] ?]; [|silent]. apply emits_bind; [apply emits_call; intros; apply HP|]. intros ?. silent.
Qed.

Lemma settle_stage prepared : emits P (settle prepared).
Proof. destruct prepared as [[]]; [silent|apply result_stage]. Qed.

Lemma ready_stage : emits P getNextReadyTask.
Proof. apply emits_call. apply HP. Qed.

Lemma submitReady_stage fuel d acc : emits P (Worker.submitReady fuel d acc).
Proof.
  pose proof (fun t => silent_stage _ (submitQuantumTask_silent t d terminationRequested)).
  pose proof (fun t e => result_stage (cancelQuantumTask t e)). pose proof ready_stage.
  revert acc. induction fuel; intros acc; cbn [Worker.submitReady]; unfold sendFailure; silent.
Qed.

Lemma collectAll_stage jobFuel config subs : emits P (Worker.collectAll jobFuel config subs).
Proof.
  pose proof (fun t js => silent_stage _ (collectQuantumResult_silent jobFuel t js
    (jobWaitTimeout (submitter config)) terminationRequested)).
  pose proof result_stage.
  induction subs as [|[t js] subs IH]; cbn [Worker.collectAll]; unfold sendResult, sendFailure; silent.
Qed.

Lemma executeReady_stage fuel jobFuel config d any :
  emits P (Standalone.executeReady fuel jobFuel config d any).
Proof.
  assert (forall t, emits P (executeQuantumTask jobFuel t d (jobWaitTimeout (submitter config))
    terminationRequested)).
  { intros t. unfold executeQuantumTask.
    apply emits_bind; [apply silent_stage, submitQuantumTask_silent|]. intros js.
    apply emits_or_return. intros jobs. apply silent_stage, collectQuantumResult_silent. }
  pose proof result_stage. pose proof ready_stage.
  revert any. induction fuel as [|fuel IH]; intros any; cbn [Standalone.executeReady];
    unfold sendResult, sendFailure; silent.
Qed.
End StageEvents.

Lemma tasks_from_stage queue : stage_events (tasks_from queue).
Proof. split_and!; try done. by intros []. Qed.

Lemma worker_turn_tasks_from fuel jobFuel config d s :
  emits (tasks_from (compiler_queue (compiler config))) (worker_turn fuel jobFuel config d s).
Proof.
  unfold worker_turn, Worker.turn, Worker.intakeAndSubmit, Worker.collectAndPause, expireNow.
  set (queue := compiler_queue _). pose proof (tasks_from_stage queue) as HP.
  apply emits_bind; [|intros [[[r1 th1] got] subs]].
  - apply emits_bind; [apply (silent_stage _ HP), refreshOwnDeviceStatus_silent|]. intros [[st r1] th1].
    apply emits_bind; [destruct st; [by apply send_emits|silent]|]. intros _.
    apply emits_bind; [silent|]. intros r2. apply emits_bind.
    { apply receiveNext_emits; [by split_and!; try intros ? [[]|]|]. intros task [].
      apply (emits_bind _ (compileAndSchedule task r2) settle);
        [by apply compileAndSchedule_stage|by apply settle_stage]. }
    intros got. apply emits_bind; [by apply submitReady_stage|]. intros ?. silent.
  - apply emits_bind; [|intros ?; silent]. apply emits_bind; [by apply collectAll_stage|].
    intros ?. silent.
Qed.

Lemma standalone_turn_tasks_from fuel jobFuel config d s :
  emits (tasks_from (qrmciQueue (common config))) (standalone_turn fuel jobFuel config d s).
Proof.
  unfold standalone_turn, Standalone.turn, expireNow.
  set (queue := qrmciQueue _). pose proof (tasks_from_stage queue) as HP.
  apply emits_bind; [apply (silent_stage _ HP), refreshOwnDeviceStatus_silent|]. intros [[st r1] th1].
  apply emits_bind; [silent|]. intros r2. apply emits_bind.
  { apply drainQueue_emits; [by split_and!; try intros ? [[]|]|]. intros task [].
    apply (emits_bind _ (selectCompileAndSchedule task r2 _) settle); [|by apply settle_stage].
    pose proof (compileAndSchedule_stage _ HP). unfold selectCompileAndSchedule. silent. }
  intros got. apply emits_bind; [by apply executeReady_stage|]. intros ?. silent.
Qed.

Lemma work_loop_emits P {S} (loop : nat -> S -> M Z) (turn : S -> M S) turns s :
  work_loop loop turn -> (forall b, P (EvLoadFlag b)) -> (forall s, emits P (turn s)) ->
  emits P (loop turns s).
Proof.
  intros Hl HP Ht. revert s. induction turns as [|turns IH]; intros s.
  { rewrite (work_loop_0 _ _ Hl). silent. }
  rewrite (work_loop_S _ _ Hl). apply emits_bind; [by apply emits_load|]. intros []; silent.
Qed.

Lemma with_own_device_emits P config queue (loop : Device -> DeviceState -> M Z) :
  (forall ev, internal ev -> P ev) -> (forall d s, emits P (loop d s)) ->
  emits P (with_own_device config queue loop).
Proof.
  intros HP Hl. unfold with_own_device.
  apply emits_bind; [eapply emits_mono; [exact HP|apply openConfiguredDevice_silent]|].
  intros [d|e]; [|silent].
  apply emits_bind; [eapply emits_mono; [exact HP|apply registerOwnDevice_silent]|].
  intros [[] reg]; cbn [fst snd]; silent.
Qed.

(** ** The processes *)

(** A run of the selector that takes its tasks from [intake]. *)
Inductive selector_on (intake : string) (evs : list Event) : Prop :=
| selector_on_intro (cfg : ConfigSources) (logs : LogFiles) config turns fuel p w w' o :
    loadConfig = Value config -> intake = qrmciQueue (common config) ->
    Selector.main turns fuel p w = (w', o) -> trace w' = trace w ++ evs -> selector_on intake evs.

(** A run of a daemon with a device that takes its tasks from [queue]. *)
Inductive device_daemon_on (queue : string) (evs : list Event) : Prop :=
| worker_on (cfg : ConfigSources) (logs : LogFiles) config turns fuel jobFuel p w w' o :
    loadConfig = Value config -> queue = compiler_queue (compiler config) ->
    Worker.main turns (S fuel) jobFuel p w = (w', o) -> trace w' = trace w ++ evs ->
    device_daemon_on queue evs
| standalone_on (cfg : ConfigSources) (logs : LogFiles) config turns fuel jobFuel p w w' o :
    loadConfig = Value config -> queue = qrmciQueue (common config) ->
    Standalone.main turns fuel jobFuel p w = (w', o) -> trace w' = trace w ++ evs ->
    device_daemon_on queue evs.

(** Processes started in a world without a past. *)
Lemma selector_on_fresh (cfg : ConfigSources) (logs : LogFiles) config turns fuel p e :
  loadConfig = Value config ->
  selector_on (qrmciQueue (common config)) (trace (Selector.main turns fuel p (MkWorld e [])).1).
Proof.
  intros Hc. apply (selector_on_intro _ _ cfg logs config turns fuel p (MkWorld e []) _ _ Hc eq_refl
    (surjective_pairing _)). done.
Qed.

Lemma worker_on_fresh (cfg : ConfigSources) (logs : LogFiles) config turns fuel jobFuel p e :
  loadConfig = Value config ->
  device_daemon_on (compiler_queue (compiler config))
    (trace (Worker.main turns (S fuel) jobFuel p (MkWorld e [])).1).
Proof.
  intros Hc. apply (worker_on _ _ cfg logs config turns fuel jobFuel p (MkWorld e []) _ _ Hc eq_refl
    (surjective_pairing _)). done.
Qed.

(** The selector's machine only takes tasks from the intake queue. *)
Lemma permitted_tasks_from ttl config v evs :
  permitted ttl config v evs -> Forall (tasks_from (qrmciQueue (common config))) evs.
Proof.
  revert v. induction evs as [|ev evs IH]; intros v; cbn [permitted]; [constructor|].
  intros [Hp Hr%IH]. constructor; [|done]. destruct ev; try done.
  destruct r as [[]|]; cbn in *; try done. by destruct Hp as (_ & _ & _ & -> & _).
Qed.

Lemma selector_on_order intake queue evs :
  selector_on intake evs -> task_puts queue (traffic evs) `sublist_of` task_gets intake (traffic evs).
Proof.
  destruct 1 as [cfg logs config turns fuel p w w' o Hc -> Em Ht].
  assert (answers_all evs) as Ha by exact (wp_run _ _ _ _ _ _ (selector_main_answers turns fuel p) Em Ht).
  rewrite received_in_order.
  - etrans; [apply forwarded_in_order|]. by apply answers_in_order.
  - unfold Selector.main in Em. rewrite initializeDaemon_config, Hc in Em.
    pose proof (wp_run _ _ _ _ _ _ (loop_permitted _ config turns fuel _ false
      (conj (new_registry_wf _) eq_refl)) Em Ht) as Hp.
    exact (permitted_tasks_from _ _ _ _ Hp).
Qed.

Lemma device_daemon_on_order queue evs :
  device_daemon_on queue evs ->
  ticket <$> tasks_scheduled evs `sublist_of` task_gets queue (traffic evs).
Proof.
  destruct 1 as [cfg logs config turns fuel jobFuel p w w' o Hc -> Em Ht
    |cfg logs config turns fuel jobFuel p w w' o Hc -> Em Ht].
  - pose proof (wp_run _ _ _ _ _ _ (worker_main_run turns fuel jobFuel p) Em Ht) as Hr.
    rewrite worker_main_shape, Hc in Em. rewrite received_in_order; [exact (run_scheduled_in_order _ _ Hr)|].
    refine (wp_run _ _ _ _ _ _ (with_own_device_emits _ _ _ _ _ _) Em Ht); [by intros []|].
    intros d s. by apply (work_loop_emits _ _ _ _ _ (worker_work_loop _ _ _ _)), worker_turn_tasks_from.
  - pose proof (wp_run _ _ _ _ _ _ (standalone_main_run turns fuel jobFuel p) Em Ht) as Hr.
    rewrite standalone_main_shape, Hc in Em. rewrite received_in_order; [exact (run_scheduled_in_order _ _ Hr)|].
    refine (wp_run _ _ _ _ _ _ (with_own_device_emits _ _ _ _ _ _) Em Ht); [by intros []|].
    intros d s. by apply (work_loop_emits _ _ _ _ _ (standalone_work_loop _ _ _ _)), standalone_turn_tasks_from.
Qed.

(** Tasks are taken off a queue in the order they were put on it. *)
Lemma deployment_fifo good ls runs b queue :
  deployment_of good ls runs b -> in_flight (redelivered b) = ∅ ->
  taken_from queue ls `sublist_of` put_on queue ls.
Proof.
  intros Hd Hr. pose proof (broker_run_fifo _ _ _ queue (dep_broker _ _ _ _ Hd) Hr) as Hf.
  cbn in Hf. etrans; [|exact Hf]. by apply sublist_inserts_r.
Qed.
End Daemons.

(** ** Properties *)

(** C7: first come, first scheduled. In every deployment whose broker repeats
    no task (and whose schedulers hand out only what they were handed), a worker or standalone daemon schedules tasks in the order in which
    they were put on the queue it takes them from; and when that queue is fed by
    one selector only, in the order in which they were put on the selector's
    intake queue. Tasks that are lost, refused or cancelled drop out of the
    order without disturbing it. *)
Theorem deployment_keeps_order `{ProtocolEnums} `{CompilerFormats} `{Platform} `{TomlNodes}
    ls runs b j run queue :
  deployment ls runs b -> in_flight (redelivered b) = ∅ ->
  runs !! j = Some run -> device_daemon_on queue run.1 ->
  ticket <$> tasks_scheduled run.1 `sublist_of` put_on queue ls /\
  forall i sel intake, runs !! i = Some sel -> selector_on intake sel.1 -> fed_by i queue ls = true ->
    ticket <$> tasks_scheduled run.1 `sublist_of` put_on intake ls.
Proof.
  intros Hd Hr Hj Hdev.
  assert (ticket <$> tasks_scheduled run.1 `sublist_of` put_on queue ls) as Hq.
  { etrans; [by apply device_daemon_on_order|]. rewrite <- (dep_traffic _ _ _ _ Hd _ _ Hj).
    etrans; [apply daemon_takes|]. by eapply deployment_fifo. }
  split; [done|]. intros i sel intake Hi Hsel Hfed.
  etrans; [exact Hq|]. rewrite (fed_by_puts _ _ _ Hfed), (dep_traffic _ _ _ _ Hd _ _ Hi).
  etrans; [by apply selector_on_order|]. rewrite <- (dep_traffic _ _ _ _ Hd _ _ Hi).
  etrans; [apply daemon_takes|]. by eapply deployment_fifo.
Qed.

Lemma deployment_keeps_order_witness :
  ticket <$> tasks_scheduled example_worker_events `sublist_of`
    put_on "qrmci.tasks.queue" example_schedule.
Proof.
  refine (proj2 (@deployment_keeps_order example_enums example_formats sim_platform example_toml
    _ _ _ 1 _ "compiler.tasks.queue" example_deployment eq_refl eq_refl _)
    0 _ "qrmci.tasks.queue" eq_refl _ _).
  - exact (@worker_on_fresh example_enums example_formats sim_platform example_toml
      (example_sources [] None) example_log_files default_config 9 4 5 new_Process
      (env example_worker_world) example_loads).
  - exact (@selector_on_fresh example_enums example_formats sim_platform example_toml
      (example_sources [] None) example_log_files default_config 5 5 new_Process
      (env (example_selector_world example_status)) example_loads).
  - vm_compute. reflexivity.
Defined.
