(* ===== verification/Halting.v ===== *)
(** * Computations that return whatever the environment answers

    The stages of the daemons have no unbounded loop but the wait for a job;
    that ends when the wait is bounded and the clock is steady, or when the
    device's jobs end by themselves. *)

From S2P Require Import Prelude Error Externals World BackendWrapper BackendRegistry.
From S2P Require Import PublicationThrottle RunnersSelection RunnersCompilation RunnersExecution.
From S2P Require Import Config ConfigProperties CommunicationHandler DaemonMessaging.
From S2P Require Import Logger Daemon Traces Selector Standalone Worker WorkLoop Shutdown.

(** ** Computations that return *)

Section Halting.
Context `{Platform}.

(** [m] returns, whatever the environment answers. *)
Definition halts {A} (m : M A) : Prop := forall w, is_Some (m w).2.

Lemma halts_ret {A} (a : A) : halts (mret a).
Proof. intros w. by eexists. Qed.

Lemma halts_call {A} (f : Env -> Env * A) ev : halts (call f ev).
Proof. intros w. unfold call. destruct (f (env w)) as [e a]. by eexists. Qed.

Lemma halts_load f : halts (load f).
Proof. destruct f; [apply halts_ret|apply halts_call]. Qed.

Lemma halts_bind {A B} (m : M A) (k : A -> M B) :
  halts m -> (forall a, halts (k a)) -> halts (m ≫= k).
Proof.
  intros Hm Hk w. destruct (Hm w) as [a Ha]. unfold mbind, M_bind.
  destruct (m w) as [w' o]. cbn in Ha. subst o. apply Hk.
Qed.

Lemma halts_or_return {A B} (m : result A) (k : A -> M (result B)) :
  (forall a, halts (k a)) -> halts (or_return m k).
Proof. intros Hk. destruct m; [apply Hk|apply halts_ret]. Qed.
End Halting.

(** Show that a computation returns by following its structure. *)
Ltac halting :=
  repeat first
    [ solve [eauto 2]
    | apply halts_ret | apply halts_call | apply halts_load
    | apply halts_bind; [|intros ?]
    | apply halts_or_return; intros ?
    | match goal with |- halts (match ?x with _ => _ end) => destruct x end ].

Section HaltingStages.
Context `{ProtocolEnums} `{CompilerFormats} `{Platform}.

Lemma fromSubmitter_halts d q : halts (fromSubmitter d q).
Proof. unfold fromSubmitter. cbv zeta. halting. Qed.

Lemma refreshOwnDeviceStatus_halts d q r th : halts (refreshOwnDeviceStatus d q r th).
Proof. pose proof fromSubmitter_halts. unfold refreshOwnDeviceStatus. halting. Qed.

Lemma cancelAll_halts jobs : halts (cancelAll jobs).
Proof. induction jobs; cbn [cancelAll]; halting. Qed.

Lemma submitQuantumTask_halts task d f : halts (submitQuantumTask task d f).
Proof.
  assert (forall format pl indices jobs, halts (submitCircuits task d f format pl indices jobs)).
  { pose proof cancelAll_halts. intros format pl indices.
    induction indices; intros jobs; cbn [submitCircuits]; halting. }
  unfold submitQuantumTask. halting.
Qed.

Lemma send_halts `{WireMessage A} (m : A) queue : halts (send m queue).
Proof. unfold send, CommunicationHandler.send. halting. Qed.

Lemma expireNow_halts r : halts (expireNow r).
Proof. unfold expireNow. halting. Qed.

Lemma compileQuantumTask_halts task b : halts (compileQuantumTask task b).
Proof.
  assert (forall opts files staged, halts (compileCircuitFiles b opts files staged)).
  { intros opts files. induction files; intros staged; cbn [compileCircuitFiles]; halting. }
  unfold compileQuantumTask. halting.
Qed.

Lemma compileAndSchedule_halts task r : halts (compileAndSchedule task r).
Proof. pose proof compileQuantumTask_halts. unfold compileAndSchedule. halting. Qed.

Lemma selectCompileAndSchedule_halts task r policy : halts (selectCompileAndSchedule task r policy).
Proof. pose proof compileAndSchedule_halts. unfold selectCompileAndSchedule. halting. Qed.

Lemma settle_halts (prepare : M (result unit * QuantumTask)) :
  halts prepare -> halts (prepare ≫= settle).
Proof.
  intros Hp. apply halts_bind; [done|]. intros [[]]; [apply halts_ret|apply send_halts].
Qed.

(** ** Collections that return *)

(** Every collection ends, given [jobFuel] slices per job. *)
Definition collections_return (jobFuel : nat) (timeout : Z) : Prop :=
  forall task jobs, halts (collectQuantumResult jobFuel task jobs timeout terminationRequested).

(** With a positive timeout they do, under a steady clock. *)
Lemma bounded_collections_return clock `{!SteadyClock clock} jobFuel timeout :
  (0 < timeout <= 9223372036)%Z -> (timeout <= Z.of_nat jobFuel)%Z ->
  collections_return jobFuel timeout.
Proof.
  intros HT Hf task jobs w. unfold collectQuantumResult.
  rewrite (proj2 (Z.ltb_lt 0 timeout)) by lia. unfold mbind, M_bind.
  pose proof (collectJobs_returns clock jobFuel jobs timeout terminationRequested [] w HT Hf) as Hr.
  destruct (collectJobs _ _ _ _ _ _ _) as [w' [[h|e]|]]; cbn in *; [by eexists..|done].
Qed.

(** A device whose jobs end by themselves: [slices j e] bounds the wait slices
    that job [j] still runs through. *)
Class JobsFinish (slices : Job -> Env -> nat) (jobFuel : nat) : Prop := {
  slices_bounded j e : slices j e < jobFuel;
  slices_wait j s e err : (platform_wait j s e).2 = Unexpected err -> code err = Timeout ->
    slices j (platform_wait j s e).1 < slices j e;
  slices_flag j e : slices j (platform_load_flag e).1 <= slices j e;
  slices_now j e : slices j (platform_now e).1 <= slices j e;
}.

(** On such a device they do without a timeout, too. *)
Lemma waitForJob_finishes slices jobFuel `{!JobsFinish slices jobFuel} fuel job bounded timeout started w :
  slices job (env w) < fuel ->
  is_Some (waitForJob fuel job bounded timeout started terminationRequested w).2.
Proof.
  revert w. induction fuel as [|fuel IH]; intros w Hf; [lia|]. cbn [waitForJob].
  unfold load, wait, now, mbind, M_bind, call.
  pose proof (slices_flag (slices := slices) job (env w)).
  destruct (platform_load_flag (env w)) as [e0 []]; cbn [fst snd env] in *; [by eexists|].
  pose proof (slices_wait (slices := slices) job CollectionSlice e0) as Hw.
  destruct (platform_wait job CollectionSlice e0) as [e1 [st|err]]; cbn [fst snd env] in *.
  { case_bool_decide; by eexists. }
  case_bool_decide as Hc; cbn [negb]; [|by eexists]. specialize (Hw err eq_refl Hc).
  destruct bounded; [|apply IH; cbn; lia].
  pose proof (slices_now (slices := slices) job e1). cbn [env trace].
  destruct (platform_now e1) as [e2 t]. cbn [fst snd env trace] in *.
  destruct (_ <=? _)%Z; [by eexists|]. apply IH. cbn. lia.
Qed.

Lemma finishing_collections_return slices jobFuel `{!JobsFinish slices jobFuel} timeout :
  collections_return jobFuel timeout.
Proof.
  intros task jobs. unfold collectQuantumResult.
  apply halts_bind; [|intros ?; halting].
  generalize (@nil (option Counts)) as h.
  induction jobs as [|j jobs IH]; intros h; cbn [collectJobs]; [halting|].
  apply halts_bind; [halting|]. intros t. apply halts_bind; [|intros ?; halting].
  intros w. eapply waitForJob_finishes; [done|]. apply slices_bounded.
Qed.
End HaltingStages.
