(* ===== verification/Serving.v ===== *)
(** * An environment that serves, and the books kept in it

    Where no shutdown comes, the broker delivers what it holds and the scheduler
    hands out what it was handed, a receive brings a message exactly when there
    is one, and every computation accounts for the tasks it moves: what was on a
    queue or put on it was taken off or is still there, in order, and what was in
    the scheduler or handed to it was handed out or is still there. *)

From stdpp Require Import gmultiset.
From S2P Require Import Prelude Error Externals World BackendWrapper BackendRegistry.
From S2P Require Import PublicationThrottle RunnersSelection RunnersCompilation RunnersExecution.
From S2P Require Import Config ConfigProperties CommunicationHandler DaemonMessaging.
From S2P Require Import Logger Daemon Traces Selector Standalone Worker WorkLoop Shutdown.
From S2P Require Import Broker Deployment Ordering Halting.

(** ** A broker that delivers, and a scheduler that hands out *)

(** What a state of the environment holds: the tasks on each queue, oldest first,
    the number of statuses on each queue, and the tasks in the scheduler. *)
Record Load `{Platform} : Type := MkLoad {
  content : string -> Env -> list Ticket;
  news : string -> Env -> nat;
  pending : Env -> Tickets;
}.

(** A status counts as news wherever it is sent. *)
Definition message_statuses (m : Message) : nat := match m with MsgBackend _ => 1 | _ => 0 end.

Definition backlog `{Platform} (L : Load) (q : string) (e : Env) : nat := length (content L q e).

Section Serving.
Context `{Platform} (L : Load).

Definition same_load (e e' : Env) : Prop :=
  (forall q, content L q e' = content L q e) /\ (forall q, news L q e' = news L q e) /\
  pending L e' = pending L e.

Definition inert {A} (f : Env -> Env * A) : Prop := forall e, same_load e (f e).1.

(** An environment in which no shutdown comes, the broker takes and delivers
    messages in order, the scheduler hands out tasks while it has any, and
    nothing arrives but what the process itself sends. *)
Class Serving : Prop := {
  serve_flag e : (platform_load_flag e).2 = false;
  inert_flag : inert platform_load_flag;
  serve_task q t e :
    let e' := (platform_receive_task q t e).1 in
    match (platform_receive_task q t e).2 with
    | Received task _ =>
        content L q e = ticket task :: content L q e' /\
        (forall q', q' <> q -> content L q' e' = content L q' e) /\
        (forall q', news L q' e' = news L q' e) /\ pending L e' = pending L e
    | ReceiveFailed _ _ => content L q e = [] /\ same_load e e'
    end;
  serve_status q t e :
    let e' := (platform_receive_backend q t e).1 in
    match (platform_receive_backend q t e).2 with
    | Received _ _ =>
        news L q e = S (news L q e') /\ (forall q', q' <> q -> news L q' e' = news L q' e) /\
        (forall q', content L q' e' = content L q' e) /\ pending L e' = pending L e
    | ReceiveFailed _ _ => news L q e = 0 /\ same_load e e'
    end;
  serve_schedule t e :
    let e' := platform_scheduleTask t e in
    pending L e' = {[+ ticket t +]} ⊎ pending L e /\
    (forall q, content L q e' = content L q e) /\ (forall q, news L q e' = news L q e);
  serve_ready e :
    let e' := (platform_getNextReadyTask e).1 in
    (forall q, content L q e' = content L q e) /\ (forall q, news L q e' = news L q e) /\
    match (platform_getNextReadyTask e).2 with
    | Some t => pending L e = {[+ ticket t +]} ⊎ pending L e'
    | None => pending L e = ∅ /\ pending L e' = ∅
    end;
  serve_send q m e :
    let e' := (platform_send q m e).1 in
    (platform_send q m e).2 = StatusOk /\ pending L e' = pending L e /\
    content L q e' = content L q e ++ message_tickets m /\
    (forall q', q' <> q -> content L q' e' = content L q' e) /\
    forall q', news L q' e' <= news L q' e + message_statuses m;
  inert_now : inert platform_now;
  inert_sleep ms : inert (fun e => (platform_sleep ms e, tt));
  inert_qubits d : inert (platform_qubitsNum d);
  inert_status d : inert (platform_status d);
  inert_operations d : inert (platform_operationNames d);
  inert_coupling d : inert (platform_couplingMap d);
  inert_formats d : inert (platform_supportedPayloadFormats d);
  inert_children d : inert (platform_children d);
  inert_submit d req pl : inert (platform_submitJob d req pl);
  inert_wait j s : inert (platform_wait j s);
  inert_counts j : inert (platform_counts j);
  inert_cancel j : inert (platform_cancel j);
  inert_compile src tgt ins con o : inert (platform_compileSource src tgt ins con o);
  inert_ack d : inert (platform_ack d);
}.

(** ** Books *)

(** The flag is read as clear, and the broker takes what it is sent. *)
Definition served (ev : Event) : Prop :=
  match ev with EvLoadFlag b => b = false | EvSend _ _ st => st = StatusOk | _ => True end.

(** Calls that neither move a task nor read the flag. *)
Definition plain (ev : Event) : Prop := match ev with EvLoadFlag _ => False | _ => internal ev end.

(** The statuses published. *)
Definition published (evs : list Event) : nat :=
  sum_list_with (fun ev => match ev with EvSend _ m _ => message_statuses m | _ => 0 end) evs.

(** The books of a stretch of a run, for every queue and for the scheduler. *)
Definition booked_events (e : Env) (evs : list Event) (e' : Env) : Prop :=
  Forall served evs /\
  (forall q, content L q e ++ task_puts q (traffic evs) =
             task_gets q (traffic evs) ++ content L q e') /\
  pending L e ⊎ tickets (tasks_scheduled evs) = tickets (ready_tasks evs) ⊎ pending L e' /\
  (forall q, news L q e' <= news L q e + published evs).

Definition booked {A} (m : M A) : Prop :=
  forall w, exists evs, trace (m w).1 = trace w ++ evs /\ booked_events (env w) evs (env (m w).1).

Lemma booked_events_nil e : booked_events e [] e.
Proof. split_and!; [constructor|intros q; apply app_nil_r|multiset_solver|intros q; cbn; lia]. Qed.

Lemma booked_events_app e evs e1 evs' e2 :
  booked_events e evs e1 -> booked_events e1 evs' e2 -> booked_events e (evs ++ evs') e2.
Proof.
  intros (Hn & Hb & Hp & Hw) (Hn' & Hb' & Hp' & Hw'). split_and!; [by apply Forall_app|..].
  - intros q. rewrite traffic_app, task_puts_app, task_gets_app, app_assoc, Hb.
    by rewrite <- !app_assoc, Hb'.
  - unfold tasks_scheduled, ready_tasks in *. rewrite !omap_app, !tickets_app. multiset_solver.
  - intros q. unfold published in *. rewrite sum_list_with_app. specialize (Hw q). specialize (Hw' q). lia.
Qed.

Lemma booked_ret {A} (a : A) : booked (mret a).
Proof. intros w. exists []. split; [by rewrite app_nil_r|apply booked_events_nil]. Qed.

Lemma booked_out_of_fuel {A} : booked (@out_of_fuel _ A).
Proof. intros w. exists []. split; [by rewrite app_nil_r|apply booked_events_nil]. Qed.

Lemma booked_bind {A B} (m : M A) (k : A -> M B) :
  booked m -> (forall a, booked (k a)) -> booked (m ≫= k).
Proof.
  intros Hm Hk w. destruct (Hm w) as (evs & Ht & Hb). unfold mbind, M_bind.
  destruct (m w) as [w1 [a|]]; cbn in *; [|by exists evs].
  destruct (Hk a w1) as (evs' & Ht' & Hb'). exists (evs ++ evs').
  split; [by rewrite Ht', Ht, app_assoc|]. by eapply booked_events_app.
Qed.

Lemma booked_or_return {A B} (m : result A) (k : A -> M (result B)) :
  (forall a, booked (k a)) -> booked (or_return m k).
Proof. intros Hk. destruct m; [apply Hk|apply booked_ret]. Qed.

Lemma booked_call {A} (f : Env -> Env * A) ev :
  (forall e, booked_events e [ev (f e).2] (f e).1) -> booked (call f ev).
Proof.
  intros Hf w. specialize (Hf (env w)). unfold call. destruct (f (env w)) as [e a]. by exists [ev a].
Qed.

(** A call that does not touch the scheduler. *)
Lemma booked_moves e ev e' :
  served ev -> tasks_scheduled [ev] = [] -> ready_tasks [ev] = [] -> pending L e' = pending L e ->
  (forall q, news L q e' <= news L q e + published [ev]) ->
  (forall q, content L q e ++ task_puts q (traffic [ev]) =
             task_gets q (traffic [ev]) ++ content L q e') ->
  booked_events e [ev] e'.
Proof.
  intros Hn Hs Hr Hp Hw Hc. unfold booked_events. rewrite Hs, Hr, Hp.
  split_and!; [by repeat constructor|done|multiset_solver|done].
Qed.

(** A call that moves no task. *)
Lemma booked_still e ev e' :
  same_load e e' -> served ev -> traffic [ev] = [] -> tasks_scheduled [ev] = [] ->
  ready_tasks [ev] = [] -> booked_events e [ev] e'.
Proof.
  intros (Hc & Hw & Hp) Hn Ht Hs Hr. apply booked_moves; [done..|intros q; rewrite Hw; lia|]. intros q.
  rewrite Ht, Hc. apply app_nil_r.
Qed.

Lemma booked_inert {A} (f : Env -> Env * A) ev :
  inert f -> (forall a, plain (ev a)) -> booked (call f ev).
Proof.
  intros Hf Hev. apply booked_call. intros e. specialize (Hev (f e).2).
  by apply booked_still; [apply Hf|destruct (ev (f e).2)..].
Qed.

Context `{!Serving}.

Lemma booked_load f : booked (load f).
Proof.
  destruct f; [apply booked_ret|]. apply booked_call. intros e. rewrite serve_flag.
  by apply booked_still; [apply inert_flag|..].
Qed.

Lemma booked_schedule t : booked (scheduleTask t).
Proof.
  apply booked_call. intros e. destruct (serve_schedule t e) as (Hp & Hb & Hw).
  split_and!; [by repeat constructor|intros q; cbn -[content]; rewrite Hb; apply app_nil_r| |
    intros q; cbn -[news]; rewrite Hw; lia].
  change (pending L e ⊎ tickets [t] = tickets [] ⊎ pending L (platform_scheduleTask t e)).
  rewrite Hp, tickets_one. change (tickets []) with (∅ : Tickets). multiset_solver.
Qed.

Lemma booked_ready : booked getNextReadyTask.
Proof.
  apply booked_call. intros e. destruct (serve_ready e) as (Hb & Hw & Hp).
  destruct (platform_getNextReadyTask e) as [e' [t|]]; cbn [fst snd] in *;
    (split_and!; [by repeat constructor|intros q; cbn -[content]; rewrite Hb; apply app_nil_r| |
       intros q; cbn -[news]; rewrite Hw; lia]).
  - change (pending L e ⊎ tickets [] = tickets [t] ⊎ pending L e').
    rewrite Hp, tickets_one. change (tickets []) with (∅ : Tickets). multiset_solver.
  - change (pending L e ⊎ tickets [] = tickets [] ⊎ pending L e').
    destruct Hp as [-> ->]. multiset_solver.
Qed.

Lemma booked_send `{WireMessage A} (m : A) q : booked (send m q).
Proof.
  unfold send, CommunicationHandler.send. apply booked_bind; [|intros ?; apply booked_ret].
  apply booked_bind; [|intros []; apply booked_ret]. apply booked_call. intros e.
  destruct (serve_send q (wire m) e) as (Hok & Hp & Hc & Ho & Hw). rewrite Hok.
  apply booked_moves; [done..|intros q'; cbn -[news]; specialize (Hw q'); lia|]. intros q'. unfold task_puts, task_gets. cbn -[content].
  rewrite app_nil_r. destruct (String.eqb_spec q q') as [<-|Hne]; [by rewrite Hc|].
  rewrite Ho by (by apply not_eq_sym). apply app_nil_r.
Qed.

Lemma booked_receive_task q timeout :
  booked (receiveExtended platform_receive_task wire q timeout).
Proof.
  apply booked_call. intros e. pose proof (serve_task q timeout e) as Hs.
  destruct (platform_receive_task q timeout e) as [e' [t d|st reason]]; cbn [fst snd] in *.
  - destruct Hs as (Hc & Ho & Hw & Hp). apply booked_moves; [done..|intros q'; rewrite Hw; lia|]. intros q'.
    unfold task_puts, task_gets. cbn -[content]. rewrite app_nil_r.
    destruct (String.eqb_spec q q') as [<-|Hne]; [by rewrite Hc|].
    by rewrite Ho by (by apply not_eq_sym).
  - by apply booked_still; [apply Hs|..].
Qed.

Lemma booked_receive_status q timeout :
  booked (receiveExtended platform_receive_backend wire q timeout).
Proof.
  apply booked_call. intros e. pose proof (serve_status q timeout e) as Hs.
  destruct (platform_receive_backend q timeout e) as [e' [b d|st reason]]; cbn [fst snd] in *.
  - destruct Hs as (Hw & Ho & Hc & Hp). apply booked_moves; [done..| |].
    { intros q'. destruct (decide (q' = q)) as [->|Hne]; [lia|rewrite Ho by done; lia]. }
    intros q'.
    unfold task_puts, task_gets. cbn -[content]. rewrite Hc.
    by destruct (String.eqb q q'); rewrite app_nil_r.
  - by apply booked_still; [apply Hs|..].
Qed.
End Serving.

Create HintDb serve.
#[export] Hint Resolve inert_now inert_sleep inert_qubits inert_status inert_operations inert_coupling
  inert_formats inert_children inert_submit inert_wait inert_counts inert_cancel inert_compile
  inert_ack : serve.

(** Show that a computation keeps the books by following its structure. *)
Ltac booking :=
  repeat first
    [ solve [eauto 2 with serve]
    | apply booked_ret | apply booked_out_of_fuel
    | apply booked_load; assumption
    | apply booked_ready; assumption
    | apply booked_schedule; assumption
    | apply booked_bind; [|intros ?]
    | apply booked_or_return; intros ?
    | apply booked_inert; [solve [eauto 2 with serve]|intros; exact I]
    | match goal with |- booked _ (match ?x with _ => _ end) => destruct x end ].

Section BookedStages.
Context `{ProtocolEnums} `{CompilerFormats} `{Platform}.
Context (L : Load) `{!Serving L}.

Abbreviation booked := (booked L).

Lemma fromSubmitter_booked d q : booked (fromSubmitter d q).
Proof. unfold fromSubmitter. cbv zeta. booking. Qed.

Lemma refreshOwnDeviceStatus_booked d q r th : booked (refreshOwnDeviceStatus d q r th).
Proof. pose proof fromSubmitter_booked. unfold refreshOwnDeviceStatus. booking. Qed.

Lemma submitQuantumTask_booked task d f : booked (submitQuantumTask task d f).
Proof.
  assert (forall jobs, booked (cancelAll jobs)).
  { intros jobs. induction jobs; cbn [cancelAll]; booking. }
  assert (forall format pl indices jobs, booked (submitCircuits task d f format pl indices jobs)).
  { intros format pl indices. induction indices; intros jobs; cbn [submitCircuits]; booking. }
  unfold submitQuantumTask. booking.
Qed.

Lemma collectQuantumResult_booked fuel task jobs timeout f :
  booked (collectQuantumResult fuel task jobs timeout f).
Proof.
  assert (forall job bounded timeout started, booked (waitForJob fuel job bounded timeout started f)).
  { intros job bounded tm started. clear jobs. induction fuel; cbn [waitForJob]; booking. }
  assert (forall bounded h, booked (collectJobs fuel jobs bounded timeout f h)).
  { intros bounded. induction jobs; intros h; cbn [collectJobs]; booking. }
  unfold collectQuantumResult. booking.
Qed.

Lemma executeQuantumTask_booked fuel task d timeout f :
  booked (executeQuantumTask fuel task d timeout f).
Proof.
  pose proof submitQuantumTask_booked. pose proof collectQuantumResult_booked.
  unfold executeQuantumTask. booking.
Qed.

Lemma compileQuantumTask_booked task b : booked (compileQuantumTask task b).
Proof.
  assert (forall opts files staged, booked (compileCircuitFiles b opts files staged)).
  { intros opts files. induction files; intros staged; cbn [compileCircuitFiles]; booking. }
  unfold compileQuantumTask. booking.
Qed.

Lemma compileAndSchedule_booked task r : booked (compileAndSchedule task r).
Proof. pose proof compileQuantumTask_booked. unfold compileAndSchedule. booking. Qed.

Lemma selectCompileAndSchedule_booked task r policy : booked (selectCompileAndSchedule task r policy).
Proof. pose proof compileAndSchedule_booked. unfold selectCompileAndSchedule. booking. Qed.

Lemma expireNow_booked r : booked (expireNow r).
Proof. unfold expireNow. booking. Qed.

Lemma sendResult_booked task qr : booked (sendResult task qr).
Proof. by apply booked_send. Qed.

Lemma sendFailure_booked task e : booked (sendFailure task e).
Proof. by apply booked_send. Qed.

Lemma settle_booked (prepare : M (result unit * QuantumTask)) :
  booked prepare -> booked (prepare ≫= settle).
Proof.
  intros Hp. apply booked_bind; [done|]. intros [[]]; [apply booked_ret|apply sendFailure_booked].
Qed.

Lemma submitReady_booked fuel d acc : booked (Worker.submitReady fuel d acc).
Proof.
  pose proof submitQuantumTask_booked. pose proof sendFailure_booked.
  revert acc. induction fuel; intros acc; cbn [Worker.submitReady]; booking.
Qed.

Lemma collectAll_booked jobFuel config subs : booked (Worker.collectAll jobFuel config subs).
Proof.
  pose proof collectQuantumResult_booked. pose proof sendFailure_booked. pose proof sendResult_booked.
  induction subs as [|[t js] subs IH]; cbn [Worker.collectAll]; booking.
Qed.

Lemma executeReady_booked fuel jobFuel config d any :
  booked (Standalone.executeReady fuel jobFuel config d any).
Proof.
  pose proof executeQuantumTask_booked. pose proof sendFailure_booked. pose proof sendResult_booked.
  revert any. induction fuel; intros any; cbn [Standalone.executeReady]; booking.
Qed.

(** Receiving, at a message type whose receives keep the books. *)
Lemma receive_booked `{!WireMessage A, !Receivable A} fuel q timeout f :
  (forall t, booked (receiveExtended (A := A) platform_receive wire q t)) ->
  booked (CommunicationHandler.receive (A := A) fuel q timeout f).
Proof.
  intros Hr. unfold CommunicationHandler.receive. cbv zeta.
  induction fuel; cbn [CommunicationHandler.receiveLoop]; booking.
Qed.

Lemma receiveNext_booked {S} `{!WireMessage A, !Receivable A} fuel q timeout f (handle : A -> S -> M S) s :
  (forall t, booked (receiveExtended (A := A) platform_receive wire q t)) ->
  (forall m s, booked (handle m s)) -> booked (receiveNext fuel q timeout f handle s).
Proof.
  intros Hr Hh. unfold receiveNext. apply booked_bind; [by apply receive_booked|]. intros ?. booking.
Qed.

Lemma drainQueue_booked {S} `{!WireMessage A, !Receivable A} fuel q f (handle : A -> S -> M S) s :
  (forall t, booked (receiveExtended (A := A) platform_receive wire q t)) ->
  (forall m s, booked (handle m s)) -> booked (drainQueue fuel q f handle s).
Proof.
  intros Hr Hh. unfold drainQueue. generalize false. revert s.
  induction fuel as [|fuel IH]; intros s any; cbn [drainLoop]; [apply booked_out_of_fuel|].
  apply booked_bind; [by apply receiveNext_booked|]. intros [[] s']; [apply IH|apply booked_ret].
Qed.
End BookedStages.

(** ** Receiving what there is *)

Section ServedReceives.
Context `{Platform} (L : Load) `{!Serving L}.

(** Messages of one type: [count] of them are on a queue, receiving one leaves
    the [rest] of the environment alone, and [V] holds of those received. *)
Context `{!WireMessage A, !Receivable A} (count : string -> Env -> nat) (rest : Env -> Env -> Prop)
  (V : A -> Prop).
Hypothesis load_count : forall e e', same_load L e e' ->
  (forall q, count q e' = count q e) /\ rest e e'.
Hypothesis receive_serves : forall q t e,
  let e' := (platform_receive (A := A) q t e).1 in
  match (platform_receive (A := A) q t e).2 with
  | Received m _ => count q e = S (count q e') /\ rest e e' /\ V m
  | ReceiveFailed _ _ => count q e = 0 /\ same_load L e e'
  end.

(** What else is to hold, which receiving does not affect. *)
Context (queue : string) (R : nat -> Env -> Prop).
Hypothesis R_closed : forall p e e', rest e e' -> R p e -> R p e'.

Definition queued_is (n p : nat) (e : Env) : Prop := count queue e = n /\ R p e.

Lemma queued_is_load n p e e' : same_load L e e' -> queued_is n p e -> queued_is n p e'.
Proof.
  intros [Hc Hr]%load_count [Hn HR]. split; [by rewrite Hc|]. by apply (R_closed p e).
Qed.

Lemma load_serves n p :
  returns (queued_is n p) (load terminationRequested) (fun stop e => stop = false /\ queued_is n p e).
Proof.
  apply returns_call. intros e He. split; [apply (serve_flag L)|].
  eapply queued_is_load; [|exact He]. apply (inert_flag L).
Qed.

Definition got (res : result (option A)) : bool :=
  match res with Value (Some _) => true | _ => false end.

(** A message is received exactly when there is one. *)
Lemma receive_delivers fuel timeout n p :
  timeout <> WaitForever ->
  returns (queued_is n p)
    (CommunicationHandler.receive (A := A) (S fuel) queue timeout terminationRequested)
    (fun res e => (forall m, res = Value (Some m) -> V m) /\
       match n with
       | 0 => got res = false /\ queued_is 0 p e
       | S n' => got res = true /\ queued_is n' p e
       end).
Proof.
  intros Ht. unfold CommunicationHandler.receive. cbv zeta. rewrite (proj2 (Z.eqb_neq _ _)) by done.
  cbn [CommunicationHandler.receiveLoop]. eapply returns_bind; [apply load_serves|].
  intros stop. apply returns_pre. intros ->. eapply returns_bind with (R := fun received e =>
    match received with
    | Received m _ => V m /\ match n with 0 => False | S n' => queued_is n' p e end
    | ReceiveFailed _ _ => n = 0 /\ queued_is 0 p e
    end).
  { apply returns_call. intros e [Hn HR]. pose proof (receive_serves queue timeout e) as Hs.
    destruct (platform_receive queue timeout e) as [e' [m d|st reason]]; cbn [fst snd] in *.
    - destruct Hs as (Hc & Ho & Hv). split; [done|]. rewrite Hn in Hc. destruct n as [|n']; [done|].
      split; [by injection Hc as ->|by apply (R_closed p e)].
    - destruct Hs as (H0' & Hs). rewrite Hn in H0'. split; [done|]. subst n.
      by eapply queued_is_load. }
  intros [m d|st reason].
  - eapply returns_bind with (R := fun _ e => V m /\ match n with 0 => False | S n' => queued_is n' p e end).
    { apply returns_call. intros e [Hv He]. split; [done|]. destruct n as [|n']; [done|].
      eapply queued_is_load; [|exact He]. apply (inert_ack L). }
    intros st. apply returns_ret. intros e [Hv He]. split; [by intros ? [= <-]|].
    by destruct n as [|n'].
  - destruct (negb (bool_decide _)); cbn [negb];
      apply returns_ret; intros e [-> He]; split; try done; by split.
Qed.

(** A handler of one message, that keeps an invariant [I] of the state. *)
Definition handles_one {S} (I : S -> Prop) (handle : A -> S -> M S) : Prop :=
  forall m s n p, V m -> I s ->
  returns (queued_is n p) (handle m s) (fun s' e => I s' /\ queued_is n (Datatypes.S p) e).

Lemma receiveNext_delivers {S} fuel timeout (I : S -> Prop) (handle : A -> S -> M S) s n p :
  timeout <> WaitForever -> handles_one I handle -> I s ->
  returns (queued_is n p)
    (receiveNext (Datatypes.S fuel) queue timeout terminationRequested handle s)
    (fun res e => I res.2 /\
       match n with
       | 0 => res.1 = false /\ queued_is 0 p e
       | Datatypes.S n' => res.1 = true /\ queued_is n' (Datatypes.S p) e
       end).
Proof.
  intros Ht Hh HI. unfold receiveNext. eapply returns_bind; [by apply receive_delivers|].
  intros res. apply returns_pre. intros Hv. destruct res as [[m|]|err]; cbn [got].
  - destruct n as [|n'].
    { apply returns_mono with (P := fun _ => False) (Q := fun _ _ => False); [by intros w []| |done].
      by intros e [? _]. }
    apply returns_pre. intros _. eapply returns_bind; [by apply Hh; [apply Hv|]|].
    intros s'. apply returns_ret. intros e [HI' He]. cbn. by split_and!.
  - apply returns_ret. intros e He. split; [done|]. destruct n; [by destruct He as [_ ?]|by destruct He].
  - apply returns_ret. intros e He. split; [done|]. destruct n; [by destruct He as [_ ?]|by destruct He].
Qed.

(** A drain empties the queue. *)
Lemma drain_delivers {S} fuel (I : S -> Prop) (handle : A -> S -> M S) s n p :
  handles_one I handle -> I s -> n < fuel ->
  returns (queued_is n p) (drainQueue fuel queue terminationRequested handle s)
    (fun res e => I res.2 /\ queued_is 0 (n + p) e).
Proof.
  intros Hh. unfold drainQueue. generalize false. revert s n p.
  induction fuel as [|fuel IH]; intros s n p any HI Hf; [lia|]. cbn [drainLoop].
  eapply returns_bind; [by apply (receiveNext_delivers 0 0 I handle s n p)|].
  intros [got' s']. cbn [fst snd]. apply returns_pre. intros HI'. destruct n as [|n'].
  - apply returns_pre. intros ->. apply returns_ret. intros e He. by split.
  - apply returns_pre. intros ->. eapply returns_mono; [apply (IH s' n' (Datatypes.S p) true HI'); lia|done|].
    intros res e. by rewrite <- plus_n_Sm.
Qed.
End ServedReceives.
