(* ===== verification/Progress.v ===== *)
(** * Progress: the daemons work off what is queued

    Shutdown.v shows that the daemons stop when they are told to; here, that
    while they are not told to they get their work done. Where the broker
    delivers what it holds and every job ends, a selector empties its intake in
    one turn, a standalone daemon in one turn, and a worker takes one task per
    turn. CatchUp.v draws the conclusions for whole stretches of a run. *)

From stdpp Require Import gmultiset.
From S2P Require Import Prelude Error Externals World BackendWrapper BackendRegistry.
From S2P Require Import PublicationThrottle RunnersSelection RunnersCompilation RunnersExecution.
From S2P Require Import Config ConfigProperties CommunicationHandler DaemonMessaging.
From S2P Require Import Logger Daemon Traces Selector Standalone Worker WorkLoop Shutdown.
From S2P Require Import Broker Deployment Ordering Halting Serving.

(** ** Turns *)

Section ServedTurns.
Context `{ProtocolEnums} `{CompilerFormats} `{Platform} (L : Load) `{!Serving L}.
Context (queue : string).

Abbreviation booked := (booked L).

(** [n] tasks on the queue, and at most [p] in the scheduler. *)
Definition load_at : nat -> nat -> Env -> Prop :=
  queued_is (backlog L) queue (fun p e => size (pending L e) <= p).

(** What the books of a computation that returns say. *)
Lemma booked_returns {A} (m : M A) (Q : list Event -> option A -> Prop) n p :
  halts m -> booked m -> wp m Q ->
  returns (load_at n p) m (fun a e => exists e0 evs,
    load_at n p e0 /\ booked_events L e0 evs e /\ Q evs (Some a)).
Proof.
  intros Hh Hb Hq w Hl. destruct (Hh w) as [a Ha], (Hb w) as (evs & Ht & Hbk),
    (Hq w) as (evs' & Ht' & HQ).
  rewrite Ht in Ht'. apply app_inv_head in Ht' as <-. rewrite Ha in HQ.
  exists a. split; [done|]. by exists (env w), evs.
Qed.

Lemma gets_nil q evs : tasks_received evs = [] -> task_gets q (traffic evs) = [].
Proof. intros Hr. pose proof (gets_received q evs) as Hs. rewrite Hr in Hs. by apply sublist_nil_r in Hs. Qed.

Lemma puts_nil q evs : tasks_sent evs = [] -> task_puts q (traffic evs) = [].
Proof. intros Hr. pose proof (puts_sent q evs) as Hs. rewrite Hr in Hs. by apply sublist_nil_r in Hs. Qed.

(** Without crossings the load stays. *)
Definition uncrossed (evs : list Event) : Prop :=
  tasks_received evs = [] /\ task_puts queue (traffic evs) = [] /\ tasks_scheduled evs = [] /\
  ready_tasks evs = [].

Lemma uncrossed_returns {A} (m : M A) (Q : A -> Prop) n p :
  halts m -> booked m ->
  wp m (fun evs o => Forall served evs -> forall a, o = Some a -> Q a /\ uncrossed evs) ->
  returns (load_at n p) m (fun a e => Q a /\ load_at n p e).
Proof.
  intros Hh Hb Hq. eapply returns_mono; [by apply (booked_returns m _ n p Hh Hb Hq)|done|].
  intros a e (e0 & evs & [Hn Hp] & (Hnt & Hbk & Hpd & _) & HQ).
  destruct (HQ Hnt a eq_refl) as (HQa & Hrec & Hput & Hsch & Hrdy).
  specialize (Hbk queue). rewrite Hput, (gets_nil queue _ Hrec), app_nil_r in Hbk.
  rewrite Hsch, Hrdy in Hpd. split; [done|]. unfold load_at, queued_is, backlog in *.
  cbn in Hbk. rewrite <- Hbk. split; [done|].
  by replace (pending L e) with (pending L e0) by multiset_solver.
Qed.

Lemma internal_uncrossed evs : Forall internal evs -> uncrossed evs.
Proof.
  intros Hi%crossings_internal. unfold crossings in Hi. injection Hi as H1' _ H3 H4 H5.
  by split_and!; [|apply puts_nil|..].
Qed.

Lemma silent_returns {A} (m : M A) n p :
  halts m -> booked m -> emits internal m -> returns (load_at n p) m (fun _ => load_at n p).
Proof.
  intros Hh Hb Hi. eapply returns_mono.
  - apply (uncrossed_returns m (fun _ => True) n p Hh Hb). eapply wp_mono; [exact Hi|].
    intros evs o He _ a _. split; [done|]. by apply internal_uncrossed.
  - done.
  - by intros a e [_ ?].
Qed.

Lemma served_flag evs : Forall served evs -> EvLoadFlag true ∉ evs.
Proof. rewrite Forall_forall. intros Hn Hin. by specialize (Hn _ Hin). Qed.

(** A stage that may report a shutdown does not. *)
Lemma honest_returns {A} (m : M (result A)) n p :
  halts m -> booked m -> wp m shutdown_honest ->
  returns (load_at n p) m (fun res e =>
    (forall err, res = Unexpected err -> kind err <> ShutdownRequested) /\ load_at n p e).
Proof.
  intros Hh Hb Hs. apply (uncrossed_returns m (fun res =>
    forall err, res = Unexpected err -> kind err <> ShutdownRequested) n p Hh Hb).
  eapply wp_mono; [exact Hs|]. intros evs o [Hi He] Hnt a ->.
  split; [|by apply internal_uncrossed]. intros err -> Hk.
  by apply (served_flag evs Hnt), (He err).
Qed.

Lemma send_returns `{WireMessage A} (m : A) q n p :
  (forall t, wire m <> MsgTask t) ->
  returns (load_at n p) (send m q) (fun _ => load_at n p).
Proof.
  intros Hm. eapply returns_mono.
  - apply (uncrossed_returns (send m q) (fun _ => True) n p (send_halts m q)).
    + by apply booked_send.
    + eapply wp_mono; [apply send_wp|]. intros evs o [_ [st ->]] _ a _.
      split; [done|]. split_and!; try done. apply puts_nil. cbn. destruct (wire m); try done.
      by destruct (Hm t).
  - done.
  - by intros a e [_ ?].
Qed.

Lemma load_at_weaken n p p' e : load_at n p e -> p <= p' -> load_at n p' e.
Proof. unfold load_at, queued_is. lia. Qed.

(** An intake handler: at most one task is scheduled. *)
Lemma settle_returns_load (prepare : M (result unit * QuantumTask)) task n p :
  halts prepare -> booked prepare ->
  wp (prepare ≫= settle) (fun evs o => o = Some tt /\ settles task evs) ->
  returns (load_at n p) (prepare ≫= settle) (fun _ => load_at n (S p)).
Proof.
  intros Hh Hb Hs. eapply returns_mono.
  - apply (booked_returns _ _ n p (settle_halts _ Hh) (settle_booked L _ Hb) Hs).
  - done.
  - intros a e (e0 & evs & [Hn Hp] & (_ & Hbk & Hpd & _) & _ & o & _ & Hc). cbn beta in Hp.
    unfold crossings in Hc. injection Hc as Hrec _ Htsk Hsch Hrdy.
    specialize (Hbk queue). rewrite (gets_nil queue _ Hrec), (puts_nil queue _ Htsk), app_nil_r in Hbk.
    rewrite Hsch, Hrdy in Hpd. unfold load_at, queued_is, backlog in *. cbn in Hbk.
    rewrite <- Hbk. split; [done|].
    replace (pending L e) with (pending L e0 ⊎ tickets (scheduled_of [o])) by multiset_solver.
    rewrite gmultiset_size_disj_union, tickets_size. destruct o; cbn; lia.
Qed.

Lemma worker_prepareTask_handles_one r :
  handles_one (backlog L) (fun _ => True) queue (fun p e => size (pending L e) <= p) (fun _ => True)
    (Worker.prepareTask r).
Proof.
  intros task [] n p _ _. eapply returns_mono.
  - apply (settle_returns_load (compileAndSchedule task r) task n p (compileAndSchedule_halts task r)).
    + by apply compileAndSchedule_booked.
    + by apply compileAndSchedule_settles.
  - done.
  - done.
Qed.

Lemma standalone_prepareTask_handles_one config r :
  handles_one (backlog L) (fun _ => True) queue (fun p e => size (pending L e) <= p) (fun _ => True)
    (Standalone.prepareTask config r).
Proof.
  intros task [] n p _ _. eapply returns_mono.
  - apply (settle_returns_load (selectCompileAndSchedule task r _) task n p).
    + apply selectCompileAndSchedule_halts.
    + by apply selectCompileAndSchedule_booked.
    + apply selectCompileAndSchedule_settles.
  - done.
  - done.
Qed.

Lemma ready_serves n p :
  returns (load_at n p) getNextReadyTask (fun next e =>
    match next with Some _ => 0 < p /\ load_at n (pred p) e | None => load_at n 0 e end).
Proof.
  apply returns_call. intros e [Hn Hp]. destruct (serve_ready L e) as (Hb & _ & Hr). cbn beta in Hp.
  unfold load_at, queued_is, backlog in *. rewrite Hb.
  destruct (platform_getNextReadyTask e) as [e' [t|]]; cbn [fst snd] in *.
  - rewrite Hr, gmultiset_size_disj_union, gmultiset_size_singleton in Hp. lia.
  - destruct Hr as [_ ->]. by rewrite gmultiset_size_empty.
Qed.

Lemma submitReady_serves fuel d acc n p :
  p < fuel -> returns (load_at n p) (Worker.submitReady fuel d acc) (fun _ => load_at n 0).
Proof.
  revert acc p. induction fuel as [|fuel IH]; intros acc p Hp; [lia|]. cbn [Worker.submitReady].
  eapply returns_bind; [apply ready_serves|]. intros [t|]; [|by apply returns_ret].
  apply returns_pre. intros Hpos. eapply returns_bind.
  { apply (honest_returns _ n (pred p)); [apply submitQuantumTask_halts|
      by apply submitQuantumTask_booked|apply submit_honest]. }
  intros [js|e]; apply returns_pre; intros Hk; [apply IH; lia|].
  rewrite bool_decide_eq_false_2 by (by apply Hk).
  eapply returns_bind; [by apply (send_returns _ _ n (pred p))|]. intros ?. apply IH. lia.
Qed.

Lemma executeReady_serves fuel jobFuel config d any n p :
  collections_return jobFuel (jobWaitTimeout (submitter config)) -> p < fuel ->
  returns (load_at n p) (Standalone.executeReady fuel jobFuel config d any) (fun _ => load_at n 0).
Proof.
  intros Hcol. revert any p. induction fuel as [|fuel IH]; intros any p Hp; [lia|].
  cbn [Standalone.executeReady].
  eapply returns_bind; [apply ready_serves|]. intros [t|]; [|by apply returns_ret].
  apply returns_pre. intros Hpos. eapply returns_bind.
  { apply (honest_returns _ n (pred p)); [|by apply executeQuantumTask_booked|].
    - unfold executeQuantumTask. apply halts_bind; [apply submitQuantumTask_halts|]. intros [js|e];
        [apply Hcol|apply halts_ret].
    - eapply wp_mono; [apply execute_honest|]. by intros evs o [? _]. }
  intros [qr|e]; apply returns_pre; intros Hk.
  - eapply returns_bind; [by apply (send_returns _ _ n (pred p))|]. intros ?. apply IH. lia.
  - rewrite bool_decide_eq_false_2 by (by apply Hk).
    eapply returns_bind; [by apply (send_returns _ _ n (pred p))|]. intros ?. apply IH. lia.
Qed.

Lemma collectAll_serves jobFuel config subs n p :
  collections_return jobFuel (jobWaitTimeout (submitter config)) ->
  returns (load_at n p) (Worker.collectAll jobFuel config subs) (fun _ => load_at n p).
Proof.
  intros Hcol. induction subs as [|[t js] subs IH]; cbn [Worker.collectAll]; [by apply returns_ret|].
  eapply returns_bind.
  { apply (honest_returns _ n p); [apply Hcol|by apply collectQuantumResult_booked|].
    eapply wp_mono; [apply collect_honest|]. by intros evs o [? _]. }
  intros [qr|e]; apply returns_pre; intros Hk.
  - eapply returns_bind; [by apply (send_returns _ _ n p)|]. intros ?. apply IH.
  - rewrite bool_decide_eq_false_2 by (by apply Hk).
    eapply returns_bind; [by apply (send_returns _ _ n p)|]. intros ?. apply IH.
Qed.

(** Receiving a task, with the load it leaves. *)
Definition same_pending (e e' : Env) : Prop := pending L e' = pending L e.

Lemma task_load_count e e' :
  same_load L e e' -> (forall q, backlog L q e' = backlog L q e) /\ same_pending e e'.
Proof. intros (Hb & _ & Hp). split; [|done]. intros q. unfold backlog. by rewrite Hb. Qed.

Lemma task_receive_serves q t e :
  let e' := (platform_receive_task q t e).1 in
  match (platform_receive_task q t e).2 with
  | Received m _ => backlog L q e = S (backlog L q e') /\ same_pending e e' /\ True
  | ReceiveFailed _ _ => backlog L q e = 0 /\ same_load L e e'
  end.
Proof.
  pose proof (serve_task L q t e) as Hs. cbv zeta in *. unfold backlog.
  destruct (platform_receive_task q t e).2; [destruct Hs as (-> & _ & _ & ?)|destruct Hs as [-> ?]]; done.
Qed.

Lemma pending_closed (p : nat) (e e' : Env) :
  same_pending e e' -> size (pending L e) <= p -> size (pending L e') <= p.
Proof. by intros ->. Qed.

Lemma worker_turn_serves fuel jobFuel config d s n p :
  queue = compiler_queue (compiler config) -> taskReceiveTimeout (compiler config) <> WaitForever ->
  collections_return jobFuel (jobWaitTimeout (submitter config)) -> S p < fuel ->
  returns (load_at n p) (worker_turn fuel jobFuel config d s) (fun _ => load_at (pred n) 0).
Proof.
  intros Hq Ht Hcol Hf. unfold worker_turn, Worker.turn, Worker.intakeAndSubmit, Worker.collectAndPause.
  rewrite <- Hq. eapply returns_bind.
  { eapply returns_bind; [apply (silent_returns _ n p); [apply refreshOwnDeviceStatus_halts
      |by apply refreshOwnDeviceStatus_booked|apply refreshOwnDeviceStatus_silent]|].
    intros [[st r1] th1]. eapply returns_bind with (R := fun _ => load_at n p).
    { destruct st; [by apply send_returns|by apply returns_ret]. }
    intros ?. eapply returns_bind; [apply (silent_returns _ n p); [apply expireNow_halts
      |by apply expireNow_booked|unfold expireNow; silent]|]. intros r2.
    eapply returns_bind with (R := fun _ => load_at (pred n) (S p)).
    { destruct fuel as [|fuel]; [lia|]. eapply returns_mono.
      - apply (receiveNext_delivers L (backlog L) same_pending (fun _ : QuantumTask => True)
          task_load_count task_receive_serves queue (fun p e => size (pending L e) <= p)
          pending_closed fuel _ (fun _ => True) _ tt n p Ht (worker_prepareTask_handles_one r2) I).
      - done.
      - intros res e [_ He]. destruct n as [|n']; [|by destruct He].
        apply (load_at_weaken _ p); [by destruct He|lia]. }
    intros got'. eapply returns_bind; [by apply (submitReady_serves fuel d [] (pred n) (S p))|].
    intros subs. apply returns_ret with (Q := fun _ => load_at (pred n) 0). done. }
  intros [[[r1 th1] got'] subs]. eapply returns_bind with (R := fun _ => load_at (pred n) 0).
  { eapply returns_bind; [by apply (collectAll_serves jobFuel config subs (pred n) 0)|]. intros ?.
    destruct (negb got'); [|by apply returns_ret].
    apply silent_returns; [apply halts_call|apply booked_inert; [eauto 2 with serve|done]|silent]. }
  intros ?. by apply returns_ret.
Qed.

Lemma standalone_turn_serves fuel jobFuel config d s n p :
  queue = qrmciQueue (common config) ->
  collections_return jobFuel (jobWaitTimeout (submitter config)) -> n + p < fuel ->
  returns (load_at n p) (standalone_turn fuel jobFuel config d s) (fun _ => load_at 0 0).
Proof.
  intros Hq Hcol Hf. unfold standalone_turn, Standalone.turn. rewrite <- Hq.
  eapply returns_bind; [apply (silent_returns _ n p); [apply refreshOwnDeviceStatus_halts
    |by apply refreshOwnDeviceStatus_booked|apply refreshOwnDeviceStatus_silent]|].
  intros [[st r1] th1]. eapply returns_bind; [apply (silent_returns _ n p); [apply expireNow_halts
    |by apply expireNow_booked|unfold expireNow; silent]|]. intros r2.
  eapply returns_bind.
  { apply (drain_delivers L (backlog L) same_pending (fun _ : QuantumTask => True)
      task_load_count task_receive_serves queue (fun p e => size (pending L e) <= p)
      pending_closed fuel (fun _ => True) _ tt n p (standalone_prepareTask_handles_one config r2) I). lia. }
  intros got'. apply returns_pre. intros _.
  eapply returns_bind; [by apply (executeReady_serves fuel jobFuel config d false 0 (n + p))|].
  intros executed. destruct (negb got'.1 && negb executed); [|by apply returns_ret].
  eapply returns_bind; [apply (silent_returns _ 0 0); [apply halts_call
    |apply booked_inert; [eauto 2 with serve|done]|silent]|]. intros ?. by apply returns_ret.
Qed.

(** The books of a turn. *)
Lemma worker_turn_booked fuel jobFuel config d s : booked (worker_turn fuel jobFuel config d s).
Proof.
  unfold worker_turn, Worker.turn, Worker.intakeAndSubmit, Worker.collectAndPause.
  pose proof (refreshOwnDeviceStatus_booked L). pose proof (expireNow_booked L).
  pose proof (submitReady_booked L). pose proof (collectAll_booked L).
  apply booked_bind; [|intros [[[r1 th1] got'] subs]; booking].
  apply booked_bind; [done|]. intros [[st r1] th1]. apply booked_bind; [destruct st; [by apply booked_send|booking]|]. intros _.
  apply booked_bind; [done|]. intros r2. apply booked_bind; [|intros ?; booking].
  apply receiveNext_booked; [done|..].
  - intros t. by apply booked_receive_task.
  - intros task []. apply (settle_booked L (compileAndSchedule task r2)).
    by apply compileAndSchedule_booked.
Qed.

Lemma standalone_turn_booked fuel jobFuel config d s : booked (standalone_turn fuel jobFuel config d s).
Proof.
  unfold standalone_turn, Standalone.turn. pose proof (refreshOwnDeviceStatus_booked L).
  pose proof (expireNow_booked L). pose proof (executeReady_booked L).
  apply booked_bind; [done|]. intros [[st r1] th1]. apply booked_bind; [done|]. intros r2.
  apply booked_bind; [|intros ?; booking]. apply drainQueue_booked; [done|..].
  - intros t. by apply booked_receive_task.
  - intros task []. apply (settle_booked L (selectCompileAndSchedule task r2 _)).
    by apply selectCompileAndSchedule_booked.
Qed.

(** Turns of which each takes a task, one after the other. *)
Lemma turns_serve {S} (turn : S -> M S) k s w n :
  (forall s n, returns (load_at n 0) (turn s) (fun _ => load_at (pred n) 0)) ->
  load_at n 0 (env w) ->
  exists s' w', taken turn k s w s' w' /\ load_at (n - k) 0 (env w').
Proof.
  intros Ht. revert s w n. induction k as [|k IH]; intros s w n Hn.
  { exists s, w. split; [constructor|]. by rewrite Nat.sub_0_r. }
  destruct (load_serves L (backlog L) same_pending task_load_count queue
    (fun p e => size (pending L e) <= p) pending_closed n 0 w Hn) as (stop & Hl & -> & Hn0).
  destruct (load terminationRequested w) as [w0 o] eqn:El. cbn in Hl, Hn0. subst o.
  destruct (Ht s n w0 Hn0) as (s1 & Hs1 & Hn1). destruct (turn s w0) as [w1 o] eqn:Et.
  cbn in Hs1, Hn1. subst o. destruct (IH s1 w1 _ Hn1) as (s' & w' & Hk & Hn').
  exists s', w'. split; [by econstructor|]. by replace (n - Datatypes.S k) with (pred n - k) by lia.
Qed.

Lemma taken_booked {S} (turn : S -> M S) k s w s' w' :
  (forall s, booked (turn s)) -> taken turn k s w s' w' ->
  exists evs, trace w' = trace w ++ evs /\ booked_events L (env w) evs (env w').
Proof.
  intros Hb. induction 1 as [s w|k s w w0 s1 w1 s2 w2 Hload Hturn _ (evs2 & Ht2 & Hb2)].
  { exists []. split; [by rewrite app_nil_r|apply booked_events_nil]. }
  destruct (booked_load L terminationRequested w) as (evs0 & Ht0 & Hb0).
  destruct (Hb s w0) as (evs1 & Ht1 & Hb1). rewrite Hload in Ht0, Hb0. rewrite Hturn in Ht1, Hb1.
  cbn in *. exists (evs0 ++ evs1 ++ evs2). split; [by rewrite Ht2, Ht1, Ht0, !app_assoc|].
  eapply booked_events_app; [exact Hb0|]. by eapply booked_events_app.
Qed.
End ServedTurns.

(** ** The selector's turn *)

(** Every backend in the registry takes its tasks from a queue that [Qn] admits. *)
Definition routes (Qn : string -> Prop) : BackendRegistry -> Prop :=
  registry_all (fun _ b => Qn (getQueueName b)).

Section SelectorTurn.
Context `{ProtocolEnums} `{CompilerFormats} `{Platform} (L : Load) `{!Serving L}.
Context (config : Config) (Qn : string -> Prop).

Abbreviation intake := (qrmciQueue (common config)).
Abbreviation statusQueue := (backendStatusQueue (selector config)).
Abbreviation load_at := (load_at L intake).

(** No backend takes its tasks from the intake itself, and the statuses that are
    delivered name admitted queues. *)
Hypothesis Qn_intake : forall q, Qn q -> q <> intake.
Hypothesis statuses_admitted : forall q t e b d,
  (platform_receive_backend q t e).2 = Received b d -> Qn (be_queue_name b).

(** Tasks go to admitted queues. *)
Definition routed (ev : Event) : Prop :=
  match ev with EvSend q (MsgTask _) _ => Qn q | _ => True end.

(** [m] returns, keeps the books and routes tasks as it should. *)
Definition delivers {A} (P : Env -> Prop) (m : M A) (Q : A -> Env -> Prop) : Prop :=
  forall w, P (env w) -> exists a evs, (m w).2 = Some a /\ trace (m w).1 = trace w ++ evs /\
    booked_events L (env w) evs (env (m w).1) /\ Forall routed evs /\ Q a (env (m w).1).

Lemma delivers_of {A} P (m : M A) Q :
  returns P m Q -> booked L m -> emits routed m -> delivers P m Q.
Proof.
  intros Hr Hb He w HP. destruct (Hr w HP) as (a & Ha & HQ), (Hb w) as (evs & Ht & Hbk),
    (He w) as (evs' & Ht' & Hrt).
  rewrite Ht in Ht'. apply app_inv_head in Ht' as <-. by exists a, evs.
Qed.

Lemma delivers_bind {A B} P (m : M A) (k : A -> M B) R Q :
  delivers P m R -> (forall a, delivers (R a) (k a) Q) -> delivers P (m ≫= k) Q.
Proof.
  intros Hm Hk w HP. destruct (Hm w HP) as (a & evs & Ha & Ht & Hb & He & HR).
  unfold mbind, M_bind. destruct (m w) as [w1 o]. cbn in *. subst o.
  destruct (Hk a w1 HR) as (b & evs' & Hb' & Ht' & Hbk & He' & HQ). exists b, (evs ++ evs').
  split_and!; [done|by rewrite Ht', Ht, app_assoc|by eapply booked_events_app|by apply Forall_app|done].
Qed.

Lemma delivers_pre {A} (P : Env -> Prop) (F : Prop) (m : M A) Q :
  (F -> delivers P m Q) -> delivers (fun e => F /\ P e) m Q.
Proof. intros Hm w [HF HP]. by apply Hm. Qed.

(** The statuses are drained first; the tasks stay where they are. *)
Definition before (n p : nat) : nat -> nat -> Env -> Prop :=
  queued_is (news L) statusQueue (fun _ => load_at n p).

Definition same_tasks (e e' : Env) : Prop :=
  (forall q, content L q e' = content L q e) /\ pending L e' = pending L e.

Lemma status_load_count e e' :
  same_load L e e' -> (forall q, news L q e' = news L q e) /\ same_tasks e e'.
Proof. by intros (Hc & Hn & Hp). Qed.

Lemma status_receive_serves q t e :
  let e' := (platform_receive_backend q t e).1 in
  match (platform_receive_backend q t e).2 with
  | Received b _ => news L q e = S (news L q e') /\ same_tasks e e' /\ Qn (be_queue_name b)
  | ReceiveFailed _ _ => news L q e = 0 /\ same_load L e e'
  end.
Proof.
  pose proof (serve_status L q t e) as Hs. pose proof (statuses_admitted q t e) as Ha. cbv zeta in *.
  destruct (platform_receive_backend q t e).2; [|done]. destruct Hs as (? & _ & ? & ?).
  by split_and!; [|split|eapply Ha].
Qed.

Lemma load_at_closed n p (k : nat) e e' : same_tasks e e' -> load_at n p e -> load_at n p e'.
Proof. intros [Hc Hp]. unfold load_at, queued_is, backlog. by rewrite Hc, Hp. Qed.

Lemma absorbStatus_handles_one n p :
  handles_one (news L) (fun b => Qn (be_queue_name b)) statusQueue (fun _ => load_at n p)
    (routes Qn) Selector.absorbStatus.
Proof.
  intros b r k j Hb Hr. unfold Selector.absorbStatus.
  destruct (fromPublishedStatus b) as [w|e] eqn:E; [|by apply returns_ret].
  apply fromPublishedStatus_value in E as (_ & _ & ->).
  eapply returns_bind with (R := fun _ => before n p k j).
  { apply returns_call. intros e (Hk & Hl). destruct (status_load_count _ _ (inert_now L e)) as [Hn Ht].
    split; [by rewrite Hn|]. by eapply (load_at_closed n p k). }
  intros t. apply returns_ret. intros e He. split; [by apply registry_all_insert|exact He].
Qed.

Lemma absorb_delivers fuel r k n p :
  routes Qn r -> k < fuel ->
  delivers (before n p k 0)
    (drainQueue fuel statusQueue terminationRequested Selector.absorbStatus r)
    (fun res e => routes Qn res.2 /\ load_at n p e).
Proof.
  intros Hr Hk. apply delivers_of.
  - eapply returns_mono.
    + exact (drain_delivers L (news L) same_tasks (fun b => Qn (be_queue_name b))
        status_load_count status_receive_serves statusQueue (fun _ => load_at n p) (load_at_closed n p)
        fuel (routes Qn) _ r k 0 (absorbStatus_handles_one n p) Hr Hk).
    + done.
    + by intros res e (Hr' & _ & He).
  - apply drainQueue_booked; [done|..].
    + intros t. by apply booked_receive_status.
    + intros b r'. unfold Selector.absorbStatus. booking.
  - apply drainQueue_emits.
    + by split_and!.
    + intros b r'. unfold Selector.absorbStatus. silent.
Qed.

Lemma assignTask_booked r task u : booked L (Selector.assignTask config r task u).
Proof.
  unfold Selector.assignTask, sendFailure. pose proof (@booked_send _ L _). booking; by apply booked_send.
Qed.

Lemma assignTask_routed r task u : routes Qn r -> emits routed (Selector.assignTask config r task u).
Proof.
  intros [_ Hq]. unfold Selector.assignTask, sendFailure. destruct (chooseBackend _ _ _) as [name|e];
    [destruct (find r name) as [b|] eqn:Ef|]; apply send_emits; try done.
  intros st. cbn. by eapply Hq.
Qed.

Lemma assignTask_handles_one r :
  routes Qn r ->
  handles_one (backlog L) (fun _ => True) intake (fun p e => size (pending L e) <= p) (fun _ => True)
    (Selector.assignTask config r).
Proof.
  intros Hr task [] n p _ _. eapply returns_mono.
  - apply (uncrossed_returns L intake _ (fun _ => True) n p).
    + unfold Selector.assignTask, sendFailure. pose proof send_halts. halting.
    + apply assignTask_booked.
    + eapply wp_mono; [apply wp_and; [apply (assignTask_handles config r (proj1 Hr) task tt)
        |by apply (assignTask_routed r task tt)]|].
      intros evs o [(u & _ & ev & -> & Ha) Hev] _ a _. split; [done|].
      destruct Ha as [(n' & b & st & _ & _ & ->)|[_ [st ->]]]; split_and!; try done.
      * apply Forall_cons in Hev as [Hev _]. cbn in Hev. unfold task_puts. cbn.
        destruct st; cbn; [|done]. by rewrite (proj2 (String.eqb_neq _ _)) by (by apply Qn_intake).
      * by apply puts_nil.
  - done.
  - intros a e [_ He]. split; [done|]. apply (load_at_weaken L intake n p); [done|lia].
Qed.

Lemma assign_delivers fuel r n p :
  routes Qn r -> n < fuel ->
  delivers (load_at n p)
    (drainQueue fuel intake terminationRequested (Selector.assignTask config r) tt)
    (fun _ => load_at 0 (n + p)).
Proof.
  intros Hr Hn. apply delivers_of.
  - eapply returns_mono.
    + exact (drain_delivers L (backlog L) (same_pending L) (fun _ : QuantumTask => True)
        (task_load_count L) (task_receive_serves L) intake (fun p e => size (pending L e) <= p)
        (pending_closed L) fuel (fun _ => True) _ tt n p (assignTask_handles_one r Hr) I Hn).
    + done.
    + by intros res e [_ He].
  - apply drainQueue_booked; [done|..].
    + intros t. by apply booked_receive_task.
    + intros task u. apply assignTask_booked.
  - apply drainQueue_emits.
    + by split_and!.
    + intros task u. by apply assignTask_routed.
Qed.

Lemma selector_turn_delivers fuel r k n p :
  routes Qn r -> k < fuel -> n < fuel ->
  delivers (before n p k 0) (Selector.turn fuel config r)
    (fun r' e => routes Qn r' /\ load_at 0 (n + p) e).
Proof.
  intros Hr Hk Hn. unfold Selector.turn.
  eapply delivers_bind; [by apply absorb_delivers|]. intros [any r1]. cbn [fst snd].
  apply delivers_pre. intros Hr1.
  eapply delivers_bind with (R := fun r2 e => routes Qn r2 /\ load_at n p e).
  { apply delivers_of; [|by apply expireNow_booked|unfold expireNow; silent]. unfold expireNow.
    eapply returns_bind with (R := fun _ => load_at n p).
    - apply (silent_returns L intake); [apply halts_call|apply booked_inert; [eauto 2 with serve|done]|silent].
    - intros t. apply returns_ret. intros e He. split; [by apply registry_all_expire|done]. }
  intros r2. apply delivers_pre. intros Hr2.
  eapply delivers_bind; [by apply (assign_delivers fuel r2 n p)|]. intros got'.
  apply delivers_of; [|booking|silent]. destruct (negb got'.1); [|by apply returns_ret].
  eapply returns_bind with (R := fun _ => load_at 0 (n + p)).
  { apply (silent_returns L intake); [apply halts_call|apply booked_inert; [eauto 2 with serve|done]|silent]. }
  intros ?. by apply returns_ret.
Qed.
End SelectorTurn.
