(* ===== verification/CatchUp.v ===== *)
(** * Every task is answered

    What the turns of Progress.v add up to: a daemon that is left to work clears
    its queue and answers each task on it exactly once. Interleaving.v has the
    selector and the workers at work together. *)

From stdpp Require Import gmultiset.
From S2P Require Import Prelude Error Externals World BackendWrapper BackendRegistry.
From S2P Require Import PublicationThrottle RunnersSelection RunnersCompilation RunnersExecution.
From S2P Require Import Config ConfigProperties CommunicationHandler DaemonMessaging.
From S2P Require Import Logger Daemon Traces Selector SelectorSpec Standalone Worker WorkLoop Shutdown.
From S2P Require Import Broker Deployment Ordering Halting Serving Progress.

(** A set of tickets from a list of them. *)
Abbreviation ticket_set := (list_to_set_disj : list Ticket -> Tickets).

Lemma ticket_set_size l : size (ticket_set l) = length l.
Proof.
  induction l as [|t l IH]; [done|]. cbn [list_to_set_disj length].
  by rewrite gmultiset_size_disj_union, gmultiset_size_singleton, IH.
Qed.

(** The tickets on several queues. *)
Lemma ticket_set_bind_app (queues : list string) (f g : string -> list Ticket) :
  ticket_set (queues ≫= fun q => f q ++ g q) = ticket_set (queues ≫= f) ⊎ ticket_set (queues ≫= g).
Proof.
  induction queues as [|q queues IH]; [done|]. rewrite !bind_cons, !list_to_set_disj_app, IH.
  multiset_solver.
Qed.

Lemma list_bind_same (queues : list string) (f g : string -> list Ticket) :
  (forall q, q ∈ queues -> f q = g q) -> queues ≫= f = queues ≫= g.
Proof.
  intros Hf. induction queues as [|q queues IH]; [done|]. rewrite !bind_cons, Hf, IH; [done|..].
  - intros q' Hq. apply Hf. by right.
  - by left.
Qed.

Lemma bind_none (queues : list string) (f : string -> list Ticket) :
  (forall q, q ∈ queues -> f q = []) -> queues ≫= f = [].
Proof.
  intros Hf. rewrite (list_bind_same _ f (fun _ => [])) by done. clear Hf.
  by induction queues as [|q queues IH]; [|rewrite bind_cons, IH].
Qed.

Lemma bind_part (queues : list string) (f : string -> list Ticket) q :
  q ∈ queues -> length (f q) <= length (queues ≫= f).
Proof.
  intros (qs & qs' & ->)%list_elem_of_split. rewrite bind_app, bind_cons, !length_app. lia.
Qed.

Lemma bind_one (queues : list string) q0 (ts : list Ticket) :
  NoDup queues -> q0 ∈ queues ->
  ticket_set (queues ≫= fun q => if String.eqb q0 q then ts else []) = ticket_set ts.
Proof.
  induction 1 as [|q queues Hq _ IH]; [by intros ?%not_elem_of_nil|]. rewrite bind_cons, list_to_set_disj_app.
  destruct (String.eqb_spec q0 q) as [->|Hne].
  - intros _. rewrite (bind_none queues); [multiset_solver|]. intros q' Hq'.
    rewrite (proj2 (String.eqb_neq q q')); [done|]. by intros ->.
  - intros [->|Hin]%elem_of_cons; [done|]. rewrite IH by done. multiset_solver.
Qed.

Section CatchingUp.
Context `{ProtocolEnums} `{CompilerFormats} `{Platform} (L : Load) `{!Serving L}.

(** Every job ends: by itself, or because the wait for it is bounded. *)
Definition jobs_end (jobFuel : nat) (timeout : Z) : Prop :=
  (exists slices, JobsFinish slices jobFuel) \/
  (exists clock, SteadyClock clock /\ (0 < timeout <= 9223372036)%Z /\ (timeout <= Z.of_nat jobFuel)%Z).

Lemma jobs_end_return jobFuel timeout : jobs_end jobFuel timeout -> collections_return jobFuel timeout.
Proof.
  intros [[slices Hs]|(clock & Hc & Ht & Hf)].
  - by eapply finishing_collections_return.
  - by eapply bounded_collections_return.
Qed.

(** From [w] to [w'] everything on the queue has been taken, in order, nothing is
    left in the scheduler, the other queues are as they were, and every task has
    been answered at its own destination exactly once. *)
Definition caught_up (queue : string) (w w' : World) : Prop :=
  exists evs, trace w' = trace w ++ evs /\
    content L queue (env w') = [] /\ pending L (env w') = ∅ /\
    (forall q, q <> queue -> content L q (env w') = content L q (env w)) /\
    ticket <$> tasks_received evs = content L queue (env w) /\
    answered_tickets (results_sent evs) = ticket_set (content L queue (env w)).

Lemma gets_elsewhere queue q evs :
  Forall (tasks_from queue) evs -> q <> queue -> task_gets q (traffic evs) = [].
Proof.
  intros Hf Hq. induction Hf as [|ev evs Hev _ IH]; [done|].
  rewrite traffic_cons, task_gets_app, IH, app_nil_r.
  destruct ev; try done; cbn; [by destruct st|]. destruct r as [[]|]; try done; unfold task_gets; cbn in *;
    [subst; by rewrite (proj2 (String.eqb_neq _ _)) by (by apply not_eq_sym)|by destruct (String.eqb _ _)..].
Qed.

Lemma turns_account_sends_no_task evs : turns_account evs -> tasks_sent evs = [].
Proof. by intros (lf & (os & an & rp & _ & _ & _ & _ & _ & Ht) & _). Qed.

(** The scheduler's books, closed: it was empty, and is again. *)
Lemma all_answered evs :
  turns_account evs -> Forall served evs ->
  tickets (tasks_scheduled evs) = tickets (ready_tasks evs) ->
  answered_tickets (results_sent evs) = tickets (tasks_received evs).
Proof.
  intros Ha Hn Hs. assert (honest_scheduler evs) as Hh by (unfold honest_scheduler; by rewrite Hs).
  pose proof (turns_account_owes _ Ha Hh (served_flag _ Hn)) as Ho.
  pose proof (turns_account_sends_no_task _ Ha) as Ht.
  unfold owes_waiting, waiting in Ho. rewrite Hs in Ho.
  rewrite traffic_gets, traffic_puts, traffic_answers, outgoing_tasks, outgoing_replies, Ht in Ho.
  change (tickets (fmap snd [])) with (∅ : Tickets) in Ho. multiset_solver.
Qed.

Lemma taken_emits {S} P (turn : S -> M S) k s w s' w' :
  P (EvLoadFlag false) -> (forall s, emits P (turn s)) -> taken turn k s w s' w' ->
  exists evs, trace w' = trace w ++ evs /\ Forall P evs.
Proof.
  intros HP Ht Hk. refine (taken_trace turn (fun _ => True) (Forall P) k s w s' w' _ _ _ _ I Hk).
  - constructor.
  - by repeat constructor.
  - intros evs evs' He He'. by apply Forall_app.
  - intros st _. eapply wp_mono; [apply Ht|]. by intros evs o He st1 _.
Qed.

(** From [w] to [w'] some of the tasks on the queue have been taken, in order, and
    answered at their own destinations exactly once; nothing is left in the
    scheduler and the other queues are as they were. *)
Definition worked_off (queue : string) (w w' : World) (evs : list Event) : Prop :=
  trace w' = trace w ++ evs /\ pending L (env w') = ∅ /\
  (forall q, q <> queue -> content L q (env w') = content L q (env w)) /\
  content L queue (env w) = (ticket <$> tasks_received evs) ++ content L queue (env w') /\
  answered_tickets (results_sent evs) = ticket_set (ticket <$> tasks_received evs) /\
  (forall q, news L q (env w') <= news L q (env w) + published evs).

Lemma taken_works_off {S} (turn : S -> M S) queue k s w s' w' :
  (forall s, booked L (turn s)) -> (forall s, emits (tasks_from queue) (turn s)) ->
  (forall s, wp (turn s) (fun evs o => turn_accounts evs (is_Some o))) ->
  taken turn k s w s' w' -> pending L (env w) = ∅ -> pending L (env w') = ∅ ->
  exists evs, worked_off queue w w' evs.
Proof.
  intros Hb Hf Hr Hk Hp Hp'. destruct (taken_booked L _ _ _ _ _ _ Hb Hk)
    as (evs & Ht & Hsv & Hbk & Hpd & Hw).
  destruct (taken_turns_account _ _ _ _ _ _ Hr Hk) as (evs' & Ht' & Ha).
  rewrite Ht in Ht'. apply app_inv_head in Ht' as <-.
  destruct (taken_emits (tasks_from queue) _ _ _ _ _ _ I Hf Hk) as (evs' & Ht' & Hfrom).
  rewrite Ht in Ht'. apply app_inv_head in Ht' as <-.
  pose proof (turns_account_sends_no_task _ Ha) as Hsent.
  exists evs. split_and!; try done.
  - intros q Hq. specialize (Hbk q).
    rewrite (puts_nil _ _ Hsent), (gets_elsewhere queue), app_nil_r in Hbk by done. done.
  - specialize (Hbk queue). rewrite (puts_nil _ _ Hsent), app_nil_r in Hbk.
    by rewrite Hbk, received_in_order.
  - rewrite all_answered by (done || (rewrite Hp, Hp' in Hpd; multiset_solver)). done.
Qed.

Lemma load_at_pending queue n e : load_at L queue n 0 e -> pending L e = ∅.
Proof. intros [_ Hp]. cbn beta in Hp. apply gmultiset_size_empty_inv. lia. Qed.

Lemma worked_off_all queue w w' evs :
  worked_off queue w w' evs -> backlog L queue (env w') = 0 -> caught_up queue w w'.
Proof.
  intros (Ht & Hp & Ho & Hc & Ha & _) Hn%nil_length_inv. rewrite Hn, app_nil_r in Hc.
  exists evs. by rewrite Ha, Hc.
Qed.

(** ** The worker's queue *)

Lemma worker_turns_work_off config fuel jobFuel d k s w s' w' :
  config_valid config -> 1 < fuel -> taken (worker_turn fuel jobFuel config d) k s w s' w' ->
  pending L (env w) = ∅ -> pending L (env w') = ∅ ->
  exists evs, worked_off (compiler_queue (compiler config)) w w' evs.
Proof.
  intros Hc Hf. apply taken_works_off.
  - intros s0. by apply worker_turn_booked.
  - intros s0. apply worker_turn_tasks_from.
  - intros s0. apply worker_turn_run; [lia|]. pose proof (valid_taskReceiveTimeout _ Hc).
    unfold WaitForever. lia.
Qed.

Lemma worker_turns_catch_up config fuel jobFuel d s k w :
  config_valid config -> jobs_end jobFuel (jobWaitTimeout (submitter config)) -> 1 < fuel ->
  pending L (env w) = ∅ -> backlog L (compiler_queue (compiler config)) (env w) <= k ->
  exists s' w', taken (worker_turn fuel jobFuel config d) k s w s' w' /\
    caught_up (compiler_queue (compiler config)) w w'.
Proof.
  intros Hc Hj%jobs_end_return Hf Hp Hk. set (queue := compiler_queue (compiler config)) in *.
  assert (taskReceiveTimeout (compiler config) <> WaitForever) as Ht.
  { pose proof (valid_taskReceiveTimeout _ Hc). unfold WaitForever. lia. }
  destruct (turns_serve L queue (worker_turn fuel jobFuel config d) k s w
    (backlog L queue (env w))) as (s' & w' & Htk & Hl).
  - intros s0 n. by apply worker_turn_serves.
  - split; [done|]. by rewrite Hp, gmultiset_size_empty.
  - destruct (worker_turns_work_off config fuel jobFuel d k s w s' w') as [evs Hw];
      [done..|by eapply load_at_pending|].
    exists s', w'. split; [done|]. eapply worked_off_all; [exact Hw|].
    destruct Hl as [Hl _]. cbn beta in Hl. unfold queue in *. lia.
Qed.

(** ** The selector's intake *)

(** From [w] to [w'] the selector has taken everything on the intake, in order,
    and answered each task; tasks went only where [Qn] admits. *)
Definition intake_cleared (intake : string) (Qn : string -> Prop) (w w' : World) (evs : list Event)
    : Prop :=
  trace w' = trace w ++ evs /\ booked_events L (env w) evs (env w') /\
  Forall (routed Qn) evs /\ Forall (tasks_from intake) evs /\ Forall unscheduled evs /\
  content L intake (env w') = [] /\ ticket <$> tasks_received evs = content L intake (env w) /\
  answers_all evs.

Lemma routed_elsewhere Qn target evs :
  Forall (routed Qn) evs -> ~ Qn target -> task_puts target (traffic evs) = [].
Proof.
  intros Hf Hq. induction Hf as [|ev evs Hev _ IH]; [done|].
  rewrite traffic_cons, task_puts_app, IH, app_nil_r.
  destruct ev; try done; cbn; [|by destruct r].
  destruct st; [|done]. unfold task_puts. cbn.
  destruct (String.eqb_spec queue target) as [->|]; [|done]. by destruct m.
Qed.

Lemma selector_turn_clears config Qn fuel r w :
  (forall q, Qn q -> q <> qrmciQueue (common config)) ->
  (forall q t e b d, (platform_receive_backend q t e).2 = Received b d -> Qn (be_queue_name b)) ->
  selector_inv r -> routes Qn r ->
  news L (backendStatusQueue (selector config)) (env w) < fuel ->
  backlog L (qrmciQueue (common config)) (env w) < fuel ->
  exists r' w' evs, Selector.turn fuel config r w = (w', Some r') /\ selector_inv r' /\
    routes Qn r' /\ intake_cleared (qrmciQueue (common config)) Qn w w' evs.
Proof.
  intros HQ Hst Hinv Hr Hk Hn. set (intake := qrmciQueue (common config)) in *.
  destruct (selector_turn_delivers L config Qn HQ Hst fuel r _ _ (size (pending L (env w))) Hr Hk Hn w)
    as (r' & evs & Hr' & Ht & Hbk & Hrt & Hro & Hn' & _); [by repeat split|].
  destruct (turn_keeps fuel config r Hinv w) as (evs' & Ht' & Ha & Hi).
  rewrite Ht in Ht'. apply app_inv_head in Ht' as <-.
  destruct (turn_led (entryTimeToLive r) config fuel r false (conj (proj1 Hr) eq_refl) w)
    as (evs' & Ht' & Hperm & _).
  rewrite Ht in Ht'. apply app_inv_head in Ht' as <-. apply permitted_tasks_from in Hperm.
  destruct (selector_turn_unscheduled fuel config r w) as (evs' & Ht' & Hu).
  rewrite Ht in Ht'. apply app_inv_head in Ht' as <-.
  destruct (Selector.turn fuel config r w) as [w' o]. cbn in *. subst o.
  apply nil_length_inv in Hn'. fold intake in Hn'. exists r', w', evs. split; [done|]. split; [by apply Hi|].
  split; [done|]. split_and!; try done.
  destruct Hbk as (_ & Hbk & _). specialize (Hbk intake).
  rewrite Hn', (routed_elsewhere Qn), !app_nil_r in Hbk by (done || intros Hq; by apply (HQ _ Hq)).
  by rewrite Hbk, received_in_order.
Qed.

Lemma task_puts_sent queues ev :
  NoDup queues -> routed (fun q => q ∈ queues) ev -> served ev ->
  ticket_set (queues ≫= fun q => task_puts q (traffic [ev])) = tickets (tasks_sent [ev]).*2.
Proof.
  intros Hd Hev Hs. destruct ev; try by rewrite bind_none.
  - cbn in Hs. subst st. destruct m; [|by rewrite bind_none by (intros q _; cbn; by case_match)..].
    cbn in Hev. trans (ticket_set [ticket t]); [|done]. rewrite <- (bind_one queues queue [ticket t]) by done. f_equal. apply list_bind_ext; [|done].
    intros q. unfold task_puts. cbn. by rewrite app_nil_r.
  - by rewrite bind_none by (intros q _; by destruct r).
Qed.

(** What the selector forwarded is on the queues it forwards to. *)
Lemma forwarded_all queues evs :
  NoDup queues -> Forall (routed (fun q => q ∈ queues)) evs -> Forall served evs ->
  ticket_set (queues ≫= fun q => task_puts q (traffic evs)) = tickets (tasks_sent evs).*2.
Proof.
  intros Hd. induction 1 as [|ev evs Hev _ IH]; intros Hs; [by rewrite bind_none|].
  apply Forall_cons in Hs as [Hs Hss]. specialize (IH Hss).
  change (ev :: evs) with ([ev] ++ evs). rewrite tasks_sent_app, fmap_app, tickets_app, <- IH.
  rewrite <- (task_puts_sent queues ev) by done. rewrite <- ticket_set_bind_app. f_equal.
  apply list_bind_ext; [|done]. intros q. by rewrite traffic_app, task_puts_app.
Qed.

Lemma cleared_forwards intake queues w w' evs :
  intake_cleared intake (fun q => q ∈ queues) w w' evs -> NoDup queues -> intake ∉ queues ->
  exists forwarded : string -> list Ticket,
    (forall q, q <> intake -> content L q (env w') = content L q (env w) ++ forwarded q) /\
    pending L (env w') = pending L (env w) /\
    ticket_set (content L intake (env w)) =
      ticket_set (queues ≫= forwarded) ⊎ answered_tickets (results_sent evs).
Proof.
  intros (_ & (Hsv & Hbk & Hpd & _) & Hrt & Hf & [Hs Hr]%unscheduled_quiet & _ & Hrec & Ha) Hd Hq.
  exists (fun q => task_puts q (traffic evs)). split_and!.
  - intros q Hne. specialize (Hbk q). by rewrite (gets_elsewhere intake q) in Hbk by done.
  - rewrite Hs, Hr in Hpd. multiset_solver.
  - rewrite <- Hrec, forwarded_all by done.
    change (ticket_set (ticket <$> tasks_received evs)) with (tickets (tasks_received evs)).
    by rewrite (answer_tickets _ _ Ha), outgoing_tasks, outgoing_replies.
Qed.
End CatchingUp.


(** ** A serving environment, for closed examples

    The simulated platform without a shutdown, with jobs that are done at once,
    a broker that decodes every task, and statuses that name the queue of one of
    two workers. *)

Definition decode_task (m : Message) : option QuantumTask :=
  match m with MsgTask t => Some t | _ => None end.

Definition decode_status (m : Message) : option Backend :=
  match m with
  | MsgBackend b =>
      if bool_decide (be_queue_name b ∈ ["compiler.tasks.queue"; "second.tasks.queue"]) then Some b else None
  | _ => None
  end.

Definition serving_platform : Platform := {|
  Env := SimEnv;
  Device := string;
  Job := nat;
  Delivery := unit;
  platform_now := @platform_now sim_platform;
  platform_load_flag e := (e, false);
  platform_sleep := @platform_sleep sim_platform;
  platform_openDevice := @platform_openDevice sim_platform;
  deviceId d := d;
  platform_qubitsNum := @platform_qubitsNum sim_platform;
  platform_status := @platform_status sim_platform;
  platform_operationNames := @platform_operationNames sim_platform;
  platform_couplingMap := @platform_couplingMap sim_platform;
  platform_supportedPayloadFormats := @platform_supportedPayloadFormats sim_platform;
  platform_children := @platform_children sim_platform;
  platform_submitJob := @platform_submitJob sim_platform;
  platform_wait _ _ e := (e, Value Done);
  platform_counts := @platform_counts sim_platform;
  platform_cancel := @platform_cancel sim_platform;
  platform_compileSource := @platform_compileSource sim_platform;
  platform_scheduleTask := @platform_scheduleTask sim_platform;
  platform_getNextReadyTask := @platform_getNextReadyTask sim_platform;
  platform_send := @platform_send sim_platform;
  platform_receive_task q _ := sim_receive decode_task q;
  platform_receive_backend q _ := sim_receive decode_status q;
  platform_ack := @platform_ack sim_platform;
|}.

(** The statuses on a queue. *)
Definition statuses_on (queue : string) (l : list (string * Message)) : nat :=
  length (filter (fun qm => qm.1 = queue /\ is_Some (decode_status qm.2)) l).

Definition sim_load : @Load serving_platform :=
  @MkLoad serving_platform (fun q e => on_queue q (sim_broker e))
    (fun q e => statuses_on q (sim_broker e)) (fun e => tickets (sim_ready e)).

(** A message that is taken leaves the others where they are. *)
Lemma sim_take_split {A} (decode : Message -> option A) queue l a rest :
  sim_take decode queue l = Some (a, rest) ->
  exists l1 m l2, l = l1 ++ (queue, m) :: l2 /\ rest = l1 ++ l2 /\ decode m = Some a /\
    Forall (fun qm => qm.1 = queue -> decode qm.2 = None) l1.
Proof.
  revert a rest. induction l as [|[q m] l IH]; intros a rest; cbn [sim_take]; [done|].
  destruct (String.eqb_spec q queue) as [->|Hq]; [destruct (decode m) eqn:Ed|].
  - intros [= <- <-]. by exists [], m, l.
  - intros ([a' rest'] & (l1 & m' & l2 & -> & -> & Hm & Hf)%IH & [= <- <-])%bind_Some.
    exists ((queue, m) :: l1), m', l2. split_and!; [done..|]. by constructor.
  - intros ([a' rest'] & (l1 & m' & l2 & -> & -> & Hm & Hf)%IH & [= <- <-])%bind_Some.
    exists ((q, m) :: l1), m', l2. split_and!; [done..|]. by constructor.
Qed.

Lemma sim_take_none {A} (decode : Message -> option A) queue l :
  sim_take decode queue l = None -> Forall (fun qm => qm.1 = queue -> decode qm.2 = None) l.
Proof.
  induction l as [|[q m] l IH]; cbn [sim_take]; [constructor|].
  destruct (String.eqb_spec q queue) as [->|Hq]; [destruct (decode m) eqn:Ed|]; [done|..];
    intros Hn; constructor; try done; apply IH; by destruct (sim_take decode queue l) as [[]|].
Qed.

Lemma on_queue_app queue l l' : on_queue queue (l ++ l') = on_queue queue l ++ on_queue queue l'.
Proof. apply bind_app. Qed.

Lemma statuses_on_app queue l l' :
  statuses_on queue (l ++ l') = statuses_on queue l + statuses_on queue l'.
Proof. unfold statuses_on. by rewrite filter_app, length_app. Qed.

Lemma on_queue_nil queue l :
  Forall (fun qm => qm.1 = queue -> decode_task qm.2 = None) l -> on_queue queue l = [].
Proof.
  induction 1 as [|[q m] l Hm _ IH]; [done|]. cbn. fold (on_queue queue l). rewrite IH, app_nil_r.
  destruct (String.eqb_spec q queue) as [->|]; [|done]. by destruct m; [specialize (Hm eq_refl)|..].
Qed.

Lemma statuses_on_nil queue l :
  Forall (fun qm => qm.1 = queue -> decode_status qm.2 = None) l -> statuses_on queue l = 0.
Proof.
  unfold statuses_on. intros Hf. rewrite length_zero_iff_nil.
  induction Hf as [|[q m] l Hm _ IH]; [done|]. rewrite filter_cons_False; [done|].
  intros [Hq [b Hb]]. cbn in *. rewrite (Hm Hq) in Hb. done.
Qed.

(** Where the taken message stood, the queue's content is one shorter. *)
Lemma on_queue_cons queue q m l :
  on_queue queue ((q, m) :: l) = (if String.eqb q queue then message_tickets m else []) ++ on_queue queue l.
Proof. done. Qed.

Lemma statuses_on_cons queue q m l :
  statuses_on queue ((q, m) :: l) =
  (if bool_decide (q = queue /\ is_Some (decode_status m)) then 1 else 0) + statuses_on queue l.
Proof.
  unfold statuses_on. case_bool_decide; [rewrite filter_cons_True by done|rewrite filter_cons_False by done]; done.
Qed.

Lemma serve_task_sim q (e : SimEnv) :
  let e' := (sim_receive decode_task q e).1 in
  match (sim_receive decode_task q e).2 with
  | Received task _ =>
      content sim_load q e = ticket task :: content sim_load q e' /\
      (forall q', q' <> q -> content sim_load q' e' = content sim_load q' e) /\
      (forall q', news sim_load q' e' = news sim_load q' e) /\ pending sim_load e' = pending sim_load e
  | ReceiveFailed _ _ => content sim_load q e = [] /\ same_load sim_load e e'
  end.
Proof.
  unfold sim_receive. destruct (sim_take decode_task q (sim_broker e)) as [[t rest]|] eqn:E;
    cbn -[on_queue statuses_on].
  - destruct (sim_take_split _ _ _ _ _ E) as (l1 & m & l2 & -> & -> & Hm & Hf).
    destruct m; try done. injection Hm as ->. split_and!; [|intros q' Hq|intros q'|done];
      rewrite ?on_queue_app, ?statuses_on_app, ?on_queue_cons, ?statuses_on_cons.
    + rewrite (on_queue_nil _ l1), String.eqb_refl by done. done.
    + by rewrite (proj2 (String.eqb_neq q q')) by (by apply not_eq_sym).
    + rewrite bool_decide_eq_false_2; [done|]. by intros [_ []].
  - split; [|by split_and!]. by apply on_queue_nil, sim_take_none.
Qed.

Lemma serve_status_sim q (e : SimEnv) :
  let e' := (sim_receive decode_status q e).1 in
  match (sim_receive decode_status q e).2 with
  | Received _ _ =>
      news sim_load q e = S (news sim_load q e') /\
      (forall q', q' <> q -> news sim_load q' e' = news sim_load q' e) /\
      (forall q', content sim_load q' e' = content sim_load q' e) /\
      pending sim_load e' = pending sim_load e
  | ReceiveFailed _ _ => news sim_load q e = 0 /\ same_load sim_load e e'
  end.
Proof.
  unfold sim_receive. destruct (sim_take decode_status q (sim_broker e)) as [[b rest]|] eqn:E;
    cbn -[on_queue statuses_on].
  - destruct (sim_take_split _ _ _ _ _ E) as (l1 & m & l2 & -> & -> & Hm & Hf).
    split_and!; [|intros q' Hq|intros q'|done];
      rewrite ?on_queue_app, ?statuses_on_app, ?on_queue_cons, ?statuses_on_cons.
    + rewrite bool_decide_eq_true_2; [lia|]. by rewrite Hm.
    + rewrite bool_decide_eq_false_2; [done|]. intros [? _]. by apply Hq.
    + destruct m; [done..|]. by destruct (String.eqb q q').
  - split; [|by split_and!]. by apply statuses_on_nil, sim_take_none.
Qed.

Lemma serving_serves : @Serving serving_platform sim_load.
Proof.
  split; unfold inert, same_load; try (by intros; split_and!); try done.
  - intros q t e. exact (serve_task_sim q e).
  - intros q t e. exact (serve_status_sim q e).
  - intros t e. split_and!; [|done..].
    change (tickets (sim_ready e ++ [t]) = {[+ ticket t +]} ⊎ tickets (sim_ready e)).
    rewrite tickets_app, tickets_one. multiset_solver.
  - intros [c st br ready j]. by destruct ready as [|t rest]; split_and!.
  - intros q m e. cbn -[on_queue statuses_on]. split_and!; [done..| |intros q' Hq|intros q'];
      rewrite ?on_queue_snoc.
    + by rewrite String.eqb_refl.
    + rewrite (proj2 (String.eqb_neq q q')) by (by apply not_eq_sym). apply app_nil_r.
    + rewrite statuses_on_app, statuses_on_cons. unfold message_statuses.
      case_bool_decide as Hm; [|cbn; lia]. destruct Hm as [_ [b Hb]]. by destruct m.
Qed.

Lemma serving_jobs_finish : @JobsFinish serving_platform (fun _ _ => 0) 1.
Proof. split; cbn; intros; [lia|done|lia|lia]. Qed.

Lemma serving_statuses q t e b d :
  (@platform_receive_backend serving_platform q t e).2 = Received b d ->
  be_queue_name b ∈ ["compiler.tasks.queue"; "second.tasks.queue"].
Proof.
  cbn. unfold sim_receive.
  destruct (sim_take decode_status q (sim_broker e)) as [[b' rest]|] eqn:E; [|done].
  cbn. intros [= ->]. apply sim_take_decoded in E as [[| |b'] Hm]; [done..|]. cbn in Hm.
  by case_bool_decide; simplify_eq.
Qed.

(** A status, two tasks on the intake and one on each worker's queue, of which one
    is for a device that is gone. *)
Definition serving_task (id : Z) (qpu : string) : QuantumTask :=
  MkQuantumTask id 3 100 ["circuit"] "quake" "results" "" qpu [] false 0 0.

Definition serving_world : @World serving_platform :=
  @MkWorld serving_platform (MkSimEnv 0 0
    [("backend.status.queue",
      MsgBackend (MkBackend "alpha" 5 9 1 0 0 "compiler.tasks.queue" ["h"; "cx"] [] [2; 4]%Z));
     ("qrmci.tasks.queue", MsgTask (serving_task 1 ""));
     ("qrmci.tasks.queue", MsgTask (serving_task 2 ""));
     ("compiler.tasks.queue", MsgTask (serving_task 3 "alpha"));
     ("second.tasks.queue", MsgTask (serving_task 4 "gone"))] [] 0) [].

(** ** Properties *)




