(* ===== verification/Interleaving.v ===== *)
(** * A deployment at work

    A selector and its workers on one broker, with clients that submit while the
    daemons take their turns, in any order. Nothing is ever dropped, and once the
    clients pause, a turn of the selector and enough turns of the workers, in any
    interleaving, answer everything that was submitted. *)

From stdpp Require Import gmultiset.
From S2P Require Import Prelude Error Externals World BackendWrapper BackendRegistry.
From S2P Require Import PublicationThrottle RunnersSelection RunnersCompilation RunnersExecution.
From S2P Require Import Config ConfigProperties CommunicationHandler DaemonMessaging.
From S2P Require Import Logger Daemon Traces Selector SelectorSpec Standalone Worker WorkLoop Shutdown.
From S2P Require Import Broker Deployment Ordering Halting Serving Progress CatchUp.

(** ** Statuses published in a turn *)

Section Published.
Context `{ProtocolEnums} `{CompilerFormats} `{Platform}.

Definition unpublished (ev : Event) : Prop :=
  match ev with EvSend _ (MsgBackend _) _ => False | _ => True end.

Lemma unpublished_none evs : Forall unpublished evs -> published evs = 0.
Proof.
  induction 1 as [|ev evs Hev _ IH]; [done|]. unfold published in *. cbn [sum_list_with]. rewrite IH.
  destruct ev; try done. by destruct m.
Qed.

Lemma published_app evs evs' : published (evs ++ evs') = published evs + published evs'.
Proof. apply sum_list_with_app. Qed.

Lemma unpublished_stage : stage_events unpublished.
Proof. split_and!; try done. by intros []. Qed.

(** The selector publishes nothing, a worker at most one status per turn. *)
Lemma selector_turn_unpublished fuel config r : emits unpublished (Selector.turn fuel config r).
Proof.
  assert (forall r task u, emits unpublished (Selector.assignTask config r task u)).
  { intros r' task u. unfold Selector.assignTask, sendFailure.
    destruct (chooseBackend _ _ _); [destruct (find _ _)|]; by apply send_emits. }
  unfold Selector.turn, expireNow. apply emits_bind; [|intros ?; apply emits_bind; [silent|]; intros ?].
  - apply drainQueue_emits; [by split_and!; try intros ? [[]|]|].
    intros b r'. unfold Selector.absorbStatus. silent.
  - apply emits_bind; [|intros ?; silent].
    apply drainQueue_emits; [by split_and!; try intros ? [[]|]|]. done.
Qed.

(** [m] publishes at most [n] statuses. *)
Definition publishes {A} (n : nat) (m : M A) : Prop := wp m (fun evs _ => published evs <= n).

Lemma publishes_none {A} (m : M A) : emits unpublished m -> publishes 0 m.
Proof. intros He. eapply wp_mono; [exact He|]. intros evs o Hu. by rewrite unpublished_none. Qed.

Lemma publishes_bind {A B} n n' (m : M A) (k : A -> M B) :
  publishes n m -> (forall a, publishes n' (k a)) -> publishes (n + n') (m ≫= k).
Proof.
  intros Hm Hk. unfold publishes. wp_step. eapply wp_mono; [exact Hm|]. intros evs o Hn. cbn beta in Hn. destruct o as [a|]; [|lia].
  eapply wp_mono; [apply Hk|]. intros evs' o Hn'. cbn beta in Hn'. rewrite published_app. lia.
Qed.

Lemma worker_turn_publishes fuel jobFuel config d s :
  publishes 1 (worker_turn fuel jobFuel config d s).
Proof.
  pose proof unpublished_stage as HP.
  unfold worker_turn, Worker.turn, Worker.intakeAndSubmit, Worker.collectAndPause, expireNow.
  apply (publishes_bind 1 0); [apply (publishes_bind 0 1)|].
  - apply publishes_none, (silent_stage _ HP), refreshOwnDeviceStatus_silent.
  - intros [[st r1] th1]. apply (publishes_bind 1 0).
    { destruct st as [st|]; unfold publishes; [|wp_step; cbn; lia].
      eapply wp_mono; [apply send_wp|]. by intros evs o [_ [? ->]]. }
    intros _. apply publishes_none. apply emits_bind; [silent|]. intros r2. apply emits_bind.
    { apply receiveNext_emits; [by split_and!; try intros ? [[]|]|]. intros task [].
      apply (emits_bind _ (compileAndSchedule task r2) settle);
        [by apply compileAndSchedule_stage|by apply settle_stage]. }
    intros got. apply emits_bind; [by apply submitReady_stage|]. intros ?. silent.
  - intros [[[r1 th1] got] subs]. apply publishes_none. apply emits_bind; [|intros ?; silent].
    apply emits_bind; [by apply collectAll_stage|]. intros ?. silent.
Qed.

Lemma taken_publishes {S} (turn : S -> M S) k s w s' w' :
  (forall s, publishes 1 (turn s)) -> taken turn k s w s' w' ->
  exists evs, trace w' = trace w ++ evs /\ published evs <= k.
Proof.
  intros Ht. induction 1 as [s w|k s w w0 s1 w1 s2 w2 Hload Hturn _ (evs2 & Htr2 & Hp2)].
  { exists []. split; [by rewrite app_nil_r|done]. }
  destruct (Ht s w0) as (evs1 & Htr1 & Hp1). rewrite Hturn in Htr1. cbn in Htr1.
  exists ([EvLoadFlag false] ++ evs1 ++ evs2). rewrite !published_app. split; [|cbn; lia].
  unfold load, call in Hload. destruct (platform_load_flag (env w)) as [e b].
  injection Hload as <- ->. cbn in Htr1. by rewrite Htr2, Htr1, <- !app_assoc.
Qed.
End Published.

(** ** The site and its moves *)

Section Site.
Context `{ProtocolEnums} `{CompilerFormats} `{Platform}.

(** A worker of a deployment: its configuration, its device and its state. *)
Record Member : Type := MkMember {
  member_config : Config;
  member_device : Device;
  member_state : DeviceState;
}.

Definition member_queue (x : Member) : string := compiler_queue (compiler (member_config x)).
Definition with_state (s : DeviceState) (x : Member) : Member :=
  MkMember (member_config x) (member_device x) s.

(** The selector's registry, the workers, and the world they share. Each process
    has a scheduler of its own; that they are one in the environment makes no
    difference, as a worker starts and ends its turns with an empty one. *)
Record Site : Type := MkSite {
  site_registry : BackendRegistry;
  site_workers : list Member;
  site_world : World;
}.

Definition site_queues (st : Site) : list string := member_queue <$> site_workers st.

(** A client submits a task, the selector takes a turn, or the [i]-th worker. *)
Inductive Move : Type :=
| ClientSubmits (t : QuantumTask)
| SelectorTurns
| WorkerTurns (i : nat).

Definition submissions (mvs : list Move) : list QuantumTask :=
  omap (fun mv => match mv with ClientSubmits t => Some t | _ => None end) mvs.

Definition turns_of (i : nat) (mvs : list Move) : nat :=
  sum_list_with (fun mv => match mv with WorkerTurns j => if Nat.eqb i j then 1 else 0 | _ => 0 end) mvs.

(** Only workers there are take turns. *)
Definition fits (n : nat) (mv : Move) : Prop := match mv with WorkerTurns i => i < n | _ => True end.

Context (config : Config) (fuel wfuel jobFuel : nat).
Abbreviation intake := (qrmciQueue (common config)).
Abbreviation statusQueue := (backendStatusQueue (selector config)).

Definition submit (t : QuantumTask) (w : World) : World :=
  MkWorld (platform_send intake (MsgTask t) (env w)).1 (trace w).

Inductive move : Site -> Move -> Site -> Prop :=
| client_moves r xs w t : move (MkSite r xs w) (ClientSubmits t) (MkSite r xs (submit t w))
| selector_moves r xs w r' w' :
    taken (Selector.turn fuel config) 1 r w r' w' ->
    move (MkSite r xs w) SelectorTurns (MkSite r' xs w')
| worker_moves r xs w i x s' w' :
    xs !! i = Some x ->
    taken (worker_turn wfuel jobFuel (member_config x) (member_device x)) 1 (member_state x) w s' w' ->
    move (MkSite r xs w) (WorkerTurns i) (MkSite r (<[i := with_state s' x]> xs) w').

Inductive plays : Site -> list Move -> Site -> Prop :=
| plays_nil st : plays st [] st
| plays_cons st mv st1 mvs st2 : move st mv st1 -> plays st1 mvs st2 -> plays st (mv :: mvs) st2.

Lemma plays_app st mvs st1 mvs' st2 :
  plays st mvs st1 -> plays st1 mvs' st2 -> plays st (mvs ++ mvs') st2.
Proof. induction 1; [done|]. intros Hp. econstructor; eauto. Qed.

(** A worker whose configuration was accepted and whose jobs end. *)
Definition able (x : Member) : Prop :=
  config_valid (member_config x) /\
  jobs_end jobFuel (jobWaitTimeout (submitter (member_config x))).

Context (L : Load) `{!Serving L}.
Abbreviation site_env st := (env (site_world st)).

(** No two workers share a queue, none takes its tasks from the intake, the
    selector knows these queues only, and no task is under way in a scheduler. *)
Definition site_ok (st : Site) : Prop :=
  Forall able (site_workers st) /\ NoDup (site_queues st) /\ (intake ∉ site_queues st) /\
  selector_inv (site_registry st) /\ routes (fun q => q ∈ site_queues st) (site_registry st) /\
  pending L (site_env st) = ∅.

(** The tasks that wait on the intake and on the workers' queues. *)
Definition held (st : Site) : Tickets :=
  ticket_set ((intake :: site_queues st) ≫= fun q => content L q (site_env st)).

Lemma backlog_held st q :
  q ∈ intake :: site_queues st -> backlog L q (site_env st) <= size (held st).
Proof.
  intros Hq. unfold held, backlog. rewrite ticket_set_size.
  exact (bind_part (intake :: site_queues st) (fun q => content L q (site_env st)) q Hq).
Qed.

(** ** One move *)

(** What a move does: the tasks held before and those submitted are answered or
    held after; the work ahead grows by one at most. *)
Definition balances (mv : Move) (st st' : Site) (evs : list Event) : Prop :=
  trace (site_world st') = trace (site_world st) ++ evs /\
  held st ⊎ tickets (submissions [mv]) = answered_tickets (results_sent evs) ⊎ held st' /\
  size (held st') + news L statusQueue (site_env st') <=
    S (size (held st) + news L statusQueue (site_env st)).

(** What it does to the queues. *)
Definition clears (mv : Move) (st st' : Site) : Prop :=
  match mv with
  | ClientSubmits _ => True
  | SelectorTurns =>
      content L intake (site_env st') = [] /\
      (content L intake (site_env st) = [] ->
       forall q, q ∈ site_queues st -> content L q (site_env st') = content L q (site_env st))
  | WorkerTurns i =>
      content L intake (site_env st') = content L intake (site_env st) /\
      forall j q, site_queues st !! j = Some q ->
        backlog L q (site_env st') = backlog L q (site_env st) - if Nat.eqb j i then 1 else 0
  end.

Definition advances (st : Site) (mv : Move) : Prop :=
  exists st' evs, move st mv st' /\ site_ok st' /\ site_queues st' = site_queues st /\
    balances mv st st' evs /\ clears mv st st'.

Lemma client_advances st t : site_ok st -> advances st (ClientSubmits t).
Proof.
  destruct st as [r xs w]. intros (Hab & Hd & Hi & Hinv & Hr & Hp). cbn in *.
  destruct (serve_send L intake (MsgTask t) (env w)) as (_ & Hp' & Hc & Ho & Hn).
  exists (MkSite r xs (submit t w)), []. split; [constructor|].
  split; [by split_and!; cbn; rewrite ?Hp'|]. split; [done|]. split; [|done].
  assert (held (MkSite r xs (submit t w)) = {[+ ticket t +]} ⊎ held (MkSite r xs w)) as Hh.
  { unfold held, site_queues. cbn [site_workers site_world]. rewrite !bind_cons, !list_to_set_disj_app.
    rewrite (list_bind_same (member_queue <$> xs) _ (fun q => content L q (env w))).
    - cbn [submit env]. rewrite Hc, list_to_set_disj_app. cbn [message_tickets list_to_set_disj]. multiset_solver.
    - intros q Hq. apply Ho. by intros ->. }
  split_and!.
  - by rewrite app_nil_r.
  - rewrite Hh. change (tickets (submissions [ClientSubmits t])) with (tickets [t]). rewrite tickets_one.
    change (answered_tickets (results_sent [])) with (∅ : Tickets). multiset_solver.
  - rewrite Hh, gmultiset_size_disj_union, gmultiset_size_singleton. cbn [site_world submit env].
    specialize (Hn statusQueue). cbn [message_statuses] in Hn. lia.
Qed.

(** A turn of a worker, and of the selector, after a clear read of the flag. *)
Lemma worker_turn_taken wconfig d s w :
  config_valid wconfig -> jobs_end jobFuel (jobWaitTimeout (submitter wconfig)) -> 1 < wfuel ->
  pending L (env w) = ∅ ->
  exists s' w' evs, taken (worker_turn wfuel jobFuel wconfig d) 1 s w s' w' /\
    worked_off L (compiler_queue (compiler wconfig)) w w' evs /\
    backlog L (compiler_queue (compiler wconfig)) (env w') =
      backlog L (compiler_queue (compiler wconfig)) (env w) - 1 /\ published evs <= 1.
Proof.
  intros Hv Hj%jobs_end_return Hwf Hp. set (queue := compiler_queue (compiler wconfig)).
  destruct (turns_serve L queue (worker_turn wfuel jobFuel wconfig d) 1 s w
    (backlog L queue (env w))) as (s' & w' & Ht & Hl).
  { intros s0 n. apply worker_turn_serves; [done..| |done|done].
    pose proof (valid_taskReceiveTimeout _ Hv). unfold WaitForever. lia. }
  { split; [done|]. by rewrite Hp, gmultiset_size_empty. }
  destruct (worker_turns_work_off L wconfig wfuel jobFuel d 1 s w s' w') as [evs Hw];
    [done..|by eapply load_at_pending|].
  destruct (taken_publishes _ _ _ _ _ _ (worker_turn_publishes wfuel jobFuel wconfig d) Ht)
    as (evs' & Ht' & Hpub).
  pose proof (proj1 Hw) as Htr. rewrite Htr in Ht'. apply app_inv_head in Ht' as <-.
  exists s', w', evs. split_and!; [done..|apply Hl|done].
Qed.

Lemma selector_turn_taken Qn r w :
  (forall q, Qn q -> q <> intake) ->
  (forall q t e b d, (platform_receive_backend q t e).2 = Received b d -> Qn (be_queue_name b)) ->
  selector_inv r -> routes Qn r ->
  news L statusQueue (env w) < fuel -> backlog L intake (env w) < fuel ->
  exists r' w' evs, taken (Selector.turn fuel config) 1 r w r' w' /\ selector_inv r' /\ routes Qn r' /\
    intake_cleared L intake Qn w w' evs /\ published evs = 0.
Proof.
  intros HQ Hst Hinv Hr Hn Hb.
  destruct (inert_flag L (env w)) as (Hc0 & Hn0 & Hp0). pose proof (serve_flag L (env w)) as Hfl.
  destruct (booked_load L terminationRequested w) as (evs0 & Htr0 & Hbk0).
  assert (exists e, load terminationRequested w = (MkWorld e (trace w ++ [EvLoadFlag false]), Some false) /\
    platform_load_flag (env w) = (e, false)) as (e & El & Ee).
  { unfold load, call. destruct (platform_load_flag (env w)) as [e b]. cbn in Hfl. subst b. by exists e. }
  rewrite Ee in *. rewrite El in Htr0, Hbk0. cbn in *. apply app_inv_head in Htr0 as <-.
  set (w0 := MkWorld e (trace w ++ [EvLoadFlag false])) in *.
  destruct (selector_turn_clears L config Qn fuel r w0)
    as (r' & w' & evs & Ht & Hinv' & Hr' & Htr & Hbk & Hrt & Hf & Hu & Hc & Hrec & Ha);
    [done..|by cbn; rewrite Hn0|by unfold backlog; cbn; rewrite Hc0|].
  destruct (selector_turn_unpublished fuel config r w0) as (evs' & Htr' & Hpub).
  rewrite Ht in Htr'. cbn [fst] in Htr'. rewrite Htr in Htr'. apply app_inv_head in Htr' as <-.
  exists r', w', ([EvLoadFlag false] ++ evs). split_and!; try done.
  - econstructor; [exact El|exact Ht|constructor].
  - split_and!.
    + by rewrite Htr, app_assoc.
    + by eapply booked_events_app.
    + by constructor.
    + by constructor.
    + by constructor.
    + done.
    + by rewrite <- Hc0.
    + done.
  - by apply unpublished_none; constructor.
Qed.

(** Tasks taken off one of several queues. *)
Lemma taken_off_one queues q0 ts (f g : string -> list Ticket) :
  NoDup queues -> q0 ∈ queues -> f q0 = ts ++ g q0 -> (forall q, q <> q0 -> f q = g q) ->
  ticket_set (queues ≫= f) = ticket_set ts ⊎ ticket_set (queues ≫= g).
Proof.
  intros Hd Hq Hf Ho. rewrite <- (bind_one queues q0 ts), <- ticket_set_bind_app by done. f_equal.
  apply list_bind_same. intros q _. destruct (String.eqb_spec q0 q) as [<-|Hne]; [done|].
  by rewrite Ho by (by apply not_eq_sym).
Qed.

Lemma insert_queues (xs : list Member) (i : nat) x s :
  xs !! i = Some x -> member_queue <$> <[i := with_state s x]> xs = member_queue <$> xs.
Proof.
  intros Hx. rewrite list_fmap_insert. apply list_insert_id. by rewrite list_lookup_fmap, Hx.
Qed.

Lemma worker_advances st i : 1 < wfuel -> site_ok st -> i < length (site_workers st) ->
  advances st (WorkerTurns i).
Proof.
  destruct st as [r xs w]. intros Hwf (Hab & Hd & Hi & Hinv & Hr & Hp) [x Hx]%lookup_lt_is_Some_2.
  cbn in *. destruct (Forall_lookup_1 _ _ _ _ Hab Hx) as [Hv Hj].
  assert (site_queues (MkSite r xs w) !! i = Some (member_queue x)) as Hqx.
  { unfold site_queues. cbn. by rewrite list_lookup_fmap, Hx. }
  destruct (worker_turn_taken (member_config x) (member_device x) (member_state x) w Hv Hj Hwf Hp)
    as (s' & w' & evs & Ht & (Htr & Hp' & Ho & Hc & Ha & Hn) & Hb & Hpub).
  fold (member_queue x) in Ho, Hc, Hb.
  exists (MkSite r (<[i := with_state s' x]> xs) w'), evs.
  assert (site_queues (MkSite r (<[i := with_state s' x]> xs) w') = site_queues (MkSite r xs w)) as Hqs
    by (by apply insert_queues).
  split; [by econstructor|]. split; [|split; [done|split]].
  - unfold site_ok. rewrite Hqs. split_and!; try done. cbn. by apply Forall_insert.
  - assert (held (MkSite r xs w) = answered_tickets (results_sent evs) ⊎
      held (MkSite r (<[i := with_state s' x]> xs) w')) as Hh.
    { unfold held. rewrite Hqs, Ha. apply taken_off_one with (member_queue x).
      - by constructor.
      - right. by eapply list_elem_of_lookup_2.
      - done.
      - intros q Hq. cbn. symmetry. by apply Ho. }
    split_and!; [done|rewrite Hh; change (tickets (submissions [WorkerTurns i])) with (∅ : Tickets);
      multiset_solver|].
    rewrite Hh, gmultiset_size_disj_union. cbn [site_world]. specialize (Hn statusQueue). lia.
  - split; [cbn; apply Ho; intros E; apply Hi; rewrite E; by eapply list_elem_of_lookup_2|].
    intros j q Hj'. cbn. destruct (Nat.eqb_spec j i) as [->|Hne].
    + rewrite Hqx in Hj'. injection Hj' as <-. exact Hb.
    + unfold backlog. rewrite Ho; [lia|]. intros ->. apply Hne. by eapply NoDup_lookup.
Qed.

Lemma selector_advances st :
  (forall q t e b d, (platform_receive_backend q t e).2 = Received b d ->
     be_queue_name b ∈ site_queues st) ->
  site_ok st -> size (held st) + news L statusQueue (site_env st) < fuel ->
  advances st SelectorTurns.
Proof.
  destruct st as [r xs w]. intros Hst (Hab & Hd & Hi & Hinv & Hr & Hp) Hf.
  cbn [site_world site_workers site_registry] in *.
  set (queues := site_queues (MkSite r xs w)) in *.
  assert (backlog L intake (env w) <= size (held (MkSite r xs w))) as Hbi
    by (apply (backlog_held (MkSite r xs w)); by left).
  destruct (selector_turn_taken (fun q => q ∈ queues) r w)
    as (r' & w' & evs & Ht & Hinv' & Hr' & Hcl & Hpub); [by intros q Hq ->|done..|lia|lia|].
  destruct (cleared_forwards L _ _ _ _ _ Hcl Hd Hi) as (fwd & Hfw & Hp' & Htk).
  destruct Hcl as (Htr & (_ & _ & _ & Hn) & _ & _ & _ & He & _).
  assert (forall q, q ∈ queues -> content L q (env w') = content L q (env w) ++ fwd q) as Hfw'.
  { intros q Hq. apply Hfw. by intros ->. }
  exists (MkSite r' xs w'), evs. split; [by constructor|]. split; [|split; [done|split]].
  - split_and!; try done. cbn. by rewrite Hp'.
  - assert (held (MkSite r xs w) = answered_tickets (results_sent evs) ⊎ held (MkSite r' xs w')) as Hh.
    { unfold held. change (site_queues (MkSite r' xs w')) with queues.
      change (site_queues (MkSite r xs w)) with queues. cbn [site_world].
      rewrite !bind_cons, !list_to_set_disj_app, He, (list_bind_same _ _ _ Hfw'), ticket_set_bind_app, Htk.
      cbn [list_to_set_disj]. multiset_solver. }
    split_and!; [done|rewrite Hh; change (tickets (submissions [SelectorTurns])) with (∅ : Tickets);
      multiset_solver|].
    rewrite Hh, gmultiset_size_disj_union. cbn [site_world]. specialize (Hn statusQueue). rewrite Hpub in Hn. lia.
  - split; [done|]. intros Hnil q Hq. cbn [site_world] in *. rewrite Hfw' by done.
    rewrite Hnil in Htk. apply (f_equal size) in Htk.
    rewrite gmultiset_size_disj_union, !ticket_set_size in Htk. cbn [length] in Htk.
    pose proof (bind_part queues fwd q Hq). rewrite (nil_length_inv (fwd q)), app_nil_r; [done|lia].
Qed.

(** ** Sequences of moves *)

(** Every status names the queue of one of the workers. *)
Definition statuses_name (queues : list string) : Prop :=
  forall q t e b d, (platform_receive_backend q t e).2 = Received b d -> be_queue_name b ∈ queues.

Lemma move_advances st mv :
  statuses_name (site_queues st) -> 1 < wfuel -> site_ok st -> fits (length (site_queues st)) mv ->
  size (held st) + news L statusQueue (site_env st) < fuel -> advances st mv.
Proof.
  intros Hst Hwf Hok Hfit Hf. destruct mv as [t| |i].
  - by apply client_advances.
  - by apply selector_advances.
  - apply worker_advances; [done..|]. unfold site_queues in Hfit. by rewrite <- (length_fmap member_queue).
Qed.

(** While nothing is submitted and the intake is empty, it stays so, and every
    turn of a worker shortens its queue. *)
Definition drains (mvs : list Move) (st st' : Site) : Prop :=
  submissions mvs = [] -> content L intake (site_env st) = [] ->
  content L intake (site_env st') = [] /\
  forall j q, site_queues st !! j = Some q ->
    backlog L q (site_env st') <= backlog L q (site_env st) - turns_of j mvs.

Lemma drains_cons mv mvs st st1 st2 :
  clears mv st st1 -> site_queues st1 = site_queues st -> drains mvs st1 st2 ->
  drains (mv :: mvs) st st2.
Proof.
  intros Hc Hq Hd Hs Hi. destruct mv as [t| |i]; [done|..]; cbn [clears] in Hc; destruct Hc as [Hi1 Hc].
  - destruct (Hd Hs Hi1) as [Hi2 Hb]. split; [done|]. intros j q Hj. rewrite Hq in Hb.
    specialize (Hb j q Hj). unfold backlog in *. rewrite (Hc Hi) in Hb by (by eapply list_elem_of_lookup_2).
    exact Hb.
  - rewrite Hi in Hi1. destruct (Hd Hs Hi1) as [Hi2 Hb]. split; [done|]. intros j q Hj. rewrite Hq in Hb.
    specialize (Hb j q Hj). specialize (Hc j q Hj). unfold turns_of in *. cbn [sum_list_with].
    destruct (Nat.eqb j i); lia.
Qed.

Lemma submissions_app mvs mvs' : submissions (mvs ++ mvs') = submissions mvs ++ submissions mvs'.
Proof. apply omap_app. Qed.

(** What a sequence of moves adds up to. *)
Definition completes (mvs : list Move) (st st' : Site) (evs : list Event) : Prop :=
  plays st mvs st' /\ site_ok st' /\ site_queues st' = site_queues st /\
  trace (site_world st') = trace (site_world st) ++ evs /\
  held st ⊎ tickets (submissions mvs) = answered_tickets (results_sent evs) ⊎ held st' /\
  size (held st') + news L statusQueue (site_env st') <=
    size (held st) + news L statusQueue (site_env st) + length mvs /\
  drains mvs st st'.

Lemma plays_complete mvs st :
  statuses_name (site_queues st) -> 1 < wfuel -> site_ok st ->
  Forall (fits (length (site_queues st))) mvs ->
  size (held st) + news L statusQueue (site_env st) + length mvs <= fuel ->
  exists st' evs, completes mvs st st' evs.
Proof.
  intros Hst Hwf. revert st Hst. induction mvs as [|mv mvs IH]; intros st Hst Hok Hfit Hf.
  { exists st, []. split_and!; [constructor|done|done|by rewrite app_nil_r| |lia|].
    - change (tickets (submissions [])) with (∅ : Tickets).
      change (answered_tickets (results_sent [])) with (∅ : Tickets). multiset_solver.
    - intros _ Hi. split; [done|]. intros j q Hj. cbn. lia. }
  apply Forall_cons in Hfit as [Hfit Hfits]. cbn [length] in Hf.
  destruct (move_advances st mv) as (st1 & evs1 & Hm & Hok1 & Hq1 & (Ht1 & Hb1 & Hn1) & Hc1); [done..|lia|].
  destruct (IH st1) as (st2 & evs2 & Hm2 & Hok2 & Hq2 & Ht2 & Hb2 & Hn2 & Hd2);
    [by rewrite Hq1|done|by rewrite Hq1|lia|].
  exists st2, (evs1 ++ evs2). split_and!.
  - by econstructor.
  - done.
  - by rewrite Hq2.
  - by rewrite Ht2, Ht1, app_assoc.
  - change (mv :: mvs) with ([mv] ++ mvs). rewrite submissions_app, tickets_app.
    rewrite results_sent_app, answered_tickets_app. multiset_solver.
  - cbn [length]. lia.
  - by eapply drains_cons.
Qed.
End Site.

(** ** Properties *)

(** C4: a deployment answers everything that was submitted. A selector and any
    number of workers share a broker that accepts every message and delivers what
    it holds, and their schedulers hand out what they were handed; no shutdown
    comes; every job ends, by itself or because the wait is bounded; every status
    names the queue of one of the workers, and so does every backend the selector
    knows at the start; no two workers share a queue and none takes its tasks from
    the intake; at the start no task is under way in a scheduler. While the
    clients submit, the daemons take turns in any order. Once the clients pause,
    as soon as the selector has taken one more turn and then each worker as many
    as there are tasks about, the turns in any order, the intake, the workers'
    queues and the schedulers are empty, and the results sent meanwhile (the
    selector's cancellations, the workers' results and cancellations) answer
    every task that was waiting or has been submitted, each exactly once and at
    its own destination, and nothing else. *)
Theorem deployment_catches_up `{ProtocolEnums} `{CompilerFormats} `{Platform} (L : Load)
    config fuel wfuel jobFuel st pre post :
  Serving L -> statuses_name (site_queues st) -> 1 < wfuel -> site_ok config jobFuel L st ->
  Forall (fits (length (site_queues st))) (pre ++ SelectorTurns :: post) ->
  size (held config L st) + news L (backendStatusQueue (selector config)) (env (site_world st)) +
    length (pre ++ SelectorTurns :: post) <= fuel ->
  submissions post = [] ->
  (forall i, i < length (site_queues st) ->
     size (held config L st) + length (submissions pre) <= turns_of i post) ->
  exists st' evs,
    plays config fuel wfuel jobFuel st (pre ++ SelectorTurns :: post) st' /\
    trace (site_world st') = trace (site_world st) ++ evs /\
    (forall q, q ∈ qrmciQueue (common config) :: site_queues st ->
       content L q (env (site_world st')) = []) /\
    pending L (env (site_world st')) = ∅ /\
    answered_tickets (results_sent evs) = held config L st ⊎ tickets (submissions pre).
Proof.
  intros Hserve Hst Hwf Hok Hfit Hf Hs Hk.
  apply Forall_app in Hfit as [Hfit1 [_ Hfit2]%Forall_cons]. rewrite length_app in Hf. cbn [length] in Hf.
  destruct (plays_complete config fuel wfuel jobFuel L pre st) as (st1 & evs1 & Hm1 & Hok1 & Hq1 & Ht1 & Hb1 & Hn1 & _);
    [done..|lia|].
  destruct (selector_advances config fuel wfuel jobFuel L st1)
    as (st2 & evs2 & Hm2 & Hok2 & Hq2 & (Ht2 & Hb2 & Hn2) & Hi2 & _); [by rewrite Hq1|done|lia|].
  destruct (plays_complete config fuel wfuel jobFuel L post st2)
    as (st3 & evs3 & Hm3 & Hok3 & Hq3 & Ht3 & Hb3 & _ & Hd3);
    [by rewrite Hq2, Hq1|done..|by rewrite Hq2, Hq1|lia|].
  change (tickets (submissions [SelectorTurns])) with (∅ : Tickets) in Hb2. rewrite Hs in Hb3.
  change (tickets []) with (∅ : Tickets) in Hb3.
  assert (size (held config L st2) <= size (held config L st) + length (submissions pre)) as Hsz.
  { rewrite <- tickets_size, <- gmultiset_size_disj_union, Hb1.
    replace (held config L st1) with (answered_tickets (results_sent evs2) ⊎ held config L st2)
      by multiset_solver. rewrite !gmultiset_size_disj_union. lia. }
  destruct (Hd3 Hs Hi2) as [Hi3 Hqs].
  assert (forall q, q ∈ qrmciQueue (common config) :: site_queues st ->
    content L q (env (site_world st3)) = []) as Hempty.
  { intros q [->|Hq]%elem_of_cons; [done|]. apply list_elem_of_lookup in Hq as [j Hj].
    pose proof (lookup_lt_Some _ _ _ Hj) as Hlt. rewrite <- Hq1, <- Hq2 in Hj. specialize (Hqs j q Hj).
    assert (q ∈ qrmciQueue (common config) :: site_queues st2) as Hin by (right; by eapply list_elem_of_lookup_2).
    pose proof (backlog_held config L st2 q Hin).
    specialize (Hk j Hlt). apply nil_length_inv. unfold backlog in *. lia. }
  exists st3, (evs1 ++ evs2 ++ evs3). split_and!.
  - eapply plays_app; [exact Hm1|]. by econstructor.
  - by rewrite Ht3, Ht2, Ht1, <- !app_assoc.
  - exact Hempty.
  - apply Hok3.
  - assert (held config L st3 = ∅) as He.
    { unfold held. rewrite bind_none; [done|]. by rewrite Hq3, Hq2, Hq1. }
    rewrite !results_sent_app, !answered_tickets_app, Hb1. rewrite He in Hb3. multiset_solver.
Qed.

(** Two workers. *)
Definition second_config : Config :=
  MkConfig (common default_config) (selector default_config)
    (MkCompilerConfig "second.tasks.queue" "mqss::Compiler" "/var/log/qrmci/compiler.log" 500)
    (submitter default_config).

Lemma second_config_valid : config_valid second_config.
Proof. by split; cbn; try lia. Qed.

Definition serving_site : @Site serving_platform :=
  let member config d :=
    @MkMember serving_platform config d (new_BackendRegistry 1000, new_PublicationThrottle 0) in
  @MkSite serving_platform (new_BackendRegistry 1000)
    [member default_config "alpha"; member second_config "beta"] serving_world.

Lemma serving_site_ok : site_ok default_config 1 sim_load serving_site.
Proof.
  assert (forall t, @jobs_end serving_platform 1 t) as Hj.
  { intros t. left. exists (fun _ _ => 0). exact serving_jobs_finish. }
  split_and!.
  - apply Forall_cons_2; [|apply Forall_singleton]; split; try apply Hj;
      [exact default_config_valid|exact second_config_valid].
  - apply (bool_decide_unpack _). reflexivity.
  - apply (bool_decide_unpack _). reflexivity.
  - apply selector_inv_new.
  - split; [apply new_registry_wf|done].
  - reflexivity.
Qed.

Definition serving_pre : list Move :=
  [WorkerTurns 0; ClientSubmits (serving_task 5 ""); SelectorTurns; WorkerTurns 1].
Definition serving_post : list Move := mjoin (replicate 5 [WorkerTurns 1; WorkerTurns 0; SelectorTurns]).

Lemma deployment_catches_up_witness :
  exists st' evs,
    @plays example_enums example_formats serving_platform default_config 30 3 1 serving_site
      (serving_pre ++ SelectorTurns :: serving_post) st' /\
    trace (site_world st') = trace serving_world ++ evs /\
    (forall q, q ∈ ["qrmci.tasks.queue"; "compiler.tasks.queue"; "second.tasks.queue"] ->
       content sim_load q (env (site_world st')) = []) /\
    pending sim_load (env (site_world st')) = ∅ /\
    answered_tickets (results_sent evs) =
      ticket_set [(1, "results"); (2, "results"); (3, "results"); (4, "results")]%Z ⊎
      {[+ (5%Z, "results") +]}.
Proof.
  apply (@deployment_catches_up example_enums example_formats serving_platform sim_load
    default_config 30 3 1 serving_site serving_pre serving_post).
  - exact serving_serves.
  - exact serving_statuses.
  - lia.
  - exact serving_site_ok.
  - repeat constructor.
  - vm_compute. lia.
  - reflexivity.
  - intros i Hi. destruct i as [|[|i]]; vm_compute; [lia..|]. cbn in Hi. lia.
Defined.
