(* ===== verification/Warrants.v ===== *)
(** * Calls justified by what came before

    A trace is read as an account: [J past ev] says that the call [ev] was
    warranted after the calls [past]. The rules here show that every call of a
    computation is warranted, by following its structure and carrying along what
    is known of the past. *)

From S2P Require Import Prelude Error Externals World CommunicationHandler DaemonMessaging Traces.
From S2P Require Import RunnersExecution.

(** ** What is known of the past lasts *)

Section Lasting.
Context `{Platform}.

Definition lasting (P : list Event -> Prop) : Prop := forall past evs, P past -> P (past ++ evs).

Lemma lasting_const (F : Prop) : lasting (fun _ => F).
Proof. by intros past evs. Qed.

Lemma lasting_elem ev : lasting (fun past => ev ∈ past).
Proof. intros past evs Hev. apply elem_of_app. by left. Qed.

Lemma lasting_and P Q : lasting P -> lasting Q -> lasting (fun past => P past /\ Q past).
Proof. intros HP HQ past evs [? ?]. split; [by apply HP|by apply HQ]. Qed.

Lemma lasting_or P Q : lasting P -> lasting Q -> lasting (fun past => P past \/ Q past).
Proof. intros HP HQ past evs [?|?]; [left; by apply HP|right; by apply HQ]. Qed.

Lemma lasting_exists {A} (P : A -> list Event -> Prop) :
  (forall a, lasting (P a)) -> lasting (fun past => exists a, P a past).
Proof. intros HP past evs [a Ha]. exists a. by apply HP. Qed.

Lemma lasting_forall {A} (P : A -> list Event -> Prop) :
  (forall a, lasting (P a)) -> lasting (fun past => forall a, P a past).
Proof. intros HP past evs Ha a. by apply HP. Qed.

Lemma lasting_Forall {A} (P : A -> list Event -> Prop) (l : list A) :
  (forall a, lasting (P a)) -> lasting (fun past => Forall (fun a => P a past) l).
Proof. intros HP past evs Hl. eapply Forall_impl; [exact Hl|]. intros a. apply HP. Qed.
End Lasting.

Create HintDb lasting.

(** Show that an assertion lasts by following its connectives. *)
Ltac lasts :=
  cbv beta;
  lazymatch goal with
  | |- lasting (fun past => _ ∈ past) => apply lasting_elem
  | |- lasting (elem_of _) => apply lasting_elem
  | |- lasting (fun past => _ /\ _) => apply lasting_and; lasts
  | |- lasting (fun past => _ \/ _) => apply lasting_or; lasts
  | |- lasting (fun past => exists _, _) => apply lasting_exists; intros ?; lasts
  | |- lasting (fun past => Forall _ _) => apply lasting_Forall; intros ?; lasts
  | |- lasting (fun past => forall _, _) => apply lasting_forall; intros ?; lasts
  | |- lasting (fun past => ?F) => apply lasting_const
  | |- _ => auto 2 with lasting
  end.

(** ** Warranted computations *)

Section Warrants.
Context `{Platform} (J : list Event -> Event -> Prop).

Fixpoint justified (past evs : list Event) : Prop :=
  match evs with
  | [] => True
  | ev :: evs => J past ev /\ justified (past ++ [ev]) evs
  end.

Lemma justified_app past evs evs' :
  justified past (evs ++ evs') <-> justified past evs /\ justified (past ++ evs) evs'.
Proof.
  revert past. induction evs as [|ev evs IH]; intros past; cbn; [by rewrite app_nil_r; split; [|intros []]|].
  rewrite IH, <- app_assoc. cbn. tauto.
Qed.

(** The calls of a justified trace, each with its own past. *)
Lemma justified_split past evs pre ev post :
  justified past evs -> evs = pre ++ ev :: post -> J (past ++ pre) ev.
Proof. intros Hj ->. by apply justified_app in Hj as [_ [? _]]. Qed.

(** From a past with [P] every call of [m] is warranted, and when [m] returns
    [a] the past has [Q a]. *)
Definition warrants {A} (P : list Event -> Prop) (m : M A) (Q : A -> list Event -> Prop) : Prop :=
  forall past, P past -> wp m (fun evs o => justified past evs /\ forall a, o = Some a -> Q a (past ++ evs)).

Lemma warrants_ret {A} (P : list Event -> Prop) (a : A) (Q : A -> list Event -> Prop) :
  (forall past, P past -> Q a past) -> warrants P (mret a) Q.
Proof.
  intros HQ past HP. apply wp_ret. split; [done|]. intros ? [= <-]. rewrite app_nil_r. by apply HQ.
Qed.

Lemma warrants_out_of_fuel {A} P (Q : A -> list Event -> Prop) : warrants P out_of_fuel Q.
Proof. intros past HP. by apply wp_out_of_fuel. Qed.

Lemma warrants_bind {A B} P (m : M A) (k : A -> M B) R Q :
  warrants P m R -> (forall a, warrants (R a) (k a) Q) -> warrants P (m ≫= k) Q.
Proof.
  intros Hm Hk past HP. apply wp_bind. eapply wp_mono; [by apply Hm|].
  intros evs [a|] [Hj HR]; [|done]. eapply wp_mono; [by apply Hk, HR|].
  intros evs' o [Hj' HQ]. split; [by apply justified_app|]. intros b Hb. rewrite app_assoc. by apply HQ.
Qed.

(** In sequence, when the first step returns nothing of interest. *)
Lemma warrants_seq {A B} P (m : M A) (k : A -> M B) R Q :
  warrants P m (fun _ => R) -> (forall a, warrants R (k a) Q) -> warrants P (m ≫= k) Q.
Proof. intros Hm Hk. by eapply warrants_bind. Qed.

Lemma warrants_call {A} P (f : Env -> Env * A) ev (Q : A -> list Event -> Prop) :
  (forall past a, P past -> J past (ev a) /\ Q a (past ++ [ev a])) -> warrants P (call f ev) Q.
Proof.
  intros HJ past HP. apply wp_call. intros a. destruct (HJ past a HP). split; [done|]. by intros ? [= <-].
Qed.

Lemma warrants_mono {A} P P' (m : M A) (Q Q' : A -> list Event -> Prop) :
  warrants P m Q -> (forall past, P' past -> P past) -> (forall a past, Q a past -> Q' a past) ->
  warrants P' m Q'.
Proof.
  intros Hm HP HQ past HP'. eapply wp_mono; [by apply Hm, HP|]. intros evs o [Hj Ho]. split; [done|].
  intros a Ha. by apply HQ, Ho.
Qed.

(** A computation each of whose calls is warranted by what is known at its
    start. *)
Lemma warrants_emits {A} P (m : M A) past0 :
  lasting P -> P past0 -> emits (fun ev => forall past, P past -> J past ev) m ->
  wp m (fun evs o => justified past0 evs /\ P (past0 ++ evs)).
Proof.
  intros HP Hp Hm. eapply wp_mono; [exact Hm|]. intros evs o He. split; [|by apply HP].
  revert past0 Hp. induction He as [|ev evs Hev _ IH]; intros past Hp; [done|].
  split; [by apply Hev|]. by apply IH, HP.
Qed.

(** A computation whose calls need no warrant. *)
Lemma warrants_free {A} P (m : M A) :
  lasting P -> emits (fun ev => forall past, J past ev) m -> warrants P m (fun _ => P).
Proof.
  intros HP Hm past Hp. eapply wp_mono.
  - apply (warrants_emits P m past HP Hp). eapply emits_mono; [|exact Hm]. auto.
  - intros evs o [Hj Hq]. auto.
Qed.

(** What is known stays known. *)
Lemma warrants_frame {A} F P (m : M A) Q :
  lasting F -> warrants P m Q ->
  warrants (fun past => F past /\ P past) m (fun a past => F past /\ Q a past).
Proof.
  intros HF Hm past [Hf HP]. eapply wp_mono; [by apply Hm|]. intros evs o [Hj Ho]. split; [done|].
  intros a Ha. split; [by apply HF|by apply Ho].
Qed.

(** The case analysis may depend on what is known. *)
Lemma warrants_from {A} P (m : M A) Q :
  (forall past, P past -> exists P', P' past /\ warrants P' m Q) -> warrants P m Q.
Proof. intros Hm past HP. destruct (Hm past HP) as (P' & HP' & Hw). by apply Hw. Qed.
End Warrants.
