(* ===== verification/Provenance.v ===== *)
(** * Where results come from

    The worker and the standalone daemon invent nothing. Every result they report
    as completed holds the counts read from the jobs that were submitted for the
    circuits of a ready task, on the process's own device; every task handed to
    the scheduler is a task received, compiled for that device as it was read;
    and nothing else is compiled, submitted or published. *)

From S2P Require Import Prelude Error Externals ConstantsMapping CircuitFormatPolicy World.
From S2P Require Import BackendWrapper BackendRegistry PublicationThrottle.
From S2P Require Import RunnersSelection RunnersCompilation RunnersExecution ExecutionProperties.
From S2P Require Import Config ConfigProperties CommunicationHandler DaemonMessaging.
From S2P Require Import Logger Daemon Traces Selector Standalone Worker WorkLoop Broker Warrants.

(** ** Warrants *)

Section Provenance.
Context `{ProtocolEnums} `{CompilerFormats} `{Platform} (d : Device).
Implicit Types (past : list Event) (t : QuantumTask).

(** What identifies a task to its submitter. *)
Definition ticket_of t : Z * string := (task_id t, result_destination t).

(** The task was received. *)
Definition taken_in t past : Prop :=
  exists queue timeout delivery, EvReceive queue timeout (Received (MsgTask t) delivery) ∈ past.

(** The task was handed out by the scheduler. *)
Definition was_ready t past : Prop := EvNextReady (Some t) ∈ past.

(** The snapshot is made of answers of the device. *)
Definition reading (b : BackendWrapper) past : Prop :=
  exists queue n s i coupling formats,
    b = BackendWrapper_of_device (deviceId d) queue n s i coupling formats /\
    EvQubitsNum d (Value n) ∈ past /\ EvStatus d (Value s) ∈ past /\
    EvOperationNames d (Value i) ∈ past /\
    (EvCouplingMap d (Value coupling) ∈ past \/
     exists e, code e = NotSupported /\ coupling = [] /\ EvCouplingMap d (Unexpected e) ∈ past) /\
    EvSupportedPayloadFormats d (Value formats) ∈ past.

(** [t'] is the task [t], prepared for the device: assigned to it and, unless the
    task must not be modified, with each circuit replaced by what the compiler
    answered for it, in the format chosen for the device. *)
Definition prepared t t' past : Prop :=
  exists b, reading b past /\
    let t0 := set_scheduled_qpu (deviceId d) t in
    if no_modify t then t' = t0
    else exists target level texts,
      compilerTarget b = Value target /\
      getCompilerOptimizationLevel (optimisation_level t) = Value level /\
      length texts = length (circuit_files t) /\
      t' = compiled_task texts (taskCircuitType target) t0 /\
      forall i src text, circuit_files t !! i = Some src -> texts !! i = Some text ->
        EvCompile src (deviceId d) (getInstructions b) (getQubitConnectivity b)
          (MkCompilerOptions level (compilerFormat target)) (Compiled text) ∈ past.

(** The jobs were submitted to the device for the circuits of the task, in
    order. *)
Definition submitted_for t (js : list Job) past : Prop :=
  was_ready t past /\
  exists format pl, validateSubmission t = Value format /\ length js = length (circuit_files t) /\
    forall i j, js !! i = Some j -> EvSubmit d (makeJobRequest t i format) pl (Value j) ∈ past.

(** The result of an executed task: for each circuit, in order, the counts read
    from the job that was submitted for it and was found done. *)
Definition executed t (r : QuantumResult) past : Prop :=
  exists js cs, submitted_for t js past /\ length cs = length js /\ Forall counts_fit cs /\
    r = MkQuantumResult (task_id t) (result_destination t) (scheduled_qpu t) true "COMPLETED"
          (protoCounts <$> cs) /\
    forall i j c, js !! i = Some j -> cs !! i = Some c ->
      EvWait j CollectionSlice (Value Done) ∈ past /\ EvCounts j (Value c) ∈ past.

(** The cancellation of a task that was received or ready. *)
Definition cancellation (sent : string * QuantumResult) past : Prop :=
  exists t, (taken_in t past \/ was_ready t past) /\ reply t sent /\
    qr_execution_status sent.2 = false /\ qr_results sent.2 = [].

(** What warrants each call. *)
Definition warranted past (ev : Event) : Prop :=
  match ev with
  | EvSend q (MsgResult r) _ =>
      cancellation (q, r) past \/ exists t, q = result_destination t /\ executed t r past
  | EvSend _ (MsgTask _) _ => False
  | EvSend _ (MsgBackend st) _ => exists b, reading b past /\ st = toBackend b
  | EvSchedule t' => exists t, taken_in t past /\ prepared t t' past
  | EvSubmit d' req _ _ =>
      d' = d /\ exists t i format, was_ready t past /\ i < length (circuit_files t) /\
        validateSubmission t = Value format /\ req = makeJobRequest t i format
  | EvCompile src target _ _ _ _ =>
      target = deviceId d /\ exists t, taken_in t past /\ src ∈ circuit_files t
  | _ => True
  end.

Abbreviation warrants := (warrants warranted).
Abbreviation justified := (justified warranted).

(** ** What lasts *)

Lemma taken_in_lasting t : lasting (taken_in t).
Proof. unfold taken_in. lasts. Qed.

Lemma was_ready_lasting t : lasting (was_ready t).
Proof. unfold was_ready. lasts. Qed.

Lemma reading_lasting b : lasting (reading b).
Proof. unfold reading. lasts. Qed.

Lemma prepared_lasting t t' : lasting (prepared t t').
Proof.
  intros past evs (b & Hb & Hp). exists b. split; [by apply reading_lasting|]. cbv zeta in *.
  destruct (no_modify t); [done|]. destruct Hp as (target & level & texts & ? & ? & ? & ? & Hc).
  exists target, level, texts. split_and!; [done..|]. intros i src text Hs Ht.
  apply elem_of_app. left. by eapply Hc.
Qed.

Lemma submitted_for_lasting t js : lasting (submitted_for t js).
Proof. pose proof (was_ready_lasting t). unfold submitted_for. lasts. Qed.

(** The registry holds readings of the device only. *)
Definition known (r : BackendRegistry) past : Prop :=
  registry_all (fun n b => n = deviceId d /\ reading b past) r.

Lemma known_lasting r : lasting (known r).
Proof.
  intros past evs. apply registry_all_mono. intros n b [Hn Hb]. split; [done|]. by apply reading_lasting.
Qed.

(** ** Calls that need no warrant *)

Definition free (ev : Event) : Prop :=
  match ev with EvSend _ _ _ | EvSchedule _ | EvSubmit _ _ _ _ | EvCompile _ _ _ _ _ _ => False | _ => True end.

Lemma free_warrants {A} P (m : M A) : lasting P -> emits free m -> warrants P m (fun _ => P).
Proof.
  intros HP Hm. apply warrants_free; [done|]. eapply emits_mono; [|exact Hm]. intros ev Hev past.
  by destruct ev.
Qed.

Lemma fromSubmitter_free q : emits free (fromSubmitter d q).
Proof. unfold fromSubmitter. cbv zeta. silent. Qed.

Lemma fromSubmitter_reads q past :
  wp (fromSubmitter d q) (fun evs o => forall b, o = Some (Value b) -> reading b (past ++ evs)).
Proof.
  eapply wp_mono; [apply fromSubmitter_wp|]. intros evs o Ho b ->.
  destruct Ho as (n & s & i & c & fs & coupling & -> & Hc & ->).
  exists q, n, s, i, coupling, fs. split; [done|].
  destruct Hc as [->|(e & -> & He & ->)]; (split_and!; [set_solver..| |set_solver]).
  - left. set_solver.
  - right. exists e. split_and!; [done..|set_solver].
Qed.

(** ** The process's own device *)

Lemma known_insert b stamp r past :
  known r past -> reading b past -> known (insertOrRefresh b stamp r).2 past.
Proof.
  intros Hr Hb. apply registry_all_insert; [done|]. split; [|done].
  by destruct Hb as (? & ? & ? & ? & ? & ? & -> & _).
Qed.

Lemma own_reading_warrants q r :
  warrants (known r) (fromSubmitter d q) (fun res past => known r past /\
    forall b, res = Value b -> reading b past).
Proof.
  intros past Hr. eapply wp_mono; [apply wp_and; [apply (free_warrants (known r) _ (known_lasting r)
    (fromSubmitter_free q) past Hr)|apply (fromSubmitter_reads q past)]|].
  intros evs o [[Hj Hk] Hb]. split; [done|]. intros res ->. split; [by apply (Hk res)|].
  intros b ->. by apply Hb.
Qed.

Lemma known_reading_lasting r (res : result BackendWrapper) :
  lasting (fun past => known r past /\ forall b, res = Value b -> reading b past).
Proof.
  intros past evs [Hr Hb]. split; [by apply known_lasting|]. intros b E. by apply reading_lasting, Hb.
Qed.

Lemma now_warrants P : lasting P -> warrants P now (fun _ => P).
Proof. intros HP. apply free_warrants; [done|]. unfold now. silent. Qed.

Lemma registerOwnDevice_warrants q r :
  warrants (known r) (registerOwnDevice d q r) (fun res past => known res.2 past).
Proof.
  unfold registerOwnDevice. eapply warrants_bind; [apply own_reading_warrants|]. intros [b|e].
  - eapply warrants_bind.
    { apply now_warrants, known_reading_lasting. }
    intros t. apply warrants_ret. intros past [Hr Hb]. apply known_insert; auto.
  - apply warrants_ret. by intros past [? _].
Qed.

Lemma refreshOwnDeviceStatus_warrants q r th :
  warrants (known r) (refreshOwnDeviceStatus d q r th) (fun res past => known res.1.2 past /\
    forall st, res.1.1 = Some st -> exists b, reading b past /\ st = toBackend b).
Proof.
  unfold refreshOwnDeviceStatus. eapply warrants_bind; [apply now_warrants, known_lasting|].
  intros t. destruct (claim t th) as [[] th']; cbn [negb]; [|by apply warrants_ret].
  eapply warrants_bind; [apply own_reading_warrants|]. intros [b|e].
  - eapply warrants_bind.
    { apply now_warrants, known_reading_lasting. }
    intros t'. apply warrants_ret. intros past [Hr Hb]. split; [apply known_insert; auto|].
    intros st [= <-]. eauto.
  - apply warrants_ret. by intros past [? _].
Qed.

Lemma expireNow_warrants r : warrants (known r) (expireNow r) (fun r' => known r').
Proof.
  unfold expireNow. eapply warrants_bind; [apply now_warrants, known_lasting|]. intros t.
  apply warrants_ret. intros past. apply registry_all_expire.
Qed.

(** ** Sending *)

Lemma send_warrants `{WireMessage A} (m : A) q F G :
  lasting F -> (forall past st, G past -> warranted past (EvSend q (wire m) st)) ->
  warrants (fun past => F past /\ G past) (send m q) (fun _ => F).
Proof.
  intros HF Hw past [Hf Hg]. eapply wp_mono; [apply send_wp|]. intros evs o [_ [st ->]].
  split; [by split; [apply Hw|]|]. intros a _. by apply HF.
Qed.

Lemma sendFailure_warrants t t0 e F :
  lasting F -> ticket_of t0 = ticket_of t ->
  warrants (fun past => F past /\ (taken_in t past \/ was_ready t past)) (sendFailure t0 e) (fun _ => F).
Proof.
  intros HF Hid. apply send_warrants; [done|]. intros past st Ht. left. exists t.
  split; [done|]. unfold reply. cbn. by injection Hid as -> ->.
Qed.

(** ** Receiving *)

Lemma receive_warrants fuel q timeout f P :
  lasting P ->
  warrants P (CommunicationHandler.receive (A := QuantumTask) fuel q timeout f)
    (fun res past => P past /\ forall t, res = Value (Some t) -> taken_in t past).
Proof.
  intros HP. unfold CommunicationHandler.receive. cbv zeta.
  induction fuel as [|fuel IH]; cbn [CommunicationHandler.receiveLoop]; [apply warrants_out_of_fuel|].
  eapply warrants_bind; [apply free_warrants; [done|destruct f; silent]|]. intros [].
  { apply warrants_ret. by intros past Hp. }
  eapply warrants_bind with (R := fun received past => P past /\
    forall t dl, received = Received t dl -> taken_in t past).
  { apply warrants_call. intros past r Hp. split; [done|]. split; [by apply HP|].
    intros t dl ->. exists q. do 2 eexists. apply elem_of_app. right. apply list_elem_of_singleton. done. }
  intros [t dl|status reason].
  - eapply warrants_bind; [apply free_warrants; [|unfold delivery_ack; silent]|].
    + intros past evs [Hp Ht]. split; [by apply HP|]. intros t' dl' E.
      by eapply taken_in_lasting, Ht.
    + intros st. apply warrants_ret. intros past [Hp Ht]. split; [done|]. intros t' [= <-]. by eapply Ht.
  - destruct (negb _); [|destruct (negb _)]; try (apply warrants_ret; by intros past [Hp _]).
    eapply warrants_mono; [exact IH|by intros past [? _]|done].
Qed.

Section Handlers.
Context {S : Type} (I : S -> list Event -> Prop) (handle : QuantumTask -> S -> M S).
Hypothesis I_lasting : forall s, lasting (I s).
Hypothesis handle_warrants : forall t s,
  warrants (fun past => I s past /\ taken_in t past) (handle t s) (fun s' => I s').

Lemma receiveNext_warrants fuel q timeout f s :
  warrants (I s) (receiveNext fuel q timeout f handle s) (fun res => I res.2).
Proof.
  unfold receiveNext. eapply warrants_bind; [by apply receive_warrants|]. intros [[t|]|e];
    [|apply warrants_ret; by intros past [? _]..].
  eapply warrants_bind.
  - eapply warrants_mono; [apply (handle_warrants t s)| |done]. intros past [Hi Ht]. split; auto.
  - intros s'. by apply warrants_ret.
Qed.

Lemma drainQueue_warrants fuel q f s :
  warrants (I s) (drainQueue fuel q f handle s) (fun res => I res.2).
Proof.
  unfold drainQueue. generalize false. revert s.
  induction fuel as [|fuel IH]; intros s any; cbn [drainLoop]; [apply warrants_out_of_fuel|].
  eapply warrants_bind; [apply receiveNext_warrants|]. intros [[] s']; [apply IH|by apply warrants_ret].
Qed.
End Handlers.

(** ** Compiling and scheduling *)

(** The calls of the compiler: on circuits of the task, for the backend given. *)
Definition compiles (b : BackendWrapper) (files : list string) (ev : Event) : Prop :=
  match ev with EvCompile src target _ _ _ _ => target = getName b /\ src ∈ files | _ => False end.

Lemma compileCircuitFiles_compiles b opts files done staged :
  emits (compiles b (done ++ files)) (compileCircuitFiles b opts files staged).
Proof.
  revert done staged. induction files as [|f files IH]; intros done staged; cbn [compileCircuitFiles]; [silent|].
  cbv zeta. destruct (String.eqb f ""); [silent|].
  apply emits_bind; [apply emits_call; intros r; split; [reflexivity|set_solver]|]. intros [text| |what]; [|silent..].
  rewrite (cons_middle f done files), app_assoc. apply IH.
Qed.

Lemma compileQuantumTask_compiles t b : emits (compiles b (circuit_files t)) (compileQuantumTask t b).
Proof.
  pose proof (fun opts => compileCircuitFiles_compiles b opts (circuit_files t) [] []).
  unfold compileQuantumTask. silent.
Qed.

Lemma compile_events_lookup b opts files texts i src text :
  files !! i = Some src -> texts !! i = Some text ->
  EvCompile src (getName b) (getInstructions b) (getQubitConnectivity b) opts (Compiled text)
    ∈ compile_events b opts files texts.
Proof.
  intros Hs Ht. apply (list_elem_of_lookup_2 _ i). unfold compile_events. rewrite lookup_zip_with, Hs.
  cbn. by rewrite Ht.
Qed.

Lemma reading_name b past : reading b past -> getName b = deviceId d.
Proof. by intros (? & ? & ? & ? & ? & ? & -> & _). Qed.

Lemma taken_in_reading_lasting t b : lasting (fun past => taken_in t past /\ reading b past).
Proof. apply lasting_and; [apply taken_in_lasting|apply reading_lasting]. Qed.

Lemma compileQuantumTask_warrants t b :
  let t0 := set_scheduled_qpu (deviceId d) t in
  warrants (fun past => taken_in t past /\ reading b past) (compileQuantumTask t0 b)
    (fun res past => taken_in t past /\
       match res.1 with Value _ => prepared t res.2 past | Unexpected _ => res.2 = t0 end).
Proof.
  intros t0 past Hp. eapply wp_mono; [apply wp_and; [|apply compileQuantumTask_wp]|].
  - apply (warrants_emits warranted _ _ past (taken_in_reading_lasting t b) Hp).
    eapply emits_mono; [|apply compileQuantumTask_compiles].
    intros [] Hev past' [Ht Hb]; cbn in Hev; try done. destruct Hev as [-> Hsrc]. cbn.
    split; [by eapply reading_name|eauto].
  - intros evs o [[Hj [Ht Hb]] [_ Hr]]. split; [done|]. intros [[u|e] t'] ->; cbn in *; split; try done.
    2: by destruct Hr as [-> _].
    exists b. split; [done|]. change (no_modify t0) with (no_modify t) in Hr. cbv zeta.
    destruct (no_modify t); [by destruct Hr as [-> _]|].
    destruct Hr as (target & level & texts & E1 & E2 & Hlen & -> & ->).
    exists target, level, texts. split_and!; [done..|]. intros i src text Hs Htx.
    apply elem_of_app. right. rewrite <- (reading_name b _ Hb). by eapply compile_events_lookup.
Qed.

Lemma compileAndSchedule_warrants r n t :
  warrants (fun past => known r past /\ taken_in t past)
    (compileAndSchedule (set_scheduled_qpu n t) r)
    (fun res past => taken_in t past /\ ticket_of res.2 = ticket_of t).
Proof.
  unfold compileAndSchedule. cbn [scheduled_qpu set_scheduled_qpu].
  destruct (find r n) as [b|] eqn:Ef; [|apply warrants_ret; by intros past [_ Ht]].
  apply warrants_from. intros past [Hr Ht]. destruct (proj2 Hr n b Ef) as [-> Hb].
  exists (fun past => taken_in t past /\ reading b past). split; [done|].
  eapply warrants_bind; [apply compileQuantumTask_warrants|]. intros [[u|e] t']; cbn [fst snd].
  2:{ apply warrants_ret. by intros past' [? ->]. }
  eapply warrants_bind with (R := fun _ past => taken_in t past /\ ticket_of t' = ticket_of t).
  - apply warrants_call. intros past' [] [Ht' Hp']. split; [by exists t|]. split; [by apply taken_in_lasting|].
    destruct Hp' as (b' & _ & Hp'). cbv zeta in Hp'. destruct (no_modify t); [by subst|].
    by destruct Hp' as (? & ? & ? & _ & _ & _ & -> & _).
  - intros []. by apply warrants_ret.
Qed.

Lemma selectCompileAndSchedule_warrants r policy t :
  warrants (fun past => known r past /\ taken_in t past) (selectCompileAndSchedule t r policy)
    (fun res past => taken_in t past /\ ticket_of res.2 = ticket_of t).
Proof.
  unfold selectCompileAndSchedule. destruct (chooseBackend t r policy) as [n|e].
  - apply compileAndSchedule_warrants.
  - apply warrants_ret. by intros past [_ Ht].
Qed.

(** Both handlers of a task: prepare it, and cancel it when that fails. *)
Lemma prepare_warrants r t (m : M (result unit * QuantumTask)) :
  warrants (fun past => known r past /\ taken_in t past) m
    (fun res past => taken_in t past /\ ticket_of res.2 = ticket_of t) ->
  warrants (fun past => known r past /\ taken_in t past)
    (res ← m; match res.1 with Value _ => mret tt | Unexpected e => sendFailure res.2 e end)
    (fun _ => known r).
Proof.
  intros Hm. eapply warrants_bind.
  { eapply warrants_mono; [apply (warrants_frame _ (known r)); [apply known_lasting|exact Hm]| |done].
    by intros past []. }
  intros [[u|e] t']; cbn [fst snd].
  { apply warrants_ret. by intros past [? _]. }
  apply warrants_from. intros past (Hr & Ht & Hid).
  exists (fun past => known r past /\ (taken_in t past \/ was_ready t past)). split; [by auto|].
  apply sendFailure_warrants; [apply known_lasting|done].
Qed.

Lemma worker_prepareTask_warrants r t u :
  warrants (fun past => known r past /\ taken_in t past) (Worker.prepareTask r t u) (fun _ => known r).
Proof.
  apply prepare_warrants. destruct t as [? ? ? ? ? ? ? n ? ? ? ?].
  apply (compileAndSchedule_warrants r n (MkQuantumTask _ _ _ _ _ _ _ n _ _ _ _)).
Qed.

Lemma standalone_prepareTask_warrants config r t u :
  warrants (fun past => known r past /\ taken_in t past) (Standalone.prepareTask config r t u)
    (fun _ => known r).
Proof. apply prepare_warrants, selectCompileAndSchedule_warrants. Qed.

(** ** Submitting and collecting *)

Lemma submitCircuits_emits t f format pl indices js :
  validateSubmission t = Value format ->
  Forall (fun i => i < length (circuit_files t)) indices ->
  emits (fun ev => forall past, was_ready t past -> warranted past ev)
    (submitCircuits t d f format pl indices js).
Proof.
  intros Hv. revert js. induction indices as [|i indices IH]; intros js Hi; cbn [submitCircuits].
  { apply emits_ret. }
  apply Forall_cons in Hi as [Hi Hrest]. apply emits_bind; [by apply emits_load|]. intros [].
  - apply emits_bind; [|intros []; apply emits_ret]. clear. induction js as [|j js IH]; cbn [cancelAll]; [apply emits_ret|].
    apply emits_bind; [by apply emits_call|]. by intros _.
  - apply emits_bind.
    + apply emits_call. intros a past Ht. cbn. split; [done|]. exists t, i, format. auto.
    + intros [j|e]; [by apply IH|apply emits_ret].
Qed.

Lemma submitQuantumTask_emits t f :
  emits (fun ev => forall past, was_ready t past -> warranted past ev) (submitQuantumTask t d f).
Proof.
  unfold submitQuantumTask. destruct (validateSubmission t) as [format|e] eqn:Hv; [|apply emits_ret].
  cbn [or_return]. apply emits_bind; [by apply emits_call|]. intros answer.
  apply emits_or_return. intros pl. apply submitCircuits_emits; [done|].
  apply Forall_forall. intros i [_ Hi]%elem_of_seq. lia.
Qed.

Lemma submitQuantumTask_warrants t f :
  warrants (was_ready t) (submitQuantumTask t d f)
    (fun res past => was_ready t past /\ forall js, res = Value js -> submitted_for t js past).
Proof.
  intros past Hp. eapply wp_mono.
  { apply wp_and; [|apply submitQuantumTask_wp].
    apply (warrants_emits warranted _ _ past (was_ready_lasting t) Hp), submitQuantumTask_emits. }
  intros evs o [[Hj Ht] Hr]. split; [done|]. intros res ->. split; [done|]. intros js ->.
  destruct Hr as [(? & _ & ? & _)|(format & Hv & [(? & _ & _ & ?)|
    (ans & pl & js' & tail & _ & -> & <- & Hl & ->)])]; [done..|].
  split; [done|]. exists format, pl. split_and!; [done..|]. intros i j Hi.
  pose proof (submit_events_lookup t d f format pl 0 js i j Hi). set_solver.
Qed.

Lemma collectQuantumResult_free fuel t js timeout f : emits free (collectQuantumResult fuel t js timeout f).
Proof.
  assert (forall job bounded started, emits free (waitForJob fuel job bounded timeout started f)) as Hw.
  { intros. induction fuel; cbn [waitForJob]; silent. }
  unfold collectQuantumResult. cbv zeta. generalize (0 <? timeout)%Z. intros bounded.
  apply emits_bind; [|intros ?; silent]. generalize (@nil (option Counts)).
  induction js as [|j js IH]; intros h; cbn [collectJobs]; silent.
Qed.

Lemma collectQuantumResult_warrants fuel t js timeout f :
  warrants (submitted_for t js) (collectQuantumResult fuel t js timeout f)
    (fun res past => submitted_for t js past /\ forall r, res = Value r -> executed t r past).
Proof.
  intros past Hs. eapply wp_mono.
  { apply wp_and; [|apply collectQuantumResult_wp].
    apply (free_warrants _ _ (submitted_for_lasting t js) (collectQuantumResult_free _ _ _ _ _) past Hs). }
  intros evs o [[Hj Hl] Hr]. split; [done|]. intros res ->. specialize (Hl res eq_refl).
  split; [done|]. intros r ->.
  destruct Hr as (dn & rest & cs & blocks & tail & -> & Hjs & -> & Hr).
  destruct Hr as [(-> & -> & Hb)|(? & ? & ? & ? & _)]; [|done]. rewrite !app_nil_r in *.
  symmetry in Hb. apply buildQuantumResult_value in Hb as (cs' & Heq & _ & Hfit & ->).
  apply (inj (fmap Some)) in Heq as <-.
  exists dn, cs. split_and!; [done|by destruct Hjs|done..|]. intros i j c Hi Hc.
  pose proof (jobs_collected_lookup _ _ _ _ _ _ i j c Hjs Hi Hc). set_solver.
Qed.


(** A result or a cancellation for a ready task. *)
Lemma sendResult_warrants F t r :
  lasting F -> warrants (fun past => F past /\ executed t r past) (sendResult t r) (fun _ => F).
Proof. intros HF. apply send_warrants; [done|]. intros past st He. right. by exists t. Qed.

Lemma cancelReady_warrants F t e :
  lasting F -> warrants (fun past => F past /\ was_ready t past) (sendFailure t e) (fun _ => F).
Proof.
  intros HF. eapply warrants_mono; [exact (sendFailure_warrants t t e F HF eq_refl)| |done].
  intros past [? ?]. auto.
Qed.

Lemma getNextReadyTask_warrants P :
  lasting P ->
  warrants P getNextReadyTask
    (fun next past => P past /\ forall t, next = Some t -> was_ready t past).
Proof.
  intros HP. apply warrants_call. intros past next Hp. split; [done|]. split; [by apply HP|].
  intros t ->. unfold was_ready. set_solver.
Qed.

(** ** The worker *)

Definition all_submitted (subs : list (QuantumTask * list Job)) past : Prop :=
  Forall (fun tj => submitted_for tj.1 tj.2 past) subs.

Lemma all_submitted_lasting subs : lasting (all_submitted subs).
Proof. apply lasting_Forall. intros [t js]. apply submitted_for_lasting. Qed.

Lemma submitReady_warrants fuel subs :
  warrants (all_submitted subs) (Worker.submitReady fuel d subs) (fun subs' => all_submitted subs').
Proof.
  revert subs. induction fuel as [|fuel IH]; intros subs; cbn [Worker.submitReady].
  { apply warrants_out_of_fuel. }
  eapply warrants_bind; [apply getNextReadyTask_warrants, all_submitted_lasting|].
  intros [t|]; [|apply warrants_ret; by intros past [? _]].
  eapply warrants_bind.
  { eapply warrants_mono; [apply (warrants_frame _ (all_submitted subs));
      [apply all_submitted_lasting|apply (submitQuantumTask_warrants t)]| |done].
    intros past [Hs Ht]. auto. }
  intros [js|e].
  - eapply warrants_mono; [apply IH| |done]. intros past (Hs & _ & Hjs).
    apply Forall_app. split; [done|]. apply Forall_singleton. by apply Hjs.
  - case_bool_decide; [apply warrants_ret; by intros past [? _]|].
    eapply warrants_seq; [|intros _; apply IH].
    eapply warrants_mono; [apply (cancelReady_warrants (all_submitted subs) t), all_submitted_lasting| |done].
    by intros past (? & ? & _).
Qed.

Lemma collectAll_warrants jobFuel config subs F :
  lasting F ->
  warrants (fun past => F past /\ all_submitted subs past) (Worker.collectAll jobFuel config subs)
    (fun _ past => F past).
Proof.
  intros HF. induction subs as [|[t js] subs IH]; cbn [Worker.collectAll].
  { apply warrants_ret. by intros past [? _]. }
  assert (lasting (fun past => F past /\ all_submitted subs past)) as HF'.
  { apply lasting_and; [done|apply all_submitted_lasting]. }
  eapply warrants_bind.
  { eapply warrants_mono; [eapply warrants_frame; [exact HF'|apply (collectQuantumResult_warrants _ t js)]| |].
    - intros past [Hf [Hs Hss]%Forall_cons]. auto.
    - intros res past Hp. exact Hp. }
  intros [r|e].
  - eapply warrants_seq; [|intros _; exact IH].
    eapply warrants_mono; [exact (sendResult_warrants _ t r HF')|intros past (Hf & _ & He)|intros ? past Hp; exact Hp].
    split; [exact Hf|by apply He].
  - case_bool_decide; [apply warrants_ret; by intros past [[? _] _]|].
    eapply warrants_seq; [|intros _; exact IH].
    eapply warrants_mono; [exact (cancelReady_warrants _ t e HF')| |intros ? past Hp; exact Hp].
    intros past (Hf & [Ht _] & _). by split.
Qed.

Lemma publish_warrants (status : option Backend) queue r :
  warrants (fun past => known r past /\
      forall st, status = Some st -> exists b, reading b past /\ st = toBackend b)
    (match status with Some st => send st queue | None => mret tt end) (fun _ => known r).
Proof.
  destruct status as [st|]; [|apply warrants_ret; by intros past [? _]].
  apply send_warrants; [apply known_lasting|]. intros past st' Hst. by apply Hst.
Qed.

Lemma intakeAndSubmit_warrants fuel config r th :
  warrants (known r) (Worker.intakeAndSubmit fuel config d r th)
    (fun state past => known state.1.1.1 past /\ all_submitted state.2 past).
Proof.
  unfold Worker.intakeAndSubmit. eapply warrants_bind; [apply refreshOwnDeviceStatus_warrants|].
  intros [[status r1] th1]; cbn [fst snd]. eapply warrants_seq; [apply publish_warrants|]. intros _.
  eapply warrants_bind; [apply expireNow_warrants|]. intros r2.
  eapply warrants_bind.
  { apply (receiveNext_warrants (fun _ => known r2)); [intros _; apply known_lasting|].
    intros t u. apply worker_prepareTask_warrants. }
  intros received. eapply warrants_bind.
  { eapply warrants_mono; [apply (warrants_frame _ (known r2));
      [apply known_lasting|apply (submitReady_warrants fuel [])]| |done].
    intros past Hr. split; [exact Hr|by apply Forall_nil]. }
  intros subs. by apply warrants_ret.
Qed.

Lemma worker_turn_warrants fuel jobFuel config s :
  warrants (known s.1) (worker_turn fuel jobFuel config d s) (fun s' => known s'.1).
Proof.
  unfold worker_turn, Worker.turn. eapply warrants_bind; [apply intakeAndSubmit_warrants|].
  intros [[[r th] received] subs]; cbn [fst snd].
  eapply warrants_seq with (R := known r); [|by intros _; apply warrants_ret].
  unfold Worker.collectAndPause. eapply warrants_seq; [apply collectAll_warrants, known_lasting|].
  intros _. apply free_warrants; [apply known_lasting|]. destruct (negb received); silent.
Qed.

(** ** The standalone daemon *)

Lemma executeQuantumTask_warrants fuel t timeout f :
  warrants (was_ready t) (executeQuantumTask fuel t d timeout f)
    (fun res past => was_ready t past /\ forall r, res = Value r -> executed t r past).
Proof.
  unfold executeQuantumTask. eapply warrants_bind; [apply submitQuantumTask_warrants|].
  intros [js|e]; cbn [or_return]; [|by apply warrants_ret; intros past [? _]].
  eapply warrants_mono; [apply (collectQuantumResult_warrants fuel t js)| |].
  - intros past [_ Hs]. by apply Hs.
  - by intros res past [[? _] ?].
Qed.

Lemma executeReady_warrants fuel jobFuel config any F :
  lasting F -> warrants F (Standalone.executeReady fuel jobFuel config d any) (fun _ => F).
Proof.
  intros HF. revert any. induction fuel as [|fuel IH]; intros any; cbn [Standalone.executeReady].
  { apply warrants_out_of_fuel. }
  eapply warrants_bind; [by apply getNextReadyTask_warrants|].
  intros [t|]; [|apply warrants_ret; by intros past [? _]].
  eapply warrants_bind.
  { eapply warrants_mono; [eapply warrants_frame; [exact HF|apply (executeQuantumTask_warrants _ t)]| |].
    - intros past [Hf Ht]. auto.
    - intros res past Hp. exact Hp. }
  intros [r|e].
  - eapply warrants_seq; [|intros _; apply IH].
    eapply warrants_mono; [exact (sendResult_warrants _ t r HF)|intros past (Hf & _ & He)|by intros ? past].
    split; [exact Hf|by apply He].
  - case_bool_decide; [apply warrants_ret; by intros past [? _]|].
    eapply warrants_seq; [|intros _; apply IH].
    eapply warrants_mono; [exact (cancelReady_warrants _ t e HF)|by intros past (? & ? & _)|by intros ? past].
Qed.

Lemma standalone_turn_warrants fuel jobFuel config s :
  warrants (known s.1) (standalone_turn fuel jobFuel config d s) (fun s' => known s'.1).
Proof.
  unfold standalone_turn, Standalone.turn. eapply warrants_bind; [apply refreshOwnDeviceStatus_warrants|].
  intros [[status r1] th1]; cbn [fst snd]. eapply warrants_bind.
  { eapply warrants_mono; [apply (expireNow_warrants r1)|by intros past [? _]|].
    intros r2 past Hp. exact Hp. }
  intros r2. eapply warrants_bind.
  { apply (drainQueue_warrants (fun _ => known r2)); [intros _; apply known_lasting|].
    intros t u. apply standalone_prepareTask_warrants. }
  intros drained. eapply warrants_seq; [apply executeReady_warrants, known_lasting|]. intros any.
  destruct (negb drained.1 && negb any); [|by apply warrants_ret].
  eapply warrants_seq; [apply free_warrants; [apply known_lasting|silent]|]. intros _. by apply warrants_ret.
Qed.

(** ** Loops *)

Lemma work_loop_warrants (loop : nat -> DeviceState -> M Z) turn turns s :
  work_loop loop turn -> (forall s, warrants (known s.1) (turn s) (fun s' => known s'.1)) ->
  warrants (known s.1) (loop turns s) (fun _ _ => True).
Proof.
  intros Hl Ht. revert s. induction turns as [|turns IH]; intros s.
  { rewrite (work_loop_0 _ _ Hl). apply warrants_out_of_fuel. }
  rewrite (work_loop_S _ _ Hl).
  eapply warrants_seq; [apply free_warrants; [apply known_lasting|silent]|]. intros [].
  - by apply warrants_ret.
  - eapply warrants_bind; [apply Ht|exact IH].
Qed.
End Provenance.

(** ** Following a result back *)

Section Tracing.
Context `{ProtocolEnums} `{CompilerFormats} `{Platform}.
Implicit Types (past : list Event) (t : QuantumTask).

(** Where one entry of a result comes from: the circuit [src], or what the
    compiler made of it for the device, was submitted to the device with the
    shots asked for, and the entry is made of the counts read from that job once
    it was done. *)
Definition entry_traced (d : Device) t (src : string) (entry : gmap string Z) past : Prop :=
  exists text format pl j c,
    (if no_modify t then text = src
     else exists ops coupling opts,
       EvCompile src (deviceId d) ops coupling opts (Compiled text) ∈ past) /\
    EvSubmit d (MkJobRequest format (String.list_byte_of_string text) (uwrap 64 (n_shots t))) pl
      (Value j) ∈ past /\
    EvWait j CollectionSlice (Value Done) ∈ past /\ EvCounts j (Value c) ∈ past /\
    counts_fit c /\ entry = protoCounts c.

(** The result of a task received: under its identity, for its destination, from
    the device, with one entry per circuit of the task, in order. *)
Definition result_traced (d : Device) t (r : QuantumResult) past : Prop :=
  taken_in t past /\ qr_task_id r = task_id t /\ qr_destination r = result_destination t /\
  qr_executed_qpu r = deviceId d /\ length (qr_results r) = length (circuit_files t) /\
  forall i src entry, circuit_files t !! i = Some src -> qr_results r !! i = Some entry ->
    entry_traced d t src entry past.

(** A scheduler that hands out only what was scheduled with it. *)
Fixpoint hands_out_scheduled (scheduled : list QuantumTask) (evs : list Event) : bool :=
  match evs with
  | [] => true
  | EvSchedule t :: evs => hands_out_scheduled (t :: scheduled) evs
  | EvNextReady (Some t) :: evs => bool_decide (t ∈ scheduled) && hands_out_scheduled scheduled evs
  | _ :: evs => hands_out_scheduled scheduled evs
  end.

Lemma hands_out_scheduled_ready scheduled evs t :
  hands_out_scheduled scheduled evs = true -> was_ready t evs ->
  t ∈ scheduled \/ EvSchedule t ∈ evs.
Proof.
  unfold was_ready. revert scheduled. induction evs as [|ev evs IH]; intros scheduled Hs Ht; [set_solver|].
  apply elem_of_cons in Ht as [<-|Ht].
  { cbn in Hs. apply andb_true_iff in Hs as [Hs%bool_decide_eq_true _]. by left. }
  destruct ev as [| | | | | | | | | | | | | | |t'|[t'|]| | |]; cbn in Hs;
    try (destruct (IH scheduled Hs Ht); set_solver).
  - destruct (IH _ Hs Ht); set_solver.
  - apply andb_true_iff in Hs as [_ Hs]. destruct (IH _ Hs Ht); set_solver.
Qed.

(** A prepared task keeps its identity, and each of its circuits comes from the
    one received at the same place. *)
Lemma prepared_fields d t t' past :
  prepared d t t' past ->
  task_id t' = task_id t /\ result_destination t' = result_destination t /\
  scheduled_qpu t' = deviceId d /\ n_shots t' = n_shots t /\
  length (circuit_files t') = length (circuit_files t).
Proof.
  intros (b & _ & Hp). cbv zeta in Hp. destruct (no_modify t); [by subst|].
  by destruct Hp as (target & level & texts & _ & _ & Hl & -> & _).
Qed.

Lemma prepared_circuit d t t' past i src :
  prepared d t t' past -> circuit_files t !! i = Some src ->
  exists text, circuit_files t' !! i = Some text /\
    if no_modify t then text = src
    else exists ops coupling opts, EvCompile src (deviceId d) ops coupling opts (Compiled text) ∈ past.
Proof.
  intros (b & _ & Hp) Hs. cbv zeta in Hp. destruct (no_modify t); [subst; by exists src|].
  destruct Hp as (target & level & texts & _ & _ & Hl & -> & Hc).
  destruct (lookup_lt_is_Some_2 texts i) as [text Ht]; [apply lookup_lt_Some in Hs; lia|].
  exists text. split; [done|]. eauto.
Qed.

Lemma executed_traced d t t' r past :
  taken_in t past -> prepared d t t' past -> executed d t' r past -> result_traced d t r past.
Proof.
  intros Ht Hp (js & cs & (_ & format & pl & _ & Hl & Hjs) & Hcs & Hfit & -> & Hc).
  destruct (prepared_fields d t t' past Hp) as (Hid & Hdst & Hq & Hn & Hlen).
  split_and!; [done..|cbn; rewrite length_fmap; lia|]. cbn [qr_results]. intros i src entry Hs.
  rewrite list_lookup_fmap. intros (c & Hi & ->)%fmap_Some.
  destruct (prepared_circuit d t t' past i src Hp Hs) as (text & Htx & Hcomp).
  destruct (lookup_lt_is_Some_2 js i) as [j Hj]; [apply lookup_lt_Some in Hi; lia|].
  destruct (Hc i j c Hj Hi) as [Hw Hcnt]. exists text, format, pl, j, c.
  split_and!; [done| |done..| |done].
  - specialize (Hjs i j Hj). unfold makeJobRequest in Hjs.
    by rewrite (nth_lookup_Some _ _ _ _ Htx), Hn in Hjs.
  - rewrite Forall_forall in Hfit. eapply Hfit, list_elem_of_lookup_2, Hi.
Qed.
End Tracing.

(** ** Whole processes *)

(** The trace of a process that owns a device: it opens one device first and, if
    that succeeds, every call after it is warranted. *)
Definition genuine `{ProtocolEnums} `{CompilerFormats} `{Platform} (evs : list Event) : Prop :=
  match evs with
  | [] => True
  | EvOpenDevice driver name s o opened :: rest =>
      match opened with
      | Value d => justified (warranted d) [EvOpenDevice driver name s o opened] rest
      | Unexpected _ => rest = []
      end
  | _ => False
  end.

Section Processes.
Context `{ProtocolEnums} `{CompilerFormats} `{Platform}.

Lemma with_own_device_genuine config queue (loop : Device -> DeviceState -> M Z) :
  (forall d s, warrants (warranted d) (known d s.1) (loop d s) (fun _ _ => True)) ->
  wp (with_own_device config queue loop) (fun evs _ => genuine evs).
Proof.
  intros Hl. unfold with_own_device. wp_step. unfold openConfiguredDevice. wp_step. unfold openDevice.
  wp_step. wp_step. destruct a as [d|e]; cbn [transform_error app]; [|by wp_step].
  assert (warrants (warranted d) (known d (new_BackendRegistry (seconds_to_ns (submitter_entryTimeToLive config))))
    (registered ← registerOwnDevice d queue
       (new_BackendRegistry (seconds_to_ns (submitter_entryTimeToLive config)));
     match registered.1 with
     | Unexpected _ => mret EXIT_FAILURE
     | Value _ =>
         loop d (registered.2, new_PublicationThrottle
           (milliseconds_to_ns (backendStatusPublishInterval config)))
     end) (fun _ _ => True)) as Hw.
  { eapply warrants_bind; [apply registerOwnDevice_warrants|]. intros [[u|e] r]; cbn [fst snd].
    - apply (Hl d (r, _)).
    - by apply warrants_ret. }
  eapply wp_mono; [apply Hw, registry_all_new|]. by intros evs o [Hj _].
Qed.

Lemma worker_main_genuine `{ConfigSources} `{LogFiles} turns fuel jobFuel p :
  wp (Worker.main turns fuel jobFuel p) (fun evs _ => genuine evs).
Proof.
  rewrite worker_main_shape. destruct loadConfig as [config|e]; [|by apply wp_ret].
  apply with_own_device_genuine. intros d s.
  eapply work_loop_warrants; [apply worker_work_loop|apply worker_turn_warrants].
Qed.

Lemma standalone_main_genuine `{ConfigSources} `{LogFiles} turns fuel jobFuel p :
  wp (Standalone.main turns fuel jobFuel p) (fun evs _ => genuine evs).
Proof.
  rewrite standalone_main_shape. destruct loadConfig as [config|e]; [|by apply wp_ret].
  apply with_own_device_genuine. intros d s.
  eapply work_loop_warrants; [apply standalone_work_loop|apply standalone_turn_warrants].
Qed.

(** A completed result in a genuine trace is the result of a task received. *)
Lemma genuine_traced evs pre q r st post :
  genuine evs -> evs = pre ++ EvSend q (MsgResult r) st :: post ->
  hands_out_scheduled [] pre = true -> qr_execution_status r = true ->
  exists d t driver name s o,
    EvOpenDevice driver name s o (Value d) ∈ pre /\ q = result_destination t /\ result_traced d t r pre.
Proof.
  destruct pre as [|ev pre]; [by intros ? ->|]. intros Hg -> Hs Hr.
  destruct ev as [| | |driver name s o [d|e]| | | | | | | | | | | | | | | |]; cbn in Hg; try done.
  2: by destruct pre.
  pose proof (justified_split _ _ _ _ _ _ Hg eq_refl) as Hw. cbn in Hw.
  destruct Hw as [(t & _ & _ & Hf & _)|(t' & -> & He)]; [cbn in Hf; congruence|].
  assert (EvSchedule t' ∈ EvOpenDevice driver name s o (Value d) :: pre) as Hsch.
  { destruct He as (? & ? & [Hready _] & _).
    destruct (hands_out_scheduled_ready _ _ t' Hs Hready); [set_solver|done]. }
  apply elem_of_cons in Hsch as [?|Hsch]; [done|].
  apply list_elem_of_split in Hsch as (p1 & p2 & ->).
  assert (exists t, taken_in t (EvOpenDevice driver name s o (Value d) :: p1) /\
    prepared d t t' (EvOpenDevice driver name s o (Value d) :: p1)) as (t & Ht & Hp).
  { rewrite <- app_assoc in Hg. by apply (justified_split _ _ _ _ _ _ Hg eq_refl). }
  exists d, t, driver, name, s, o. split; [set_solver|].
  split; [by destruct (prepared_fields d t t' _ Hp) as (_ & -> & _)|].
  eapply executed_traced; [| |exact He].
  - exact (taken_in_lasting t _ _ Ht).
  - exact (prepared_lasting d t t' _ _ Hp).
Qed.
End Processes.

(** Every completed result in the trace is the result of a task received before,
    if the scheduler hands out only tasks scheduled with it. *)
Definition traces_back `{Platform} (evs : list Event) : Prop :=
  forall pre q r st post,
    evs = pre ++ EvSend q (MsgResult r) st :: post ->
    hands_out_scheduled [] pre = true -> qr_execution_status r = true ->
    exists d t driver name s o,
      EvOpenDevice driver name s o (Value d) ∈ pre /\ q = result_destination t /\
      result_traced d t r pre.

(** ** Properties *)

Section Properties.
Context `{ProtocolEnums} `{CompilerFormats} `{Platform} `{ConfigSources} `{LogFiles}.

(** C6: a process with a device acts on nothing but what it was given. Over a
    whole run of the worker or of the standalone daemon, whatever the device, the
    compiler, the scheduler and the broker answer, one device is opened first
    and, after that, every circuit compiled is one of a task received; every
    task scheduled is a task received, prepared for that device as it was read;
    every job is submitted to that device for a circuit of a task the scheduler
    handed out; every status published is a reading of that device; and every
    result sent is a cancellation of a task received or ready, or is made, circuit
    by circuit, of the counts of the jobs submitted for a ready task and found
    done. No task is ever forwarded. *)
Theorem device_daemons_are_genuine turns fuel jobFuel p :
  wp (Worker.main turns fuel jobFuel p) (fun evs _ => genuine evs) /\
  wp (Standalone.main turns fuel jobFuel p) (fun evs _ => genuine evs).
Proof. split; [apply worker_main_genuine|apply standalone_main_genuine]. Qed.

(** C5: a completed result is about the task its receiver submitted. With a
    scheduler that hands out only tasks scheduled with it, a result that the
    worker or the standalone daemon reports as completed goes to the destination
    of a task it received before, under that task's identity; it names the device
    of the process and has one entry per circuit of the task as received, in
    order, made of the counts of a job that ran that circuit, or what the
    compiler made of it for the device, with the number of shots asked for. *)
Theorem completed_results_trace_back turns fuel jobFuel p :
  wp (Worker.main turns fuel jobFuel p) (fun evs _ => traces_back evs) /\
  wp (Standalone.main turns fuel jobFuel p) (fun evs _ => traces_back evs).
Proof.
  split; eapply wp_mono;
    [apply worker_main_genuine| |apply standalone_main_genuine|];
    intros evs o Hg pre q r st post Hevs; by apply (genuine_traced evs pre q r st post).
Qed.
End Properties.

(** A run of the standalone daemon on the simulated platform. *)
Definition sim_standalone_trace : list (@Event sim_platform) :=
  trace (@Standalone.main example_enums example_formats sim_platform example_toml
    (example_sources [] None) example_log_files 5 5 5 new_Process
    (sim_world 12 [("qrmci.tasks.queue",
      MsgTask (MkQuantumTask 7 2 100 ["a"; "b"] "quake" "out" "" "" [] false 0 0))])).1.

Definition completes_two (queue : string) (ev : @Event sim_platform) : bool :=
  match ev with
  | EvSend q (MsgResult r) _ =>
      String.eqb q queue && (qr_execution_status r && (length (qr_results r) =? 2))
  | _ => false
  end.

(** It completes a task of two circuits, so both have an origin. *)
Lemma completed_results_trace_back_witness :
  exists pre r st post,
    sim_standalone_trace = pre ++ EvSend "out" (MsgResult r) st :: post /\
    qr_execution_status r = true /\ length (qr_results r) = 2 /\
    exists d t, "out" = result_destination t /\ result_traced d t r pre.
Proof.
  assert (traces_back sim_standalone_trace) as Ht.
  { destruct (proj2 (@completed_results_trace_back example_enums example_formats sim_platform example_toml
      (example_sources [] None) example_log_files 5 5 5 new_Process)
      (sim_world 12 [("qrmci.tasks.queue",
        MsgTask (MkQuantumTask 7 2 100 ["a"; "b"] "quake" "out" "" "" [] false 0 0))])) as (evs & E & H).
    unfold sim_standalone_trace. rewrite E. exact H. }
  assert ((completes_two "out" <$> sim_standalone_trace !! 38) = Some true) as E by (vm_compute; reflexivity).
  assert (hands_out_scheduled [] (take 38 sim_standalone_trace) = true) as Hs by (vm_compute; reflexivity).
  revert Ht E Hs. generalize sim_standalone_trace. intros evs Ht (ev & Hev & E)%fmap_Some Hs.
  destruct ev as [| | | | | | | | | | | | | | | | |q [|r|] st| |]; try discriminate E. cbn in E.
  symmetry in E. apply andb_true_iff in E as [->%String.eqb_eq [Hr Hl%Nat.eqb_eq]%andb_true_iff].
  apply take_drop_middle in Hev. symmetry in Hev.
  exists (take 38 evs), r, st, (drop 39 evs). split_and!; [done..|].
  destruct (Ht _ _ _ _ _ Hev) as (d & t & driver & name & s & o & _ & Hd & Ho); [done..|].
  by exists d, t.
Defined.
