(* ===== verification/Conformance.v ===== *)
(** * The repository's unit tests, replayed

    Each example here replays tests of src/tests/unit on the model: the fixture
    is the one of the test, the expected values are those it asserts, and the
    comment names the test file and suite. The model computes every one of them.
    Tests that need a live broker, driver or compiler run on the simulated
    platform of World.v, whose compiler rejects the source "bad". *)

From S2P Require Import Prelude Error Externals ConstantsMapping CircuitFormatPolicy World.
From S2P Require Import BackendWrapper BackendRegistry PublicationThrottle.
From S2P Require Import RunnersSelection RunnersCompilation RunnersExecution Daemon.

#[local] Existing Instances example_enums example_formats sim_platform.

(** ** Fixtures: BackendWrapperTestBuilder.h, RunnersTestHelpers.h *)

(** A known status other than idle and busy. *)
Definition BACKEND_STATUS_OFFLINE : Z := 3.

Definition makeStatus (name queue : string) (numQubits status : Z) (formats : list Z) : Backend :=
  MkBackend name numQubits 0 status 0 0 queue ["r"; "cz"; "measure"] [] formats.
Definition makeBackendWith (name : string) (numQubits status : Z) (formats : list Z) : BackendWrapper :=
  BackendWrapper_of_Backend (makeStatus name "" numQubits status formats).
Definition makeBackend (name : string) (numQubits : Z) : BackendWrapper :=
  makeBackendWith name numQubits BACKEND_STATUS_IDLE [CIRCUIT_FORMAT_QASM3].
Definition onQueue (name queue : string) (numQubits : Z) : BackendWrapper :=
  BackendWrapper_of_Backend (makeStatus name queue numQubits BACKEND_STATUS_IDLE []).

Definition makeTaskWith (circuits : list string) (numQubits : Z) (type : string) (noModify : bool)
    (preferred : string) (allowed : list string) : QuantumTask :=
  MkQuantumTask 42 numQubits 10 circuits type "results-queue" preferred "" allowed noModify 0 0.
Definition makeTask (circuits : list string) (type : string) : QuantumTask :=
  makeTaskWith circuits 2 type false "" [].
Definition directTask (numQubits : Z) (preferred : string) (allowed : list string) : QuantumTask :=
  makeTaskWith ["OPENQASM 3.0;"] numQubits "qasm3" true preferred allowed.

Definition error_kind {A} (r : result A) : option Kind :=
  match r with Value _ => None | Unexpected e => Some (kind e) end.
Definition error_detail {A} (r : result A) : string :=
  match r with Value _ => "" | Unexpected e => detail e end.

(** [find(needle) != npos]. *)
Definition mentions (needle haystack : string) : bool :=
  match String.index 0 needle haystack with Some _ => true | None => false end.

(** Statuses inserted one after another, at the given times in seconds. *)
Definition insertAll (ttl : Z) (l : list (BackendWrapper * Z)) : BackendRegistry :=
  foldl (fun r bt => (insertOrRefresh bt.1 (seconds_to_ns bt.2) r).2)
    (new_BackendRegistry (seconds_to_ns ttl)) l.
Definition registryOf (l : list BackendWrapper) : BackendRegistry :=
  insertAll 30 ((fun b => (b, 0%Z)) <$> l).

Ltac replay := vm_compute; repeat split.

(** ** TestBackendRegistry.cpp *)

(** BackendRegistryInsertTest: StartsEmpty, InsertMakesBackendFindable,
    ContainsMatchesFind, FindOnUnknownNameReturnsNull,
    FindOnEmptyNameReturnsNull, InsertingSameNameRefreshesInPlace,
    DistinctNamesCoexist, ForEachVisitsBackendsInNameOrder. *)
Example registry_insert_tests :
  let alpha := registryOf [makeBackend "alpha" 5] in
  let again := registryOf [makeBackend "alpha" 5; makeBackend "alpha" 9] in
  let three := registryOf [makeBackend "gamma" 5; makeBackend "alpha" 5; makeBackend "beta" 5] in
  registry_empty (registryOf []) = true /\ registry_size (registryOf []) = 0 /\
  (getNumQubits <$> find alpha "alpha") = Some 5%Z /\
  contains alpha "alpha" = true /\ contains alpha "beta" = false /\
  find alpha "nonexistent" = None /\ find alpha "" = None /\ registry_size alpha = 1 /\
  (getNumQubits <$> find again "alpha") = Some 9%Z /\ registry_size again = 1 /\
  registry_size (registryOf [makeBackend "alpha" 5; makeBackend "beta" 5]) = 2 /\
  forEachBackend (fun visited name _ => visited ++ [name]) three [] = ["alpha"; "beta"; "gamma"].
Proof. replay. Qed.

(** BackendRegistryInsertTest: SameQueueRefreshSucceeds,
    ConflictingQueueIsRejectedAndLeavesTheExistingEntry,
    EmptyQueueNeverConflicts. *)
Example registry_queue_tests :
  let q1 := registryOf [onQueue "alpha" "q1" 5] in
  let same := insertOrRefresh (onQueue "alpha" "q1" 9) 0 q1 in
  let conflict := insertOrRefresh (onQueue "alpha" "q2" 9) 0 q1 in
  let late := insertOrRefresh (onQueue "alpha" "q1" 9) 0 (registryOf [onQueue "alpha" "" 5]) in
  same.1 = true /\ (getNumQubits <$> find same.2 "alpha") = Some 9%Z /\
  conflict.1 = false /\ (getNumQubits <$> find conflict.2 "alpha") = Some 5%Z /\
  (getQueueName <$> find conflict.2 "alpha") = Some "q1" /\
  late.1 = true /\ (getNumQubits <$> find late.2 "alpha") = Some 9%Z.
Proof. replay. Qed.

(** BackendRegistryExpiryTest: FreshEntrySurvives, StaleEntryIsDropped,
    RefreshResetsTheClock, OnlyStaleEntriesAreDropped,
    ExpireOnEmptyRegistryIsANoOp. *)
Example registry_expiry_tests :
  let b name := makeBackend name 5 in
  let at_ s r := expire (seconds_to_ns s) r in
  let once := insertAll 30 [(b "alpha", 0%Z)] in
  let twice := insertAll 30 [(b "alpha", 0%Z); (b "alpha", 30%Z)] in
  let two := insertAll 30 [(b "stale", 0%Z); (b "fresh", 30%Z)] in
  (at_ 30%Z once).1 = 0 /\ contains (at_ 30%Z once).2 "alpha" = true /\
  (at_ 31%Z once).1 = 1 /\ registry_empty (at_ 31%Z once).2 = true /\
  (at_ 31%Z twice).1 = 0 /\ contains (at_ 31%Z twice).2 "alpha" = true /\
  (at_ 31%Z two).1 = 1 /\ contains (at_ 31%Z two).2 "stale" = false /\
  contains (at_ 31%Z two).2 "fresh" = true /\ (at_ 3600%Z (insertAll 30 [])).1 = 0.
Proof. replay. Qed.

(** ** TestPublicationThrottle.cpp *)

(** PublicationThrottleTest: the answers of a sequence of claims at the given
    times in milliseconds, with an interval of five seconds. *)
Definition claims (times : list Z) : list bool :=
  (foldl (fun st ms => let '(ok, th) := claim (milliseconds_to_ns ms) st.2 in (st.1 ++ [ok], th))
     ([], new_PublicationThrottle (seconds_to_ns 5)) times).1.

Example throttle_tests :
  claims [0]%Z = [true] /\ claims [0; 100; 4999]%Z = [true; false; false] /\
  claims [0; 5000]%Z = [true; true] /\
  claims [0; 5000; 6000; 10000]%Z = [true; true; false; true] /\
  (DefaultInterval <? DefaultTimeToLive)%Z = true.
Proof. replay. Qed.

(** ** TestRunnersBackendSelection.cpp *)

(** ChooseBackendTest, in the order of the file; the name chosen, or the kind
    of the error. *)
Definition chosen (task : QuantumTask) (r : BackendRegistry) (policy : BackendSelectionPolicy)
    : string :=
  match chooseBackend task r policy with Value n => n | Unexpected e => toString (kind e) end.

Example choose_backend_tests :
  let r := registryOf [makeBackend "alpha" 5; makeBackend "beta" 10] in
  let offline name := makeBackendWith name 5 BACKEND_STATUS_OFFLINE [CIRCUIT_FORMAT_QASM3] in
  let go task r := chosen task r LowestName in
  go (directTask 2 "" []) (registryOf []) = "NoBackendAvailable" /\
  go (directTask 7 "beta" []) r = "beta" /\ go (directTask 2 "beta" []) r = "beta" /\
  go (directTask 7 "alpha" []) r = "beta" /\ go (directTask 2 "does-not-exist" []) r = "alpha" /\
  go (directTask 64 "" []) r = "NoBackendAvailable" /\
  go (directTask 2 "offline" []) (registryOf [offline "offline"]) = "NoBackendAvailable" /\
  go (directTask 2 "alpha" []) (registryOf [offline "alpha"; makeBackend "beta" 5]) = "beta" /\
  go (directTask 2 "qasm2only" [])
    (registryOf [makeBackendWith "qasm2only" 5 BACKEND_STATUS_IDLE [CIRCUIT_FORMAT_QASM2]])
    = "NoBackendAvailable" /\
  go (directTask 2 "" []) (registryOf [makeBackend "gamma" 5]) = "gamma" /\
  go (directTask 2 "" ["beta"]) r = "beta" /\
  go (directTask 2 "" ["does-not-exist"]) r = "NoBackendAvailable" /\
  go (directTask 2 "alpha" ["beta"]) r = "beta".
Proof. replay. Qed.

(** ChooseBackendPolicyTest, in the order of the file. *)
Example choose_backend_policy_tests :
  let task := directTask 2 "" [] in
  let r := registryOf [makeBackend "mu" 12; makeBackend "chi" 5; makeBackend "psi" 8] in
  let reversed := registryOf [makeBackend "psi" 8; makeBackend "chi" 5; makeBackend "mu" 12] in
  let equals := registryOf [makeBackend "zeta" 5; makeBackend "eta" 5] in
  chosen task r LowestName = "chi" /\ chosen task equals LowestName = "eta" /\
  chosen task r SmallestSufficient = "chi" /\
  chosen (directTask 6 "" []) r SmallestSufficient = "psi" /\
  chosen task equals SmallestSufficient = "eta" /\
  chosen task reversed LowestName = chosen task r LowestName /\
  chosen task (registryOf [makeBackendWith "aaa" 5 BACKEND_STATUS_OFFLINE [CIRCUIT_FORMAT_QASM3];
                           makeBackendWith "bbb" 5 BACKEND_STATUS_BUSY [CIRCUIT_FORMAT_QASM3]])
    LowestName = "bbb" /\
  chosen task (expire (seconds_to_ns 10)
                 (insertAll 1 [(makeBackend "alpha" 5, 0%Z); (makeBackend "beta" 5, 10%Z)])).2
    LowestName = "beta".
Proof. replay. Qed.

(** ** TestCircuitFormatPolicy.cpp *)

(** MapTaskCircuitTypeToCircuitFormatTest. *)
Example circuit_type_tests :
  mapTaskCircuitTypeToCircuitFormat
    <$> ["qasm"; "qasm2"; "qasm3"; "qir"; "qirbase"; "qiradaptive"; "quake"; "catalyst";
         "unknowntype"; ""]
  = [CIRCUIT_FORMAT_QASM2; CIRCUIT_FORMAT_QASM2; CIRCUIT_FORMAT_QASM3;
     CIRCUIT_FORMAT_QIRBASESTRING; CIRCUIT_FORMAT_QIRBASESTRING; CIRCUIT_FORMAT_QIRADAPTIVESTRING;
     CIRCUIT_FORMAT_QIRBASESTRING; CIRCUIT_FORMAT_QIRBASESTRING; CIRCUIT_FORMAT_UNSPECIFIED;
     CIRCUIT_FORMAT_UNSPECIFIED].
Proof. replay. Qed.

(** ChooseCompilerTargetTest; the formats from 6 on stand for the module
    variants. *)
Example compiler_target_tests :
  let label fs := match chooseCompilerTarget fs with
                  | Value t => taskCircuitType t | Unexpected e => toString (kind e) end in
  label [CIRCUIT_FORMAT_QASM2; CIRCUIT_FORMAT_QIRBASESTRING] = "qasm2" /\
  label [CIRCUIT_FORMAT_QIRBASESTRING; CIRCUIT_FORMAT_QASM2] = "qasm2" /\
  label [CIRCUIT_FORMAT_QASM3; CIRCUIT_FORMAT_QIRBASESTRING; CIRCUIT_FORMAT_QIRADAPTIVESTRING]
    = "qirbase" /\
  label [CIRCUIT_FORMAT_QIRADAPTIVESTRING] = "qiradaptive" /\
  label [6; 7; 8]%Z = "UnsupportedFormat" /\
  label [CIRCUIT_FORMAT_QASM3] = "UnsupportedFormat" /\ label [] = "UnsupportedFormat".
Proof. replay. Qed.

(** CanPrepareTaskForBackendNoModifyTest, CanPrepareTaskForBackendCompilableTest. *)
Example admission_tests :
  let direct type fs := canPrepareTaskForBackend (makeTaskWith [] 2 type true "" []) fs in
  let compiled type fs := canPrepareTaskForBackend (makeTaskWith [] 2 type false "" []) fs in
  let every := [CIRCUIT_FORMAT_QASM2; CIRCUIT_FORMAT_QASM3; CIRCUIT_FORMAT_QIRBASESTRING;
                CIRCUIT_FORMAT_QIRADAPTIVESTRING] in
  direct "qasm3" [CIRCUIT_FORMAT_QASM3] = true /\ direct "qasm3" [CIRCUIT_FORMAT_QASM2] = false /\
  direct "no-such-type" [CIRCUIT_FORMAT_QASM3] = false /\ direct "qasm3" [] = false /\
  compiled "quake" [CIRCUIT_FORMAT_QASM2] = true /\ compiled "catalyst" [CIRCUIT_FORMAT_QASM2] = true /\
  compiled "quake" [CIRCUIT_FORMAT_QASM3] = false /\
  (fun type => compiled type every) <$> ["qasm"; "qasm2"; "qasm3"; "qir"; "qirbase"; "qiradaptive"]
    = replicate 6 false /\
  compiled "no-such-type" [CIRCUIT_FORMAT_QASM2] = false.
Proof. replay. Qed.

(** ValidateInputFormatIsSupportedCircuitFormatTest. *)
Example input_format_tests :
  let check type supported := validateInputFormatIsSupportedCircuitFormat type supported in
  check "quake" getSupportedInputFormats = Value tt /\
  check "catalyst" getSupportedInputFormats = Value tt /\
  error_kind (check "qasm3" getSupportedInputFormats) = Some UnsupportedFormat /\
  mentions "qasm3" (error_detail (check "qasm3" getSupportedInputFormats)) = true /\
  error_kind (check "quake" ["catalyst-quantum"]) = Some UnsupportedFormat /\
  error_kind (check "" getSupportedInputFormats) = Some UnsupportedFormat.
Proof. replay. Qed.

(** ** TestBackendWrapper.cpp *)

(** BackendWrapperFromProtoTest (out-of-range wire values) and
    BackendWrapperFromPublishedStatusTest. *)
Example published_status_tests :
  let future := makeBackendWith "future-backend" 5 BACKEND_STATUS_IDLE [9999%Z] in
  let status type st := MkBackend "alpha" 5 type st 0 0 "alpha-queue" [] [] [] in
  getSupportedCircuitFormats future = [CIRCUIT_FORMAT_UNSPECIFIED] /\
  canRun future (directTask 2 "" []) = false /\
  error_kind (fromPublishedStatus (makeStatus "" "queue" 5 0 [])) = Some MessagingFailed /\
  error_kind (fromPublishedStatus (makeStatus "alpha" "" 5 0 [])) = Some MessagingFailed /\
  match fromPublishedStatus (status 9999 9999)%Z with
  | Value w => getName w = "alpha" /\ getQueueName w = "alpha-queue" /\
      be_type (toBackend w) = BACKEND_TYPE_UNSPECIFIED /\
      getStatus w = BACKEND_STATUS_UNSPECIFIED /\ isOnline w = false
  | Unexpected _ => False
  end.
Proof. replay. Qed.

(** BackendWrapperCanRunTest, in the order of the file. *)
Example can_run_tests :
  let b fs := makeBackendWith "alpha" 5 BACKEND_STATUS_IDLE fs in
  let qasm3 := [CIRCUIT_FORMAT_QASM3] in
  let direct n type := makeTaskWith ["c"] n type true "" [] in
  canRun (b qasm3) (directTask 5 "" []) = true /\ canRun (b qasm3) (directTask 6 "" []) = false /\
  canRun (b qasm3) (directTask (-1) "" []) = false /\ canRun (b qasm3) (direct 2 "qasm2")%Z = false /\
  canRun (b qasm3) (makeTask ["something"] "not-a-format") = false /\
  canRun (b qasm3) (makeTask ["OPENQASM 3.0;"] "qasm3") = false /\
  canRun (b [CIRCUIT_FORMAT_QASM2]) (makeTask ["circuit"] "quake") = true /\
  canRun (b qasm3) (makeTask ["circuit"] "quake") = false /\
  canRun (b (6%Z :: qasm3)) (direct 2 "qir")%Z = false /\
  canRun (b [CIRCUIT_FORMAT_QIRBASESTRING]) (direct 2 "qir")%Z = true /\
  canRun (b qasm3) (directTask 5 "" ["alpha"; "beta"]) = true /\
  canRun (b qasm3) (directTask 5 "" ["beta"; "gamma"]) = false.
Proof. replay. Qed.

(** ** TestConstantsMapping.cpp *)

(** GetCompilerOptimizationLevelTest. *)
Example optimisation_level_tests :
  getCompilerOptimizationLevel <$> [0; 1; 2; 3]%Z = [Value O1; Value O1; Value O2; Value O3] /\
  (fun l => error_kind (getCompilerOptimizationLevel l)) <$> [-1; 4]%Z
    = [Some CompilationFailed; Some CompilationFailed] /\
  mentions "-1" (error_detail (getCompilerOptimizationLevel (-1))) = true /\
  mentions "4" (error_detail (getCompilerOptimizationLevel 4)) = true.
Proof. replay. Qed.

(** ** TestTaskSubmission.cpp *)

Example task_submission_tests :
  let task files shots type := MkQuantumTask 42 2 shots files type "" "" "" [] false 0 0 in
  error_kind (validateSubmission (task [] 10%Z "qasm2")) = Some SubmissionFailed /\
  error_kind (validateSubmission (task ["c"] 0%Z "qasm2")) = Some SubmissionFailed /\
  error_kind (validateSubmission (task ["c"] (-1)%Z "qasm2")) = Some SubmissionFailed /\
  error_kind (validateSubmission (task ["c"] 10%Z "unknown")) = Some SubmissionFailed /\
  let binary := String.string_of_list_byte [Byte.x61; Byte.x00; Byte.x62] in
  validateSubmission (task [binary] 17%Z "qasm2") = Value CIRCUIT_FORMAT_QASM2 /\
  makeJobRequest (task [binary] 17%Z "qasm2") 0 CIRCUIT_FORMAT_QASM2
    = MkJobRequest CIRCUIT_FORMAT_QASM2 [Byte.x61; Byte.x00; Byte.x62] 17.
Proof. replay. Qed.

(** ** TestRunnersTaskExecution.cpp *)

(** BuildQuantumResultTest, in the order of the file. *)
Example build_result_tests :
  let one := makeTask ["a"] "qasm3" in
  let two := makeTask ["a"; "b"] "qasm3" in
  let missing0 := buildQuantumResult one [None] in
  let missing1 := buildQuantumResult two [Some [("0", 10%Z)]; None] in
  let above := buildQuantumResult one [Some [("1010", INT32_MAX + 1)]]%Z in
  let entry i key r := match r with
                       | Value qr => qr_results qr !! i ≫= fun (m : gmap string Z) => m !! key
                       | Unexpected _ => None end in
  error_kind missing0 = Some DeviceError /\ mentions "circuit 0" (error_detail missing0) = true /\
  entry 0 "00" (buildQuantumResult one [Some [("00", 6); ("11", 4)]])%Z = Some 6%Z /\
  entry 0 "11" (buildQuantumResult one [Some [("00", 6); ("11", 4)]])%Z = Some 4%Z /\
  error_kind missing1 = Some DeviceError /\ mentions "circuit 1" (error_detail missing1) = true /\
  error_kind (buildQuantumResult two [Some [("0", 10%Z)]]) = Some DeviceError /\
  error_kind (buildQuantumResult one [Some [("0", 10)]; Some [("1", 5)]])%Z = Some DeviceError /\
  entry 1 "1" (buildQuantumResult two [Some [("0", 10)]; Some [("1", 5)]])%Z = Some 5%Z /\
  entry 0 "0" (buildQuantumResult one [Some [("0", INT32_MAX)]]) = Some INT32_MAX /\
  error_kind above = Some DeviceError /\ mentions "1010" (error_detail above) = true /\
  mentions "2147483648" (error_detail above) = true.
Proof. replay. Qed.

(** The kind of error a run ends with. *)
Definition run_kind {A} (run : World * option (result A)) : option Kind := run.2 ≫= error_kind.

(** SubmitAndCollectQuantumTaskTest, InterruptibleRunnersTest: refusals before
    the device, and flags that are set from the start. *)
Example execution_tests :
  let task := makeTask ["OPENQASM 2.0;"; "OPENQASM 2.0;"] "qasm2" in
  let set := sim_world 0 [] in
  let clear := sim_world 99 [] in
  (length <$> (submitQuantumTask_uninterruptible task "dev" clear).2 ≫= fun r =>
     match r with Value js => Some js | Unexpected _ => None end) = Some 2 /\
  run_kind (submitQuantumTask_uninterruptible (makeTask [] "qasm2") "dev" clear)
    = Some SubmissionFailed /\
  run_kind (collectQuantumResult_uninterruptible 9 task [] 0 clear) = Some DeviceError /\
  run_kind (submitQuantumTask task "dev" terminationRequested set) = Some ShutdownRequested /\
  run_kind (collectQuantumResult 9 task [0; 1] 0 terminationRequested set) = Some ShutdownRequested /\
  run_kind (executeQuantumTask 9 task "dev" 0 terminationRequested set) = Some ShutdownRequested /\
  match (executeQuantumTask 9 task "dev" 0 terminationRequested clear).2 with
  | Some (Value qr) => qr_execution_status qr = true /\ qr_task_id qr = 42%Z /\
      qr_destination qr = "results-queue" /\ qr_executed_qpu qr = scheduled_qpu task
  | _ => False
  end.
Proof. replay. Qed.

(** ** TestRunnersTaskCompilation.cpp *)

(** CompileQuantumTaskTest: what the call answers, and how many compiler calls
    it made. *)
Example compilation_tests :
  let b fs := makeBackendWith "alpha" 5 BACKEND_STATUS_IDLE fs in
  let qir := b [CIRCUIT_FORMAT_QIRBASESTRING; CIRCUIT_FORMAT_QASM3] in
  let go task b := compileQuantumTask task b (sim_world 9 []) in
  let type_ run := match run.2 with Some (Value _, t) => circuit_file_type t | _ => "" end in
  let kind_ run := match run.2 with Some (r, _) => error_kind r | None => None end in
  let detail_ run := match run.2 with Some (r, _) => error_detail r | None => "" end in
  let calls run := length (trace run.1) in
  let level4 := MkQuantumTask 42 2 10 ["bell"] "quake" "" "" "" [] false 4 0 in
  let five := makeTask ["bell"; "bell"; "bad"; "bell"; "bell"] "quake" in
  type_ (go (makeTask ["bell"] "quake") qir) = "qirbase" /\
  kind_ (go (makeTask ["OPENQASM 3.0;"] "qasm3") qir) = Some UnsupportedFormat /\
  kind_ (go (makeTask [""] "quake") qir) = Some CompilationFailed /\
  mentions "circuit file 0" (detail_ (go (makeTask [""] "quake") qir)) = true /\
  calls (go (makeTask [""] "quake") qir) = 0 /\
  kind_ (go (makeTask ["bad"] "quake") qir) = Some CompilationFailed /\
  mentions "circuit file 1" (detail_ (go (makeTask ["bell"; "bad"] "quake") qir)) = true /\
  mentions "circuit file 2" (detail_ (go five qir)) = true /\ calls (go five qir) = 3 /\
  type_ (go (makeTaskWith ["bad"] 2 "quake" true "" []) qir) = "quake" /\
  kind_ (go level4 qir) = Some CompilationFailed /\ mentions "4" (detail_ (go level4 qir)) = true /\
  calls (go level4 qir) = 0 /\
  kind_ (go (makeTask ["bell"] "quake") (b [CIRCUIT_FORMAT_QASM3])) = Some UnsupportedFormat.
Proof. replay. Qed.

(** ** TestDaemon.cpp *)

(** CompileAndScheduleTest, SelectCompileAndScheduleTest: the kind of error, the
    backend assigned and the number of tasks the scheduler holds. *)
Example compile_and_schedule_tests :
  let compilable name n := makeBackendWith name n BACKEND_STATUS_IDLE [CIRCUIT_FORMAT_QASM2] in
  let r := registryOf [compilable "alpha" 5%Z] in
  let sized := registryOf [compilable "small" 5%Z; compilable "large" 10%Z] in
  let task q files := set_scheduled_qpu q (makeTask files "quake") in
  let outcome (run : World * option (result unit * QuantumTask)) :=
    match run.2 with
    | Some (res, t) => Some (error_kind res, scheduled_qpu t, length (sim_ready (env run.1)))
    | None => None end in
  let compile q files := outcome (compileAndSchedule (task q files) r (sim_world 9 [])) in
  let select r policy := outcome (selectCompileAndSchedule (task "" ["bell"]) r policy (sim_world 9 [])) in
  compile "alpha" ["bell"] = Some (None, "alpha", 1) /\
  compile "no-such-backend" ["bell"] = Some (Some NoBackendAvailable, "no-such-backend", 0) /\
  compile "alpha" ["bad"] = Some (Some CompilationFailed, "alpha", 0) /\
  select r LowestName = Some (None, "alpha", 1) /\
  select sized SmallestSufficient = Some (None, "small", 1) /\
  select (registryOf []) LowestName = Some (Some NoBackendAvailable, "", 0).
Proof. replay. Qed.
